(** * eth-tx-crawler: the segmented crawl engine

    A shallow embedding of [app/etherscan.py] (the retrying transport
    client) and of the crawl engine of [app/main.py] (window drain,
    segmented crawl loop, job registry), with the properties of the
    specification stated and proved against it.

    Conventions of the embedding.
    - Python integers are [Z]; list lengths are taken with [len].
    - Python strings are [string]; they are assumed to be ASCII, so that
      [str.lower] is [lower] below.
    - An insertion-ordered Python [dict] whose order is observable (the
      de-duplication accumulators, iterated by [sorted(d.values())]) is an
      association list updated in place, see [dict_set].  The registries
      [JOBS] and [RESULTS_CACHE], only ever accessed by key, are [gmap]s.
    - A [while] loop is a function that recurses on a [fuel] argument and
      answers [OutOfFuel] when it is exhausted; the termination theorems
      give a fuel that suffices.
    - The network, the clock of other threads and [uuid4] are oracles:
      Section variables, indexed by how many calls were made before.
      Whether [format_transaction] raises on a record depends on the
      platform's [time_t] and [gmtime] and on the interpreter's limits,
      so it is a Section variable too, a function of the record. *)

From Stdlib Require Import ZArith List String Ascii Bool Lia Sorted Permutation.
From stdpp Require Import base gmap strings pretty.
Import ListNotations.
Local Open Scope string_scope.
Local Open Scope Z_scope.

(** ** Python helpers shared by both source files *)

(** [len(l)] *)
Definition len {A} (l : list A) : Z := Z.of_nat (List.length l).

(** [c.lower()] for one ASCII character. *)
Definition lower_ascii (c : ascii) : ascii :=
  let n := nat_of_ascii c in
  if (65 <=? n)%nat && (n <=? 90)%nat then ascii_of_nat (n + 32) else c.

(** [s.lower()] *)
Fixpoint lower (s : string) : string :=
  match s with
  | EmptyString => EmptyString
  | String c s' => String (lower_ascii c) (lower s')
  end.

(** [needle in hay] on strings. *)
Fixpoint str_in (needle hay : string) : bool :=
  String.prefix needle hay ||
  match hay with
  | EmptyString => false
  | String _ hay' => str_in needle hay'
  end.

(** [s[:n]] *)
Definition take_str (n : nat) (s : string) : string := String.substring 0 n s.

(** One transaction as the upstream returns it.  [hash] is
    [tx.get("hash")], the empty string standing for a missing or empty
    (falsy) hash; [blockNumber], [timeStamp] and [value] are the fields
    after [int(...)], which the upstream sends as decimal strings;
    [gasUsed] and [gasPrice] are the strings as sent, empty when the
    field is missing. *)
Record Tx := mkTx {
  hash : string;
  blockNumber : Z;
  timeStamp : Z;
  tx_from : string;
  tx_to : string;
  value : Z;
  gasUsed : string;
  gasPrice : string
}.

(** * app/etherscan.py *)
Module Etherscan.

(** A JSON value as far as [_get] and its callers look at it. *)
Inductive JValue :=
| JStr (s : string)
| JArr (items : list Tx)
| JNull.

(** The decoded body, a JSON object read with [json_data.get(...)]. *)
Record JsonData := mkJson {
  status : option JValue;
  message : option JValue;
  result : option JValue
}.

(** What one pass through [requests.get], [raise_for_status], [r.text]
    and [r.json()] produces.  The [str_e] arguments are [str(e)]. *)
Inductive Response :=
| RaisesTimeout (str_e : string)
| RaisesConnectionError (str_e : string)
| RaisesHTTPError (response : option (Z * string)) (str_e : string)
| RaisesOther (str_e : string)
| Ok2xx (text : string) (json : option JsonData).

Inductive Exn :=
| RuntimeError (msg : string)
| HTTPError (response : option (Z * string)) (str_e : string).

Inductive Result :=
| Returns (json_data : JsonData)
| Raises (e : Exn).

(** The observable trace of one call: requests sent and sleeps taken. *)
Inductive Event :=
| Request (attempt : nat)
| Sleep (seconds : Z).

Definition max_attempts : nat := 3.
Definition backoff_times : list Z := [1; 2; 4].

(** [status == "0"] *)
Definition is_zero (v : option JValue) : bool :=
  match v with
  | Some (JStr s) => String.eqb s "0"
  | _ => false
  end.

(** [json_data.get("message", "").lower()]; [inr] is the [AttributeError]
    raised when the field is not a string. *)
Definition message_lower (d : JsonData) : string + string :=
  match message d with
  | None => inl ""
  | Some (JStr s) => inl (lower s)
  | Some (JArr _) => inr "'list' object has no attribute 'lower'"
  | Some JNull => inr "'NoneType' object has no attribute 'lower'"
  end.

(** [isinstance(result, str) and ("rate limit" in result.lower() or
    "busy" in result.lower())], with [result = json_data.get("result", "")]. *)
Definition result_rate_limited (d : JsonData) : bool :=
  match result d with
  | None => str_in "rate limit" (lower "") || str_in "busy" (lower "")
  | Some (JStr s) => str_in "rate limit" (lower s) || str_in "busy" (lower s)
  | Some _ => false
  end.

Definition is_rate_limit (d : JsonData) (message : string) : bool :=
  is_zero (status d) &&
  (str_in "rate limit" message || str_in "max rate limit reached" message
   || str_in "busy" message || result_rate_limited d).

Definition is_notok (d : JsonData) (message : string) : bool :=
  is_zero (status d) && negb (is_rate_limit d message).

(** How one iteration of [for attempt in range(max_attempts)] ends. *)
Inductive Step :=
| Continue (backoff : Z) (last_exception : option string)
           (last_response_content : option string)
| Return (json_data : JsonData)
| Raise (e : Exn).

Definition attempts_msg (what : string) : string :=
  "Etherscan API " +:+ what +:+ " after " +:+ pretty max_attempts +:+ " attempts.".

(** The handler [except Exception as e]. *)
Definition except_Exception (attempt : nat) (str_e : string)
    (last_response_content : option string) : Step :=
  if (attempt <? max_attempts - 1)%nat
  then Continue (nth attempt backoff_times 0) (Some str_e) last_response_content
  else Raise (RuntimeError (attempts_msg "request failed" +:+ " Last error: " +:+ str_e)).

(** The body of the loop of [_get] for one attempt. *)
Definition attempt_body (r : Response) (attempt : nat)
    (last_exception last_response_content : option string) : Step :=
  let retry := (attempt <? max_attempts - 1)%nat in
  let backoff := nth attempt backoff_times 0 in
  match r with
  | Ok2xx text json =>
      let last_response_content := Some (take_str 200 text) in
      match json with
      | None =>
          if retry then Continue backoff last_exception last_response_content
          else
            (* raised inside the [try], so [except Exception] catches it *)
            except_Exception attempt
              (attempts_msg "returned invalid JSON" +:+ " Last response: "
                 +:+ take_str 200 text)
              last_response_content
      | Some json_data =>
          match message_lower json_data with
          | inr attribute_error =>
              except_Exception attempt attribute_error last_response_content
          | inl message =>
              if is_rate_limit json_data message && retry
              then Continue backoff last_exception last_response_content
              else if is_notok json_data message && retry
              then Continue backoff last_exception last_response_content
              else Return json_data
          end
      end
  | RaisesTimeout str_e =>
      if retry then Continue backoff (Some str_e) last_response_content
      else Raise (RuntimeError
                    (attempts_msg "request timed out" +:+ " Last error: " +:+ str_e))
  | RaisesConnectionError str_e =>
      if retry then Continue backoff (Some str_e) last_response_content
      else Raise (RuntimeError
                    (attempts_msg "connection failed" +:+ " Last error: " +:+ str_e))
  | RaisesHTTPError response str_e =>
      match response with
      | Some (status_code, text) =>
          if status_code =? 429 then
            if retry then Continue backoff last_exception last_response_content
            else Raise (RuntimeError
                          ("Etherscan API returned HTTP 429 after "
                             +:+ pretty max_attempts +:+ " attempts. Last response: "
                             +:+ take_str 200 text))
          else Raise (HTTPError response str_e)
      | None => Raise (HTTPError response str_e)
      end
  | RaisesOther str_e => except_Exception attempt str_e last_response_content
  end.

(** The statements after the loop ("Should not reach here"). *)
Definition after_loop (last_exception last_response_content : option string) : Exn :=
  let error_msg := attempts_msg "request failed" in
  let error_msg :=
    match last_exception with
    | Some e => error_msg +:+ " Last exception: " +:+ e
    | None => error_msg
    end in
  let error_msg :=
    match last_response_content with
    | Some c => if String.eqb c "" then error_msg
                else error_msg +:+ " Last response: " +:+ take_str 200 c
    | None => error_msg
    end in
  RuntimeError error_msg.

(** [for attempt in range(max_attempts)], over the attempts still to run.
    [net attempt] is the upstream's answer to that attempt. *)
Fixpoint get_loop (net : nat -> Response) (range : list nat)
    (last_exception last_response_content : option string) : list Event * Result :=
  match range with
  | [] => ([], Raises (after_loop last_exception last_response_content))
  | attempt :: range' =>
      match attempt_body (net attempt) attempt last_exception last_response_content with
      | Continue backoff last_exception' last_response_content' =>
          let '(events, res) :=
            get_loop net range' last_exception' last_response_content' in
          (Request attempt :: Sleep backoff :: events, res)
      | Return json_data => ([Request attempt], Returns json_data)
      | Raise e => ([Request attempt], Raises e)
      end
  end.

(** [EtherscanClient._get] *)
Definition _get (net : nat -> Response) : list Event * Result :=
  get_loop net (seq 0 max_attempts) None None.

(** [EtherscanClient.txlist_page]: [data.get("result", [])], whatever JSON
    value it is, when the status is ["1"], and the empty list otherwise. *)
Definition txlist_page (net : nat -> Response) : list Event * (JValue + Exn) :=
  match _get net with
  | (events, Returns data) =>
      (events,
       inl (if match status data with Some (JStr s) => String.eqb s "1" | _ => false end
            then match result data with
                 | Some v => v
                 | None => JArr []
                 end
            else JArr []))
  | (events, Raises e) => (events, inr e)
  end.

End Etherscan.

(** * app/main.py *)
Module Main.

Definition CACHE_SIZE_LIMIT : Z := 10.
Definition JOBS_SIZE_LIMIT : Z := 20.
Definition MAX_RECORDS_PER_QUERY : Z := 10000.
Definition MIN_WINDOW_BLOCKS : Z := 1.
Definition MAX_WINDOW_BLOCKS : Z := 200000.
Definition SAFETY_MAX_SEGMENTS : Z := 5000.

(** ** Insertion-ordered dictionaries *)

Definition dict (V : Type) : Type := list (string * V).

(** [d[k] = v]: an existing key keeps its position, a new one goes last. *)
Fixpoint dict_set {V} (d : dict V) (k : string) (v : V) : dict V :=
  match d with
  | [] => [(k, v)]
  | (k', v') :: d' =>
      if String.eqb k' k then (k', v) :: d' else (k', v') :: dict_set d' k v
  end.

Definition dict_keys {V} (d : dict V) : list string := map fst d.
Definition dict_values {V} (d : dict V) : list V := map snd d.

(** ** [sorted(..., key=lambda x: (int(blockNumber), int(timeStamp)))] *)

Definition sort_key (x : Tx) : Z * Z := (blockNumber x, timeStamp x).

(** Tuple comparison [a <= b]. *)
Definition key_le (a b : Z * Z) : bool :=
  (fst a <? fst b) || ((fst a =? fst b) && (snd a <=? snd b)).

Fixpoint insert_by_key (x : Tx) (l : list Tx) : list Tx :=
  match l with
  | [] => [x]
  | y :: l' =>
      if key_le (sort_key x) (sort_key y) then x :: l else y :: insert_by_key x l'
  end.

(** Python's [sorted] is stable; so is this insertion sort, which puts an
    element before the later elements of equal key. *)
Fixpoint sorted (l : list Tx) : list Tx :=
  match l with
  | [] => []
  | x :: l' => insert_by_key x (sorted l')
  end.

(** ** The data model *)

(** One entry of [job["segments"]]. *)
Record Segment := mkSegment {
  s_start : Z;
  s_end : Z;
  s_pages : Z;
  s_tx_count : Z;
  s_cap_hit : bool
}.

(** The job dictionary of [JOBS].  The keys that only feed the progress
    page ([partial_preview_eth], [eth_preview], [token_preview],
    [segments_tail]) are left out; [high_activity] absent reads as
    [false], as [job.get("high_activity", False)] does. *)
Record Job := mkJob {
  address : string;
  start_block : Z;
  include_tokens : bool;
  page_size : Z;
  max_pages_int : option Z;
  latest_block : option Z;
  seg_start : Z;
  window_blocks : Z;
  pages_total : Z;
  segments_done : Z;
  eth_total_unique : Z;
  current_segment_start : option Z;
  current_segment_end : option Z;
  coverage_start : Z;
  coverage_end : option Z;
  stop_requested : bool;
  running : bool;
  done : bool;
  paused : bool;
  error : option string;
  rid : option string;
  seen_hashes : dict Tx;
  segments : list Segment;
  token_seen_hashes : dict Tx;
  high_activity : bool;
  high_activity_reason : string
}.

(** [job["field"] = v]: one updater per key the crawl engine assigns. *)
Definition set_include_tokens (v : bool) (j : Job) : Job :=
  mkJob (address j) (start_block j) v (page_size j) (max_pages_int j)
    (latest_block j) (seg_start j) (window_blocks j) (pages_total j)
    (segments_done j) (eth_total_unique j) (current_segment_start j)
    (current_segment_end j) (coverage_start j) (coverage_end j)
    (stop_requested j) (running j) (done j) (paused j) (error j) (rid j)
    (seen_hashes j) (segments j) (token_seen_hashes j) (high_activity j)
    (high_activity_reason j).
Definition set_latest_block (v : option Z) (j : Job) : Job :=
  mkJob (address j) (start_block j) (include_tokens j) (page_size j)
    (max_pages_int j) v (seg_start j) (window_blocks j) (pages_total j)
    (segments_done j) (eth_total_unique j) (current_segment_start j)
    (current_segment_end j) (coverage_start j) (coverage_end j)
    (stop_requested j) (running j) (done j) (paused j) (error j) (rid j)
    (seen_hashes j) (segments j) (token_seen_hashes j) (high_activity j)
    (high_activity_reason j).
Definition set_seg_start (v : Z) (j : Job) : Job :=
  mkJob (address j) (start_block j) (include_tokens j) (page_size j)
    (max_pages_int j) (latest_block j) v (window_blocks j) (pages_total j)
    (segments_done j) (eth_total_unique j) (current_segment_start j)
    (current_segment_end j) (coverage_start j) (coverage_end j)
    (stop_requested j) (running j) (done j) (paused j) (error j) (rid j)
    (seen_hashes j) (segments j) (token_seen_hashes j) (high_activity j)
    (high_activity_reason j).
Definition set_window_blocks (v : Z) (j : Job) : Job :=
  mkJob (address j) (start_block j) (include_tokens j) (page_size j)
    (max_pages_int j) (latest_block j) (seg_start j) v (pages_total j)
    (segments_done j) (eth_total_unique j) (current_segment_start j)
    (current_segment_end j) (coverage_start j) (coverage_end j)
    (stop_requested j) (running j) (done j) (paused j) (error j) (rid j)
    (seen_hashes j) (segments j) (token_seen_hashes j) (high_activity j)
    (high_activity_reason j).
Definition set_pages_total (v : Z) (j : Job) : Job :=
  mkJob (address j) (start_block j) (include_tokens j) (page_size j)
    (max_pages_int j) (latest_block j) (seg_start j) (window_blocks j) v
    (segments_done j) (eth_total_unique j) (current_segment_start j)
    (current_segment_end j) (coverage_start j) (coverage_end j)
    (stop_requested j) (running j) (done j) (paused j) (error j) (rid j)
    (seen_hashes j) (segments j) (token_seen_hashes j) (high_activity j)
    (high_activity_reason j).
Definition set_segments_done (v : Z) (j : Job) : Job :=
  mkJob (address j) (start_block j) (include_tokens j) (page_size j)
    (max_pages_int j) (latest_block j) (seg_start j) (window_blocks j)
    (pages_total j) v (eth_total_unique j) (current_segment_start j)
    (current_segment_end j) (coverage_start j) (coverage_end j)
    (stop_requested j) (running j) (done j) (paused j) (error j) (rid j)
    (seen_hashes j) (segments j) (token_seen_hashes j) (high_activity j)
    (high_activity_reason j).
Definition set_eth_total_unique (v : Z) (j : Job) : Job :=
  mkJob (address j) (start_block j) (include_tokens j) (page_size j)
    (max_pages_int j) (latest_block j) (seg_start j) (window_blocks j)
    (pages_total j) (segments_done j) v (current_segment_start j)
    (current_segment_end j) (coverage_start j) (coverage_end j)
    (stop_requested j) (running j) (done j) (paused j) (error j) (rid j)
    (seen_hashes j) (segments j) (token_seen_hashes j) (high_activity j)
    (high_activity_reason j).
Definition set_current_segment_start (v : option Z) (j : Job) : Job :=
  mkJob (address j) (start_block j) (include_tokens j) (page_size j)
    (max_pages_int j) (latest_block j) (seg_start j) (window_blocks j)
    (pages_total j) (segments_done j) (eth_total_unique j) v
    (current_segment_end j) (coverage_start j) (coverage_end j)
    (stop_requested j) (running j) (done j) (paused j) (error j) (rid j)
    (seen_hashes j) (segments j) (token_seen_hashes j) (high_activity j)
    (high_activity_reason j).
Definition set_current_segment_end (v : option Z) (j : Job) : Job :=
  mkJob (address j) (start_block j) (include_tokens j) (page_size j)
    (max_pages_int j) (latest_block j) (seg_start j) (window_blocks j)
    (pages_total j) (segments_done j) (eth_total_unique j)
    (current_segment_start j) v (coverage_start j) (coverage_end j)
    (stop_requested j) (running j) (done j) (paused j) (error j) (rid j)
    (seen_hashes j) (segments j) (token_seen_hashes j) (high_activity j)
    (high_activity_reason j).
Definition set_coverage_end (v : option Z) (j : Job) : Job :=
  mkJob (address j) (start_block j) (include_tokens j) (page_size j)
    (max_pages_int j) (latest_block j) (seg_start j) (window_blocks j)
    (pages_total j) (segments_done j) (eth_total_unique j)
    (current_segment_start j) (current_segment_end j) (coverage_start j) v
    (stop_requested j) (running j) (done j) (paused j) (error j) (rid j)
    (seen_hashes j) (segments j) (token_seen_hashes j) (high_activity j)
    (high_activity_reason j).
Definition set_stop_requested (v : bool) (j : Job) : Job :=
  mkJob (address j) (start_block j) (include_tokens j) (page_size j)
    (max_pages_int j) (latest_block j) (seg_start j) (window_blocks j)
    (pages_total j) (segments_done j) (eth_total_unique j)
    (current_segment_start j) (current_segment_end j) (coverage_start j)
    (coverage_end j) v (running j) (done j) (paused j) (error j) (rid j)
    (seen_hashes j) (segments j) (token_seen_hashes j) (high_activity j)
    (high_activity_reason j).
Definition set_running (v : bool) (j : Job) : Job :=
  mkJob (address j) (start_block j) (include_tokens j) (page_size j)
    (max_pages_int j) (latest_block j) (seg_start j) (window_blocks j)
    (pages_total j) (segments_done j) (eth_total_unique j)
    (current_segment_start j) (current_segment_end j) (coverage_start j)
    (coverage_end j) (stop_requested j) v (done j) (paused j) (error j) (rid
    j) (seen_hashes j) (segments j) (token_seen_hashes j) (high_activity j)
    (high_activity_reason j).
Definition set_done (v : bool) (j : Job) : Job :=
  mkJob (address j) (start_block j) (include_tokens j) (page_size j)
    (max_pages_int j) (latest_block j) (seg_start j) (window_blocks j)
    (pages_total j) (segments_done j) (eth_total_unique j)
    (current_segment_start j) (current_segment_end j) (coverage_start j)
    (coverage_end j) (stop_requested j) (running j) v (paused j) (error j)
    (rid j) (seen_hashes j) (segments j) (token_seen_hashes j)
    (high_activity j) (high_activity_reason j).
Definition set_paused (v : bool) (j : Job) : Job :=
  mkJob (address j) (start_block j) (include_tokens j) (page_size j)
    (max_pages_int j) (latest_block j) (seg_start j) (window_blocks j)
    (pages_total j) (segments_done j) (eth_total_unique j)
    (current_segment_start j) (current_segment_end j) (coverage_start j)
    (coverage_end j) (stop_requested j) (running j) (done j) v (error j)
    (rid j) (seen_hashes j) (segments j) (token_seen_hashes j)
    (high_activity j) (high_activity_reason j).
Definition set_error (v : option string) (j : Job) : Job :=
  mkJob (address j) (start_block j) (include_tokens j) (page_size j)
    (max_pages_int j) (latest_block j) (seg_start j) (window_blocks j)
    (pages_total j) (segments_done j) (eth_total_unique j)
    (current_segment_start j) (current_segment_end j) (coverage_start j)
    (coverage_end j) (stop_requested j) (running j) (done j) (paused j) v
    (rid j) (seen_hashes j) (segments j) (token_seen_hashes j)
    (high_activity j) (high_activity_reason j).
Definition set_rid (v : option string) (j : Job) : Job :=
  mkJob (address j) (start_block j) (include_tokens j) (page_size j)
    (max_pages_int j) (latest_block j) (seg_start j) (window_blocks j)
    (pages_total j) (segments_done j) (eth_total_unique j)
    (current_segment_start j) (current_segment_end j) (coverage_start j)
    (coverage_end j) (stop_requested j) (running j) (done j) (paused j)
    (error j) v (seen_hashes j) (segments j) (token_seen_hashes j)
    (high_activity j) (high_activity_reason j).
Definition set_seen_hashes (v : dict Tx) (j : Job) : Job :=
  mkJob (address j) (start_block j) (include_tokens j) (page_size j)
    (max_pages_int j) (latest_block j) (seg_start j) (window_blocks j)
    (pages_total j) (segments_done j) (eth_total_unique j)
    (current_segment_start j) (current_segment_end j) (coverage_start j)
    (coverage_end j) (stop_requested j) (running j) (done j) (paused j)
    (error j) (rid j) v (segments j) (token_seen_hashes j) (high_activity j)
    (high_activity_reason j).
Definition set_segments (v : list Segment) (j : Job) : Job :=
  mkJob (address j) (start_block j) (include_tokens j) (page_size j)
    (max_pages_int j) (latest_block j) (seg_start j) (window_blocks j)
    (pages_total j) (segments_done j) (eth_total_unique j)
    (current_segment_start j) (current_segment_end j) (coverage_start j)
    (coverage_end j) (stop_requested j) (running j) (done j) (paused j)
    (error j) (rid j) (seen_hashes j) v (token_seen_hashes j) (high_activity
    j) (high_activity_reason j).
Definition set_high_activity (v : bool) (j : Job) : Job :=
  mkJob (address j) (start_block j) (include_tokens j) (page_size j)
    (max_pages_int j) (latest_block j) (seg_start j) (window_blocks j)
    (pages_total j) (segments_done j) (eth_total_unique j)
    (current_segment_start j) (current_segment_end j) (coverage_start j)
    (coverage_end j) (stop_requested j) (running j) (done j) (paused j)
    (error j) (rid j) (seen_hashes j) (segments j) (token_seen_hashes j) v
    (high_activity_reason j).
Definition set_high_activity_reason (v : string) (j : Job) : Job :=
  mkJob (address j) (start_block j) (include_tokens j) (page_size j)
    (max_pages_int j) (latest_block j) (seg_start j) (window_blocks j)
    (pages_total j) (segments_done j) (eth_total_unique j)
    (current_segment_start j) (current_segment_end j) (coverage_start j)
    (coverage_end j) (stop_requested j) (running j) (done j) (paused j)
    (error j) (rid j) (seen_hashes j) (segments j) (token_seen_hashes j)
    (high_activity j) v.

(** One entry of [RESULTS_CACHE]. *)
Record ResultEntry := mkResult {
  eth_txs : list Tx;
  r_address : string;
  r_start_block : Z;
  r_latest_block : Z;
  eth_total : Z;
  r_coverage_start : Z;
  r_coverage_end : Z;
  r_segments : list Segment;
  r_include_tokens : bool;
  token_txs : option (list Tx)
}.

(** The module-level registries. *)
Record Store := mkStore {
  JOBS : gmap string Job;
  JOB_IDS : list string;
  RESULTS_CACHE : gmap string ResultEntry;
  RESULT_IDS : list string
}.

(** ** The outside world *)

Inductive Action := txlist | tokentx.

(** A page request, [client.txlist_page] or [client.tokentx_page]. *)
Record Query := mkQuery {
  action : Action;
  q_address : string;
  startblock : Z;
  endblock : Z;
  page : Z;
  offset : Z
}.

Inductive Reply (A : Type) :=
| Answer (a : A)
| Fails (str_e : string).
Arguments Answer {A} a.
Arguments Fails {A} str_e.

(** What a run has done to the world so far: the page requests issued
    (oldest first), and how often the latest block, the stop flag and
    [uuid4] were asked for. *)
Record World := mkWorld {
  requests : list Query;
  blocks : nat;
  polls : nat;
  uuids : nat
}.

Definition log_request (q : Query) (w : World) : World :=
  mkWorld (requests w ++ [q])%list (blocks w) (polls w) (uuids w).
Definition tick_blocks (w : World) : World :=
  mkWorld (requests w) (S (blocks w)) (polls w) (uuids w).
Definition tick_polls (w : World) : World :=
  mkWorld (requests w) (blocks w) (S (polls w)) (uuids w).
Definition tick_uuids (w : World) : World :=
  mkWorld (requests w) (blocks w) (polls w) (S (uuids w)).

(** [str(uuid.uuid4())] from the 32 hexadecimal digits of the identifier. *)
Definition uuid_str (hex : string) : string :=
  String.substring 0 8 hex +:+ "-" +:+ String.substring 8 4 hex +:+ "-"
  +:+ String.substring 12 4 hex +:+ "-" +:+ String.substring 16 4 hex +:+ "-"
  +:+ String.substring 20 12 hex.

(** The tuple returned by the window fetchers, under the names
    [run_job] binds it to. *)
Record WindowResult := mkWindowResult {
  window_txs : list Tx;
  pages_used : Z;
  cap_hit : bool;
  window_truncated : bool;
  paused_hit : bool;
  cap_unresolvable : bool
}.

Inductive Fetch :=
| Fetched (r : WindowResult) (w : World)
| FetchRaised (str_e : string) (w : World)
| FetchOutOfFuel.

Inductive FetchStep :=
| NextPage (collected : list Tx) (current_page : Z) (w : World)
| FetchEnd (f : Fetch).

(** The local variables of the loop of [run_job]. *)
Record Locals := mkLocals {
  cur_seg_start : Z;
  cur_window_blocks : Z;
  cur_pages_total : Z;
  cur_segment_num : Z
}.

(** How the loop of [run_job] is left: by [return], by [break], by its
    condition turning false, or by an exception. *)
Inductive LoopEnd :=
| Returned (job : Job) (w : World)
| Broke (job : Job) (w : World)
| Exited (job : Job) (w : World)
| Raised (str_e : string) (job : Job) (w : World)
| LoopOutOfFuel.

Inductive Iteration :=
| Again (l : Locals) (job : Job) (w : World)
| Ends (e : LoopEnd).

(** The outcome of the thread of [run_job]: [KeyError] is
    [JOBS[job_id]] failing before the [try]. *)
Inductive Run :=
| Finished (st : Store) (w : World)
| KeyError
| RunOutOfFuel.

(** [math.ceil(MAX_RECORDS_PER_QUERY / page_size)] for [page_size <> 0].
    The quotient is a float in the source; it is far enough from the next
    integer for the rounded ceiling to be the exact one whenever
    [|page_size| < 2^1000]. *)
Definition max_pages_for (page_size : Z) : Z :=
  - ((- MAX_RECORDS_PER_QUERY) / page_size).

(** [for tx in window_txs: if tx_hash: all_txs_raw_dict[tx_hash] = tx] *)
Definition merge_txs (d : dict Tx) (window_txs : list Tx) : dict Tx :=
  fold_left
    (fun d tx => if String.eqb (hash tx) "" then d else dict_set d (hash tx) tx)
    window_txs d.

(** [l.pop(0)] together with what is left. *)
Definition pop0 {A} (l : list A) : option (A * list A) :=
  match l with
  | [] => None
  | x :: l' => Some (x, l')
  end.

Section Engine.

(** The page a request gets, [client.txlist_page]/[client.tokentx_page]
    after the retries of [_get]: the [n]-th request issued gets
    [client_page n q]. *)
Variable client_page : nat -> Query -> Reply (list Tx).
(** [client.get_latest_block()] *)
Variable get_latest_block : nat -> Reply Z.
(** Whether [crawl_stop], running in another thread, has raised
    [stop_requested] by the [n]-th time the crawl reads that flag. *)
Variable stop_signal : nat -> bool.
(** The hexadecimal digits of the [n]-th [uuid.uuid4()]. *)
Variable uuid4 : nat -> string.
(** [format_transaction(tx, address)] as far as [run_job] depends on it:
    [None] when it returns a row for the preview, [Some str_e] when it
    raises [e].  Its handlers catch [ValueError] and [TypeError] only, so
    the [OverflowError] of [datetime.utcfromtimestamp] on a timestamp
    that does not fit [time_t], the [OSError] of a failing [gmtime] and
    the [OverflowError] of [int(wei_str) / 1e18] on an amount too large
    for a float leave it. *)
Variable format_transaction : Tx -> string -> option string.

(** [job.get("stop_requested", False)] under [JOBS_LOCK]. *)
Definition should_stop_check (job : Job) (w : World) : bool * World :=
  (stop_requested job || stop_signal (polls w), tick_polls w).

(** [should_stop and should_stop()] *)
Definition call_should_stop (should_stop : option (World -> bool * World))
    (w : World) : bool * World :=
  match should_stop with
  | None => (false, w)
  | Some f => f w
  end.

(** ** [fetch_txlist_window] and [fetch_tokentx_window]

    The two functions differ in the client method only, so the body is
    written once, for the [action] to query. *)
Section Window.

Variables (act : Action) (address : string) (start_blk end_blk page_size : Z)
          (pages_total : Z) (max_pages_int : option Z)
          (should_stop : option (World -> bool * World)) (min_window_blocks : Z).

(** One turn of [while True]. *)
Definition fetch_page (max_pages_for_offset : Z) (collected : list Tx)
    (current_page : Z) (w : World) : FetchStep :=
  let '(stop, w) := call_should_stop should_stop w in
  if stop
  then FetchEnd (Fetched (mkWindowResult collected current_page false false true false) w)
  else if match max_pages_int with
          | Some m => m <? pages_total + current_page
          | None => false
          end
  then FetchEnd (Fetched (mkWindowResult collected current_page false true false false) w)
  else
    let q := mkQuery act address start_blk end_blk current_page page_size in
    match client_page (List.length (requests w)) q with
    | Fails str_e => FetchEnd (FetchRaised str_e (log_request q w))
    | Answer chunk =>
        let w := log_request q w in
        let collected := (collected ++ chunk)%list in
        let '(stop, w) := call_should_stop should_stop w in
        if stop
        then FetchEnd (Fetched (mkWindowResult collected current_page
                                  false false true false) w)
        else if len chunk <? page_size
        then FetchEnd (Fetched (mkWindowResult collected current_page
                                  false false false false) w)
        else
          let current_page := current_page + 1 in
          if ((max_pages_for_offset <? current_page) && (len chunk =? page_size))
             || (MAX_RECORDS_PER_QUERY <=? len collected)
          then
            let window_size := end_blk - start_blk + 1 in
            FetchEnd (Fetched (mkWindowResult collected current_page
                                 true false false
                                 (window_size <=? min_window_blocks)) w)
          else NextPage collected current_page w
    end.

Fixpoint fetch_loop (fuel : nat) (max_pages_for_offset : Z)
    (collected : list Tx) (current_page : Z) (w : World) : Fetch :=
  match fuel with
  | O => FetchOutOfFuel
  | S fuel' =>
      match fetch_page max_pages_for_offset collected current_page w with
      | NextPage collected' current_page' w' =>
          fetch_loop fuel' max_pages_for_offset collected' current_page' w'
      | FetchEnd f => f
      end
  end.

Definition fetch_window (fuel : nat) (w : World) : Fetch :=
  if page_size =? 0 then FetchRaised "division by zero" w
  else fetch_loop fuel (max_pages_for page_size) [] 1 w.

End Window.

Definition fetch_txlist_window := fetch_window txlist.
Definition fetch_tokentx_window := fetch_window tokentx.

(** ** [run_job] *)

(** The block executed when a stop request is honoured, at the top of
    the loop and after a drain that reports [paused_hit]. *)
Definition pause_job (l : Locals) (job : Job) : Job :=
  let job := set_running false job in
  let job := set_done false job in
  let job := set_paused true job in
  let job := set_stop_requested false job in
  let job := set_error None job in
  let job := set_seg_start (cur_seg_start l) job in
  let job := set_window_blocks (cur_window_blocks l) job in
  let job := set_pages_total (cur_pages_total l) job in
  let job := set_segments_done (cur_segment_num l) job in
  match last (segments job) with
  | Some s => set_coverage_end (Some (s_end s)) job
  | None => job
  end.

(** [job["running"] = False; job["done"] = True; job["error"] = msg] *)
Definition fail_job (msg : string) (job : Job) : Job :=
  set_error (Some msg) (set_done true (set_running false job)).

Definition safety_msg : string :=
  "Safety limit reached: " +:+ pretty SAFETY_MAX_SEGMENTS
  +:+ " segments. Address may be too active for this range.".

Definition max_pages_msg : string := "Stopped due to max_pages limit".

Definition cap_unresolvable_msg (window_blocks : Z) : string :=
  "Even a window of " +:+ pretty window_blocks
  +:+ " block(s) exceeds Etherscan cap (~10,000 records). Cannot guarantee ALL results via Etherscan for this address in this range. Consider using a smaller start_block or switching to a node-based approach.".

Definition cap_at_minimum_msg : string :=
  "Cap hit at minimum window size (" +:+ pretty MIN_WINDOW_BLOCKS
  +:+ " blocks). Cannot proceed.".

Definition window_reduced_msg (window_blocks : Z) : string :=
  "Window reduced to " +:+ pretty window_blocks +:+ " blocks due to Etherscan cap".

Definition segments_exceeded_msg (segment_num : Z) : string :=
  "Segments exceeded 2000 (currently " +:+ pretty segment_num +:+ ")".

(** [if cond and not job.get("high_activity", False): ...] *)
Definition flag_high_activity (cond : bool) (reason : string) (job : Job) : Job :=
  if cond && negb (high_activity job)
  then set_high_activity_reason reason (set_high_activity true job)
  else job.

(** [for tx in window_txs: formatted = format_transaction(tx, address);
    ...]: the exception that ends the loop over the window, if any.  The
    rows go to [job["eth_preview"]], which nothing of the crawl reads. *)
Fixpoint format_preview (address : string) (window_txs : list Tx) : option string :=
  match window_txs with
  | [] => None
  | tx :: window_txs' =>
      match format_transaction tx address with
      | Some str_e => Some str_e
      | None => format_preview address window_txs'
      end
  end.

(** The body of [while seg_start <= latest_block]. *)
Definition iteration (fuel : nat) (latest_block : Z) (l : Locals) (job : Job)
    (w : World) : Iteration :=
  let seg_start := cur_seg_start l in
  let window_blocks := cur_window_blocks l in
  let pages_total := cur_pages_total l in
  let segment_num := cur_segment_num l in
  let address := address job in
  let '(stop, w) := should_stop_check job w in
  if stop then Ends (Returned (pause_job l job) w)
  else
    let seg_end := Z.min (seg_start + window_blocks - 1) latest_block in
    let segment_num := segment_num + 1 in
    if SAFETY_MAX_SEGMENTS <? segment_num
    then Ends (Returned (fail_job safety_msg job) w)
    else
      match fetch_txlist_window address seg_start seg_end (page_size job)
              pages_total (max_pages_int job) (Some (should_stop_check job))
              MIN_WINDOW_BLOCKS fuel w with
      | FetchOutOfFuel => Ends LoopOutOfFuel
      | FetchRaised str_e w => Ends (Raised str_e job w)
      | Fetched r w =>
          let pages_total := pages_total + pages_used r in
          if paused_hit r
          then Ends (Returned
                       (pause_job (mkLocals seg_start window_blocks pages_total
                                     segment_num) job) w)
          else if window_truncated r
          then Ends (Broke (fail_job max_pages_msg job) w)
          else if cap_hit r then
            if cap_unresolvable r
            then Ends (Returned (fail_job (cap_unresolvable_msg window_blocks) job) w)
            else if MIN_WINDOW_BLOCKS <? window_blocks then
              let window_blocks := Z.max (window_blocks / 2) MIN_WINDOW_BLOCKS in
              let segment_num := segment_num - 1 in
              let job := flag_high_activity (window_blocks <=? 1000)
                           (window_reduced_msg window_blocks) job in
              Again (mkLocals seg_start window_blocks pages_total segment_num) job w
            else Ends (Returned (fail_job cap_at_minimum_msg job) w)
          else
            let job := set_seen_hashes
                         (merge_txs (seen_hashes job) (window_txs r)) job in
            let job := set_segments
                         (segments job ++
                          [mkSegment seg_start seg_end (pages_used r)
                             (len (window_txs r)) false])%list job in
            match format_preview address (window_txs r) with
            | Some str_e => Ends (Raised str_e job w)
            | None =>
            let job := set_seg_start (seg_end + 1) job in
            let job := set_segments_done segment_num job in
            let job := set_pages_total pages_total job in
            let job := set_eth_total_unique (len (seen_hashes job)) job in
            let job := set_current_segment_start (Some seg_start) job in
            let job := set_current_segment_end (Some seg_end) job in
            let job := set_window_blocks window_blocks job in
            let job := set_coverage_end (Some seg_end) job in
            let job := flag_high_activity (2000 <=? segment_num)
                         (segments_exceeded_msg segment_num) job in
            let job := flag_high_activity (window_blocks <=? 1000)
                         (window_reduced_msg window_blocks) job in
            let seg_start := seg_end + 1 in
            let window_blocks :=
              if window_blocks <? MAX_WINDOW_BLOCKS
              then Z.min (window_blocks * 2) MAX_WINDOW_BLOCKS
              else window_blocks in
            Again (mkLocals seg_start window_blocks pages_total segment_num) job w
            end
      end.

Fixpoint crawl_loop (fuel : nat) (latest_block : Z) (l : Locals) (job : Job)
    (w : World) : LoopEnd :=
  match fuel with
  | O => LoopOutOfFuel
  | S fuel' =>
      if cur_seg_start l <=? latest_block then
        match iteration fuel' latest_block l job w with
        | Again l' job' w' => crawl_loop fuel' latest_block l' job' w'
        | Ends e => e
        end
      else Exited job w
  end.

(** The dictionary stored in [RESULTS_CACHE] for a job that left the loop. *)
Definition result_of (latest_block : Z) (job : Job) : ResultEntry :=
  let all_txs_raw := sorted (dict_values (seen_hashes job)) in
  let coverage_start :=
    match segments job with
    | s :: _ => s_start s
    | [] => start_block job
    end in
  let coverage_end :=
    match last (segments job) with
    | Some s => s_end s
    | None => latest_block
    end in
  let token_txs_data :=
    if include_tokens job then
      match token_seen_hashes job with
      | [] => None
      | _ :: _ => Some (sorted (dict_values (token_seen_hashes job)))
      end
    else None in
  mkResult all_txs_raw (address job) (start_block job) latest_block
    (len all_txs_raw) coverage_start coverage_end (segments job)
    (include_tokens job) token_txs_data.

(** The statements after the loop: sort, publish, bound the cache. *)
Definition publish (latest_block : Z) (job : Job) (st : Store) (w : World)
    : Job * Store * World :=
  let entry := result_of latest_block job in
  let job := set_coverage_end (Some (r_coverage_end entry)) job in
  let result_id := uuid_str (uuid4 (uuids w)) in
  let w := tick_uuids w in
  let cache := <[result_id := entry]> (RESULTS_CACHE st) in
  let ids := (RESULT_IDS st ++ [result_id])%list in
  let '(cache, ids) :=
    if CACHE_SIZE_LIMIT <? len ids then
      match pop0 ids with
      | Some (oldest_rid, ids') => (delete oldest_rid cache, ids')
      | None => (cache, ids)
      end
    else (cache, ids) in
  let job := set_running false job in
  let job := set_done true job in
  let job := set_rid (Some result_id) job in
  let job := set_eth_total_unique (eth_total entry) job in
  (job, mkStore (JOBS st) (JOB_IDS st) cache ids, w).

(** The job is mutated through a reference into [JOBS]: every change is
    a change of the registry's entry. *)
Definition store_job (job_id : string) (job : Job) (st : Store) : Store :=
  mkStore (<[job_id := job]> (JOBS st)) (JOB_IDS st) (RESULTS_CACHE st)
    (RESULT_IDS st).

(** The handler [except Exception as e] of [run_job]. *)
Definition except_Exception (str_e : string) (job : Job) : Job :=
  fail_job ("Error: " +:+ str_e) job.

(** What [run_job] does once the loop is left. *)
Definition finish_run (job_id : string) (latest_block : Z) (st : Store)
    (e : LoopEnd) : Run :=
  match e with
  | LoopOutOfFuel => RunOutOfFuel
  | Returned job w => Finished (store_job job_id job st) w
  | Raised str_e job w =>
      Finished (store_job job_id (except_Exception str_e job) st) w
  | Broke job w | Exited job w =>
      let '(job, st, w) := publish latest_block job st w in
      Finished (store_job job_id job st) w
  end.

Definition run_job (fuel : nat) (job_id : string) (st : Store) (w : World) : Run :=
  match JOBS st !! job_id with
  | None => KeyError
  | Some job =>
      let job := set_running true job in
      let job := set_paused false job in
      let job := set_done false job in
      let job := set_error None job in
      match get_latest_block (blocks w) with
      | Fails str_e =>
          Finished (store_job job_id (except_Exception str_e job) st) (tick_blocks w)
      | Answer latest_block =>
          let w := tick_blocks w in
          let job := set_latest_block (Some latest_block) job in
          let l := mkLocals (seg_start job) (window_blocks job) (pages_total job)
                     (segments_done job) in
          finish_run job_id latest_block st (crawl_loop fuel latest_block l job w)
      end
  end.

(** ** The endpoints that create and steer jobs *)

(** The [max_pages] query parameter: absent or blank, an integer, or
    text that [int] rejects. *)
Inductive MaxPages :=
| MaxPagesBlank
| MaxPagesInt (n : Z)
| MaxPagesInvalid.

(** [max(50, min(500, page_size))] *)
Definition clamp_page_size (page_size : Z) : Z := Z.max 50 (Z.min 500 page_size).

(** The dictionary [crawl_all_start] stores for a new job. *)
Definition new_job (address : string) (start_block : Z) (include_tokens : bool)
    (page_size : Z) (max_pages_int : option Z) : Job :=
  {| address := address; start_block := start_block;
     include_tokens := include_tokens; page_size := page_size;
     max_pages_int := max_pages_int; latest_block := None;
     seg_start := start_block; window_blocks := MAX_WINDOW_BLOCKS;
     pages_total := 0; segments_done := 0; eth_total_unique := 0;
     current_segment_start := None; current_segment_end := None;
     coverage_start := start_block; coverage_end := Some (start_block - 1);
     stop_requested := false; running := false; done := false; paused := false;
     error := None; rid := None; seen_hashes := []; segments := [];
     token_seen_hashes := []; high_activity := false;
     high_activity_reason := "" |}.

(** [crawl_all_start], up to the start of the background thread:
    [inl] is the error shown to the caller, [inr] the new job's id.
    [client_configured] is the truth value of the module's [client]. *)
Definition crawl_all_start (client_configured : bool) (address : string)
    (start_block : Z) (include_tokens : bool) (max_pages : MaxPages)
    (page_size : Z) (st : Store) (w : World) : (string + string) * Store * World :=
  if negb (String.prefix "0x" address)
  then (inl "Invalid Ethereum address. Must start with 0x.", st, w)
  else if start_block <? 0
  then (inl "Start block must be non-negative.", st, w)
  else if negb client_configured
  then (inl "Etherscan API key not configured. Please check .env file.", st, w)
  else
    let parsed :=
      match max_pages with
      | MaxPagesBlank => inr None
      | MaxPagesInt n =>
          if n <? 1 then inl "max_pages must be >= 1" else inr (Some n)
      | MaxPagesInvalid => inl "max_pages must be a valid number"
      end in
    match parsed with
    | inl error => (inl error, st, w)
    | inr max_pages_int =>
        let page_size := clamp_page_size page_size in
        let job_id := take_str 12 (uuid4 (uuids w)) in
        let w := tick_uuids w in
        let ids := (JOB_IDS st ++ [job_id])%list in
        let '(jobs, ids) :=
          if JOBS_SIZE_LIMIT <? len ids then
            match pop0 ids with
            | Some (oldest_job_id, ids') => (delete oldest_job_id (JOBS st), ids')
            | None => (JOBS st, ids)
            end
          else (JOBS st, ids) in
        let jobs :=
          <[job_id := new_job address start_block include_tokens page_size
                        max_pages_int]> jobs in
        (inr job_id, mkStore jobs ids (RESULTS_CACHE st) (RESULT_IDS st), w)
    end.

(** [crawl_all_start] followed by the thread it starts. *)
Definition crawl_all_start_and_run (fuel : nat) (client_configured : bool)
    (address : string) (start_block : Z) (include_tokens : bool)
    (max_pages : MaxPages) (page_size : Z) (st : Store) (w : World) : Run :=
  match crawl_all_start client_configured address start_block include_tokens
          max_pages page_size st w with
  | (inl _, st, w) => Finished st w
  | (inr job_id, st, w) => run_job fuel job_id st w
  end.

(** [crawl] in crawl-all mode, which redirects to [crawl_all_start]:
    [max_pages] is parsed, [page_size] clamped, the inputs are validated
    and the latest block is fetched; the redirect then carries the
    clamped [page_size], and [max_pages] when it parsed to a non-zero
    integer. *)
Definition crawl_in_all_mode (client_configured : bool) (address : string)
    (start_block : Z) (include_tokens : bool) (max_pages : MaxPages)
    (page_size : Z) (st : Store) (w : World) : (string + string) * Store * World :=
  let max_pages_int :=
    match max_pages with
    | MaxPagesInt n => Some n
    | _ => None
    end in
  let page_size := clamp_page_size page_size in
  if negb (String.prefix "0x" address)
  then (inl "Invalid Ethereum address. Must start with 0x.", st, w)
  else if start_block <? 0
  then (inl "Start block must be non-negative.", st, w)
  else if negb client_configured
  then (inl "Etherscan API key not configured. Please check .env file.", st, w)
  else
    match get_latest_block (blocks w) with
    | Fails str_e => (inl ("Error fetching transactions: " +:+ str_e), st, tick_blocks w)
    | Answer _ =>
        let max_pages :=
          match max_pages_int with
          | Some n => if n =? 0 then MaxPagesBlank else MaxPagesInt n
          | None => MaxPagesBlank
          end in
        crawl_all_start client_configured address start_block include_tokens
          max_pages page_size st (tick_blocks w)
    end.

(** [crawl_stop] *)
Definition crawl_stop (job_id : string) (st : Store) : (string + string) * Store :=
  match JOBS st !! job_id with
  | None => (inl "Job not found", st)
  | Some job =>
      (inr "stop_requested", store_job job_id (set_stop_requested true job) st)
  end.

(** [crawl_resume], up to the start of the background thread. *)
Definition crawl_resume (job_id : string) (st : Store) : (string + string) * Store :=
  match JOBS st !! job_id with
  | None => (inl "Job not found", st)
  | Some job =>
      if negb (paused job) then (inl "Job is not paused", st)
      else if running job then (inl "Job is already running", st)
      else if done job then (inl "Job is already done", st)
      else
        let job := set_paused false job in
        let job := set_stop_requested false job in
        let job := set_running true job in
        let job := set_error None job in
        let job :=
          match coverage_end job with
          | Some coverage_end => set_seg_start (coverage_end + 1) job
          | None => job
          end in
        (inr "resumed", store_job job_id job st)
  end.

(** [crawl_resume] followed by the thread it starts. *)
Definition crawl_resume_and_run (fuel : nat) (job_id : string) (st : Store)
    (w : World) : Run :=
  match crawl_resume job_id st with
  | (inl _, st) => Finished st w
  | (inr _, st) => run_job fuel job_id st w
  end.

End Engine.

End Main.

(** * app/etherscan.py: crawl_all_by_block_splitting *)
Module Splitting.
Import Etherscan Main.

(** What a call of [crawl_all_by_block_splitting] can raise: what
    [fetch_fn] raised, the [AttributeError] of [tx.get] on a character
    of a [result] that is a string, or the [RecursionError] of the
    interpreter. *)
Inductive SplitExn :=
| Upstream (e : Exn)
| AttributeError (msg : string)
| RecursionError.

(** The arguments of one call of [fetch_fn] after [address]. *)
Record Asked := mkAsked {
  a_sb : Z;
  a_eb : Z;
  a_page : Z
}.

(** The closure's [all_txs] and the calls of [fetch_fn] made so far. *)
Record Acc := mkAcc {
  all_txs : dict Tx;
  asked : list Asked
}.

Inductive Outcome :=
| Done (acc : Acc)
| Fault (e : SplitExn) (acc : Acc).

(** [data.get("status") != "1"] *)
Definition status_not_1 (data : JsonData) : bool :=
  match status data with
  | Some (JStr s) => negb (String.eqb s "1")
  | _ => true
  end.

(** [sorted(..., key=lambda x: int(x.get("blockNumber", 0)))], stable. *)
Fixpoint insert_by_block (x : Tx) (l : list Tx) : list Tx :=
  match l with
  | [] => [x]
  | y :: l' =>
      if blockNumber x <=? blockNumber y then x :: l else y :: insert_by_block x l'
  end.

Fixpoint sorted_by_block (l : list Tx) : list Tx :=
  match l with
  | [] => []
  | x :: l' => insert_by_block x (sorted_by_block l')
  end.

Section Splitting.

(** [fetch_fn(address, sb, eb, page, offset)] for the fixed [address]
    and [offset]: the [n]-th call made gets [fetch_fn n sb eb page]. *)
Variable fetch_fn : nat -> Z -> Z -> Z -> Result.
Variable offset : Z.

(** The nested function [fetch_range].  [frames] is the number of
    nested calls the interpreter's recursion limit still allows; one
    more raises [RecursionError]. *)
Fixpoint fetch_range (frames : nat) (sb eb page : Z) (acc : Acc) : Outcome :=
  match frames with
  | O => Fault RecursionError acc
  | S frames' =>
      let request := mkAsked sb eb page in
      match fetch_fn (List.length (asked acc)) sb eb page with
      | Raises e => Fault (Upstream e) (mkAcc (all_txs acc) (asked acc ++ [request]))
      | Returns data =>
          let acc := mkAcc (all_txs acc) (asked acc ++ [request]) in
          if status_not_1 data then Done acc
          else
            match result data with
            | None | Some JNull | Some (JArr []) | Some (JStr EmptyString) => Done acc
            | Some (JStr (String _ _)) =>
                Fault (AttributeError "'str' object has no attribute 'get'") acc
            | Some (JArr results) =>
                let acc := mkAcc (merge_txs (all_txs acc) results) (asked acc) in
                if len results =? offset then
                  if 1 <? eb - sb then
                    let mid := (sb + eb) / 2 in
                    match fetch_range frames' sb mid 1 acc with
                    | Done acc => fetch_range frames' (mid + 1) eb 1 acc
                    | Fault e acc => Fault e acc
                    end
                  else fetch_range frames' sb eb (page + 1) acc
                else Done acc
            end
      end
  end.

(** [crawl_all_by_block_splitting(fetch_fn, address, start_block,
    end_block, offset)], with the calls of [fetch_fn] it made. *)
Definition crawl_all_by_block_splitting (frames : nat) (start_block end_block : Z)
    : (list Tx + SplitExn) * list Asked :=
  match fetch_range frames start_block end_block 1 (mkAcc [] []) with
  | Done acc => (inl (sorted_by_block (dict_values (all_txs acc))), asked acc)
  | Fault e acc => (inr e, asked acc)
  end.

End Splitting.

End Splitting.

(** * Statements of the specification and sample inputs *)

Module EtherscanSpec.
Import Etherscan.

(** The field [message] is absent or a string, so [.lower()] succeeds. *)
Definition message_is_text (d : JsonData) : bool :=
  match message_lower d with
  | inl _ => true
  | inr _ => false
  end.

(** The retry conditions of the specification: a timeout, a connection
    failure, HTTP 429, a body that is not JSON, and a decoded answer whose
    status is the not-OK ["0"], be it a rate-limit signal or not. *)
Definition retry_condition (r : Response) : bool :=
  match r with
  | RaisesTimeout _ | RaisesConnectionError _ => true
  | RaisesHTTPError (Some (status_code, _)) _ => status_code =? 429
  | RaisesHTTPError None _ | RaisesOther _ => false
  | Ok2xx _ None => true
  | Ok2xx _ (Some d) => is_zero (status d)
  end.

(** An HTTP error status other than 429. *)
Definition other_http_error (r : Response) : bool :=
  match r with
  | RaisesHTTPError (Some (status_code, _)) _ => negb (status_code =? 429)
  | RaisesHTTPError None _ => true
  | _ => false
  end.

Definition is_request (e : Event) : bool :=
  match e with
  | Request _ => true
  | Sleep _ => false
  end.

(** The answer Etherscan gives for an address without transactions. *)
Definition no_transactions : JsonData :=
  mkJson (Some (JStr "0")) (Some (JStr "No transactions found")) (Some (JArr [])).

Definition always_not_ok (attempt : nat) : Response :=
  Ok2xx "NOTOK" (Some no_transactions).

(** A not-OK answer whose message is [null]. *)
Definition null_message : JsonData := mkJson (Some (JStr "0")) (Some JNull) None.

Definition always_null_message (attempt : nat) : Response :=
  Ok2xx "null message" (Some null_message).

Definition always_timeout (attempt : nat) : Response := RaisesTimeout "read timed out".

Definition timeout_then_500 (attempt : nat) : Response :=
  match attempt with
  | O => RaisesTimeout "read timed out"
  | _ => RaisesHTTPError (Some (500, "Internal Server Error")) "500 Server Error"
  end.

(** The trace of a call that leaves the loop in attempt [k]: the earlier
    attempts each followed by their backoff, then the last request. *)
Definition retry_trace (k : nat) : list Event :=
  (flat_map (fun i => [Request i; Sleep (nth i backoff_times 0)]) (seq 0 k)
   ++ [Request k])%list.

(** Seconds slept in a trace. *)
Fixpoint total_sleep (events : list Event) : Z :=
  match events with
  | [] => 0
  | Sleep s :: events' => s + total_sleep events'
  | Request _ :: events' => total_sleep events'
  end.

(** A decoded answer signalling a rate limit or another not-OK status. *)
Definition not_ok_answer (r : Response) : bool :=
  match r with
  | Ok2xx _ (Some d) => is_zero (status d) && message_is_text d
  | _ => false
  end.

Definition rate_limited : JsonData :=
  mkJson (Some (JStr "0")) (Some (JStr "NOTOK"))
    (Some (JStr "Max rate limit reached")).

Definition always_rate_limited (attempt : nat) : Response :=
  Ok2xx "rate limited" (Some rate_limited).

Definition one_page : JsonData :=
  mkJson (Some (JStr "1")) (Some (JStr "OK"))
    (Some (JArr [mkTx "0xaa" 3 30 "0xa" "0xb" 0 "21000" "1000000000"])).

Definition timeouts_then_page (attempt : nat) : Response :=
  match attempt with
  | O | S O => RaisesTimeout "read timed out"
  | _ => Ok2xx "page" (Some one_page)
  end.

End EtherscanSpec.

Module MainSpec.
Import Main.

Section Drain.

Variable client_page : nat -> Query -> Reply (list Tx).
Variables (act : Action) (address : string) (start_blk end_blk page_size : Z)
          (pages_total : Z) (max_pages_int : option Z)
          (should_stop : option (World -> bool * World)).

(** The budget test [max_pages_int is not None and
    pages_total + current_page > max_pages_int]. *)
Definition over_budget (current_page : Z) : bool :=
  match max_pages_int with
  | Some m => m <? pages_total + current_page
  | None => false
  end.

(** The drain is at a turn that receives [chunk]: no stop is seen before
    or after the request, and the page budget allows it. *)
Definition receives (current_page : Z) (w : World) (chunk : list Tx) (w' : World)
    : Prop :=
  exists w1,
    call_should_stop should_stop w = (false, w1) /\
    over_budget current_page = false /\
    client_page (List.length (requests w1))
      (mkQuery act address start_blk end_blk current_page page_size) = Answer chunk /\
    call_should_stop should_stop
      (log_request (mkQuery act address start_blk end_blk current_page page_size) w1)
    = (false, w').

(** The test made after [current_page += 1]. *)
Definition cap_reached (max_pages_for_offset : Z) (collected chunk : list Tx)
    (current_page : Z) : Prop :=
  (max_pages_for_offset < current_page + 1 /\ len chunk = page_size) \/
  MAX_RECORDS_PER_QUERY <= len (collected ++ chunk).

(** The drain [fetch_window] starts in [w0] has received full pages
    only, none of which made it reach the cap: it holds [collected]
    and is about to ask for [current_page] in [w]. *)
Inductive drained_to (w0 : World) : list Tx -> Z -> World -> Prop :=
| drain_start : drained_to w0 [] 1 w0
| drain_turn collected current_page w chunk w' :
    drained_to w0 collected current_page w ->
    receives current_page w chunk w' ->
    page_size <= len chunk ->
    ~ cap_reached (max_pages_for page_size) collected chunk current_page ->
    drained_to w0 (collected ++ chunk) (current_page + 1) w'.

End Drain.

Section Crawl.

Variable client_page : nat -> Query -> Reply (list Tx).
Variable stop_signal : nat -> bool.

(** The window [seg_start .. seg_end] of the iteration about to run. *)
Definition seg_end_of (latest_block : Z) (l : Locals) : Z :=
  Z.min (cur_seg_start l + cur_window_blocks l - 1) latest_block.

(** The iteration starting from [l], [job], [w] gets as far as draining
    its window, and the drain reports [r]: the loop condition holds, no
    stop request is seen at the top of the loop, and the safety ceiling
    is not exceeded. *)
Definition reaches_drain (fuel : nat) (latest_block : Z) (l : Locals) (job : Job)
    (w : World) (r : WindowResult) (w' : World) : Prop :=
  cur_seg_start l <= latest_block /\
  stop_requested job || stop_signal (polls w) = false /\
  cur_segment_num l + 1 <= SAFETY_MAX_SEGMENTS /\
  fetch_txlist_window client_page (address job) (cur_seg_start l)
    (seg_end_of latest_block l) (page_size job) (cur_pages_total l)
    (max_pages_int job) (Some (should_stop_check stop_signal job))
    MIN_WINDOW_BLOCKS fuel (tick_polls w)
  = Fetched r w'.

(** The job of an iteration once the records of its complete drain [r]
    are merged and the segment of its window is appended. *)
Definition with_segment (latest_block : Z) (l : Locals) (r : WindowResult)
    (job : Job) : Job :=
  set_segments
    (segments job ++
     [mkSegment (cur_seg_start l) (seg_end_of latest_block l) (pages_used r)
        (len (window_txs r)) false])%list
    (set_seen_hashes (merge_txs (seen_hashes job) (window_txs r)) job).

End Crawl.

(** Fuel that lets the loop of [run_job] run to its end from [l]: two
    turns for each segment below the safety ceiling, one for each
    halving the window allows, and the pages of one drain. *)
Definition crawl_fuel (l : Locals) : nat :=
  Z.to_nat (Z.max 0 (2 * (SAFETY_MAX_SEGMENTS - cur_segment_num l)
                     + Z.log2 (cur_window_blocks l))
            + 10002).

(** The world a finished drain, or a finished loop, leaves behind. *)
Definition fetch_world (f : Fetch) : option World :=
  match f with
  | Fetched _ w | FetchRaised _ w => Some w
  | FetchOutOfFuel => None
  end.

Definition end_world (e : LoopEnd) : option World :=
  match e with
  | Returned _ w | Broke _ w | Exited _ w | Raised _ _ w => Some w
  | LoopOutOfFuel => None
  end.

(** From [w] to [w'] the requests issued all satisfy [P]. *)
Definition issued (P : Query -> Prop) (w w' : World) : Prop :=
  exists new, requests w' = (requests w ++ new)%list /\ Forall P new.

(** The request is a [txlist] page request of the job. *)
Definition request_of (job : Job) (q : Query) : Prop :=
  action q = txlist /\ q_address q = address job /\ offset q = page_size job.

(** The keys of a job that the crawl never assigns. *)
Definition same_config (job job' : Job) : Prop :=
  address job' = address job /\ start_block job' = start_block job /\
  include_tokens job' = include_tokens job /\ page_size job' = page_size job /\
  max_pages_int job' = max_pages_int job /\
  coverage_start job' = coverage_start job /\
  token_seen_hashes job' = token_seen_hashes job.

(** The job a finished loop leaves behind. *)
Definition end_job (e : LoopEnd) : option Job :=
  match e with
  | Returned job _ | Broke job _ | Exited job _ | Raised _ job _ => Some job
  | LoopOutOfFuel => None
  end.

(** The same end of the loop, for a job seen through [f]. *)
Definition end_map (f : Job -> Job) (e : LoopEnd) : LoopEnd :=
  match e with
  | Returned job w => Returned (f job) w
  | Broke job w => Broke (f job) w
  | Exited job w => Exited (f job) w
  | Raised str_e job w => Raised str_e (f job) w
  | LoopOutOfFuel => LoopOutOfFuel
  end.

Definition iteration_map (f : Job -> Job) (i : Iteration) : Iteration :=
  match i with
  | Again l job w => Again l (f job) w
  | Ends e => Ends (end_map f e)
  end.

(** A result with its [include_tokens] entry replaced. *)
Definition with_include_tokens (b : bool) (entry : ResultEntry) : ResultEntry :=
  mkResult (eth_txs entry) (r_address entry) (r_start_block entry)
    (r_latest_block entry) (eth_total entry) (r_coverage_start entry)
    (r_coverage_end entry) (r_segments entry) b (token_txs entry).

(** [stb] is [st] but for the [include_tokens] flag of the job [job_id]
    and of results. *)
Definition same_but_flag (b : bool) (job_id : string) (st stb : Store) : Prop :=
  JOB_IDS stb = JOB_IDS st /\ RESULT_IDS stb = RESULT_IDS st /\
  (forall k, k <> job_id -> JOBS stb !! k = JOBS st !! k) /\
  JOBS stb !! job_id = set_include_tokens b <$> JOBS st !! job_id /\
  (forall rid,
     RESULTS_CACHE stb !! rid = RESULTS_CACHE st !! rid \/
     RESULTS_CACHE stb !! rid = with_include_tokens b <$> RESULTS_CACHE st !! rid).

(** The registries as the module starts with them. *)
Definition empty_store : Store := mkStore ∅ [] ∅ [].

(** The stores the endpoints and the background runs can produce, for
    any upstream, any stop requests and any identifiers. *)
Inductive reachable : Store -> Prop :=
| reach_empty : reachable empty_store
| reach_start uuid4 client_configured address start_block include_tokens max_pages
    page_size st w res st' w' :
    reachable st ->
    crawl_all_start uuid4 client_configured address start_block include_tokens
      max_pages page_size st w = (res, st', w') ->
    reachable st'
| reach_run client_page get_latest_block stop_signal uuid4 format_transaction fuel
    job_id st w st' w' :
    reachable st ->
    run_job client_page get_latest_block stop_signal uuid4 format_transaction fuel
      job_id st w
    = Finished st' w' ->
    reachable st'
| reach_stop job_id st res st' :
    reachable st -> crawl_stop job_id st = (res, st') -> reachable st'
| reach_resume job_id st res st' :
    reachable st -> crawl_resume job_id st = (res, st') -> reachable st'.

(** What keeps the registries bounded: the FIFO lists respect their
    limits and name every key of their registry. *)
Definition bounded (st : Store) : Prop :=
  len (JOB_IDS st) <= JOBS_SIZE_LIMIT /\
  (forall k, is_Some (JOBS st !! k) -> In k (JOB_IDS st)) /\
  len (RESULT_IDS st) <= CACHE_SIZE_LIMIT /\
  (forall k, is_Some (RESULTS_CACHE st !! k) -> In k (RESULT_IDS st)).

(** Sample worlds and upstreams. *)
Definition world0 : World := mkWorld [] 0 0 0.

Definition tx_at (h : string) (block time : Z) : Tx :=
  mkTx h block time "0xa" "0xb" 0 "21000" "1000000000".

Definition no_pages (n : nat) (q : Query) : Reply (list Tx) := Answer [].

(** An upstream whose every page is full, whatever its size. *)
Definition full_pages (n : nat) (q : Query) : Reply (list Tx) :=
  Answer (repeat (tx_at "0x01" 1 1) (Z.to_nat (offset q))).

Definition never_stop (n : nat) : bool := false.

(** [format_transaction] on records it has no trouble with. *)
Definition formats_all (tx : Tx) (address : string) : option string := None.

(** [format_transaction] where [time_t] has 64 bits, as far as the
    timestamp goes: [datetime.utcfromtimestamp] raises [OverflowError]
    on an integer that does not fit. *)
Definition time_t_64 (tx : Tx) (address : string) : option string :=
  if (timeStamp tx <? - 2 ^ 63) || (2 ^ 63 <=? timeStamp tx)
  then Some "timestamp out of range for platform time_t"
  else None.
Definition latest_is (b : Z) (n : nat) : Reply Z := Answer b.
Definition uuid_of (n : nat) : string :=
  "0000000000000000000000000000000" +:+ pretty n.


(** A fresh job over blocks 0 and up, with pages of 500 records. *)
Definition job_500 : Job := new_job "0xabc" 0 false 500 None.
Definition locals_of (job : Job) : Locals :=
  mkLocals (seg_start job) (window_blocks job) (pages_total job) (segments_done job).

(** A fresh job allowed one page of 50 records, alone in the registry. *)
Definition job_one_page : Job := new_job "0xabc" 0 false 50 (Some 1).
Definition store_one_page : Store :=
  mkStore {["job1" := job_one_page]} ["job1"] ∅ [].


(** A request for pages of 9999 records, made to the empty registry. *)
Definition created_9999 : (string + string) * Store * World :=
  crawl_all_start uuid_of true "0xabc" 0 false MaxPagesBlank 9999 empty_store world0.

(** A job paused after one segment [0 .. 99], alone in the registry. *)
Definition job_paused : Job :=
  pause_job (mkLocals 100 4096 1 1)
    (set_segments [mkSegment 0 99 1 0 false] (new_job "0xabc" 0 false 50 None)).
Definition store_paused : Store :=
  mkStore {["job1" := job_paused]} ["job1"] ∅ [].

(** A fresh job that asks for token transfers, alone in the registry. *)
Definition job_tokens : Job := new_job "0xabc" 0 true 50 None.
Definition store_tokens : Store :=
  mkStore {["job1" := job_tokens]} ["job1"] ∅ [].

(** An upstream with the same two transactions in every window. *)
Definition two_txs (n : nat) (q : Query) : Reply (list Tx) :=
  Answer [tx_at "0xbb" 7 70; tx_at "0xaa" 3 30].

(** What a finished drain returned. *)
Definition drained (f : Fetch) : WindowResult * World :=
  match f with
  | Fetched r w => (r, w)
  | _ => (mkWindowResult [] 0 false false false false, world0)
  end.

(** The first drain of [job_500] up to block 100 when the upstream has
    nothing, and the first drain of [job_one_page] when every page is
    full. *)
Definition drain_empty : WindowResult * World :=
  drained (fetch_txlist_window no_pages "0xabc" 0 100 500 0 None
             (Some (should_stop_check never_stop job_500)) MIN_WINDOW_BLOCKS 1
             (tick_polls world0)).

Definition drain_one_page : WindowResult * World :=
  drained (fetch_txlist_window full_pages "0xabc" 0 100 50 0 (Some 1)
             (Some (should_stop_check never_stop job_one_page)) MIN_WINDOW_BLOCKS 2
             (tick_polls world0)).

End MainSpec.

Module MoreSpec.
Import Main MainSpec.

(** The requests for the pages [first], [first + 1], ... of one window,
    [n] of them. *)
Definition page_queries (act : Action) (address : string)
    (start_blk end_blk page_size first : Z) (n : nat) : list Query :=
  map (fun i => mkQuery act address start_blk end_blk (first + Z.of_nat i) page_size)
    (seq 0 n).

(** How many page requests the world has seen. *)
Definition requested (w : World) : Z := len (requests w).

(** The request stays inside the blocks [lo .. latest], spans fewer
    than [MAX_WINDOW_BLOCKS] blocks and asks for a page from 1 on. *)
Definition in_window (latest lo : Z) (q : Query) : Prop :=
  lo <= startblock q /\ startblock q <= endblock q /\ endblock q <= latest /\
  endblock q - startblock q < MAX_WINDOW_BLOCKS /\ 1 <= page q.

(** The segments cover the blocks from [from] up to [next - 1] without
    gap or overlap, in order. *)
Fixpoint chain (from : Z) (segs : list Segment) (next : Z) : Prop :=
  match segs with
  | [] => from = next
  | s :: segs' => s_start s = from /\ s_start s <= s_end s /\ chain (s_end s + 1) segs' next
  end.

(** A job whose cursor continues its segments: what [crawl_all_start]
    creates and what every pause leaves. *)
Definition cursor_follows_segments (job : Job) : Prop :=
  chain (start_block job) (segments job) (seg_start job) /\
  coverage_end job = Some (seg_start job - 1).

(** The job as [run_job] has it when it enters the loop. *)
Definition started (latest_block : Z) (job : Job) : Job :=
  set_latest_block (Some latest_block)
    (set_error None (set_done false (set_paused false (set_running true job)))).

(** [d.get(k)] *)
Fixpoint dict_get {V} (d : dict V) (k : string) : option V :=
  match d with
  | [] => None
  | (k', v) :: d' => if String.eqb k' k then Some v else dict_get d' k
  end.

(** An accumulator as the crawl builds it: no key twice, every record
    under its own hash, no empty key. *)
Definition dict_wf (d : dict Tx) : Prop :=
  NoDup (dict_keys d) /\ Forall (fun kv => hash kv.2 = kv.1 /\ kv.1 <> "") d.

(** Ascending [(blockNumber, timeStamp)]. *)
Definition block_time_le (a b : Tx) : Prop :=
  blockNumber a < blockNumber b \/
  (blockNumber a = blockNumber b /\ timeStamp a <= timeStamp b).

(** The last record of [txs] with hash [h]. *)
Definition last_with_hash (h : string) (txs : list Tx) : option Tx :=
  find (fun tx => String.eqb (hash tx) h) (rev txs).

(** Two windows that overlap in the record "0xbb". *)
Definition window_a : list Tx := [tx_at "0xcc" 9 90; tx_at "0xbb" 7 70].
Definition window_b : list Tx := [tx_at "0xbb" 7 71; tx_at "0xaa" 3 30; tx_at "" 1 10].

(** The segments of [job] tile the blocks from [sb] up to [next - 1],
    and [next] lies between the cursor [lo] the run started from and the
    block after [latest]. *)
Definition tiled (sb lo latest : Z) (job : Job) (next : Z) : Prop :=
  start_block job = sb /\ chain sb (segments job) next /\
  lo <= next <= Z.max lo (latest + 1).

Section Provenance.

Variable client_page : nat -> Query -> Reply (list Tx).
Variable stop_signal : nat -> bool.

(** The segment [s] records a drain of the window [s_start s .. s_end s]
    for [job] that did not hit the cap, and [win] is what it collected. *)
Definition recorded (latest : Z) (job : Job) (s : Segment) (win : list Tx) : Prop :=
  exists fuel l j w r w',
    same_config job j /\
    fetch_txlist_window client_page (address j) (cur_seg_start l)
      (seg_end_of latest l) (page_size j) (cur_pages_total l) (max_pages_int j)
      (Some (should_stop_check stop_signal j)) MIN_WINDOW_BLOCKS fuel (tick_polls w)
    = Fetched r w' /\
    cap_hit r = false /\ win = window_txs r /\
    s = mkSegment (cur_seg_start l) (seg_end_of latest l) (pages_used r)
          (len (window_txs r)) false.

(** From [job0] to [job] the segments grew by recorded drains, and the
    accumulator by merging what those drains collected, in order. *)
Definition accumulated (latest : Z) (job0 job : Job) : Prop :=
  exists segs windows,
    segments job = (segments job0 ++ segs)%list /\
    Forall2 (recorded latest job0) segs windows /\
    seen_hashes job = fold_left merge_txs windows (seen_hashes job0).

(** The run of [job] met a drain that hit the cap on a window of at
    most [MIN_WINDOW_BLOCKS] blocks, the window size being
    [window_blocks]. *)
Definition cap_at_minimum (latest : Z) (job : Job) (window_blocks : Z) : Prop :=
  exists fuel l j w r w',
    same_config job j /\ cur_window_blocks l = window_blocks /\
    fetch_txlist_window client_page (address j) (cur_seg_start l)
      (seg_end_of latest l) (page_size j) (cur_pages_total l) (max_pages_int j)
      (Some (should_stop_check stop_signal j)) MIN_WINDOW_BLOCKS fuel (tick_polls w)
    = Fetched r w' /\
    cap_hit r = true /\
    seg_end_of latest l - cur_seg_start l + 1 <= MIN_WINDOW_BLOCKS.

End Provenance.

Section Turns.

Variable client_page : nat -> Query -> Reply (list Tx).
Variable stop_signal : nat -> bool.
Variable format_transaction : Tx -> string -> option string.

(** The loop of [run_job], entered with [fuel] in the state [l], [job],
    [w], goes round to the state [l'], [job'], [w'] with [fuel'] left. *)
Inductive turns_to (latest : Z) :
    nat -> Locals -> Job -> World -> nat -> Locals -> Job -> World -> Prop :=
| turns_here fuel l job w : turns_to latest fuel l job w fuel l job w
| turns_again fuel l job w l1 job1 w1 fuel' l' job' w' :
    cur_seg_start l <= latest ->
    iteration client_page stop_signal format_transaction fuel latest l job w
    = Again l1 job1 w1 ->
    turns_to latest fuel l1 job1 w1 fuel' l' job' w' ->
    turns_to latest (S fuel) l job w fuel' l' job' w'.

End Turns.

(** The run published its result: the job names it, the cache holds it
    unless that id was in use, and the job counts its records. *)
Definition published (latest : Z) (st st' : Store) (job' : Job) : Prop :=
  exists result_id,
    rid job' = Some result_id /\
    (~ In result_id (RESULT_IDS st) ->
     RESULTS_CACHE st' !! result_id = Some (result_of latest job')) /\
    eth_total_unique job' = eth_total (result_of latest job').

(** What a run left, or the registry and world it started from. *)
Definition finished (r : Run) (st : Store) (w : World) : Store * World :=
  match r with
  | Finished st' w' => (st', w')
  | _ => (st, w)
  end.

(** A run of the fresh job of [store_one_page] up to block 100 against
    an upstream with two transactions. *)
Definition run_two_txs : Store * World :=
  finished (run_job two_txs (latest_is 100) never_stop uuid_of formats_all 50 "job1"
              store_one_page world0)
    store_one_page world0.

(** The same run against an upstream whose pages are all full: the
    budget of one page stops it. *)
Definition run_full_pages : Store * World :=
  finished (run_job full_pages (latest_is 100) never_stop uuid_of formats_all 50 "job1"
              store_one_page world0)
    store_one_page world0.

(** A run of the job that asks for token transfers. *)
Definition run_tokens : Store * World :=
  finished (run_job two_txs (latest_is 100) never_stop uuid_of formats_all 50 "job1"
              store_tokens world0)
    store_tokens world0.

(** A run of the fresh job after [crawl_stop] asked it to stop. *)
Definition run_stopped : Run :=
  run_job two_txs (latest_is 100) never_stop uuid_of formats_all 1 "job1"
    (crawl_stop "job1" store_one_page).2 world0.

(** The inputs [crawl_all_start] turns down. *)
Definition rejected (client_configured : bool) (address : string) (start_block : Z)
    (max_pages : MaxPages) : Prop :=
  String.prefix "0x" address = false \/ start_block < 0 \/
  client_configured = false \/ max_pages = MaxPagesInvalid \/
  exists n, max_pages = MaxPagesInt n /\ n < 1.

(** The page budget [crawl_all_start] reads from [max_pages]. *)
Definition budget_of (max_pages : MaxPages) : option Z :=
  match max_pages with
  | MaxPagesInt n => Some n
  | _ => None
  end.

(** The pages read until a short one: all pages but the last hold at
    least [page_size] records, the last holds fewer. *)
Definition read_to_the_end (page_size : Z) (chunks : list (list Tx)) : Prop :=
  exists front short,
    chunks = (front ++ [short])%list /\ len short < page_size /\
    Forall (fun chunk => page_size <= len chunk) front.

(** The high-activity warning is on whenever the job's window is at
    most 1000 blocks. *)
Definition narrow_window_flagged (job : Job) : Prop :=
  window_blocks job <= 1000 -> high_activity job = true.

(** The warning of [job] is on in [job'] too, with the reason it had. *)
Definition warning_kept (job job' : Job) : Prop :=
  high_activity job = true ->
  high_activity job' = true /\ high_activity_reason job' = high_activity_reason job.

(** A job paused at block 40 after one segment, with its window reduced
    to 500 blocks and the warning raised; and its run to the end. *)
Definition job_flagged : Job :=
  pause_job (mkLocals 40 500 20 1)
    (flag_high_activity true (window_reduced_msg 500)
       (set_segments [mkSegment 0 39 20 0 false] (new_job "0xabc" 0 false 50 None))).
Definition store_flagged : Store :=
  mkStore {["job1" := job_flagged]} ["job1"] ∅ [].

Definition run_flagged : Store * World :=
  finished (run_job two_txs (latest_is 100) never_stop uuid_of formats_all 50 "job1"
              store_flagged world0)
    store_flagged world0.

(** A stop request that arrives after the first check, and a run of
    the fresh job that meets it during its first drain. *)
Definition stop_after_first_check (n : nat) : bool := (1 <=? n)%nat.

Definition run_interrupted : Store * World :=
  finished (run_job two_txs (latest_is 100) stop_after_first_check uuid_of formats_all 50 "job1"
              store_one_page world0)
    store_one_page world0.

(** What a run needs of its job: the cursor continues the segments
    and the coverage, the accumulator holds no hash twice, the window
    and the page size are in range, no token record was collected, and
    a narrow window is flagged. *)
Record ready (job : Job) : Prop := {
  ready_chain : chain (start_block job) (segments job) (seg_start job);
  ready_coverage : coverage_end job = Some (seg_start job - 1);
  ready_seen : dict_wf (seen_hashes job);
  ready_window : MIN_WINDOW_BLOCKS <= window_blocks job <= MAX_WINDOW_BLOCKS;
  ready_page_size : 50 <= page_size job <= 500;
  ready_tokens : token_seen_hashes job = [];
  ready_warning : narrow_window_flagged job
}.

(** The segments of [job] cover the blocks from [start_block] up to
    the cursor, or up to the end of a last segment that starts at the
    cursor: the cursor was not moved behind that segment. *)
Definition segments_to_cursor (job : Job) : Prop :=
  chain (start_block job) (segments job) (seg_start job) \/
  exists s,
    last (segments job) = Some s /\ s_start s = seg_start job /\
    chain (start_block job) (segments job) (s_end s + 1).

(** What holds of every job between requests: as [ready], the coverage
    for a job that is not done, and the cursor behind the segments
    unless the run was ended by an exception; and no job is running, or
    both paused and done. *)
Record well_formed (job : Job) : Prop := {
  wf_chain : segments_to_cursor job;
  wf_cursor :
    done job = false \/ (forall str_e, error job <> Some ("Error: " +:+ str_e)) ->
    chain (start_block job) (segments job) (seg_start job);
  wf_coverage : done job = false -> coverage_end job = Some (seg_start job - 1);
  wf_seen : dict_wf (seen_hashes job);
  wf_window : MIN_WINDOW_BLOCKS <= window_blocks job <= MAX_WINDOW_BLOCKS;
  wf_page_size : 50 <= page_size job <= 500;
  wf_tokens : token_seen_hashes job = [];
  wf_warning : narrow_window_flagged job;
  wf_idle : running job = false;
  wf_paused : paused job = true -> done job = false
}.

(** The registries the server can hold between requests, a run being
    taken as one step with the request that starts its thread; the stop
    requests that arrive during a run are its [stop_signal]. *)
Inductive served : Store -> Prop :=
| served_empty : served empty_store
| served_start client_page get_latest_block stop_signal uuid4 format_transaction fuel
    client_configured address start_block include_tokens max_pages page_size
    st w st' w' :
    served st ->
    crawl_all_start_and_run client_page get_latest_block stop_signal uuid4
      format_transaction fuel client_configured address start_block include_tokens
      max_pages page_size st w
    = Finished st' w' ->
    served st'
| served_resume client_page get_latest_block stop_signal uuid4 format_transaction fuel
    job_id st w st' w' :
    served st ->
    crawl_resume_and_run client_page get_latest_block stop_signal uuid4
      format_transaction fuel job_id st w
    = Finished st' w' ->
    served st'
| served_stop job_id st res st' :
    served st -> crawl_stop job_id st = (res, st') -> served st'.

(** The loop turns and page reads that suffice for the run of a job
    [crawl_all_start] created. *)
Definition created_fuel : nat := Z.to_nat 20019.

(** The fresh job [job_500], alone in the registry. *)
Definition store_500 : Store := mkStore {["job1" := job_500]} ["job1"] ∅ [].

(** An upstream whose every window holds one record, stamped with the
    second 2^63. *)
Definition late_record (n : nat) (q : Query) : Reply (list Tx) :=
  Answer [tx_at "0xdd" 5 (2 ^ 63)].

(** An upstream that cannot be reached. *)
Definition fails_always (n : nat) (q : Query) : Reply (list Tx) :=
  Fails "connection reset".

(** The first drain of the run of [job_one_page] up to block 100 when
    every page is full, and the first drain of [job_500] when the window
    holds two transactions. *)
Definition drain_budget : WindowResult * World :=
  drained (fetch_txlist_window full_pages "0xabc" 0 100 50 0 (Some 1)
             (Some (should_stop_check never_stop (started 100 job_one_page)))
             MIN_WINDOW_BLOCKS 2 (tick_polls (tick_blocks world0))).

Definition drain_two_txs : WindowResult * World :=
  drained (fetch_txlist_window two_txs "0xabc" 0 100 500 0 None
             (Some (should_stop_check never_stop job_500)) MIN_WINDOW_BLOCKS 1
             (tick_polls world0)).

(** The registries after one request to the empty server: a job over
    the blocks 0 to 100 against an upstream with two transactions. *)
Definition served_once : Store * World :=
  finished (crawl_all_start_and_run two_txs (latest_is 100) never_stop uuid_of formats_all
              created_fuel true "0xabc" 0 false MaxPagesBlank 200 empty_store world0)
    empty_store world0.

(** The same request when the window holds the record stamped 2^63 and
    [time_t] has 64 bits; when the upstream cannot be reached; and, with
    a thousand million blocks to crawl, when the upstream has nothing. *)
Definition served_late_record : Store * World :=
  finished (crawl_all_start_and_run late_record (latest_is 100) never_stop uuid_of
              time_t_64 created_fuel true "0xabc" 0 false MaxPagesBlank 200
              empty_store world0)
    empty_store world0.

Definition served_unreachable : Store * World :=
  finished (crawl_all_start_and_run fails_always (latest_is 100) never_stop uuid_of
              formats_all created_fuel true "0xabc" 0 false MaxPagesBlank 200
              empty_store world0)
    empty_store world0.

Definition served_long_range : Store * World :=
  finished (crawl_all_start_and_run no_pages (latest_is 1000000000) never_stop uuid_of
              formats_all created_fuel true "0xabc" 0 false MaxPagesBlank 200
              empty_store world0)
    empty_store world0.

End MoreSpec.

(** ** Statements about [crawl_all_by_block_splitting] *)

Module SplittingSpec.
Import Etherscan Main Splitting MainSpec.

(** Ascending block number. *)
Definition block_le (a b : Tx) : Prop := blockNumber a <= blockNumber b.

(** The call asks for blocks of [lo .. hi] and for a page from 1 on. *)
Definition within (lo hi : Z) (a : Asked) : Prop :=
  lo <= a_sb a /\ a_eb a <= hi /\ 1 <= a_page a.

(** An answer with status "1" and the records [items]. *)
Definition page_of (items : list Tx) : JsonData :=
  mkJson (Some (JStr "1")) (Some (JStr "OK")) (Some (JArr items)).

(** The answer makes [fetch_range] ask again: status "1" and exactly
    [offset] records. *)
Definition is_full (offset : Z) (r : Result) : Prop :=
  exists data items,
    r = Returns data /\ status_not_1 data = false /\
    result data = Some (JArr items) /\ len items = offset.

(** The accumulator and the log a call of [fetch_range] leaves. *)
Definition end_acc (o : Outcome) : Acc :=
  match o with
  | Done acc | Fault _ acc => acc
  end.

Section Provenance.

Variable fetch_fn : nat -> Z -> Z -> Z -> Result.

(** The record was in the answer to one of the calls [log]. *)
Definition came_from (log : list Asked) (tx : Tx) : Prop :=
  exists n a data items,
    nth_error log n = Some a /\
    fetch_fn n (a_sb a) (a_eb a) (a_page a) = Returns data /\
    status_not_1 data = false /\ result data = Some (JArr items) /\ In tx items.

End Provenance.

(** Nested calls that suffice for a range [sb .. eb] when no range of
    one or two blocks has a full page [last_page] or a later one: one
    for each halving and one for each page. *)
Definition frames_for (sb eb last_page : Z) : nat :=
  Z.to_nat (Z.log2 (Z.max 1 (eb - sb)) + Z.max 1 last_page).

(** An upstream with three records in three blocks, which gives at most
    two records for a call. *)
Definition three_blocks (n : nat) (sb eb page : Z) : Result :=
  Returns (page_of
    (firstn 2
       (filter (fun tx => (sb <=? blockNumber tx) && (blockNumber tx <=? eb))
          [tx_at "0xa1" 1 10; tx_at "0xa2" 2 20; tx_at "0xa3" 3 30]))).

(** An upstream that answers every call with the same full page of two. *)
Definition same_full_page (n : nat) (sb eb page : Z) : Result :=
  Returns (page_of [tx_at "0xa1" 1 10; tx_at "0xa2" 1 10]).

(** An upstream whose first page is full, of two records, for every
    range, and whose later pages are empty. *)
Definition one_full_page (n : nat) (sb eb page : Z) : Result :=
  if page =? 1
  then Returns (page_of [tx_at "0xa1" sb 10; tx_at "0xa2" eb 20])
  else Returns (page_of []).

End SplittingSpec.

(** * Proofs: the transport client *)

Module EtherscanProofs.
Import Etherscan EtherscanSpec.

(** A retry condition met before the last attempt leads to a sleep of
    [backoff_times[attempt]] and another attempt. *)
Lemma retry_condition_continues r attempt le lr :
  (attempt < 2)%nat -> retry_condition r = true ->
  exists le' lr',
    attempt_body r attempt le lr = Continue (nth attempt backoff_times 0) le' lr'.
Proof.
  intros Hlt Hr.
  assert (Hretry : (attempt <? max_attempts - 1)%nat = true)
    by (apply Nat.ltb_lt; unfold max_attempts; lia).
  destruct r as [e|e|[[code text]|] e|e|text [d|]]; simpl in Hr; try discriminate;
    unfold attempt_body; rewrite Hretry.
  - eauto.
  - eauto.
  - rewrite Hr. eauto.
  - destruct (message_lower d) as [m|attribute_error].
    + unfold is_notok. rewrite Hr. simpl.
      destruct (is_rate_limit d m); simpl; eauto.
    + unfold except_Exception. rewrite Hretry. eauto.
  - eauto.
Qed.

(** What the last attempt does with a retry condition. *)
Lemma retry_condition_last r le lr :
  retry_condition r = true ->
  attempt_body r 2 le lr =
  match r with
  | RaisesTimeout e =>
      Raise (RuntimeError
        ("Etherscan API request timed out after 3 attempts. Last error: " +:+ e))
  | RaisesConnectionError e =>
      Raise (RuntimeError
        ("Etherscan API connection failed after 3 attempts. Last error: " +:+ e))
  | RaisesHTTPError (Some (_, text)) _ =>
      Raise (RuntimeError
        ("Etherscan API returned HTTP 429 after 3 attempts. Last response: "
           +:+ take_str 200 text))
  | Ok2xx text None =>
      Raise (RuntimeError
        ("Etherscan API request failed after 3 attempts. Last error: "
           +:+ "Etherscan API returned invalid JSON after 3 attempts. Last response: "
           +:+ take_str 200 text))
  | Ok2xx _ (Some d) =>
      match message_lower d with
      | inl _ => Return d
      | inr attribute_error =>
          Raise (RuntimeError
            ("Etherscan API request failed after 3 attempts. Last error: "
               +:+ attribute_error))
      end
  | r => attempt_body r 2 le lr
  end.
Proof.
  intros Hr.
  destruct r as [e|e|[[code text]|] e|e|text [d|]]; simpl in Hr; try discriminate;
    try reflexivity.
  - unfold attempt_body. rewrite Hr. reflexivity.
  - unfold attempt_body.
    destruct (message_lower d) as [m|attribute_error]; [|reflexivity].
    simpl. rewrite !andb_false_r. reflexivity.
Qed.

(** An HTTP error other than 429 is re-raised by whichever attempt meets it. *)
Lemma other_http_error_raises r attempt le lr :
  other_http_error r = true ->
  exists response e,
    r = RaisesHTTPError response e /\
    attempt_body r attempt le lr = Raise (HTTPError response e).
Proof.
  destruct r as [e|e|[[code text]|] e|e|text [d|]]; simpl; try discriminate.
  - intros Hc. exists (Some (code, text)), e. split; [reflexivity|].
    destruct (code =? 429); [discriminate|reflexivity].
  - intros _. exists None, e. split; reflexivity.
Qed.

(** C3, as the specification states it, fails: when every attempt
    answers with a not-OK status, the third answer is returned to the
    caller instead of an error being raised. *)
Lemma get_not_always_raising :
  ~ (forall net : nat -> Response,
       (forall attempt, (attempt < 3)%nat -> retry_condition (net attempt) = true) ->
       exists e, snd (_get net) = Raises e).
Proof.
  intros H. destruct (H always_not_ok) as [e He].
  - intros attempt _. reflexivity.
  - vm_compute in He. discriminate He.
Qed.

(** C3 (amended): when all three attempts meet a retry condition, [_get]
    makes exactly three requests, sleeping 1s and then 2s between them.
    It then raises a [RuntimeError] carrying the last exception or the
    first 200 characters of the last body when the third attempt timed
    out, failed to connect, got HTTP 429, got a body that is not JSON or
    got a decoded answer whose message is not text; it returns the
    decoded answer when the third attempt got a not-OK status that is
    not a rate-limit signal.  An HTTP error other than 429 is re-raised
    by the attempt that meets it, with no sleep and no further
    request. *)
Theorem get_after_three_retry_conditions (net : nat -> Response) :
  ((forall attempt, (attempt < 3)%nat -> retry_condition (net attempt) = true) ->
   fst (_get net) = [Request 0; Sleep 1; Request 1; Sleep 2; Request 2] /\
   match net 2%nat with
   | RaisesTimeout e =>
       snd (_get net) = Raises (RuntimeError
         ("Etherscan API request timed out after 3 attempts. Last error: " +:+ e))
   | RaisesConnectionError e =>
       snd (_get net) = Raises (RuntimeError
         ("Etherscan API connection failed after 3 attempts. Last error: " +:+ e))
   | RaisesHTTPError (Some (_, text)) _ =>
       snd (_get net) = Raises (RuntimeError
         ("Etherscan API returned HTTP 429 after 3 attempts. Last response: "
            +:+ take_str 200 text))
   | Ok2xx text None =>
       snd (_get net) = Raises (RuntimeError
         ("Etherscan API request failed after 3 attempts. Last error: "
            +:+ "Etherscan API returned invalid JSON after 3 attempts. Last response: "
            +:+ take_str 200 text))
   | Ok2xx _ (Some d) =>
       match message_lower d with
       | inr attribute_error =>
           snd (_get net) = Raises (RuntimeError
             ("Etherscan API request failed after 3 attempts. Last error: "
                +:+ attribute_error))
       | inl message =>
           is_rate_limit d message = false -> snd (_get net) = Returns d
       end
   | RaisesHTTPError None _ | RaisesOther _ => False
   end) /\
  (forall k,
     (k < 3)%nat ->
     (forall attempt, (attempt < k)%nat -> retry_condition (net attempt) = true) ->
     other_http_error (net k) = true ->
     (exists response e,
        net k = RaisesHTTPError response e /\
        snd (_get net) = Raises (HTTPError response e)) /\
     List.length (filter is_request (fst (_get net))) = S k /\
     last (fst (_get net)) = Some (Request k)).
Proof.
  split.
  - intros H.
    destruct (retry_condition_continues (net 0%nat) 0 None None) as (le1 & lr1 & E0);
      [lia | apply H; lia |].
    destruct (retry_condition_continues (net 1%nat) 1 le1 lr1) as (le2 & lr2 & E1);
      [lia | apply H; lia |].
    pose proof (retry_condition_last (net 2%nat) le2 lr2 (H 2%nat ltac:(lia))) as E2.
    unfold _get. simpl seq. cbn [get_loop]. rewrite E0, E1, E2.
    destruct (net 2%nat) as [e|e|[[code text]|] e|e|text [d|]] eqn:En;
      try (split; reflexivity);
      try (specialize (H 2%nat ltac:(lia)); rewrite En in H; discriminate H).
    destruct (message_lower d) as [m|attribute_error]; split; reflexivity.
  - intros k Hk Hprev Hhttp.
    destruct k as [|[|[|k]]]; [| | |lia].
    + destruct (other_http_error_raises _ 0%nat None None Hhttp) as (resp & e & En & E0).
      unfold _get. simpl seq. cbn [get_loop]. rewrite E0. simpl.
      split; [eauto|split; reflexivity].
    + destruct (retry_condition_continues (net 0%nat) 0 None None) as (le1 & lr1 & E0);
        [lia | apply Hprev; lia |].
      destruct (other_http_error_raises _ 1%nat le1 lr1 Hhttp) as (resp & e & En & E1).
      unfold _get. simpl seq. cbn [get_loop]. rewrite E0, E1. simpl.
      split; [eauto|split; reflexivity].
    + destruct (retry_condition_continues (net 0%nat) 0 None None) as (le1 & lr1 & E0);
        [lia | apply Hprev; lia |].
      destruct (retry_condition_continues (net 1%nat) 1 le1 lr1) as (le2 & lr2 & E1);
        [lia | apply Hprev; lia |].
      destruct (other_http_error_raises _ 2%nat le2 lr2 Hhttp) as (resp & e & En & E2).
      unfold _get. simpl seq. cbn [get_loop]. rewrite E0, E1, E2. simpl.
      split; [eauto|split; reflexivity].
Qed.

(** The theorem at work: three timeouts; three answers "No transactions
    found"; three not-OK answers with a [null] message; and a timeout
    followed by HTTP 500. *)
Lemma get_after_three_retry_conditions_witness :
  (fst (_get always_timeout) = [Request 0; Sleep 1; Request 1; Sleep 2; Request 2] /\
   snd (_get always_timeout) =
   Raises (RuntimeError
     "Etherscan API request timed out after 3 attempts. Last error: read timed out")) /\
  snd (_get always_not_ok) = Returns no_transactions /\
  snd (_get always_null_message) =
  Raises (RuntimeError
    "Etherscan API request failed after 3 attempts. Last error: 'NoneType' object has no attribute 'lower'") /\
  List.length (filter is_request (fst (_get timeout_then_500))) = 2%nat.
Proof.
  split; [|split; [|split]].
  - apply (proj1 (get_after_three_retry_conditions always_timeout)).
    intros attempt _. reflexivity.
  - apply (proj2 (proj1 (get_after_three_retry_conditions always_not_ok)
                    (fun attempt _ => eq_refl))).
    reflexivity.
  - apply (proj2 (proj1 (get_after_three_retry_conditions always_null_message)
                    (fun attempt _ => eq_refl))).
  - apply (proj2 (get_after_three_retry_conditions timeout_then_500) 1%nat).
    + lia.
    + intros attempt Hlt. destruct attempt; [reflexivity | lia].
    + reflexivity.
Defined.

End EtherscanProofs.

(** * Proofs: the window drain *)

Module WindowProofs.
Import Main MainSpec.

Lemma len_app {A} (l1 l2 : list A) : len (l1 ++ l2) = len l1 + len l2.
Proof. unfold len. rewrite length_app. lia. Qed.

Lemma len_nonneg {A} (l : list A) : 0 <= len l.
Proof. unfold len. lia. Qed.

Section Drain.

Variable client_page : nat -> Query -> Reply (list Tx).
Variables (act : Action) (address : string) (start_blk end_blk page_size : Z)
          (pages_total : Z) (max_pages_int : option Z)
          (should_stop : option (World -> bool * World)) (min_window_blocks : Z).

Local Abbreviation fetch_page :=
  (fetch_page client_page act address start_blk end_blk page_size pages_total
     max_pages_int should_stop min_window_blocks).
Local Abbreviation fetch_loop :=
  (fetch_loop client_page act address start_blk end_blk page_size pages_total
     max_pages_int should_stop min_window_blocks).
Local Abbreviation fetch_window :=
  (fetch_window client_page act address start_blk end_blk page_size pages_total
     max_pages_int should_stop min_window_blocks).

Local Abbreviation over_budget := (over_budget pages_total max_pages_int).
Local Abbreviation receives :=
  (receives client_page act address start_blk end_blk page_size pages_total
     max_pages_int should_stop).
Local Abbreviation cap_reached := (cap_reached page_size).

Lemma fetch_page_receives mp collected current_page w chunk w' :
  receives current_page w chunk w' ->
  fetch_page mp collected current_page w =
  if len chunk <? page_size
  then FetchEnd (Fetched (mkWindowResult (collected ++ chunk) current_page
                            false false false false) w')
  else if ((mp <? current_page + 1) && (len chunk =? page_size))
          || (MAX_RECORDS_PER_QUERY <=? len (collected ++ chunk))
  then FetchEnd (Fetched (mkWindowResult (collected ++ chunk) (current_page + 1)
                            true false false
                            (end_blk - start_blk + 1 <=? min_window_blocks)) w')
  else NextPage (collected ++ chunk) (current_page + 1) w'.
Proof.
  intros (w1 & Hs1 & Hb & Hq & Hs2).
  unfold Main.fetch_page. rewrite Hs1. unfold MainSpec.over_budget in Hb. rewrite Hb, Hq, Hs2.
  reflexivity.
Qed.

Lemma cap_reached_spec mp collected chunk current_page :
  ((mp <? current_page + 1) && (len chunk =? page_size))
  || (MAX_RECORDS_PER_QUERY <=? len (collected ++ chunk)) = true
  <-> cap_reached mp collected chunk current_page.
Proof.
  unfold MainSpec.cap_reached.
  rewrite orb_true_iff, andb_true_iff, Z.ltb_lt, Z.eqb_eq, Z.leb_le. reflexivity.
Qed.

(** What every turn of the loop leaves in the flags of the result. *)
Lemma fetch_page_flags mp collected current_page w r w' :
  fetch_page mp collected current_page w = FetchEnd (Fetched r w') ->
  cap_unresolvable r
  = cap_hit r && (end_blk - start_blk + 1 <=? min_window_blocks) /\
  (cap_hit r = true ->
   paused_hit r = false /\ window_truncated r = false /\
   (mp < pages_used r \/ MAX_RECORDS_PER_QUERY <= len (window_txs r))).
Proof.
  unfold Main.fetch_page.
  destruct (call_should_stop should_stop w) as [stop1 w1].
  destruct stop1; [intros [= <- <-]; simpl; split; [reflexivity|discriminate]|].
  destruct (match max_pages_int with Some m => m <? pages_total + current_page
                                | None => false end);
    [intros [= <- <-]; simpl; split; [reflexivity|discriminate]|].
  destruct (client_page _ _) as [chunk|e]; [|discriminate].
  destruct (call_should_stop should_stop _) as [stop2 w2].
  destruct stop2; [intros [= <- <-]; simpl; split; [reflexivity|discriminate]|].
  destruct (len chunk <? page_size);
    [intros [= <- <-]; simpl; split; [reflexivity|discriminate]|].
  destruct (_ || _) eqn:Hcap; [|discriminate].
  intros [= <- <-]; simpl. split; [reflexivity|]. intros _.
  apply orb_true_iff in Hcap as [Hcap|Hcap].
  - apply andb_true_iff in Hcap as [Hcap _]. apply Z.ltb_lt in Hcap. auto.
  - apply Z.leb_le in Hcap. auto.
Qed.

Lemma fetch_loop_flags fuel mp collected current_page w r w' :
  fetch_loop fuel mp collected current_page w = Fetched r w' ->
  cap_unresolvable r
  = cap_hit r && (end_blk - start_blk + 1 <=? min_window_blocks) /\
  (cap_hit r = true ->
   paused_hit r = false /\ window_truncated r = false /\
   (mp < pages_used r \/ MAX_RECORDS_PER_QUERY <= len (window_txs r))).
Proof.
  revert collected current_page w.
  induction fuel as [|fuel IH]; intros collected current_page w; simpl; [discriminate|].
  destruct (fetch_page mp collected current_page w) as [c p w1|f] eqn:Hstep.
  - apply IH.
  - intros ->. eapply fetch_page_flags, Hstep.
Qed.

Lemma fetch_window_flags fuel w r w' :
  fetch_window fuel w = Fetched r w' ->
  cap_unresolvable r
  = cap_hit r && (end_blk - start_blk + 1 <=? min_window_blocks) /\
  (cap_hit r = true ->
   paused_hit r = false /\ window_truncated r = false /\
   (max_pages_for page_size < pages_used r
    \/ MAX_RECORDS_PER_QUERY <= len (window_txs r))).
Proof.
  unfold Main.fetch_window. destruct (page_size =? 0); [discriminate|].
  apply fetch_loop_flags.
Qed.

(** [max_pages_for] is the ceiling of [10000 / page_size]. *)
Lemma max_pages_is_ceiling :
  (0 < page_size ->
   (max_pages_for page_size - 1) * page_size < MAX_RECORDS_PER_QUERY
     <= max_pages_for page_size * page_size) /\
  (page_size < 0 ->
   max_pages_for page_size * page_size <= MAX_RECORDS_PER_QUERY
     < (max_pages_for page_size - 1) * page_size).
Proof.
  unfold max_pages_for. split; intros Hsign.
  - pose proof (Z.div_mod (- MAX_RECORDS_PER_QUERY) page_size ltac:(lia)) as Hdm.
    pose proof (Z.mod_pos_bound (- MAX_RECORDS_PER_QUERY) page_size Hsign) as Hm.
    nia.
  - pose proof (Z.div_mod (- MAX_RECORDS_PER_QUERY) page_size ltac:(lia)) as Hdm.
    pose proof (Z.mod_neg_bound (- MAX_RECORDS_PER_QUERY) page_size Hsign) as Hm.
    nia.
Qed.

Local Abbreviation drained_to :=
  (drained_to client_page act address start_blk end_blk page_size pages_total
     max_pages_int should_stop).

(** The turns a drain has made are the first turns of [fetch_loop]. *)
Lemma drained_to_loop w0 collected current_page w :
  drained_to w0 collected current_page w ->
  1 <= current_page /\
  forall fuel,
    fetch_loop (Z.to_nat (current_page - 1) + fuel) (max_pages_for page_size) [] 1 w0
    = fetch_loop fuel (max_pages_for page_size) collected current_page w.
Proof.
  induction 1 as [|collected current_page w chunk w' _ [Hpage IH] Hrecv Hfull Hcap].
  - split; [lia|]. intros fuel. reflexivity.
  - split; [lia|]. intros fuel.
    replace (Z.to_nat (current_page + 1 - 1) + fuel)%nat
      with (Z.to_nat (current_page - 1) + S fuel)%nat by lia.
    rewrite IH. simpl.
    rewrite (fetch_page_receives _ _ _ _ _ _ Hrecv).
    assert (Hnot : (len chunk <? page_size) = false) by (apply Z.ltb_ge; lia).
    rewrite Hnot.
    destruct (_ || _) eqn:E; [|reflexivity].
    apply cap_reached_spec in E. contradiction.
Qed.

(** C1: [max_pages_for page_size] is [ceil(10000 / page_size)], and at
    every turn of the drain of [fetch_window] that receives a page: a
    page shorter than [page_size] ends the drain with no flag set;
    otherwise the page index advances, and the drain ends with [cap_hit]
    set exactly when the new index exceeds [ceil(10000 / page_size)]
    while the page just received holds [page_size] records, or when at
    least 10000 records have been collected for the window;
    [cap_unresolvable] is set with it exactly when
    [end_blk - start_blk + 1 <= min_window_blocks]; when neither holds
    the drain goes on to the next page.  Accordingly, in the result of
    any drain [cap_unresolvable] is [cap_hit] and the window being at
    most [min_window_blocks] wide, and [cap_hit] comes with neither
    [paused_hit] nor [truncated]. *)
Theorem fetch_window_cap_detection
    (w0 : World) (collected : list Tx) (current_page : Z) (w w' : World)
    (chunk : list Tx) :
  page_size <> 0 ->
  drained_to w0 collected current_page w ->
  receives current_page w chunk w' ->
  let mp := max_pages_for page_size in
  let turns := Z.to_nat (current_page - 1) in
  ((0 < page_size ->
    (mp - 1) * page_size < MAX_RECORDS_PER_QUERY <= mp * page_size) /\
   (page_size < 0 ->
    mp * page_size <= MAX_RECORDS_PER_QUERY < (mp - 1) * page_size)) /\
  (len chunk < page_size ->
   forall fuel,
     fetch_window (turns + S fuel) w0 =
     Fetched (mkWindowResult (collected ++ chunk) current_page
                false false false false) w') /\
  (page_size <= len chunk ->
   (cap_reached mp collected chunk current_page ->
    forall fuel,
      fetch_window (turns + S fuel) w0 =
      Fetched (mkWindowResult (collected ++ chunk) (current_page + 1)
                 true false false (end_blk - start_blk + 1 <=? min_window_blocks))
        w') /\
   (~ cap_reached mp collected chunk current_page ->
    drained_to w0 (collected ++ chunk) (current_page + 1) w' /\
    forall fuel,
      fetch_window (turns + S fuel) w0 =
      fetch_loop fuel mp (collected ++ chunk) (current_page + 1) w')) /\
  (forall fuel0 r w1,
     fetch_window fuel0 w0 = Fetched r w1 ->
     (cap_unresolvable r = true <->
      cap_hit r = true /\ end_blk - start_blk + 1 <= min_window_blocks) /\
     (cap_hit r = true ->
      paused_hit r = false /\ window_truncated r = false /\
      (mp < pages_used r \/ MAX_RECORDS_PER_QUERY <= len (window_txs r)))).
Proof.
  intros Hsize Hturns Hrecv mp turns.
  pose proof (fetch_page_receives mp collected current_page w chunk w' Hrecv) as Hstep.
  destruct (drained_to_loop _ _ _ _ Hturns) as [_ Hloop].
  assert (Hwin : forall fuel,
             fetch_window (turns + S fuel) w0
             = fetch_loop (S fuel) mp collected current_page w).
  { intros fuel. unfold Main.fetch_window.
    apply Z.eqb_neq in Hsize. rewrite Hsize. apply Hloop. }
  split; [exact max_pages_is_ceiling|]. split; [|split].
  - intros Hshort fuel. rewrite Hwin. simpl. rewrite Hstep.
    apply Z.ltb_lt in Hshort. rewrite Hshort. reflexivity.
  - intros Hfull.
    assert (Hnot : (len chunk <? page_size) = false) by (apply Z.ltb_ge; lia).
    split.
    + intros Hcap fuel. rewrite Hwin. simpl. rewrite Hstep, Hnot.
      apply cap_reached_spec in Hcap. rewrite Hcap. reflexivity.
    + intros Hcap. split; [apply drain_turn with (w := w); assumption|].
      intros fuel. rewrite Hwin. simpl. rewrite Hstep, Hnot.
      destruct (_ || _) eqn:E; [|reflexivity].
      apply cap_reached_spec in E. contradiction.
  - intros fuel0 r w1 Hrun. apply fetch_window_flags in Hrun as [Hun Hcap].
    split; [|exact Hcap].
    rewrite Hun, andb_true_iff, Z.leb_le. reflexivity.
Qed.

End Drain.

(** An upstream with 60 records in a window, read in pages of 50. *)
Definition sixty_records (n : nat) (q : Query) : Reply (list Tx) :=
  Answer (repeat (tx_at "0x01" 1 1) (if page q =? 1 then 50 else 10)).

(** The theorem at work: when the window holds 60 records, the first
    page of 50 does not end the drain and the second, of 10, ends it
    with no flag; a full first page of 10000 records ends the drain of
    the single block 7 with both flags. *)
Lemma fetch_window_cap_detection_witness :
  (forall fuel,
     fetch_window sixty_records txlist "0xabc" 0 99 50 0 None None 1 (1 + S fuel) world0
     = Fetched (mkWindowResult (repeat (tx_at "0x01" 1 1) 60) 2 false false false false)
         (log_request (mkQuery txlist "0xabc" 0 99 2 50)
            (log_request (mkQuery txlist "0xabc" 0 99 1 50) world0))) /\
  (forall fuel,
     fetch_window full_pages txlist "0xabc" 7 7 10000 0 None None 1 (0 + S fuel) world0
     = Fetched (mkWindowResult ([] ++ repeat (tx_at "0x01" 1 1) (Z.to_nat 10000)) (1 + 1)
                  true false false true)
         (log_request (mkQuery txlist "0xabc" 7 7 1 10000) world0)).
Proof.
  split.
  - assert (Hfirst : drained_to sixty_records txlist "0xabc" 0 99 50 0 None None world0
                       ([] ++ repeat (tx_at "0x01" 1 1) 50) (1 + 1)
                       (log_request (mkQuery txlist "0xabc" 0 99 1 50) world0)).
    { apply drain_turn with (w := world0).
      - apply drain_start.
      - exists world0. repeat split.
      - vm_compute. discriminate.
      - intros [[H _]|H]; vm_compute in H; [discriminate H | apply H; reflexivity]. }
    apply (proj1 (proj2 (fetch_window_cap_detection sixty_records txlist "0xabc" 0 99
                           50 0 None None 1 world0 _ _ _ _
                           (repeat (tx_at "0x01" 1 1) 10)
                           ltac:(discriminate) Hfirst
                           (ex_intro _ _
                              (conj eq_refl (conj eq_refl (conj eq_refl eq_refl))))))).
    reflexivity.
  - apply (proj1 (proj1 (proj2 (proj2
             (fetch_window_cap_detection full_pages txlist "0xabc" 7 7 10000 0 None
                None 1 world0 [] 1 world0 _
                (repeat (tx_at "0x01" 1 1) (Z.to_nat 10000))
                ltac:(discriminate)
                (drain_start _ _ _ _ _ _ _ _ _ _)
                (ex_intro _ world0
                   (conj eq_refl (conj eq_refl (conj eq_refl eq_refl)))))))
             ltac:(vm_compute; discriminate))).
    right. vm_compute. discriminate.
Defined.

End WindowProofs.

(** * Proofs: the crawl loop *)

Module CrawlProofs.
Import Main MainSpec WindowProofs.

(** Settles goals about the fields of an updated job. *)
Ltac job_fields :=
  unfold pause_job, fail_job, flag_high_activity;
  repeat match goal with
         | |- context [if ?c then _ else _] => destruct c
         | |- context [match last ?s with _ => _ end] => destruct (last s)
         end;
  simpl; auto.

Section Loop.

Variable client_page : nat -> Query -> Reply (list Tx).
Variable stop_signal : nat -> bool.
Variable format_transaction : Tx -> string -> option string.

Local Abbreviation iteration := (iteration client_page stop_signal format_transaction).
Local Abbreviation crawl_loop := (crawl_loop client_page stop_signal format_transaction).
Local Abbreviation reaches_drain := (reaches_drain client_page stop_signal).

(** ** Every drain ends *)

Section Drain.

Variables (act : Action) (address : string) (start_blk end_blk page_size : Z)
          (pages_total : Z) (max_pages_int : option Z)
          (should_stop : option (World -> bool * World)) (min_window_blocks : Z).

Local Abbreviation fetch_page :=
  (fetch_page client_page act address start_blk end_blk page_size pages_total
     max_pages_int should_stop min_window_blocks).
Local Abbreviation fetch_loop :=
  (fetch_loop client_page act address start_blk end_blk page_size pages_total
     max_pages_int should_stop min_window_blocks).
Local Abbreviation fetch_window :=
  (fetch_window client_page act address start_blk end_blk page_size pages_total
     max_pages_int should_stop min_window_blocks).

(** A turn that goes on to the next page has added at least [page_size]
    records and stays below the cap. *)
Lemma fetch_page_progress mp collected current_page w collected' current_page' w' :
  fetch_page mp collected current_page w = NextPage collected' current_page' w' ->
  len collected + page_size <= len collected' /\
  len collected' < MAX_RECORDS_PER_QUERY.
Proof.
  unfold Main.fetch_page.
  destruct (call_should_stop should_stop w) as [[] w1]; [discriminate|].
  destruct (match max_pages_int with Some m => m <? pages_total + current_page
                                | None => false end); [discriminate|].
  destruct (client_page _ _) as [chunk|e]; [|discriminate].
  destruct (call_should_stop should_stop _) as [[] w2]; [discriminate|].
  destruct (len chunk <? page_size) eqn:Hshort; [discriminate|].
  destruct (_ || _) eqn:Hcap; [discriminate|].
  intros [= <- <- <-].
  apply Z.ltb_ge in Hshort. apply orb_false_iff in Hcap as [_ Hcap].
  apply Z.leb_gt in Hcap. rewrite len_app in *. lia.
Qed.

Lemma fetch_loop_terminates mp fuel collected current_page w :
  0 < page_size ->
  (Z.to_nat (MAX_RECORDS_PER_QUERY - len collected) < fuel)%nat ->
  fetch_loop fuel mp collected current_page w <> FetchOutOfFuel.
Proof.
  intros Hpos. revert collected current_page w.
  induction fuel as [|fuel IH]; intros collected current_page w Hfuel; [lia|].
  simpl.
  destruct (fetch_page mp collected current_page w) as [c p w1|f] eqn:Hstep.
  - apply fetch_page_progress in Hstep as [Hgrow Hcap].
    apply IH. lia.
  - unfold Main.fetch_page in Hstep.
    destruct (call_should_stop should_stop w) as [[] w1]; [congruence|].
    destruct (match max_pages_int with Some m => m <? pages_total + current_page
                                  | None => false end); [congruence|].
    destruct (client_page _ _) as [chunk|e]; [|congruence].
    destruct (call_should_stop should_stop _) as [[] w2]; [congruence|].
    destruct (len chunk <? page_size); [congruence|].
    destruct (_ || _); congruence.
Qed.

Lemma fetch_window_terminates fuel w :
  0 <= page_size -> (Z.to_nat 10001 <= fuel)%nat ->
  fetch_window fuel w <> FetchOutOfFuel.
Proof.
  intros Hpos Hfuel. unfold Main.fetch_window.
  destruct (page_size =? 0) eqn:Hz; [discriminate|].
  apply Z.eqb_neq in Hz. apply fetch_loop_terminates; [lia|].
  unfold MAX_RECORDS_PER_QUERY, len. simpl. lia.
Qed.

(** More fuel does not change the result of a drain that ended. *)
Lemma fetch_loop_mono mp fuel fuel' collected current_page w :
  (fuel <= fuel')%nat ->
  fetch_loop fuel mp collected current_page w <> FetchOutOfFuel ->
  fetch_loop fuel' mp collected current_page w
  = fetch_loop fuel mp collected current_page w.
Proof.
  revert fuel' collected current_page w.
  induction fuel as [|fuel IH]; intros fuel' collected current_page w Hle Hend;
    [simpl in Hend; congruence|].
  destruct fuel' as [|fuel']; [lia|]. simpl in *.
  destruct (fetch_page mp collected current_page w) as [c p w1|f]; [|reflexivity].
  apply IH; [lia|assumption].
Qed.

Lemma fetch_window_mono fuel fuel' w :
  (fuel <= fuel')%nat ->
  fetch_window fuel w <> FetchOutOfFuel ->
  fetch_window fuel' w = fetch_window fuel w.
Proof.
  unfold Main.fetch_window. destruct (page_size =? 0); [reflexivity|].
  apply fetch_loop_mono.
Qed.

(** An exception leaving a drain is the upstream's, or the division by a
    zero page size. *)
Lemma fetch_loop_raised mp fuel collected current_page w str_e w' :
  fetch_loop fuel mp collected current_page w = FetchRaised str_e w' ->
  exists n q, client_page n q = Fails str_e.
Proof.
  revert collected current_page w.
  induction fuel as [|fuel IH]; intros collected current_page w; simpl; [discriminate|].
  destruct (fetch_page mp collected current_page w) as [c p w1|f] eqn:Hstep;
    [apply IH|].
  intros ->. unfold Main.fetch_page in Hstep.
  destruct (call_should_stop should_stop w) as [[] w1]; [discriminate|].
  destruct (match max_pages_int with Some m => m <? pages_total + current_page
                                | None => false end); [discriminate|].
  destruct (client_page _ _) as [chunk|e] eqn:Hq.
  - destruct (call_should_stop should_stop _) as [[] w2]; [discriminate|].
    destruct (len chunk <? page_size); [discriminate|].
    destruct (_ || _); discriminate.
  - injection Hstep as <- _. eauto.
Qed.

Lemma fetch_window_raised fuel w str_e w' :
  fetch_window fuel w = FetchRaised str_e w' ->
  page_size = 0 \/ exists n q, client_page n q = Fails str_e.
Proof.
  unfold Main.fetch_window. destruct (page_size =? 0) eqn:Hz.
  - apply Z.eqb_eq in Hz. auto.
  - intros H. right. eapply fetch_loop_raised, H.
Qed.

End Drain.

(** ** One iteration *)

(** An exception leaving the formatting of the preview was raised by
    [format_transaction] on a record of the window. *)
Lemma format_preview_raised address window_txs str_e :
  format_preview format_transaction address window_txs = Some str_e ->
  exists tx, In tx window_txs /\ format_transaction tx address = Some str_e.
Proof.
  induction window_txs as [|tx txs IH]; simpl; [discriminate|].
  destruct (format_transaction tx address) as [e|] eqn:Hf.
  - intros [= <-]. exists tx. split; [left; reflexivity|exact Hf].
  - intros H. destruct (IH H) as (tx' & Hin & Hraise).
    exists tx'. split; [right; exact Hin|exact Hraise].
Qed.

Lemma format_preview_none address window_txs :
  Forall (fun tx => format_transaction tx address = None) window_txs ->
  format_preview format_transaction address window_txs = None.
Proof.
  induction 1 as [|tx txs Hf _ IH]; simpl; [reflexivity|]. rewrite Hf. exact IH.
Qed.

Lemma log2_halve wb :
  1 < wb -> Z.log2 (Z.max (wb / 2) MIN_WINDOW_BLOCKS) < Z.log2 wb.
Proof.
  intros Hwb. unfold MIN_WINDOW_BLOCKS.
  assert (1 <= wb / 2) by (apply Z.div_le_lower_bound; lia).
  rewrite Z.max_l by lia.
  change (wb / 2) with (wb / 2 ^ 1). rewrite <- Z.shiftr_div_pow2 by lia.
  rewrite Z.log2_shiftr by lia.
  assert (1 <= Z.log2 wb) by (change 1 with (Z.log2 2); apply Z.log2_le_mono; lia).
  lia.
Qed.

Lemma log2_grow wb :
  Z.log2 (if wb <? MAX_WINDOW_BLOCKS then Z.min (wb * 2) MAX_WINDOW_BLOCKS else wb)
  <= Z.log2 wb + 1.
Proof.
  destruct (wb <? MAX_WINDOW_BLOCKS); [|lia].
  destruct (Z.le_gt_cases wb 0) as [Hneg|Hpos].
  - rewrite Z.log2_nonpos by (unfold MAX_WINDOW_BLOCKS; lia).
    pose proof (Z.log2_nonneg wb). lia.
  - transitivity (Z.log2 (2 * wb)).
    + apply Z.log2_le_mono. lia.
    + rewrite Z.log2_double by lia. lia.
Qed.

(** The quantity that every iteration going round again decreases. *)
Local Abbreviation potential l :=
  (2 * (SAFETY_MAX_SEGMENTS - cur_segment_num l) + Z.log2 (cur_window_blocks l)).

(** All the ways one iteration can go. *)
Lemma iteration_cases fuel latest l job w :
  match iteration fuel latest l job w with
  | Again l' job' w' =>
      address job' = address job /\ page_size job' = page_size job /\
      error job' = error job /\ done job' = done job /\ paused job' = paused job /\
      cur_segment_num l + 1 <= SAFETY_MAX_SEGMENTS /\
      potential l' < potential l
  | Ends LoopOutOfFuel =>
      fetch_txlist_window client_page (address job) (cur_seg_start l)
        (seg_end_of latest l) (page_size job) (cur_pages_total l)
        (max_pages_int job) (Some (should_stop_check stop_signal job))
        MIN_WINDOW_BLOCKS fuel (tick_polls w) = FetchOutOfFuel
  | Ends (Returned job' _) =>
      (paused job' = true /\ done job' = false /\ running job' = false
       /\ error job' = None) \/
      (done job' = true /\ running job' = false /\ error job' = Some safety_msg
       /\ SAFETY_MAX_SEGMENTS < cur_segment_num l + 1) \/
      (done job' = true /\ running job' = false
       /\ error job' = Some (cap_unresolvable_msg (cur_window_blocks l))
       /\ seg_end_of latest l - cur_seg_start l + 1 <= MIN_WINDOW_BLOCKS)
  | Ends (Broke job' _) =>
      done job' = true /\ running job' = false /\ error job' = Some max_pages_msg
  | Ends (Exited _ _) => False
  | Ends (Raised str_e _ _) =>
      page_size job = 0 \/ (exists n q, client_page n q = Fails str_e) \/
      exists tx, format_transaction tx (address job) = Some str_e
  end.
Proof.
  unfold Main.iteration, should_stop_check, seg_end_of.
  destruct (stop_requested job || stop_signal (polls w)).
  { left. job_fields. }
  destruct (SAFETY_MAX_SEGMENTS <? cur_segment_num l + 1) eqn:Hsafe.
  { right; left. apply Z.ltb_lt in Hsafe. job_fields. }
  apply Z.ltb_ge in Hsafe.
  destruct (fetch_txlist_window _ _ _ _ _ _ _ _ _ _ _) as [r w1|e w1|] eqn:Hfetch;
    [| apply fetch_window_raised in Hfetch as [Hz|Hup]; [left|right; left]; assumption
     | reflexivity].
  destruct (paused_hit r). { left. job_fields. }
  destruct (window_truncated r). { job_fields. }
  apply fetch_window_flags in Hfetch as [Hun Hcap].
  destruct (cap_hit r).
  - simpl in Hun. rewrite Hun.
    destruct (_ <=? MIN_WINDOW_BLOCKS) eqn:Hwin.
    { right; right. apply Z.leb_le in Hwin. job_fields. }
    apply Z.leb_gt in Hwin. unfold MIN_WINDOW_BLOCKS in *.
    assert (Hwb : 1 < cur_window_blocks l) by lia.
    apply Z.ltb_lt in Hwb as Hwb'. rewrite Hwb'.
    pose proof (log2_halve _ Hwb).
    repeat split; try (job_fields; fail). simpl. unfold MIN_WINDOW_BLOCKS in *. lia.
  - destruct (format_preview _ _ _) as [str_e|] eqn:Hfmt.
    { apply format_preview_raised in Hfmt as (tx & _ & Hfmt).
      right; right. exists tx. exact Hfmt. }
    pose proof (log2_grow (cur_window_blocks l)).
    repeat split; try (job_fields; fail). simpl. lia.
Qed.

(** More fuel does not change an iteration that did not run out of it. *)
Lemma iteration_mono fuel fuel' latest l job w :
  (fuel <= fuel')%nat ->
  iteration fuel latest l job w <> Ends LoopOutOfFuel ->
  iteration fuel' latest l job w = iteration fuel latest l job w.
Proof.
  intros Hle. unfold Main.iteration, should_stop_check.
  destruct (stop_requested job || stop_signal (polls w)); [reflexivity|].
  destruct (SAFETY_MAX_SEGMENTS <? cur_segment_num l + 1); [reflexivity|].
  unfold fetch_txlist_window.
  match goal with
  | |- context [fetch_window ?c ?a ?ad ?s ?e ?p ?pt ?m ?ss ?mw fuel ?w0] =>
      destruct (fetch_window c a ad s e p pt m ss mw fuel w0) eqn:Hf;
      [ | | congruence];
      rewrite (fetch_window_mono a ad s e p pt m ss mw fuel fuel' w0 Hle)
        by congruence;
      rewrite Hf; reflexivity
  end.
Qed.

(** ** The whole loop *)

Lemma crawl_loop_mono fuel fuel' latest l job w :
  (fuel <= fuel')%nat ->
  crawl_loop fuel latest l job w <> LoopOutOfFuel ->
  crawl_loop fuel' latest l job w = crawl_loop fuel latest l job w.
Proof.
  revert fuel' l job w.
  induction fuel as [|fuel IH]; intros fuel' l job w Hle Hend;
    [simpl in Hend; congruence|].
  destruct fuel' as [|fuel']; [lia|]. simpl in *.
  destruct (cur_seg_start l <=? latest); [|reflexivity].
  rewrite (iteration_mono fuel fuel') by
    (try lia; intros E; rewrite E in Hend; congruence).
  destruct (iteration fuel latest l job w) as [l' job' w'|e]; [|reflexivity].
  apply IH; [lia|assumption].
Qed.

Lemma crawl_loop_enough fuel latest l job w :
  0 < page_size job -> (crawl_fuel l <= fuel)%nat ->
  crawl_loop fuel latest l job w <> LoopOutOfFuel.
Proof.
  revert l job w.
  induction fuel as [|fuel IH]; intros l job w Hpage Hfuel;
    unfold crawl_fuel in Hfuel; [lia|].
  simpl. destruct (cur_seg_start l <=? latest); [|discriminate].
  pose proof (iteration_cases fuel latest l job w) as Hcases.
  destruct (iteration fuel latest l job w) as [l' job' w'|e].
  - destruct Hcases as (_ & Hp & _ & _ & _ & Hseg & Hpot).
    apply IH; [rewrite Hp; assumption|].
    pose proof (Z.log2_nonneg (cur_window_blocks l)). unfold crawl_fuel. lia.
  - destruct e; try discriminate.
    exfalso. revert Hcases. apply fetch_window_terminates; lia.
Qed.

(** How a loop that ended left its job. *)
Lemma crawl_loop_ends fuel latest l job w :
  match crawl_loop fuel latest l job w with
  | Returned job' _ =>
      (paused job' = true /\ done job' = false /\ running job' = false
       /\ error job' = None) \/
      (done job' = true /\ running job' = false /\ error job' = Some safety_msg) \/
      (done job' = true /\ running job' = false
       /\ exists window_blocks, error job' = Some (cap_unresolvable_msg window_blocks))
  | Broke job' _ =>
      done job' = true /\ running job' = false /\ error job' = Some max_pages_msg
  | Exited job' _ =>
      error job' = error job /\ done job' = done job /\ paused job' = paused job
  | Raised str_e _ _ =>
      page_size job = 0 \/ (exists n q, client_page n q = Fails str_e) \/
      exists tx, format_transaction tx (address job) = Some str_e
  | LoopOutOfFuel => True
  end.
Proof.
  revert l job w.
  induction fuel as [|fuel IH]; intros l job w; simpl; [exact I|].
  destruct (cur_seg_start l <=? latest); [|auto].
  pose proof (iteration_cases fuel latest l job w) as Hcases.
  destruct (iteration fuel latest l job w) as [l' job' w'|e].
  - destruct Hcases as (Ha & Hp & He & Hd & Hpa & _ & _).
    specialize (IH l' job' w').
    destruct (crawl_loop fuel latest l' job' w'); try assumption.
    + rewrite <- He, <- Hd, <- Hpa. assumption.
    + rewrite <- Hp, <- Ha. assumption.
  - destruct e; try assumption; try contradiction; try exact I.
    destruct Hcases as [H|[H|H]]; [left; assumption| right; left | right; right];
      intuition eauto.
Qed.

(** The step of the loop that follows a drain neither paused nor
    truncated. *)
Lemma crawl_loop_drained fuel latest l job w r w' :
  reaches_drain fuel latest l job w r w' ->
  crawl_loop (S fuel) latest l job w =
  match iteration fuel latest l job w with
  | Again l' job' w' => crawl_loop fuel latest l' job' w'
  | Ends e => e
  end /\
  cap_unresolvable r
  = cap_hit r && (seg_end_of latest l - cur_seg_start l + 1 <=? MIN_WINDOW_BLOCKS).
Proof.
  intros (Hcond & _ & _ & Hfetch). split.
  - simpl. apply Z.leb_le in Hcond. rewrite Hcond. reflexivity.
  - apply fetch_window_flags in Hfetch as [Hun _]. exact Hun.
Qed.

(** X27: an iteration whose drain reports a resolvable [cap_hit] goes
    round again with the window halved, but not below
    [MIN_WINDOW_BLOCKS = 1], the same [seg_start] and the same segment
    count, and appends no segment.  An iteration whose drain is complete
    merges the records and appends the segment.  When
    [format_transaction] then returns for every record of the window,
    the iteration sets [seg_start] to [seg_end + 1], counts the segment
    and goes round again with the window
    [min(window_blocks * 2, MAX_WINDOW_BLOCKS)]; here the window is at
    most [MAX_WINDOW_BLOCKS = 200000], which both steps preserve.  When
    [format_transaction] raises on a record, the loop is left by that
    exception, with the segment appended and the records merged but
    [seg_start], the segment count and the coverage as they were. *)
Theorem crawl_iteration_adapts_window
    (fuel : nat) (latest : Z) (l : Locals) (job : Job) (w : World)
    (r : WindowResult) (w' : World) :
  reaches_drain fuel latest l job w r w' ->
  paused_hit r = false -> window_truncated r = false ->
  cur_window_blocks l <= MAX_WINDOW_BLOCKS ->
  (cap_hit r = true -> cap_unresolvable r = false ->
   exists job',
     crawl_loop (S fuel) latest l job w =
     crawl_loop fuel latest
       (mkLocals (cur_seg_start l)
          (Z.max (cur_window_blocks l / 2) MIN_WINDOW_BLOCKS)
          (cur_pages_total l + pages_used r) (cur_segment_num l)) job' w' /\
     MIN_WINDOW_BLOCKS <= Z.max (cur_window_blocks l / 2) MIN_WINDOW_BLOCKS
       <= MAX_WINDOW_BLOCKS /\
     segments job' = segments job /\ segments_done job' = segments_done job /\
     seg_start job' = seg_start job /\ coverage_end job' = coverage_end job /\
     seen_hashes job' = seen_hashes job) /\
  (cap_hit r = false ->
   format_preview format_transaction (address job) (window_txs r) = None ->
   exists job',
     crawl_loop (S fuel) latest l job w =
     crawl_loop fuel latest
       (mkLocals (seg_end_of latest l + 1)
          (Z.min (cur_window_blocks l * 2) MAX_WINDOW_BLOCKS)
          (cur_pages_total l + pages_used r) (cur_segment_num l + 1)) job' w' /\
     Z.min (cur_window_blocks l * 2) MAX_WINDOW_BLOCKS <= MAX_WINDOW_BLOCKS /\
     segments job' =
       (segments job ++
        [mkSegment (cur_seg_start l) (seg_end_of latest l) (pages_used r)
           (len (window_txs r)) false])%list /\
     segments_done job' = cur_segment_num l + 1 /\
     seg_start job' = seg_end_of latest l + 1 /\
     coverage_end job' = Some (seg_end_of latest l) /\
     seen_hashes job' = merge_txs (seen_hashes job) (window_txs r)) /\
  (cap_hit r = false ->
   forall str_e,
     format_preview format_transaction (address job) (window_txs r) = Some str_e ->
     exists job',
       crawl_loop (S fuel) latest l job w = Raised str_e job' w' /\
       segments job' =
         (segments job ++
          [mkSegment (cur_seg_start l) (seg_end_of latest l) (pages_used r)
             (len (window_txs r)) false])%list /\
       seen_hashes job' = merge_txs (seen_hashes job) (window_txs r) /\
       segments_done job' = segments_done job /\
       seg_start job' = seg_start job /\
       coverage_end job' = coverage_end job).
Proof.
  intros Hreach Hpause Htrunc Hmax.
  destruct (crawl_loop_drained _ _ _ _ _ _ _ Hreach) as [Hloop Hun].
  destruct Hreach as (Hcond & Hstop & Hsafe & Hfetch).
  rewrite Hloop. unfold Main.iteration, should_stop_check in *. rewrite Hstop.
  apply Z.ltb_ge in Hsafe. rewrite Hsafe.
  unfold seg_end_of in *. rewrite Hfetch, Hpause, Htrunc.
  split; [|split].
  - intros Hcap Hres. rewrite Hcap, Hres. rewrite Hcap, Hres in Hun.
    symmetry in Hun. simpl in Hun. apply Z.leb_gt in Hun.
    unfold MIN_WINDOW_BLOCKS, MAX_WINDOW_BLOCKS in *.
    assert (Hwb : 1 < cur_window_blocks l) by lia.
    apply Z.ltb_lt in Hwb as Hwb'. rewrite Hwb'.
    assert (cur_window_blocks l / 2 <= 200000)
      by (apply Z.div_le_upper_bound; lia).
    replace (cur_segment_num l + 1 - 1) with (cur_segment_num l) by lia.
    eexists. split; [reflexivity|].
    split; [lia|]. repeat split; job_fields.
  - intros Hcap Hfmt. rewrite Hcap, Hfmt.
    replace (if cur_window_blocks l <? MAX_WINDOW_BLOCKS
             then Z.min (cur_window_blocks l * 2) MAX_WINDOW_BLOCKS
             else cur_window_blocks l)
      with (Z.min (cur_window_blocks l * 2) MAX_WINDOW_BLOCKS).
    + eexists. split; [reflexivity|].
      split; [lia|]. repeat split; job_fields.
    + destruct (cur_window_blocks l <? MAX_WINDOW_BLOCKS) eqn:E; [reflexivity|].
      apply Z.ltb_ge in E. unfold MAX_WINDOW_BLOCKS in *. lia.
  - intros Hcap str_e Hfmt. rewrite Hcap, Hfmt.
    eexists. split; [reflexivity|]. repeat split.
Qed.

End Loop.

End CrawlProofs.

(** * Proofs: what a crawl leaves alone, and what it asks for *)

Module FrameProofs.
Import Main MainSpec WindowProofs CrawlProofs.

Lemma issued_refl P w : issued P w w.
Proof. exists []. split; [symmetry; apply app_nil_r | constructor]. Qed.

Lemma issued_trans P w1 w2 w3 : issued P w1 w2 -> issued P w2 w3 -> issued P w1 w3.
Proof.
  intros (n1 & E1 & F1) (n2 & E2 & F2). exists (n1 ++ n2)%list. split.
  - rewrite E2, E1. symmetry. apply app_assoc.
  - apply Forall_app; split; assumption.
Qed.

Lemma issued_same P w w' : requests w' = requests w -> issued P w w'.
Proof. intros E. exists []. split; [rewrite E; symmetry; apply app_nil_r|constructor]. Qed.

Lemma issued_log (P : Query -> Prop) q w : P q -> issued P w (log_request q w).
Proof. intros Hq. exists [q]. split; [reflexivity|]. constructor; [assumption|constructor]. Qed.

(** Settles [same_config] between a job and an update of it. *)
Ltac config_frame :=
  unfold same_config, pause_job, fail_job, flag_high_activity;
  repeat match goal with
         | |- context [if ?c then _ else _] => destruct c
         | |- context [match last ?s with _ => _ end] => destruct (last s)
         end;
  repeat split; reflexivity.

(** To show something of the job and the world a loop ends with, show
    it of each way to end. *)
Lemma ends_frame (P : Job -> Prop) (Q : World -> Prop) (e : LoopEnd) :
  match e with
  | Returned j w | Broke j w | Exited j w | Raised _ j w => P j /\ Q w
  | LoopOutOfFuel => True
  end ->
  (forall job', end_job e = Some job' -> P job') /\
  (forall w', end_world e = Some w' -> Q w').
Proof.
  destruct e as [j w|j w|j w|s j w|]; simpl;
    try (intros [HP HQ]; split; intros ? [= <-]; assumption).
  intros _. split; intros ? [=].
Qed.

Section Loop.

Variable client_page : nat -> Query -> Reply (list Tx).
Variable stop_signal : nat -> bool.
Variable format_transaction : Tx -> string -> option string.

Local Abbreviation iteration := (iteration client_page stop_signal format_transaction).
Local Abbreviation crawl_loop := (crawl_loop client_page stop_signal format_transaction).

Section Drain.

Variables (act : Action) (address : string) (start_blk end_blk page_size : Z)
          (pages_total : Z) (max_pages_int : option Z)
          (should_stop : option (World -> bool * World)) (min_window_blocks : Z).

(** The stop callback only reads and counts. *)
Hypothesis should_stop_reads :
  forall w, requests (call_should_stop should_stop w).2 = requests w.

Local Abbreviation fetch_page :=
  (fetch_page client_page act address start_blk end_blk page_size pages_total
     max_pages_int should_stop min_window_blocks).
Local Abbreviation fetch_loop :=
  (fetch_loop client_page act address start_blk end_blk page_size pages_total
     max_pages_int should_stop min_window_blocks).
Local Abbreviation fetch_window :=
  (fetch_window client_page act address start_blk end_blk page_size pages_total
     max_pages_int should_stop min_window_blocks).
Local Abbreviation asked q :=
  (action q = act /\ q_address q = address /\ offset q = page_size).

Lemma fetch_page_issued mp collected current_page w :
  match fetch_page mp collected current_page w with
  | NextPage _ _ w' => issued (fun q => asked q) w w'
  | FetchEnd f => forall w', fetch_world f = Some w' -> issued (fun q => asked q) w w'
  end.
Proof.
  unfold Main.fetch_page.
  pose proof (should_stop_reads w) as H1.
  destruct (call_should_stop should_stop w) as [s1 w1]. simpl in H1.
  assert (I1 : issued (fun q => asked q) w w1) by (apply issued_same; assumption).
  destruct s1; [intros w' [= <-]; assumption|].
  destruct (match max_pages_int with Some m => m <? pages_total + current_page
                                | None => false end);
    [intros w' [= <-]; assumption|].
  set (q := mkQuery act address start_blk end_blk current_page page_size).
  assert (I2 : issued (fun q => asked q) w (log_request q w1)).
  { eapply issued_trans; [exact I1|]. apply issued_log. repeat split. }
  destruct (client_page _ q) as [chunk|e]; [|intros w' [= <-]; assumption].
  pose proof (should_stop_reads (log_request q w1)) as H2.
  destruct (call_should_stop should_stop (log_request q w1)) as [s2 w2]. simpl in H2.
  assert (I3 : issued (fun q => asked q) w w2).
  { eapply issued_trans; [exact I2|]. apply issued_same; assumption. }
  destruct s2; [intros w' [= <-]; assumption|].
  destruct (len chunk <? page_size); [intros w' [= <-]; assumption|].
  destruct (_ || _); [intros w' [= <-]; assumption|assumption].
Qed.

Lemma fetch_loop_issued fuel mp collected current_page w w' :
  fetch_world (fetch_loop fuel mp collected current_page w) = Some w' ->
  issued (fun q => asked q) w w'.
Proof.
  revert collected current_page w.
  induction fuel as [|fuel IH]; intros collected current_page w; simpl; [discriminate|].
  pose proof (fetch_page_issued mp collected current_page w) as Hstep.
  destruct (fetch_page mp collected current_page w) as [c p w1|f].
  - intros H. eapply issued_trans; [exact Hstep|]. eapply IH, H.
  - apply Hstep.
Qed.

Lemma fetch_window_issued fuel w w' :
  fetch_world (fetch_window fuel w) = Some w' -> issued (fun q => asked q) w w'.
Proof.
  unfold Main.fetch_window. destruct (page_size =? 0).
  - intros [= <-]. apply issued_refl.
  - apply fetch_loop_issued.
Qed.

End Drain.

(** One iteration keeps the configuration of the job and asks only for
    [txlist] pages of the job's address and page size. *)
Lemma iteration_frame fuel latest l job w :
  match iteration fuel latest l job w with
  | Again _ job' w' => same_config job job' /\ issued (request_of job) w w'
  | Ends e =>
      (forall job', end_job e = Some job' -> same_config job job') /\
      (forall w', end_world e = Some w' -> issued (request_of job) w w')
  end.
Proof.
  assert (Itick : issued (request_of job) w (tick_polls w))
    by (apply issued_same; reflexivity).
  unfold Main.iteration, should_stop_check.
  destruct (stop_requested job || stop_signal (polls w)).
  { apply ends_frame. split; [config_frame|assumption]. }
  destruct (SAFETY_MAX_SEGMENTS <? cur_segment_num l + 1).
  { apply ends_frame. split; [config_frame|assumption]. }
  match goal with
  | |- context [fetch_txlist_window ?c ?ad ?s ?e ?p ?pt ?m ?ss ?mw fuel ?w0] =>
      pose proof (fetch_window_issued txlist ad s e p pt m ss mw
                    (fun w => eq_refl) fuel w0) as Hreq;
      destruct (fetch_txlist_window c ad s e p pt m ss mw fuel w0)
        as [r w1|e1 w1|] eqn:Hfetch
  end; unfold fetch_txlist_window in Hfetch; rewrite Hfetch in Hreq;
    unfold fetch_world in Hreq.
  - assert (I1 : issued (request_of job) w w1)
      by (eapply issued_trans; [exact Itick|]; apply Hreq; reflexivity).
    destruct (paused_hit r);
      [apply ends_frame; split; [config_frame|assumption]|].
    destruct (window_truncated r);
      [apply ends_frame; split; [config_frame|assumption]|].
    destruct (cap_hit r).
    + destruct (cap_unresolvable r);
        [apply ends_frame; split; [config_frame|assumption]|].
      destruct (MIN_WINDOW_BLOCKS <? cur_window_blocks l).
      * split; [config_frame|assumption].
      * apply ends_frame; split; [config_frame|assumption].
    + destruct (format_preview _ _ _);
        [apply ends_frame; split; [config_frame|assumption]
        |split; [config_frame|assumption]].
  - apply ends_frame. split; [config_frame|].
    eapply issued_trans; [exact Itick|]. apply Hreq. reflexivity.
  - apply ends_frame. exact I.
Qed.

Lemma same_config_trans j1 j2 j3 :
  same_config j1 j2 -> same_config j2 j3 -> same_config j1 j3.
Proof. unfold same_config. intuition congruence. Qed.

Lemma request_of_config job job' q :
  same_config job job' -> request_of job' q -> request_of job q.
Proof. unfold same_config, request_of. intuition congruence. Qed.

Lemma issued_weaken (P Q : Query -> Prop) w w' :
  (forall q, P q -> Q q) -> issued P w w' -> issued Q w w'.
Proof.
  intros HPQ (new & E & F). exists new. split; [assumption|].
  eapply Forall_impl; eassumption.
Qed.

(** So does the whole loop. *)
Lemma crawl_loop_frame fuel latest l job w :
  (forall job', end_job (crawl_loop fuel latest l job w) = Some job' ->
                same_config job job') /\
  (forall w', end_world (crawl_loop fuel latest l job w) = Some w' ->
              issued (request_of job) w w').
Proof.
  revert l job w.
  induction fuel as [|fuel IH]; intros l job w; simpl; [split; intros ? [=]|].
  destruct (cur_seg_start l <=? latest).
  - pose proof (iteration_frame fuel latest l job w) as Hstep.
    destruct (iteration fuel latest l job w) as [l' job1 w1|e]; [|exact Hstep].
    destruct Hstep as [Hcfg Hreq]. destruct (IH l' job1 w1) as [IHc IHr].
    split.
    + intros job' H. eapply same_config_trans; [exact Hcfg|]. apply IHc, H.
    + intros w' H. eapply issued_trans; [exact Hreq|].
      eapply issued_weaken; [|apply IHr, H].
      intros q. apply request_of_config. assumption.
  - apply ends_frame. split; [config_frame|apply issued_refl].
Qed.

End Loop.

End FrameProofs.

(** * Proofs: creating, resuming and retaining jobs *)

Module EndpointProofs.
Import Main MainSpec WindowProofs CrawlProofs FrameProofs.

Section Endpoints.

Variable client_page : nat -> Query -> Reply (list Tx).
Variable get_latest_block : nat -> Reply Z.
Variable stop_signal : nat -> bool.
Variable uuid4 : nat -> string.
Variable format_transaction : Tx -> string -> option string.

Local Abbreviation crawl_loop := (crawl_loop client_page stop_signal format_transaction).
Local Abbreviation publish := (publish uuid4).
Local Abbreviation finish_run := (finish_run uuid4).
Local Abbreviation run_job :=
  (run_job client_page get_latest_block stop_signal uuid4 format_transaction).
Local Abbreviation crawl_all_start := (crawl_all_start uuid4).
Local Abbreviation crawl_in_all_mode := (crawl_in_all_mode get_latest_block uuid4).

Lemma clamp_page_size_range page_size :
  50 <= clamp_page_size page_size <= 500 /\
  (page_size <= 50 -> clamp_page_size page_size = 50) /\
  (500 <= page_size -> clamp_page_size page_size = 500) /\
  (50 <= page_size <= 500 -> clamp_page_size page_size = page_size).
Proof. unfold clamp_page_size. lia. Qed.

Lemma clamp_page_size_idem page_size :
  clamp_page_size (clamp_page_size page_size) = clamp_page_size page_size.
Proof. unfold clamp_page_size. lia. Qed.

(** A successful [crawl_all_start] stores a new job with the clamped
    page size under the id it answers. *)
Lemma crawl_all_start_creates cc address start_block it mp page_size st w job_id st1 w1 :
  crawl_all_start cc address start_block it mp page_size st w = (inr job_id, st1, w1) ->
  exists max_pages_int,
    JOBS st1 !! job_id
    = Some (new_job address start_block it (clamp_page_size page_size) max_pages_int).
Proof.
  unfold Main.crawl_all_start.
  destruct (negb (String.prefix "0x" address)); [discriminate|].
  destruct (start_block <? 0); [discriminate|].
  destruct (negb cc); [discriminate|].
  destruct (match mp with
            | MaxPagesBlank => inr None
            | MaxPagesInt n => if n <? 1 then inl "max_pages must be >= 1" else inr (Some n)
            | MaxPagesInvalid => inl "max_pages must be a valid number"
            end) as [e|mpi]; [discriminate|].
  destruct (if JOBS_SIZE_LIMIT <? len _ then _ else _) as [jobs ids].
  intros [= <- <- <-]. exists mpi. simpl. apply lookup_insert_eq.
Qed.

Lemma publish_world latest job st w :
  requests (publish latest job st w).2 = requests w.
Proof.
  unfold Main.publish.
  destruct (if CACHE_SIZE_LIMIT <? len _ then _ else _) as [cache ids]. reflexivity.
Qed.

Lemma finish_run_world job_id latest st e st2 w2 :
  finish_run job_id latest st e = Finished st2 w2 ->
  exists w', end_world e = Some w' /\ requests w2 = requests w'.
Proof.
  destruct e as [job w|job w|job w|str_e job w|]; simpl; try discriminate;
    try (intros [= <- <-]; eauto; fail);
    pose proof (publish_world latest job st w) as Hw;
    destruct (Main.publish uuid4 latest job st w) as [[job' st'] w'];
    intros [= <- <-]; eauto.
Qed.

(** A run asks only for [txlist] pages of its job's address and page size. *)
Lemma run_job_issued fuel job_id st w job st2 w2 :
  JOBS st !! job_id = Some job ->
  run_job fuel job_id st w = Finished st2 w2 ->
  issued (request_of job) w w2.
Proof.
  intros Hjob. unfold Main.run_job. rewrite Hjob.
  destruct (get_latest_block (blocks w)) as [latest|e].
  - intros Hrun. apply finish_run_world in Hrun as (w' & Hend & Hreq).
    apply (crawl_loop_frame client_page stop_signal format_transaction) in Hend.
    eapply issued_trans; [|apply issued_same; exact Hreq].
    eapply issued_trans; [apply (issued_same _ w (tick_blocks w)); reflexivity|].
    eapply issued_weaken; [|exact Hend]. intros q H. exact H.
  - intros [= <- <-]. apply issued_same. reflexivity.
Qed.

(** X1: a job created by [crawl_all_start], directly or through the
    redirect of [crawl], stores [max(50, min(500, page_size))], which
    lies in [50, 500], and every page request a run of that job issues
    carries an [offset] in [50, 500]. *)
Theorem created_job_page_size_clamped
    (cc : bool) (address : string) (start_block : Z) (it : bool) (mp : MaxPages)
    (requested : Z) (st : Store) (w : World) (job_id : string) (st1 : Store)
    (w1 : World) :
  crawl_all_start cc address start_block it mp requested st w = (inr job_id, st1, w1)
  \/ crawl_in_all_mode cc address start_block it mp requested st w
     = (inr job_id, st1, w1) ->
  exists job,
    JOBS st1 !! job_id = Some job /\
    page_size job = Z.max 50 (Z.min 500 requested) /\
    50 <= page_size job <= 500 /\
    (requested <= 50 -> page_size job = 50) /\
    (500 <= requested -> page_size job = 500) /\
    forall fuel st2 w2,
      run_job fuel job_id st1 w1 = Finished st2 w2 ->
      issued (fun q => 50 <= offset q <= 500) w1 w2.
Proof.
  intros Hcreate.
  assert (Hjob : exists mpi,
             JOBS st1 !! job_id
             = Some (new_job address start_block it (clamp_page_size requested) mpi)).
  { destruct Hcreate as [H|H].
    - eapply crawl_all_start_creates, H.
    - unfold Main.crawl_in_all_mode in H.
      destruct (negb (String.prefix "0x" address)); [discriminate|].
      destruct (start_block <? 0); [discriminate|].
      destruct (negb cc); [discriminate|].
      destruct (get_latest_block (blocks w)); [|discriminate].
      apply crawl_all_start_creates in H as [mpi H].
      rewrite clamp_page_size_idem in H. eauto. }
  destruct Hjob as [mpi Hjob].
  pose proof (clamp_page_size_range requested) as (Hr & Hlo & Hhi & _).
  eexists. split; [exact Hjob|]. simpl.
  split; [reflexivity|]. split; [exact Hr|]. split; [exact Hlo|]. split; [exact Hhi|].
  intros fuel st2 w2 Hrun.
  eapply issued_weaken; [|eapply run_job_issued; eassumption].
  intros q (_ & _ & Hoff). simpl in Hoff. rewrite Hoff. exact Hr.
Qed.

(** X2: [crawl_resume] answers an error, and changes nothing, when the
    job is not paused, is running or is done.  Otherwise it answers
    "resumed" and stores the job with [seg_start = coverage_end + 1], the
    saved [window_blocks] untouched, and the run it starts enters the
    crawl loop at that block with that window.  [coverage_end] is what
    the pause stored: the end of the last completed segment. *)
Theorem resume_restarts_after_coverage (job_id : string) (st : Store) (job : Job) :
  JOBS st !! job_id = Some job ->
  (paused job = false \/ running job = true \/ done job = true ->
   exists msg, crawl_resume job_id st = (inl msg, st)) /\
  (paused job = true -> running job = false -> done job = false ->
   forall c, coverage_end job = Some c ->
   exists job',
     crawl_resume job_id st = (inr "resumed", store_job job_id job' st) /\
     seg_start job' = c + 1 /\ window_blocks job' = window_blocks job /\
     running job' = true /\ paused job' = false /\ stop_requested job' = false /\
     forall fuel w latest,
       get_latest_block (blocks w) = Answer latest ->
       exists job'',
         seg_start job'' = c + 1 /\ window_blocks job'' = window_blocks job /\
         crawl_resume_and_run client_page get_latest_block stop_signal uuid4 format_transaction
           fuel job_id st w
         = finish_run job_id latest (store_job job_id job' st)
             (crawl_loop fuel latest
                (mkLocals (c + 1) (window_blocks job) (pages_total job)
                   (segments_done job)) job'' (tick_blocks w))) /\
  (forall l j s, last (segments j) = Some s ->
                 coverage_end (pause_job l j) = Some (s_end s)).
Proof.
  intros Hjob. split; [|split].
  - intros Hbad. unfold crawl_resume. rewrite Hjob.
    destruct (paused job); simpl; [|eauto].
    destruct (running job); simpl; [eauto|].
    destruct (done job); simpl; [eauto|].
    destruct Hbad as [H|[H|H]]; discriminate.
  - intros Hp Hr Hd c Hc.
    assert (Hres : crawl_resume job_id st =
              (inr "resumed",
               store_job job_id
                 (set_seg_start (c + 1)
                    (set_error None (set_running true
                       (set_stop_requested false (set_paused false job))))) st)).
    { unfold crawl_resume. rewrite Hjob, Hp, Hr, Hd. simpl. rewrite Hc. reflexivity. }
    eexists. split; [exact Hres|].
    repeat (split; [reflexivity|]).
    intros fuel w latest Hlatest.
    unfold crawl_resume_and_run. rewrite Hres.
    unfold Main.run_job. simpl JOBS. rewrite lookup_insert_eq, Hlatest.
    eexists. split; [|split; [|reflexivity]]; reflexivity.
  - intros l j s Hs. unfold pause_job. simpl. rewrite Hs. reflexivity.
Qed.

End Endpoints.

(** The theorem at work: 9999 is clamped to 500. *)
Lemma created_job_page_size_clamped_witness :
  exists job,
    JOBS created_9999.1.2 !! "000000000000" = Some job /\ page_size job = 500.
Proof.
  assert (Hcreated :
            crawl_all_start uuid_of true "0xabc" 0 false MaxPagesBlank 9999
              empty_store world0
            = (inr "000000000000", created_9999.1.2, created_9999.2))
    by (vm_compute; reflexivity).
  destruct (created_job_page_size_clamped no_pages (latest_is 100) never_stop uuid_of formats_all
              true "0xabc" 0 false MaxPagesBlank 9999 empty_store world0
              "000000000000" created_9999.1.2 created_9999.2
              (or_introl Hcreated))
    as (job & Hjob & _ & _ & _ & Hhi & _).
  exists job. split; [exact Hjob|]. apply Hhi. lia.
Defined.

(** The theorem at work: the paused job resumes at block 100. *)
Lemma resume_restarts_after_coverage_witness :
  exists job',
    crawl_resume "job1" store_paused = (inr "resumed", store_job "job1" job' store_paused)
    /\ seg_start job' = 99 + 1 /\ window_blocks job' = 4096.
Proof.
  assert (Hjob : JOBS store_paused !! "job1" = Some job_paused)
    by (vm_compute; reflexivity).
  destruct (proj1 (proj2 (resume_restarts_after_coverage no_pages (latest_is 100)
                            never_stop uuid_of formats_all "job1" store_paused job_paused Hjob))
              eq_refl eq_refl eq_refl 99 eq_refl)
    as (job' & Hres & Hstart & Hwin & _).
  exists job'. repeat split; assumption.
Defined.

End EndpointProofs.

(** * Proofs: the bounded registries *)

Module RegistryProofs.
Import Main MainSpec WindowProofs.

Lemma size_list_to_set_le (l : list string) :
  (size (list_to_set l : gset string) <= List.length l)%nat.
Proof.
  induction l as [|x l IH].
  - rewrite list_to_set_nil, size_empty. simpl. lia.
  - rewrite list_to_set_cons, size_union_alt, size_singleton. simpl.
    assert (size (list_to_set l ∖ {[x]} : gset string)
            <= size (list_to_set l : gset string))%nat
      by (apply subseteq_size, subseteq_difference_l; reflexivity).
    lia.
Qed.

(** A registry whose keys are all named in a list is no larger than it. *)
Lemma size_le_ids {V} (m : gmap string V) (ids : list string) :
  (forall k, is_Some (m !! k) -> In k ids) -> (size m <= List.length ids)%nat.
Proof.
  intros Hkeys. rewrite <- (size_dom (D := gset string)).
  etransitivity; [|apply size_list_to_set_le].
  apply subseteq_size. intros k Hk.
  apply elem_of_list_to_set, list_elem_of_In, Hkeys, elem_of_dom, Hk.
Qed.

(** Evicting the head of the list keeps the other keys named. *)
Lemma keys_after_pop {V} (m : gmap string V) (oldest : string) (ids : list string) :
  (forall k, is_Some (m !! k) -> In k (oldest :: ids)) ->
  forall k, is_Some (delete oldest m !! k) -> In k ids.
Proof.
  intros Hkeys k Hk. destruct (decide (oldest = k)) as [->|Hne].
  - rewrite lookup_delete_eq in Hk. destruct Hk as [? [=]].
  - rewrite lookup_delete_ne in Hk by assumption.
    destruct (Hkeys k Hk) as [?|?]; [contradiction|assumption].
Qed.

Lemma keys_after_insert {V} (m : gmap string V) (k0 : string) (v : V)
    (ids : list string) :
  (forall k, is_Some (m !! k) -> In k ids) ->
  forall k, is_Some (<[k0 := v]> m !! k) -> In k (ids ++ [k0]).
Proof.
  intros Hkeys k Hk. apply in_or_app. destruct (decide (k0 = k)) as [->|Hne].
  - right. left. reflexivity.
  - rewrite lookup_insert_ne in Hk by assumption. left. apply Hkeys, Hk.
Qed.

Lemma store_job_bounded job_id job st :
  is_Some (JOBS st !! job_id) -> bounded st -> bounded (store_job job_id job st).
Proof.
  intros Hin (Hj & Hjk & Hr & Hrk). repeat split; try assumption. simpl.
  intros k Hk. destruct (decide (job_id = k)) as [<-|Hne].
  - apply Hjk, Hin.
  - rewrite lookup_insert_ne in Hk by assumption. apply Hjk, Hk.
Qed.

(** What [crawl_all_start] does to the registries when it creates a job. *)
Lemma crawl_all_start_registries uuid4 cc address start_block it mp page_size st w
    job_id st' w' :
  crawl_all_start uuid4 cc address start_block it mp page_size st w
  = (inr job_id, st', w') ->
  RESULTS_CACHE st' = RESULTS_CACHE st /\ RESULT_IDS st' = RESULT_IDS st /\
  exists job,
    (len (JOB_IDS st) + 1 <= JOBS_SIZE_LIMIT ->
     JOB_IDS st' = (JOB_IDS st ++ [job_id])%list /\
     JOBS st' = <[job_id := job]> (JOBS st)) /\
    (JOBS_SIZE_LIMIT < len (JOB_IDS st) + 1 ->
     exists oldest rest,
       JOB_IDS st = oldest :: rest /\
       JOB_IDS st' = (rest ++ [job_id])%list /\
       JOBS st' = <[job_id := job]> (delete oldest (JOBS st))).
Proof.
  unfold crawl_all_start.
  destruct (negb (String.prefix "0x" address)); [discriminate|].
  destruct (start_block <? 0); [discriminate|].
  destruct (negb cc); [discriminate|].
  destruct (match mp with
            | MaxPagesBlank => inr None
            | MaxPagesInt n => if n <? 1 then inl "max_pages must be >= 1" else inr (Some n)
            | MaxPagesInvalid => inl "max_pages must be a valid number"
            end) as [e|mpi]; [discriminate|].
  rewrite len_app. change (len [_]) with 1.
  destruct (JOBS_SIZE_LIMIT <? len (JOB_IDS st) + 1) eqn:Hfull.
  - apply Z.ltb_lt in Hfull.
    destruct (JOB_IDS st) as [|oldest rest] eqn:Hids;
      [unfold JOBS_SIZE_LIMIT, len in Hfull; simpl in Hfull; lia|].
    simpl. intros [= <- <- <-]. simpl.
    split; [reflexivity|]. split; [reflexivity|]. eexists. split.
    + intros Hroom. lia.
    + intros _. exists oldest, rest. repeat split; reflexivity.
  - apply Z.ltb_ge in Hfull. intros [= <- <- <-]. simpl.
    split; [reflexivity|]. split; [reflexivity|]. eexists. split.
    + intros _. split; reflexivity.
    + intros Hover. lia.
Qed.

(** What the statements after the loop do to the registries. *)
Lemma publish_registries uuid4 latest job st w :
  let st' := (publish uuid4 latest job st w).1.2 in
  let result_id := uuid_str (uuid4 (uuids w)) in
  JOBS st' = JOBS st /\ JOB_IDS st' = JOB_IDS st /\
  (len (RESULT_IDS st) + 1 <= CACHE_SIZE_LIMIT ->
   RESULT_IDS st' = (RESULT_IDS st ++ [result_id])%list /\
   RESULTS_CACHE st' = <[result_id := result_of latest job]> (RESULTS_CACHE st)) /\
  (CACHE_SIZE_LIMIT < len (RESULT_IDS st) + 1 ->
   exists oldest rest,
     RESULT_IDS st = oldest :: rest /\
     RESULT_IDS st' = (rest ++ [result_id])%list /\
     RESULTS_CACHE st'
     = delete oldest (<[result_id := result_of latest job]> (RESULTS_CACHE st))).
Proof.
  unfold publish. rewrite len_app. change (len [_]) with 1.
  destruct (CACHE_SIZE_LIMIT <? len (RESULT_IDS st) + 1) eqn:Hfull.
  - apply Z.ltb_lt in Hfull.
    destruct (RESULT_IDS st) as [|oldest rest] eqn:Hids;
      [unfold CACHE_SIZE_LIMIT, len in Hfull; simpl in Hfull; lia|].
    simpl. split; [reflexivity|]. split; [reflexivity|]. split.
    + intros Hroom. lia.
    + intros _. exists oldest, rest. repeat split; reflexivity.
  - apply Z.ltb_ge in Hfull. simpl.
    split; [reflexivity|]. split; [reflexivity|]. split.
    + intros _. split; reflexivity.
    + intros Hover. lia.
Qed.

Lemma crawl_all_start_bounded uuid4 cc address start_block it mp page_size st w
    res st' w' :
  crawl_all_start uuid4 cc address start_block it mp page_size st w = (res, st', w') ->
  bounded st -> bounded st'.
Proof.
  intros Hstart Hb. destruct res as [e|job_id].
  - unfold crawl_all_start in Hstart.
    destruct (negb (String.prefix "0x" address)); [congruence|].
    destruct (start_block <? 0); [congruence|].
    destruct (negb cc); [congruence|].
    destruct (match mp with
              | MaxPagesBlank => inr None
              | MaxPagesInt n =>
                  if n <? 1 then inl "max_pages must be >= 1" else inr (Some n)
              | MaxPagesInvalid => inl "max_pages must be a valid number"
              end) as [e'|mpi]; [congruence|].
    destruct (if JOBS_SIZE_LIMIT <? len _ then _ else _) as [jobs ids]. discriminate.
  - apply crawl_all_start_registries in Hstart as (Hrc & Hri & job & Hroom & Hover).
    destruct Hb as (Hj & Hjk & Hr & Hrk).
    unfold bounded. rewrite Hrc, Hri.
    destruct (Z.le_gt_cases (len (JOB_IDS st) + 1) JOBS_SIZE_LIMIT) as [Hle|Hgt].
    + destruct (Hroom Hle) as [-> ->]. rewrite len_app. change (len [_]) with 1.
      repeat split; try assumption. apply keys_after_insert, Hjk.
    + destruct (Hover Hgt) as (oldest & rest & Hids & -> & ->).
      rewrite Hids in *. rewrite len_app. change (len [_]) with 1.
      unfold len in *. simpl in Hj.
      repeat split; try assumption; [lia|].
      apply keys_after_insert. apply keys_after_pop, Hjk.
Qed.

Lemma publish_bounded uuid4 latest job st w :
  bounded st -> bounded (publish uuid4 latest job st w).1.2.
Proof.
  intros (Hj & Hjk & Hr & Hrk).
  destruct (publish_registries uuid4 latest job st w) as (Hjs & Hji & Hroom & Hover).
  unfold bounded. rewrite Hjs, Hji.
  destruct (Z.le_gt_cases (len (RESULT_IDS st) + 1) CACHE_SIZE_LIMIT) as [Hle|Hgt].
  - destruct (Hroom Hle) as [-> ->]. rewrite len_app. change (len [_]) with 1.
    repeat split; try assumption. apply keys_after_insert, Hrk.
  - destruct (Hover Hgt) as (oldest & rest & Hids & -> & ->).
    rewrite Hids in *. rewrite len_app. change (len [_]) with 1.
    unfold len in *. simpl in Hr.
    repeat split; try assumption; [lia|].
    apply keys_after_pop.
    change (oldest :: rest ++ [uuid_str (uuid4 (uuids w))])%list
      with ((oldest :: rest) ++ [uuid_str (uuid4 (uuids w))])%list.
    apply keys_after_insert, Hrk.
Qed.

Lemma publish_jobs uuid4 latest job st w :
  JOBS (publish uuid4 latest job st w).1.2 = JOBS st.
Proof. apply publish_registries. Qed.

Lemma run_job_bounded client_page get_latest_block stop_signal uuid4 format_transaction
    fuel job_id st w st' w' :
  run_job client_page get_latest_block stop_signal uuid4 format_transaction fuel job_id
    st w
  = Finished st' w' ->
  bounded st -> bounded st'.
Proof.
  unfold run_job. destruct (JOBS st !! job_id) as [job|] eqn:Hjob; [|discriminate].
  assert (Hin : is_Some (JOBS st !! job_id)) by (rewrite Hjob; eauto).
  destruct (get_latest_block (blocks w)) as [latest|e].
  - destruct (crawl_loop _ _ _ _ _ _ _) as [j w1|j w1|j w1|e j w1|]; simpl;
      try discriminate;
      try (intros [= <- <-] Hb; apply store_job_bounded; assumption).
    all: pose proof (publish_bounded uuid4 latest j st w1) as Hpb;
      pose proof (publish_jobs uuid4 latest j st w1) as Hpj;
      destruct (publish uuid4 latest j st w1) as [[j' st1] w2]; simpl in *;
      intros [= <- <-] Hb; apply store_job_bounded; [rewrite Hpj|]; auto.
  - intros [= <- <-] Hb. apply store_job_bounded; assumption.
Qed.

Lemma reachable_bounded st : reachable st -> bounded st.
Proof.
  induction 1 as [| | |job_id st res st' _ IH Hstop|job_id st res st' _ IH Hres].
  - unfold bounded, empty_store, len. simpl.
    repeat split; try (unfold JOBS_SIZE_LIMIT, CACHE_SIZE_LIMIT; lia);
      intros k [? Hk]; rewrite lookup_empty in Hk; discriminate.
  - eapply crawl_all_start_bounded; eassumption.
  - eapply run_job_bounded; eassumption.
  - unfold crawl_stop in Hstop.
    destruct (JOBS st !! job_id) as [job|] eqn:Hjob.
    + injection Hstop as _ <-. apply store_job_bounded; [rewrite Hjob; eauto|assumption].
    + injection Hstop as _ <-. assumption.
  - unfold crawl_resume in Hres.
    destruct (JOBS st !! job_id) as [job|] eqn:Hjob; [|injection Hres as _ <-; assumption].
    destruct (negb (paused job)); [injection Hres as _ <-; assumption|].
    destruct (running job); [injection Hres as _ <-; assumption|].
    destruct (done job); [injection Hres as _ <-; assumption|].
    injection Hres as _ <-. apply store_job_bounded; [rewrite Hjob; eauto|assumption].
Qed.

(** X3: in every store the endpoints and runs can produce, at most 20
    jobs are tracked and at most 10 results cached.  A job creation that
    would put a 21st id on the FIFO list drops the oldest id and its
    job; a publication that would put an 11th id on the list of result
    ids drops the oldest id and its result.  Creating a job, with or
    without eviction, leaves the cache of results as it is, so a result
    can still be looked up by its id after its job was evicted. *)
Theorem registries_bounded :
  (forall st, reachable st ->
     (size (JOBS st) <= 20)%nat /\ (size (RESULTS_CACHE st) <= 10)%nat /\
     len (JOB_IDS st) <= 20 /\ len (RESULT_IDS st) <= 10) /\
  (forall uuid4 cc address start_block it mp page_size st w job_id st' w',
     crawl_all_start uuid4 cc address start_block it mp page_size st w
     = (inr job_id, st', w') ->
     (forall rid, RESULTS_CACHE st' !! rid = RESULTS_CACHE st !! rid) /\
     RESULT_IDS st' = RESULT_IDS st /\
     exists job,
       (len (JOB_IDS st) + 1 <= JOBS_SIZE_LIMIT ->
        JOB_IDS st' = (JOB_IDS st ++ [job_id])%list /\
        JOBS st' = <[job_id := job]> (JOBS st)) /\
       (JOBS_SIZE_LIMIT < len (JOB_IDS st) + 1 ->
        exists oldest rest,
          JOB_IDS st = oldest :: rest /\
          JOB_IDS st' = (rest ++ [job_id])%list /\
          JOBS st' = <[job_id := job]> (delete oldest (JOBS st)))) /\
  (forall uuid4 latest job st w,
     let st' := (publish uuid4 latest job st w).1.2 in
     let result_id := uuid_str (uuid4 (uuids w)) in
     JOBS st' = JOBS st /\ JOB_IDS st' = JOB_IDS st /\
     (len (RESULT_IDS st) + 1 <= CACHE_SIZE_LIMIT ->
      RESULT_IDS st' = (RESULT_IDS st ++ [result_id])%list /\
      RESULTS_CACHE st' = <[result_id := result_of latest job]> (RESULTS_CACHE st)) /\
     (CACHE_SIZE_LIMIT < len (RESULT_IDS st) + 1 ->
      exists oldest rest,
        RESULT_IDS st = oldest :: rest /\
        RESULT_IDS st' = (rest ++ [result_id])%list /\
        RESULTS_CACHE st'
        = delete oldest (<[result_id := result_of latest job]> (RESULTS_CACHE st)))).
Proof.
  split; [|split].
  - intros st Hreach. apply reachable_bounded in Hreach as (Hj & Hjk & Hr & Hrk).
    pose proof (size_le_ids _ _ Hjk). pose proof (size_le_ids _ _ Hrk).
    unfold JOBS_SIZE_LIMIT, CACHE_SIZE_LIMIT, len in *. lia.
  - intros uuid4 cc address start_block it mp page_size st w job_id st' w' Hstart.
    apply crawl_all_start_registries in Hstart as (Hrc & Hri & Hjobs).
    split; [intros rid; rewrite Hrc; reflexivity|]. split; assumption.
  - intros uuid4 latest job st w. apply publish_registries.
Qed.

(** The theorem at work: the registry after one job was created. *)
Lemma registries_bounded_witness :
  (size (JOBS created_9999.1.2) <= 20)%nat /\
  (size (RESULTS_CACHE created_9999.1.2) <= 10)%nat.
Proof.
  destruct (proj1 registries_bounded created_9999.1.2) as (Hj & Hr & _).
  - eapply (reach_start uuid_of true "0xabc" 0 false MaxPagesBlank 9999 empty_store
              world0 created_9999.1.1 created_9999.1.2 created_9999.2 reach_empty).
    vm_compute. reflexivity.
  - split; assumption.
Defined.

End RegistryProofs.

(** * Proofs: token transfers *)

Module TokenProofs.
Import Main MainSpec WindowProofs CrawlProofs FrameProofs EndpointProofs RegistryProofs.

(** Computes the fields of updated jobs. *)
Ltac job_norm :=
  cbv [address start_block include_tokens page_size max_pages_int
       latest_block seg_start window_blocks pages_total segments_done
       eth_total_unique current_segment_start current_segment_end
       coverage_start coverage_end stop_requested running done paused error
       rid seen_hashes segments token_seen_hashes high_activity
       high_activity_reason set_include_tokens set_latest_block
       set_seg_start set_window_blocks set_pages_total set_segments_done
       set_eth_total_unique set_current_segment_start
       set_current_segment_end set_coverage_end set_stop_requested
       set_running set_done set_paused set_error set_rid set_seen_hashes
       set_segments set_high_activity set_high_activity_reason].

Section Tokens.

Variable client_page : nat -> Query -> Reply (list Tx).
Variable get_latest_block : nat -> Reply Z.
Variable stop_signal : nat -> bool.
Variable uuid4 : nat -> string.
Variable format_transaction : Tx -> string -> option string.

Local Abbreviation iteration := (iteration client_page stop_signal format_transaction).
Local Abbreviation crawl_loop := (crawl_loop client_page stop_signal format_transaction).
Local Abbreviation publish := (publish uuid4).
Local Abbreviation finish_run := (finish_run uuid4).
Local Abbreviation run_job :=
  (run_job client_page get_latest_block stop_signal uuid4 format_transaction).

Lemma pause_job_include_tokens b l job :
  pause_job l (set_include_tokens b job) = set_include_tokens b (pause_job l job).
Proof.
  unfold pause_job.
  change (segments (set_segments_done _ _)) with (segments job).
  change (segments (set_segments_done _ _)) with (segments job).
  destruct (last (segments job)); job_norm; reflexivity.
Qed.

Lemma flag_high_activity_include_tokens b cond reason job :
  flag_high_activity cond reason (set_include_tokens b job)
  = set_include_tokens b (flag_high_activity cond reason job).
Proof.
  unfold flag_high_activity.
  change (high_activity (set_include_tokens b job)) with (high_activity job).
  destruct (cond && negb (high_activity job)); job_norm; reflexivity.
Qed.

(** The loop does not read [include_tokens]. *)
Lemma iteration_include_tokens b fuel latest l job w :
  iteration fuel latest l (set_include_tokens b job) w
  = iteration_map (set_include_tokens b) (iteration fuel latest l job w).
Proof.
  unfold Main.iteration, should_stop_check.
  change (stop_requested (set_include_tokens b job)) with (stop_requested job).
  change (address (set_include_tokens b job)) with (address job).
  change (page_size (set_include_tokens b job)) with (page_size job).
  change (max_pages_int (set_include_tokens b job)) with (max_pages_int job).
  destruct (stop_requested job || stop_signal (polls w)).
  { cbn [iteration_map end_map]. rewrite pause_job_include_tokens. reflexivity. }
  destruct (SAFETY_MAX_SEGMENTS <? cur_segment_num l + 1).
  { cbn [iteration_map end_map]. unfold fail_job. job_norm. reflexivity. }
  destruct (fetch_txlist_window _ _ _ _ _ _ _ _ _ _ _) as [r w1|e w1|];
    [|reflexivity|reflexivity].
  destruct (paused_hit r).
  { cbn [iteration_map end_map]. rewrite pause_job_include_tokens. reflexivity. }
  destruct (window_truncated r).
  { cbn [iteration_map end_map]. unfold fail_job. job_norm. reflexivity. }
  destruct (cap_hit r).
  - destruct (cap_unresolvable r).
    { cbn [iteration_map end_map]. unfold fail_job. job_norm. reflexivity. }
    destruct (MIN_WINDOW_BLOCKS <? cur_window_blocks l).
    + cbn [iteration_map]. rewrite flag_high_activity_include_tokens. reflexivity.
    + cbn [iteration_map end_map]. unfold fail_job. job_norm. reflexivity.
  - destruct (format_preview _ _ _).
    { cbn [iteration_map end_map]. job_norm. reflexivity. }
    cbn [iteration_map]. rewrite <- !flag_high_activity_include_tokens.
    do 3 f_equal; job_norm; reflexivity.
Qed.

Lemma crawl_loop_include_tokens b fuel latest l job w :
  crawl_loop fuel latest l (set_include_tokens b job) w
  = end_map (set_include_tokens b) (crawl_loop fuel latest l job w).
Proof.
  revert l job w. induction fuel as [|fuel IH]; intros l job w; simpl; [reflexivity|].
  destruct (cur_seg_start l <=? latest); [|reflexivity].
  rewrite iteration_include_tokens.
  destruct (iteration fuel latest l job w) as [l' job' w'|e]; simpl; [apply IH|reflexivity].
Qed.

(** With no token transfer collected, the published result has none,
    whatever [include_tokens] says. *)
Lemma result_of_no_tokens latest job :
  token_seen_hashes job = [] -> token_txs (result_of latest job) = None.
Proof.
  intros H. unfold result_of. simpl. rewrite H. destruct (include_tokens job); reflexivity.
Qed.

Lemma result_of_include_tokens b latest job :
  token_seen_hashes job = [] ->
  result_of latest (set_include_tokens b job)
  = with_include_tokens b (result_of latest job).
Proof.
  intros H. unfold result_of, with_include_tokens. simpl. rewrite H.
  destruct b, (include_tokens job); reflexivity.
Qed.

Lemma insert_include_tokens b (cache : gmap string ResultEntry) result_id entry rid :
  <[result_id := with_include_tokens b entry]> cache !! rid
  = <[result_id := entry]> cache !! rid \/
  <[result_id := with_include_tokens b entry]> cache !! rid
  = with_include_tokens b <$> <[result_id := entry]> cache !! rid.
Proof.
  destruct (decide (result_id = rid)) as [->|Hne].
  - right. rewrite !lookup_insert_eq. reflexivity.
  - left. rewrite !lookup_insert_ne by assumption. reflexivity.
Qed.

(** Publishing does the same for either value of the flag. *)
Lemma publish_include_tokens b latest job st stb w :
  token_seen_hashes job = [] ->
  RESULTS_CACHE stb = RESULTS_CACHE st -> RESULT_IDS stb = RESULT_IDS st ->
  (publish latest (set_include_tokens b job) stb w).1.1
  = set_include_tokens b (publish latest job st w).1.1 /\
  (publish latest (set_include_tokens b job) stb w).2 = (publish latest job st w).2 /\
  JOBS (publish latest (set_include_tokens b job) stb w).1.2 = JOBS stb /\
  JOB_IDS (publish latest (set_include_tokens b job) stb w).1.2 = JOB_IDS stb /\
  RESULT_IDS (publish latest (set_include_tokens b job) stb w).1.2
  = RESULT_IDS (publish latest job st w).1.2 /\
  forall rid,
    RESULTS_CACHE (publish latest (set_include_tokens b job) stb w).1.2 !! rid
    = RESULTS_CACHE (publish latest job st w).1.2 !! rid \/
    RESULTS_CACHE (publish latest (set_include_tokens b job) stb w).1.2 !! rid
    = with_include_tokens b <$> RESULTS_CACHE (publish latest job st w).1.2 !! rid.
Proof.
  intros Htok Hcache Hids. unfold Main.publish.
  rewrite (result_of_include_tokens b latest job Htok), Hcache, Hids.
  destruct (CACHE_SIZE_LIMIT <? len _); [destruct (pop0 _) as [[oldest ids']|]|];
    simpl; repeat (split; [reflexivity|]); intros rid;
    try apply insert_include_tokens.
  destruct (decide (oldest = rid)) as [->|Hne].
  - left. rewrite !lookup_delete_eq. reflexivity.
  - rewrite !lookup_delete_ne by assumption. apply insert_include_tokens.
Qed.

Lemma finish_run_include_tokens b job_id latest st job e :
  (forall j, end_job e = Some j -> token_seen_hashes j = []) ->
  match finish_run job_id latest st e with
  | Finished st' w' =>
      exists stb,
        finish_run job_id latest (store_job job_id (set_include_tokens b job) st)
          (end_map (set_include_tokens b) e) = Finished stb w' /\
        same_but_flag b job_id st' stb
  | _ => True
  end.
Proof.
  intros Htok.
  destruct e as [j w1|j w1|j w1|str_e j w1|]; simpl; try exact I;
    try (eexists; split; [reflexivity|]; unfold same_but_flag; simpl;
         repeat split; try reflexivity;
         [intros k Hk; rewrite !lookup_insert_ne by congruence; reflexivity
         |rewrite !lookup_insert_eq; reflexivity
         |intros rid; left; reflexivity]).
  all: destruct (publish_include_tokens b latest j st
                   (store_job job_id (set_include_tokens b job) st) w1
                   (Htok j eq_refl) eq_refl eq_refl)
         as (Hj & Hw & Hjobs & Hjids & Hrids & Hcache);
    pose proof (publish_registries uuid4 latest j st w1) as (Hpj & Hpi & _);
    destruct (Main.publish uuid4 latest (set_include_tokens b j) _ w1)
      as [[jb stb] wb];
    destruct (Main.publish uuid4 latest j st w1) as [[j' st'] w'];
    simpl in *; subst jb wb;
    eexists; split; [reflexivity|]; unfold same_but_flag; simpl;
    repeat split; try assumption; try congruence;
    [intros k Hk; rewrite !lookup_insert_ne by congruence;
     rewrite Hjobs, Hpj; simpl; rewrite lookup_insert_ne by congruence; reflexivity
    |rewrite !lookup_insert_eq; reflexivity].
Qed.

(** X4: a run never assigns [token_seen_hashes]: the job keeps the empty
    accumulator it was created with, every result the run adds to the
    cache has [token_txs = None], also when [include_tokens] is set, and
    every request of the run is a [txlist] request.  Setting
    [include_tokens] to any value changes the outcome of the run in that
    flag of the job and of the result only. *)
Theorem token_accumulator_never_filled
    (fuel : nat) (job_id : string) (st : Store) (w : World) (job : Job)
    (st' : Store) (w' : World) :
  JOBS st !! job_id = Some job ->
  token_seen_hashes job = [] ->
  run_job fuel job_id st w = Finished st' w' ->
  (exists job', JOBS st' !! job_id = Some job' /\ token_seen_hashes job' = []) /\
  (forall rid entry,
     RESULTS_CACHE st' !! rid = Some entry ->
     RESULTS_CACHE st !! rid = Some entry \/ token_txs entry = None) /\
  issued (fun q => action q = txlist) w w' /\
  (forall b,
     exists stb,
       run_job fuel job_id (store_job job_id (set_include_tokens b job) st) w
       = Finished stb w' /\
       same_but_flag b job_id st' stb).
Proof.
  intros Hjob Htok Hrun.
  split; [|split; [|split]].
  - unfold Main.run_job in Hrun. rewrite Hjob in Hrun.
    destruct (get_latest_block (blocks w)) as [latest|e].
    + match type of Hrun with
      | context [Main.crawl_loop _ _ _ _ _ ?l ?j ?w0] =>
          destruct (crawl_loop_frame client_page stop_signal format_transaction
                        fuel latest l j w0)
            as [Hcfg _];
          destruct (crawl_loop fuel latest l j w0) as [j1 w1|j1 w1|j1 w1|e j1 w1|]
      end; simpl in Hrun; try discriminate;
        specialize (Hcfg j1 eq_refl); destruct Hcfg as (_&_&_&_&_&_&Htk);
        simpl in Htk.
      * injection Hrun as <- <-. eexists. split; [apply lookup_insert_eq|congruence].
      * destruct (Main.publish uuid4 latest j1 st w1) as [[j2 st2] w2] eqn:Hp.
        injection Hrun as <- <-. eexists. split; [apply lookup_insert_eq|].
        unfold Main.publish in Hp.
        destruct (if CACHE_SIZE_LIMIT <? len _ then _ else _) as [cache ids].
        injection Hp as <- _ _. simpl. congruence.
      * destruct (Main.publish uuid4 latest j1 st w1) as [[j2 st2] w2] eqn:Hp.
        injection Hrun as <- <-. eexists. split; [apply lookup_insert_eq|].
        unfold Main.publish in Hp.
        destruct (if CACHE_SIZE_LIMIT <? len _ then _ else _) as [cache ids].
        injection Hp as <- _ _. simpl. congruence.
      * injection Hrun as <- <-. eexists. split; [apply lookup_insert_eq|].
        simpl. congruence.
    + injection Hrun as <- <-. eexists. split; [apply lookup_insert_eq|]. simpl.
      assumption.
  - intros rid entry Hentry.
    unfold Main.run_job in Hrun. rewrite Hjob in Hrun.
    destruct (get_latest_block (blocks w)) as [latest|e];
      [|injection Hrun as <- <-; left; exact Hentry].
    match type of Hrun with
    | context [Main.crawl_loop _ _ _ _ _ ?l ?j ?w0] =>
        destruct (crawl_loop_frame client_page stop_signal format_transaction fuel latest l j w0)
          as [Hcfg _];
        destruct (crawl_loop fuel latest l j w0) as [j1 w1|j1 w1|j1 w1|e j1 w1|]
    end; simpl in Hrun; try discriminate;
      try (injection Hrun as <- <-; left; exact Hentry);
      specialize (Hcfg j1 eq_refl); destruct Hcfg as (_&_&_&_&_&_&Htk);
      simpl in Htk; rewrite Htok in Htk.
    all: pose proof (publish_registries uuid4 latest j1 st w1) as (_ & _ & Hroom & Hover);
      destruct (Main.publish uuid4 latest j1 st w1) as [[j2 st2] w2];
      injection Hrun as <- <-; simpl in *;
      assert (Hcases : RESULTS_CACHE st2
                       = <[uuid_str (uuid4 (uuids w1)) := result_of latest j1]>
                           (RESULTS_CACHE st) \/
                       exists oldest,
                         RESULTS_CACHE st2
                         = delete oldest
                             (<[uuid_str (uuid4 (uuids w1)) := result_of latest j1]>
                                (RESULTS_CACHE st)))
        by (destruct (Z.le_gt_cases (len (RESULT_IDS st) + 1) CACHE_SIZE_LIMIT)
              as [Hle|Hgt];
            [left; apply Hroom, Hle
            |right; destruct (Hover Hgt) as (o & r & _ & _ & Hc); eauto]);
      assert (Hins : <[uuid_str (uuid4 (uuids w1)) := result_of latest j1]>
                       (RESULTS_CACHE st) !! rid = Some entry)
        by (destruct Hcases as [Hc|[oldest Hc]]; rewrite Hc in Hentry;
            [exact Hentry|];
            destruct (decide (oldest = rid)) as [->|Hne];
            [rewrite lookup_delete_eq in Hentry; discriminate
            |rewrite lookup_delete_ne in Hentry by assumption; exact Hentry]);
      destruct (decide (uuid_str (uuid4 (uuids w1)) = rid)) as [Heq|Hne];
      [rewrite Heq, lookup_insert_eq in Hins; injection Hins as <-;
       right; apply result_of_no_tokens; assumption
      |rewrite lookup_insert_ne in Hins by assumption; left; exact Hins].
  - eapply issued_weaken;
      [|eapply (run_job_issued client_page get_latest_block stop_signal uuid4 format_transaction);
        eassumption].
    intros q (Ha & _). exact Ha.
  - intros b. unfold Main.run_job in *. rewrite Hjob in Hrun.
    simpl JOBS. rewrite lookup_insert_eq.
    destruct (get_latest_block (blocks w)) as [latest|e].
    + match type of Hrun with
      | context [Main.crawl_loop _ _ _ _ _ ?l ?j ?w0] =>
          change (finish_run job_id latest
                    (store_job job_id (set_include_tokens b job) st)
                    (crawl_loop fuel latest l (set_include_tokens b j) w0)
                  = Finished ?[stb] w' /\ same_but_flag b job_id st' ?stb)
            with (finish_run job_id latest
                    (store_job job_id (set_include_tokens b job) st)
                    (crawl_loop fuel latest l (set_include_tokens b j) w0)
                  = Finished ?stb w' /\ same_but_flag b job_id st' ?stb);
          pose proof (finish_run_include_tokens b job_id latest st job
                        (crawl_loop fuel latest l j w0)) as Hfin;
          destruct (crawl_loop_frame client_page stop_signal format_transaction
                        fuel latest l j w0)
            as [Hcfg _]
      end.
      rewrite Hrun in Hfin.
      rewrite <- crawl_loop_include_tokens in Hfin.
      apply Hfin. intros j1 Hj1. apply Hcfg in Hj1 as (_&_&_&_&_&_&Htk).
      simpl in Htk. congruence.
    + injection Hrun as <- <-. eexists. split; [reflexivity|].
      unfold same_but_flag. simpl. repeat split; try reflexivity.
      * intros k Hk. rewrite !lookup_insert_ne by congruence. reflexivity.
      * rewrite !lookup_insert_eq. reflexivity.
      * intros rid. left. reflexivity.
Qed.

End Tokens.

(** The theorem at work: the job that asked for token transfers ends
    with an empty token accumulator and a result without token list. *)
Lemma token_accumulator_never_filled_witness :
  (exists job', JOBS MoreSpec.run_tokens.1 !! "job1" = Some job' /\ token_seen_hashes job' = []) /\
  (forall rid entry,
     RESULTS_CACHE MoreSpec.run_tokens.1 !! rid = Some entry -> token_txs entry = None).
Proof.
  assert (Hjob : JOBS store_tokens !! "job1" = Some job_tokens)
    by (vm_compute; reflexivity).
  assert (Hrun : run_job two_txs (latest_is 100) never_stop uuid_of formats_all 50 "job1"
                   store_tokens world0
                 = Finished MoreSpec.run_tokens.1 MoreSpec.run_tokens.2)
    by (vm_compute; reflexivity).
  destruct (token_accumulator_never_filled two_txs (latest_is 100) never_stop uuid_of formats_all
              50 "job1" store_tokens world0 job_tokens MoreSpec.run_tokens.1 MoreSpec.run_tokens.2
              Hjob eq_refl Hrun)
    as (Hacc & Hcache & _).
  split; [exact Hacc|]. intros rid entry Hentry.
  destruct (Hcache rid entry Hentry) as [Hold|Hnone]; [|exact Hnone].
  change (RESULTS_CACHE store_tokens) with (∅ : gmap string ResultEntry) in Hold.
  rewrite lookup_empty in Hold. discriminate.
Defined.

End TokenProofs.

(** * Proofs: more on the transport client *)

Module EtherscanMore.
Import Etherscan EtherscanSpec EtherscanProofs.

(** An attempt goes round again only before the last one, and then
    sleeps [backoff_times[attempt]]. *)
Lemma attempt_continue_inv r attempt le lr backoff le' lr' :
  attempt_body r attempt le lr = Continue backoff le' lr' ->
  (attempt < 2)%nat /\ backoff = nth attempt backoff_times 0.
Proof.
  unfold attempt_body, except_Exception, max_attempts.
  change (3 - 1)%nat with 2%nat.
  destruct (attempt <? 2)%nat eqn:Hretry.
  - apply Nat.ltb_lt in Hretry. intros H. split; [assumption|].
    destruct r as [e|e|[[code text]|] e|e|text [d|]];
      try destruct (code =? 429);
      try (destruct (message_lower d) as [m|err];
           [rewrite !andb_true_r in H;
            destruct (is_rate_limit d m); [|destruct (is_notok d m)]|]);
      try discriminate; injection H as <- _ _; reflexivity.
  - destruct r as [e|e|[[code text]|] e|e|text [d|]];
      try destruct (code =? 429);
      try (destruct (message_lower d) as [m|err]; [rewrite !andb_false_r|]);
      discriminate.
Qed.

Lemma total_sleep_app e1 e2 : total_sleep (e1 ++ e2) = total_sleep e1 + total_sleep e2.
Proof.
  induction e1 as [|[a|s] e1 IH]; simpl; rewrite ?IH; lia.
Qed.

(** X8: whatever the upstream answers, one call of [_get] leaves the
    loop in one of its three attempts: its trace is the requests
    0 .. k for some k < 3, each but the last followed by a sleep of 1s
    (after the first) or 2s (after the second).  So it sends at most 3
    requests, sleeps at most 3 seconds in all, and the third entry of
    [backoff_times], 4s, is never slept. *)
Theorem get_trace_bounded (net : nat -> Response) :
  exists k, (k < 3)%nat /\
    fst (_get net) = retry_trace k /\
    (List.length (filter is_request (fst (_get net))) <= 3)%nat /\
    total_sleep (fst (_get net)) <= 3 /\
    ~ In (Sleep 4) (fst (_get net)).
Proof.
  assert (Hk : exists k, (k < 3)%nat /\ fst (_get net) = retry_trace k).
  { unfold _get. simpl seq. cbn [get_loop].
    destruct (attempt_body (net 0%nat) 0 None None) as [b0 le0 lr0|d|e] eqn:E0;
      [|exists 0%nat; split; [lia|reflexivity]..].
    apply attempt_continue_inv in E0 as [_ ->].
    destruct (attempt_body (net 1%nat) 1 le0 lr0) as [b1 le1 lr1|d|e] eqn:E1;
      [|exists 1%nat; split; [lia|reflexivity]..].
    apply attempt_continue_inv in E1 as [_ ->].
    destruct (attempt_body (net 2%nat) 2 le1 lr1) as [b2 le2 lr2|d|e] eqn:E2;
      [|exists 2%nat; split; [lia|reflexivity]..].
    apply attempt_continue_inv in E2 as [Hlt _]. lia. }
  destruct Hk as (k & Hlt & Htrace). exists k. split; [assumption|].
  split; [assumption|]. rewrite Htrace.
  destruct k as [|[|[|k]]]; [| | |lia]; vm_compute;
    (split; [lia|split; [discriminate|]]);
    intros H; repeat (destruct H as [H|H]; [discriminate|]); exact H.
Qed.

(** The answer [_get] returns, and the trace that leads to it. *)
Lemma get_answer_at (net : nat -> Response) (k : nat) (text : string) (d : JsonData) :
  (k < 3)%nat ->
  (forall attempt, (attempt < k)%nat -> retry_condition (net attempt) = true) ->
  net k = Ok2xx text (Some d) ->
  message_is_text d = true ->
  is_zero (status d) = false \/ k = 2%nat ->
  _get net = (retry_trace k, Returns d).
Proof.
  intros Hk Hprev Hnet Hmsg Hok.
  assert (Hbody : forall le lr, attempt_body (net k) k le lr = Return d).
  { intros le lr. rewrite Hnet. unfold attempt_body.
    unfold message_is_text in Hmsg.
    destruct (message_lower d) as [m|]; [|discriminate].
    destruct Hok as [Hz| ->].
    - unfold is_rate_limit, is_notok. rewrite Hz. reflexivity.
    - simpl. rewrite !andb_false_r. reflexivity. }
  destruct k as [|[|[|k]]]; [| | |lia].
  - unfold _get. simpl seq. cbn [get_loop]. rewrite Hbody. reflexivity.
  - destruct (retry_condition_continues (net 0%nat) 0 None None) as (le1 & lr1 & E0);
      [lia | apply Hprev; lia |].
    unfold _get. simpl seq. cbn [get_loop]. rewrite E0, Hbody. reflexivity.
  - destruct (retry_condition_continues (net 0%nat) 0 None None) as (le1 & lr1 & E0);
      [lia | apply Hprev; lia |].
    destruct (retry_condition_continues (net 1%nat) 1 le1 lr1) as (le2 & lr2 & E1);
      [lia | apply Hprev; lia |].
    unfold _get. simpl seq. cbn [get_loop]. rewrite E0, E1, Hbody. reflexivity.
Qed.

(** X7: when the attempts before attempt [k] all meet a retry condition
    and attempt [k] gets a decoded answer, its message absent or a
    string, whose status is not "0" (or attempt [k] is the third one),
    [_get] returns that answer, having slept exactly the backoffs of the
    earlier attempts: nothing for k = 0, 1s for k = 1, 1s then 2s for
    k = 2. *)
Theorem get_returns_first_answer (net : nat -> Response) (k : nat) (text : string)
    (d : JsonData) :
  (k < 3)%nat ->
  (forall attempt, (attempt < k)%nat -> retry_condition (net attempt) = true) ->
  net k = Ok2xx text (Some d) ->
  message_is_text d = true ->
  is_zero (status d) = false \/ k = 2%nat ->
  _get net = (retry_trace k, Returns d).
Proof. apply get_answer_at. Qed.

(** The theorem at work: two timeouts, then a page. *)
Lemma get_returns_first_answer_witness :
  _get timeouts_then_page
  = ([Request 0; Sleep 1; Request 1; Sleep 2; Request 2], Returns one_page).
Proof.
  apply (get_returns_first_answer timeouts_then_page 2 "page" one_page).
  - lia.
  - intros [|[|attempt]] Hlt; [reflexivity|reflexivity|lia].
  - reflexivity.
  - reflexivity.
  - left. reflexivity.
Defined.

(** X9: [txlist_page] hands over the result of an answer with status
    "1", its message absent or a string, reached at the first attempt,
    after that single request: the list of transactions when it is one,
    and any other value as it is.  When all three attempts get a not-OK
    answer with such a message, rate-limit signals included, it returns
    the empty list after the three requests and
    the sleeps of 1s and 2s: to its caller a rate-limited window looks
    like a window without transactions. *)
Theorem txlist_page_not_ok_is_empty (net : nat -> Response) :
  (forall text d v,
     net 0%nat = Ok2xx text (Some d) ->
     message_is_text d = true ->
     status d = Some (JStr "1") -> result d = Some v ->
     txlist_page net = ([Request 0], inl v)) /\
  ((forall attempt, (attempt < 3)%nat -> not_ok_answer (net attempt) = true) ->
   txlist_page net
   = ([Request 0; Sleep 1; Request 1; Sleep 2; Request 2], inl (JArr []))).
Proof.
  split.
  - intros text d v Hnet Hmsg Hst Hres. unfold txlist_page.
    rewrite (get_answer_at net 0 text d); try assumption; try lia.
    + simpl. rewrite Hst, Hres. reflexivity.
    + left. rewrite Hst. reflexivity.
  - intros Hall.
    assert (H2 := Hall 2%nat ltac:(lia)).
    destruct (net 2%nat) as [e|e|resp e|e|text [d|]] eqn:Hnet; try discriminate.
    simpl in H2. apply andb_true_iff in H2 as [Hz Hmsg].
    unfold txlist_page.
    rewrite (get_answer_at net 2 text d); try assumption; try lia.
    + cbn match. unfold is_zero in Hz.
      destruct (status d) as [[s| |]|]; try discriminate.
      apply String.eqb_eq in Hz. subst s. reflexivity.
    + intros attempt Hlt. specialize (Hall attempt ltac:(lia)).
      destruct (net attempt) as [?|?|?|?|? [?|]]; try discriminate.
      simpl in Hall. apply andb_true_iff in Hall as [Hz' _]. exact Hz'.
Qed.

(** The theorem at work: a first answer with one transaction is handed
    over, and three rate-limit signals give an empty page. *)
Lemma txlist_page_not_ok_is_empty_witness :
  txlist_page (fun _ => Ok2xx "page" (Some one_page))
  = ([Request 0], inl (JArr [mkTx "0xaa" 3 30 "0xa" "0xb" 0 "21000" "1000000000"])) /\
  txlist_page always_rate_limited
  = ([Request 0; Sleep 1; Request 1; Sleep 2; Request 2], inl (JArr [])).
Proof.
  split.
  - apply (proj1 (txlist_page_not_ok_is_empty (fun _ => Ok2xx "page" (Some one_page)))
             "page" one_page); reflexivity.
  - apply (proj2 (txlist_page_not_ok_is_empty always_rate_limited)).
    intros attempt _. reflexivity.
Defined.

End EtherscanMore.

(** * Proofs: the pages a drain and a run ask for *)

Module TraceProofs.
Import Main MainSpec MoreSpec WindowProofs CrawlProofs FrameProofs.

Lemma page_queries_S act address s e ps first n :
  page_queries act address s e ps first (S n)
  = mkQuery act address s e first ps :: page_queries act address s e ps (first + 1) n.
Proof.
  unfold page_queries. simpl. rewrite Z.add_0_r. f_equal.
  rewrite <- seq_shift, map_map. apply map_ext. intros i. f_equal. lia.
Qed.

Lemma page_queries_length act address s e ps first n :
  List.length (page_queries act address s e ps first n) = n.
Proof. unfold page_queries. rewrite length_map, length_seq. reflexivity. Qed.

Lemma max_pages_for_ceil page_size :
  0 < page_size ->
  MAX_RECORDS_PER_QUERY <= max_pages_for page_size * page_size /\
  (max_pages_for page_size - 1) * page_size < MAX_RECORDS_PER_QUERY.
Proof.
  intros Hpos. unfold max_pages_for.
  pose proof (Z.div_mod (- MAX_RECORDS_PER_QUERY) page_size ltac:(lia)) as Hdm.
  pose proof (Z.mod_pos_bound (- MAX_RECORDS_PER_QUERY) page_size Hpos) as Hm.
  nia.
Qed.

Section Drain.

Variable client_page : nat -> Query -> Reply (list Tx).
Variables (act : Action) (address : string) (start_blk end_blk page_size : Z)
          (pages_total : Z) (max_pages_int : option Z)
          (should_stop : option (World -> bool * World)) (min_window_blocks : Z).

(** The stop callback only reads and counts. *)
Hypothesis should_stop_reads :
  forall w, requests (call_should_stop should_stop w).2 = requests w.

Local Abbreviation fetch_page :=
  (fetch_page client_page act address start_blk end_blk page_size pages_total
     max_pages_int should_stop min_window_blocks).
Local Abbreviation fetch_loop :=
  (fetch_loop client_page act address start_blk end_blk page_size pages_total
     max_pages_int should_stop min_window_blocks).
Local Abbreviation fetch_window :=
  (fetch_window client_page act address start_blk end_blk page_size pages_total
     max_pages_int should_stop min_window_blocks).
Local Abbreviation over_budget := (over_budget pages_total max_pages_int).
Local Abbreviation query p := (mkQuery act address start_blk end_blk p page_size).
Local Abbreviation queries := (page_queries act address start_blk end_blk page_size).

(** What one turn of the drain asks for. *)
Lemma fetch_page_trace mp collected p0 w :
  match fetch_page mp collected p0 w with
  | NextPage c' p' w' =>
      p' = p0 + 1 /\ requests w' = (requests w ++ [query p0])%list /\
      over_budget p0 = false /\
      len collected + page_size <= len c' /\ len c' < MAX_RECORDS_PER_QUERY
  | FetchEnd (Fetched r w') =>
      (requests w' = requests w /\ pages_used r = p0) \/
      (requests w' = (requests w ++ [query p0])%list /\ over_budget p0 = false /\
       p0 <= pages_used r <= p0 + 1)
  | FetchEnd (FetchRaised _ w') =>
      requests w' = (requests w ++ [query p0])%list /\ over_budget p0 = false
  | FetchEnd FetchOutOfFuel => True
  end.
Proof.
  unfold Main.fetch_page, MainSpec.over_budget.
  pose proof (should_stop_reads w) as H1.
  destruct (call_should_stop should_stop w) as [s1 w1]. simpl in H1.
  destruct s1; [left; split; [assumption|reflexivity]|].
  destruct (match max_pages_int with Some m => m <? pages_total + p0 | None => false end);
    [left; split; [assumption|reflexivity]|].
  destruct (client_page _ _) as [chunk|e];
    [|split; [simpl; rewrite H1; reflexivity|reflexivity]].
  pose proof (should_stop_reads (log_request (query p0) w1)) as H2.
  destruct (call_should_stop should_stop (log_request (query p0) w1)) as [s2 w2].
  simpl in H2. rewrite H1 in H2.
  destruct s2; [right; repeat split; simpl; try assumption; lia|].
  destruct (len chunk <? page_size) eqn:Hshort;
    [right; repeat split; simpl; try assumption; lia|].
  apply Z.ltb_ge in Hshort.
  destruct (_ || _) eqn:Hcap; [right; repeat split; simpl; try assumption; lia|].
  apply orb_false_iff in Hcap as [_ Hcap]. apply Z.leb_gt in Hcap.
  rewrite len_app in *. repeat split; try assumption; lia.
Qed.

(** A drain asks for consecutive pages, as many as the page budget and
    the record cap allow. *)
Lemma fetch_loop_trace fuel mp collected p0 w w' :
  len collected < MAX_RECORDS_PER_QUERY ->
  fetch_world (fetch_loop fuel mp collected p0 w) = Some w' ->
  exists n,
    requests w' = (requests w ++ queries p0 n)%list /\
    (forall m, max_pages_int = Some m -> (0 < n)%nat ->
               pages_total + p0 + Z.of_nat n - 1 <= m) /\
    (0 < page_size -> (0 < n)%nat ->
     len collected + (Z.of_nat n - 1) * page_size < MAX_RECORDS_PER_QUERY) /\
    (forall r, fetch_loop fuel mp collected p0 w = Fetched r w' ->
               p0 + Z.of_nat n - 1 <= pages_used r <= p0 + Z.of_nat n).
Proof.
  revert collected p0 w.
  induction fuel as [|fuel IH]; intros collected p0 w Hlen; simpl; [discriminate|].
  pose proof (fetch_page_trace mp collected p0 w) as Hstep.
  assert (Hbudget : over_budget p0 = false ->
                    forall m, max_pages_int = Some m -> pages_total + p0 <= m).
  { unfold MainSpec.over_budget. intros Hb m Hm. rewrite Hm in Hb.
    apply Z.ltb_ge in Hb. exact Hb. }
  destruct (fetch_page mp collected p0 w) as [c' p' w1|[r w1|e w1|]].
  - destruct Hstep as (-> & Hreq & Hb & Hgrow & Hcap). intros Hend.
    destruct (IH c' (p0 + 1) w1 Hcap Hend) as (n & Hn & Hbud & Hrec & Hused).
    exists (S n). rewrite page_queries_S. split; [|split; [|split]].
    + rewrite Hn, Hreq, <- app_assoc. reflexivity.
    + intros m Hm _. destruct n as [|n].
      * specialize (Hbudget Hb m Hm). lia.
      * specialize (Hbud m Hm ltac:(lia)). lia.
    + intros Hpos _. destruct n as [|n]; [simpl; lia|].
      specialize (Hrec Hpos ltac:(lia)). nia.
    + intros r Hr. specialize (Hused r Hr). lia.
  - intros [= <-]. destruct Hstep as [[Hreq Hu]|(Hreq & Hb & Hu)].
    + exists 0%nat. split; [rewrite Hreq; symmetry; apply app_nil_r|].
      split; [intros; lia|]. split; [intros; lia|].
      intros r' [= <-]. simpl. lia.
    + exists 1%nat. split; [rewrite Hreq, page_queries_S; reflexivity|].
      split; [intros m Hm _; specialize (Hbudget Hb m Hm); lia|].
      split; [intros; simpl; lia|].
      intros r' [= <-]. simpl. lia.
  - intros [= <-]. destruct Hstep as (Hreq & Hb).
    exists 1%nat. split; [rewrite Hreq, page_queries_S; reflexivity|].
    split; [intros m Hm _; specialize (Hbudget Hb m Hm); lia|].
    split; [intros; simpl; lia|]. intros r' [=].
  - discriminate.
Qed.

Lemma fetch_window_trace fuel w w' :
  fetch_world (fetch_window fuel w) = Some w' ->
  exists n,
    requests w' = (requests w ++ queries 1 n)%list /\
    (0 < page_size -> Z.of_nat n <= max_pages_for page_size) /\
    (forall m, max_pages_int = Some m -> (0 < n)%nat ->
               pages_total + Z.of_nat n <= m) /\
    (forall r, fetch_window fuel w = Fetched r w' ->
               Z.of_nat n <= pages_used r <= Z.of_nat n + 1).
Proof.
  unfold Main.fetch_window. destruct (page_size =? 0) eqn:Hz.
  - intros [= <-]. exists 0%nat. split; [symmetry; apply app_nil_r|].
    apply Z.eqb_eq in Hz. split; [lia|]. split; [intros; lia|]. intros r [=].
  - intros Hend.
    destruct (fetch_loop_trace fuel (max_pages_for page_size) [] 1 w w'
                ltac:(unfold len, MAX_RECORDS_PER_QUERY; simpl; lia) Hend)
      as (n & Hreq & Hbud & Hrec & Hused).
    exists n. split; [assumption|]. split; [|split].
    + intros Hpos. destruct n as [|n]; [|specialize (Hrec Hpos ltac:(lia))].
      * destruct (max_pages_for_ceil page_size Hpos).
        unfold MAX_RECORDS_PER_QUERY in *. simpl. nia.
      * destruct (max_pages_for_ceil page_size Hpos).
        unfold len in Hrec. simpl in Hrec. nia.
    + intros m Hm Hn. specialize (Hbud m Hm Hn). lia.
    + intros r Hr. specialize (Hused r Hr). lia.
Qed.

(** X10: a drain asks for the pages 1, 2, ..., n of its window, in that
    order and each once, and nothing else.  With a positive page size
    n is at most [ceil(10000 / page_size)]; with a page budget [m],
    [pages_total + n <= m] unless n = 0; and the [pages_used] the drain
    reports is n or n + 1. *)
Theorem drain_requests_consecutive_pages (fuel : nat) (w w' : World) :
  fetch_world (fetch_window fuel w) = Some w' ->
  exists n,
    requests w' = (requests w ++ queries 1 n)%list /\
    (0 < page_size -> Z.of_nat n <= max_pages_for page_size) /\
    (forall m, max_pages_int = Some m -> (0 < n)%nat ->
               pages_total + Z.of_nat n <= m) /\
    (forall r, fetch_window fuel w = Fetched r w' ->
               Z.of_nat n <= pages_used r <= Z.of_nat n + 1).
Proof. apply fetch_window_trace. Qed.

End Drain.

(** The theorem at work: with a budget of one page the drain of full
    pages asks for page 1 only. *)
Lemma drain_requests_consecutive_pages_witness :
  exists n,
    requests drain_one_page.2
    = (requests (tick_polls world0) ++ page_queries txlist "0xabc" 0 100 50 1 n)%list /\
    (0 < n)%nat /\ 0 + Z.of_nat n <= 1.
Proof.
  assert (Hdrain : fetch_world
                     (fetch_window full_pages txlist "0xabc" 0 100 50 0 (Some 1)
                        (Some (should_stop_check never_stop job_one_page))
                        MIN_WINDOW_BLOCKS 2 (tick_polls world0))
                   = Some drain_one_page.2)
    by (vm_compute; reflexivity).
  destruct (drain_requests_consecutive_pages full_pages txlist "0xabc" 0 100 50 0
              (Some 1) (Some (should_stop_check never_stop job_one_page))
              MIN_WINDOW_BLOCKS (fun w => eq_refl) 2 (tick_polls world0)
              drain_one_page.2 Hdrain)
    as (n & Hreq & _ & Hbud & _).
  assert (Hn : (0 < n)%nat).
  { destruct n as [|n]; [|lia]. vm_compute in Hreq. discriminate. }
  exists n. split; [exact Hreq|]. split; [exact Hn|]. apply Hbud; [reflexivity|exact Hn].
Defined.

End TraceProofs.

(** * Proofs: what an iteration does to the cursor and the job *)

Module IterationProofs.
Import Main MainSpec MoreSpec WindowProofs CrawlProofs FrameProofs TraceProofs.

(** To show something of the job a loop ends with, show it of each way
    to end. *)
Lemma ends_job (P : Job -> Prop) (e : LoopEnd) :
  match e with
  | Returned j _ | Broke j _ | Exited j _ | Raised _ j _ => P j
  | LoopOutOfFuel => True
  end ->
  forall job', end_job e = Some job' -> P job'.
Proof.
  destruct e as [j w|j w|j w|s j w|]; simpl; intros HP ? [= <-]; assumption.
Qed.

Lemma ends_world (Q : World -> Prop) (e : LoopEnd) :
  match e with
  | Returned _ w | Broke _ w | Exited _ w | Raised _ _ w => Q w
  | LoopOutOfFuel => True
  end ->
  forall w', end_world e = Some w' -> Q w'.
Proof.
  destruct e as [j w|j w|j w|s j w|]; simpl; intros HQ ? [= <-]; assumption.
Qed.

(** Settles goals about one field of a job updated by an iteration. *)
Ltac job_field :=
  unfold pause_job, fail_job, flag_high_activity;
  repeat match goal with
         | |- context [if ?c then _ else _] => destruct c
         | |- context [match last ?s with _ => _ end] => destruct (last s)
         end;
  reflexivity.

Section Loop.

Variable client_page : nat -> Query -> Reply (list Tx).
Variable stop_signal : nat -> bool.
Variable format_transaction : Tx -> string -> option string.

Local Abbreviation iteration := (iteration client_page stop_signal format_transaction).
Local Abbreviation crawl_loop := (crawl_loop client_page stop_signal format_transaction).
Local Abbreviation drain fuel latest l job w :=
  (fetch_txlist_window client_page (address job) (cur_seg_start l)
     (seg_end_of latest l) (page_size job) (cur_pages_total l) (max_pages_int job)
     (Some (should_stop_check stop_signal job)) MIN_WINDOW_BLOCKS fuel (tick_polls w)).

(** An iteration goes round again after a drain that hit the cap on a
    window it can halve, or after a complete drain; these are the two
    things it then does to the cursor and to the job.  An iteration that
    ends the loop leaves the job paused, failed or, when the drain
    raised, as it was; when [format_transaction] raised, the job has the
    records of the complete drain merged and its segment appended. *)
Lemma iteration_steps fuel latest l job w :
  match iteration fuel latest l job w with
  | Again l' job' w' =>
      exists r,
        drain fuel latest l job w = Fetched r w' /\
        paused_hit r = false /\ window_truncated r = false /\
        cur_segment_num l + 1 <= SAFETY_MAX_SEGMENTS /\
        cur_pages_total l' = cur_pages_total l + pages_used r /\
        stop_requested job' = stop_requested job /\
        running job' = running job /\ rid job' = rid job /\
        ((cap_hit r = true /\ 1 < cur_window_blocks l /\
          cur_seg_start l' = cur_seg_start l /\
          cur_window_blocks l' = Z.max (cur_window_blocks l / 2) MIN_WINDOW_BLOCKS /\
          cur_segment_num l' = cur_segment_num l /\
          seen_hashes job' = seen_hashes job /\ segments job' = segments job /\
          seg_start job' = seg_start job /\ coverage_end job' = coverage_end job /\
          window_blocks job' = window_blocks job /\
          (cur_window_blocks l' <= 1000 -> high_activity job' = true)) \/
         (cap_hit r = false /\
          cur_seg_start l' = seg_end_of latest l + 1 /\
          cur_window_blocks l' =
            (if cur_window_blocks l <? MAX_WINDOW_BLOCKS
             then Z.min (cur_window_blocks l * 2) MAX_WINDOW_BLOCKS
             else cur_window_blocks l) /\
          cur_segment_num l' = cur_segment_num l + 1 /\
          seen_hashes job' = merge_txs (seen_hashes job) (window_txs r) /\
          segments job' =
            (segments job ++
             [mkSegment (cur_seg_start l) (seg_end_of latest l) (pages_used r)
                (len (window_txs r)) false])%list /\
          seg_start job' = seg_end_of latest l + 1 /\
          coverage_end job' = Some (seg_end_of latest l) /\
          window_blocks job' = cur_window_blocks l /\
          eth_total_unique job'
          = len (merge_txs (seen_hashes job) (window_txs r)) /\
          segments_done job' = cur_segment_num l + 1 /\
          pages_total job' = cur_pages_total l + pages_used r /\
          (2000 <= cur_segment_num l + 1 \/ cur_window_blocks l <= 1000 ->
           high_activity job' = true)))
  | Ends e =>
      forall job', end_job e = Some job' ->
        (exists l0, job' = pause_job l0 job /\
                    cur_seg_start l0 = cur_seg_start l /\
                    cur_window_blocks l0 = cur_window_blocks l) \/
        (exists msg, job' = fail_job msg job) \/
        job' = job \/
        (exists r w', drain fuel latest l job w = Fetched r w' /\
                      cap_hit r = false /\ job' = with_segment latest l r job)
  end.
Proof.
  unfold Main.iteration, should_stop_check, seg_end_of.
  destruct (stop_requested job || stop_signal (polls w)).
  { apply ends_job. left. exists l. repeat split. }
  destruct (SAFETY_MAX_SEGMENTS <? cur_segment_num l + 1) eqn:Hsafe.
  { apply ends_job. right. left. eexists. reflexivity. }
  apply Z.ltb_ge in Hsafe.
  destruct (fetch_txlist_window _ _ _ _ _ _ _ _ _ _ _) as [r w1|e w1|] eqn:Hfetch;
    [| apply ends_job; right; right; left; reflexivity | apply ends_job; exact I].
  destruct (paused_hit r) eqn:Hp.
  { apply ends_job. left. eexists. split; [reflexivity|]. split; reflexivity. }
  destruct (window_truncated r) eqn:Ht.
  { apply ends_job. right. left. eexists. reflexivity. }
  pose proof Hfetch as Hflags. apply fetch_window_flags in Hflags as [Hun _].
  destruct (cap_hit r) eqn:Hc.
  - simpl in Hun. rewrite Hun.
    destruct (_ <=? MIN_WINDOW_BLOCKS) eqn:Hwin.
    { apply ends_job. right. left. eexists. reflexivity. }
    apply Z.leb_gt in Hwin. unfold MIN_WINDOW_BLOCKS in Hwin.
    assert (Hwb : 1 < cur_window_blocks l) by lia.
    assert (Hwb' : (MIN_WINDOW_BLOCKS <? cur_window_blocks l) = true)
      by (apply Z.ltb_lt; exact Hwb).
    rewrite Hwb'.
    exists r. split; [reflexivity|]. split; [assumption|]. split; [assumption|].
    split; [assumption|]. split; [reflexivity|].
    split; [job_field|]. split; [job_field|]. split; [job_field|].
    left. split; [assumption|]. split; [assumption|].
    split; [reflexivity|]. split; [reflexivity|].
    split; [cbn [cur_segment_num]; lia|].
    split; [job_field|]. split; [job_field|]. split; [job_field|].
    split; [job_field|]. split; [job_field|].
    cbn [cur_window_blocks]. intros Hsmall. apply Z.leb_le in Hsmall.
    unfold flag_high_activity. rewrite Hsmall.
    destruct (high_activity job) eqn:Hha; simpl; [exact Hha|reflexivity].
  - destruct (format_preview _ _ _).
    { apply ends_job. right; right; right. exists r, w1.
      split; [reflexivity|]. split; [assumption|reflexivity]. }
    exists r. split; [reflexivity|]. split; [assumption|]. split; [assumption|].
    split; [assumption|]. split; [reflexivity|].
    split; [job_field|]. split; [job_field|]. split; [job_field|].
    right. split; [assumption|]. split; [reflexivity|]. split; [reflexivity|].
    split; [reflexivity|].
    split; [job_field|]. split; [job_field|]. split; [job_field|].
    split; [job_field|]. split; [job_field|]. split; [job_field|].
    split; [job_field|]. split; [job_field|].
    intros Hhigh. unfold flag_high_activity.
    destruct (2000 <=? cur_segment_num l + 1) eqn:H2000;
      destruct (cur_window_blocks l <=? 1000) eqn:H1000;
      try (apply Z.leb_gt in H2000; apply Z.leb_gt in H1000; lia);
      cbn [andb];
      repeat match goal with
             | |- context [negb ?b] => destruct b eqn:?; cbn [negb andb]
             end; try reflexivity; try assumption.
Qed.

End Loop.

End IterationProofs.

(** * Proofs: a whole run *)

Module RunProofs.
Import Main MainSpec MoreSpec WindowProofs CrawlProofs FrameProofs TraceProofs
       IterationProofs.

Lemma requested_app w w' new :
  requests w' = (requests w ++ new)%list ->
  requested w' = requested w + len new.
Proof. unfold requested. intros ->. apply len_app. Qed.

Section Loop.

Variable client_page : nat -> Query -> Reply (list Tx).
Variable stop_signal : nat -> bool.
Variable format_transaction : Tx -> string -> option string.

Local Abbreviation iteration := (iteration client_page stop_signal format_transaction).
Local Abbreviation crawl_loop := (crawl_loop client_page stop_signal format_transaction).

(** To show that the loop ends in [E] from every state in [I]: show that
    an iteration started in [I] with the loop condition true leads back
    into [I] or ends in [E], and that leaving by the condition is in [E]. *)
Lemma crawl_loop_invariant (latest : Z) (I : Locals -> Job -> World -> Prop)
    (E : LoopEnd -> Prop) :
  (forall fuel l job w,
     I l job w -> cur_seg_start l <= latest ->
     match iteration fuel latest l job w with
     | Again l' job' w' => I l' job' w'
     | Ends e => E e
     end) ->
  (forall l job w, I l job w -> latest < cur_seg_start l -> E (Exited job w)) ->
  E LoopOutOfFuel ->
  forall fuel l job w, I l job w -> E (crawl_loop fuel latest l job w).
Proof.
  intros Hstep Hexit Hfuel.
  induction fuel as [|fuel IH]; intros l job w HI; simpl; [assumption|].
  destruct (cur_seg_start l <=? latest) eqn:Hcond.
  - apply Z.leb_le in Hcond. specialize (Hstep fuel l job w HI Hcond).
    destruct (iteration fuel latest l job w) as [l' job' w'|e];
      [apply IH|]; assumption.
  - apply Z.leb_gt in Hcond. apply (Hexit l); assumption.
Qed.

(** The requests of one iteration: the first pages of its window, within
    the page budget, and counted in [pages_total]. *)
Lemma iteration_requests fuel latest l job w :
  match iteration fuel latest l job w with
  | Again l' _ w' =>
      exists n,
        requests w' =
          (requests w ++
           page_queries txlist (address job) (cur_seg_start l) (seg_end_of latest l)
             (page_size job) 1 n)%list /\
        (forall m, max_pages_int job = Some m -> (0 < n)%nat ->
                   cur_pages_total l + Z.of_nat n <= m) /\
        cur_pages_total l + Z.of_nat n <= cur_pages_total l'
  | Ends e =>
      forall w', end_world e = Some w' ->
      exists n,
        requests w' =
          (requests w ++
           page_queries txlist (address job) (cur_seg_start l) (seg_end_of latest l)
             (page_size job) 1 n)%list /\
        (forall m, max_pages_int job = Some m -> (0 < n)%nat ->
                   cur_pages_total l + Z.of_nat n <= m)
  end.
Proof.
  assert (Hnone : forall w', requests w' = requests w ->
            exists n,
              requests w' =
                (requests w ++
                 page_queries txlist (address job) (cur_seg_start l)
                   (seg_end_of latest l) (page_size job) 1 n)%list /\
              (forall m, max_pages_int job = Some m -> (0 < n)%nat ->
                         cur_pages_total l + Z.of_nat n <= m)).
  { intros w' Hw. exists 0%nat. split; [rewrite Hw; symmetry; apply app_nil_r|].
    intros; lia. }
  unfold Main.iteration, should_stop_check, seg_end_of in *.
  destruct (stop_requested job || stop_signal (polls w)).
  { apply ends_world. apply Hnone. reflexivity. }
  destruct (SAFETY_MAX_SEGMENTS <? cur_segment_num l + 1).
  { apply ends_world. apply Hnone. reflexivity. }
  match goal with
  | |- context [fetch_txlist_window ?c ?ad ?s ?e ?p ?pt ?m ?ss ?mw fuel ?w0] =>
      pose proof (fetch_window_trace c txlist ad s e p pt m ss mw
                    (fun w => eq_refl) fuel w0) as Htrace;
      destruct (fetch_txlist_window c ad s e p pt m ss mw fuel w0)
        as [r w1|e1 w1|] eqn:Hfetch
  end; unfold fetch_txlist_window in Hfetch; rewrite Hfetch in Htrace;
    unfold fetch_world in Htrace; [| |apply ends_world; exact I].
  - destruct (Htrace w1 eq_refl) as (n & Hreq & _ & Hbud & Hused).
    specialize (Hused r eq_refl).
    assert (Hends : exists n,
              requests w1 =
                (requests w ++
                 page_queries txlist (address job) (cur_seg_start l)
                   (Z.min (cur_seg_start l + cur_window_blocks l - 1) latest)
                   (page_size job) 1 n)%list /\
              (forall m, max_pages_int job = Some m -> (0 < n)%nat ->
                         cur_pages_total l + Z.of_nat n <= m))
      by (exists n; split; assumption).
    assert (Hagain : exists n,
              requests w1 =
                (requests w ++
                 page_queries txlist (address job) (cur_seg_start l)
                   (Z.min (cur_seg_start l + cur_window_blocks l - 1) latest)
                   (page_size job) 1 n)%list /\
              (forall m, max_pages_int job = Some m -> (0 < n)%nat ->
                         cur_pages_total l + Z.of_nat n <= m) /\
              cur_pages_total l + Z.of_nat n <= cur_pages_total l + pages_used r)
      by (exists n; repeat split; try assumption; lia).
    destruct (paused_hit r); [apply ends_world; assumption|].
    destruct (window_truncated r); [apply ends_world; assumption|].
    destruct (cap_hit r).
    + destruct (cap_unresolvable r); [apply ends_world; assumption|].
      destruct (MIN_WINDOW_BLOCKS <? cur_window_blocks l);
        [assumption|apply ends_world; assumption].
    + destruct (format_preview _ _ _); [apply ends_world|]; assumption.
  - destruct (Htrace w1 eq_refl) as (n & Hreq & _ & Hbud & _).
    apply ends_world. exists n. split; assumption.
Qed.

(** Within the budget: every request uses up budget that [pages_total]
    had left. *)
Lemma crawl_loop_budget latest m w0 p0 fuel l job w :
  max_pages_int job = Some m ->
  requested w - requested w0 + Z.max 0 (m - cur_pages_total l) <= Z.max 0 (m - p0) ->
  forall w', end_world (crawl_loop fuel latest l job w) = Some w' ->
             requested w' - requested w0 <= Z.max 0 (m - p0).
Proof.
  intros Hm Hpot.
  apply (crawl_loop_invariant latest
           (fun l job w =>
              max_pages_int job = Some m /\
              requested w - requested w0 + Z.max 0 (m - cur_pages_total l)
              <= Z.max 0 (m - p0))
           (fun e => forall w', end_world e = Some w' ->
                                requested w' - requested w0 <= Z.max 0 (m - p0)));
    [| |intros ? [=]|split; assumption].
  - clear. intros fuel l job w [Hm Hpot] _.
    pose proof (iteration_requests fuel latest l job w) as Hreq.
    pose proof (iteration_frame client_page stop_signal format_transaction
                  fuel latest l job w) as Hfr.
    destruct (iteration fuel latest l job w) as [l' job' w'|e].
    + destruct Hreq as (n & Hn & Hbud & Hpt). destruct Hfr as [Hcfg _].
      destruct Hcfg as (_ & _ & _ & _ & Hmax & _).
      split; [congruence|].
      apply requested_app in Hn. unfold len in Hn. rewrite page_queries_length in Hn.
      destruct n as [|n]; [simpl in *; lia|].
      specialize (Hbud m Hm ltac:(lia)). lia.
    + intros w' Hw'. destruct (Hreq w' Hw') as (n & Hn & Hbud).
      apply requested_app in Hn. unfold len in Hn. rewrite page_queries_length in Hn.
      destruct n as [|n]; [simpl in *; lia|].
      specialize (Hbud m Hm ltac:(lia)). lia.
  - clear. intros l job w [_ Hpot] _ w' [= <-]. lia.
Qed.

Lemma page_queries_in_window latest lo address s e ps n :
  lo <= s -> s <= e -> e <= latest -> e - s < MAX_WINDOW_BLOCKS ->
  Forall (in_window latest lo) (page_queries txlist address s e ps 1 n).
Proof.
  intros. unfold page_queries. apply Forall_map, Forall_forall.
  intros i _. unfold in_window. simpl. lia.
Qed.

(** Inside the range: every window starts at the cursor, which never
    moves back, ends at the latest block at most, and is at most as
    wide as the window size, which stays between 1 and 200000. *)
Lemma crawl_loop_in_window latest lo w0 fuel l job w :
  MIN_WINDOW_BLOCKS <= cur_window_blocks l <= MAX_WINDOW_BLOCKS ->
  lo <= cur_seg_start l ->
  issued (in_window latest lo) w0 w ->
  forall w', end_world (crawl_loop fuel latest l job w) = Some w' ->
             issued (in_window latest lo) w0 w'.
Proof.
  intros Hwb Hlo Hiss.
  apply (crawl_loop_invariant latest
           (fun l job w =>
              (MIN_WINDOW_BLOCKS <= cur_window_blocks l <= MAX_WINDOW_BLOCKS) /\
              lo <= cur_seg_start l /\ issued (in_window latest lo) w0 w)
           (fun e => forall w', end_world e = Some w' ->
                                issued (in_window latest lo) w0 w'));
    [| |intros ? [=]|repeat split; try assumption; apply Hwb].
  - clear. intros fuel l job w (Hwb & Hlo & Hiss) Hcond.
    unfold MIN_WINDOW_BLOCKS, MAX_WINDOW_BLOCKS in *.
    assert (Hq : forall n w',
               requests w' =
                 (requests w ++
                  page_queries txlist (address job) (cur_seg_start l)
                    (seg_end_of latest l) (page_size job) 1 n)%list ->
               issued (in_window latest lo) w0 w').
    { intros n w' Hn. eapply issued_trans; [exact Hiss|].
      eexists. split; [exact Hn|].
      unfold seg_end_of. apply page_queries_in_window;
        unfold MAX_WINDOW_BLOCKS; lia. }
    pose proof (iteration_requests fuel latest l job w) as Hreq.
    pose proof (iteration_steps client_page stop_signal format_transaction
                  fuel latest l job w) as Hst.
    destruct (iteration fuel latest l job w) as [l' job' w'|e].
    + destruct Hreq as (n & Hn & _). split; [|split; [|eapply Hq, Hn]].
      * destruct Hst as (r & _ & _ & _ & _ & _ & _ & _ & _ & [H|H]).
        -- destruct H as (_ & Hw1 & _ & -> & _).
           unfold MIN_WINDOW_BLOCKS.
           assert (cur_window_blocks l / 2 <= 200000)
             by (apply Z.div_le_upper_bound; lia).
           lia.
        -- destruct H as (_ & _ & -> & _). unfold MAX_WINDOW_BLOCKS.
           destruct (cur_window_blocks l <? 200000); lia.
      * destruct Hst as (r & _ & _ & _ & _ & _ & _ & _ & _ & [H|H]).
        -- destruct H as (_ & _ & -> & _). assumption.
        -- destruct H as (_ & -> & _). unfold seg_end_of. lia.
    + intros w' Hw'. destruct (Hreq w' Hw') as (n & Hn & _). eapply Hq, Hn.
  - clear. intros l job w (_ & _ & Hiss) _ w' [= <-]. assumption.
Qed.

End Loop.

Section Run.

Variable client_page : nat -> Query -> Reply (list Tx).
Variable get_latest_block : nat -> Reply Z.
Variable stop_signal : nat -> bool.
Variable uuid4 : nat -> string.
Variable format_transaction : Tx -> string -> option string.

Local Abbreviation crawl_loop := (crawl_loop client_page stop_signal format_transaction).
Local Abbreviation finish_run := (finish_run uuid4).
Local Abbreviation run_job :=
  (run_job client_page get_latest_block stop_signal uuid4 format_transaction).

(** [run_job] on a job of the registry. *)
Lemma run_job_unfold fuel job_id st w job :
  JOBS st !! job_id = Some job ->
  run_job fuel job_id st w =
  match get_latest_block (blocks w) with
  | Fails str_e =>
      Finished
        (store_job job_id
           (except_Exception str_e
              (set_error None (set_done false (set_paused false
                 (set_running true job))))) st)
        (tick_blocks w)
  | Answer latest =>
      finish_run job_id latest st
        (crawl_loop fuel latest (locals_of (started latest job)) (started latest job)
           (tick_blocks w))
  end.
Proof. intros Hjob. unfold Main.run_job. rewrite Hjob. reflexivity. Qed.

(** X11: a run never asks for more pages than the budget leaves: with
    [max_pages_int = m] and [pages_total = p] when the run starts, it
    issues at most [max(0, m - p)] page requests, whatever the upstream
    answers and however the run ends. *)
Theorem run_respects_page_budget
    (fuel : nat) (job_id : string) (st : Store) (w : World) (job : Job) (m : Z)
    (st' : Store) (w' : World) :
  JOBS st !! job_id = Some job ->
  max_pages_int job = Some m ->
  run_job fuel job_id st w = Finished st' w' ->
  requested w' - requested w <= Z.max 0 (m - pages_total job).
Proof.
  intros Hjob Hm Hrun. rewrite (run_job_unfold _ _ _ _ _ Hjob) in Hrun.
  destruct (get_latest_block (blocks w)) as [latest|e].
  - apply (EndpointProofs.finish_run_world uuid4) in Hrun as (w1 & Hend & Hreq).
    apply (crawl_loop_budget client_page stop_signal format_transaction latest m (tick_blocks w)
             (pages_total job)) in Hend.
    + unfold requested in *. rewrite Hreq. exact Hend.
    + exact Hm.
    + change (cur_pages_total (locals_of (started latest job))) with (pages_total job).
      lia.
  - injection Hrun as _ <-. unfold requested. simpl. lia.
Qed.

(** X13: every page request of a run on a job whose window size lies
    between 1 and 200000, as it does for every created job, asks for
    blocks from the job's cursor on and up to the latest block, for fewer
    than 200000 blocks at a time, and for a page numbered from 1. *)
Theorem run_requests_stay_in_range
    (fuel : nat) (job_id : string) (st : Store) (w : World) (job : Job)
    (latest : Z) (st' : Store) (w' : World) :
  JOBS st !! job_id = Some job ->
  MIN_WINDOW_BLOCKS <= window_blocks job <= MAX_WINDOW_BLOCKS ->
  get_latest_block (blocks w) = Answer latest ->
  run_job fuel job_id st w = Finished st' w' ->
  issued (in_window latest (seg_start job)) w w'.
Proof.
  intros Hjob Hwb Hlatest Hrun. rewrite (run_job_unfold _ _ _ _ _ Hjob), Hlatest in Hrun.
  apply (EndpointProofs.finish_run_world uuid4) in Hrun as (w1 & Hend & Hreq).
  apply (crawl_loop_in_window client_page stop_signal format_transaction latest (seg_start job)
           (tick_blocks w)) in Hend.
  - eapply issued_trans; [|apply issued_same; exact Hreq].
    eapply issued_trans; [|exact Hend]. apply issued_same. reflexivity.
  - exact Hwb.
  - change (cur_seg_start (locals_of (started latest job))) with (seg_start job). lia.
  - apply issued_refl.
Qed.

End Run.

(** The theorem at work: with a budget of one page and nothing used, the
    run against full pages issues one request at most. *)
Lemma run_respects_page_budget_witness :
  requested run_full_pages.2 - requested world0 <= 1.
Proof.
  assert (Hjob : JOBS store_one_page !! "job1" = Some job_one_page)
    by (vm_compute; reflexivity).
  assert (Hrun : run_job full_pages (latest_is 100) never_stop uuid_of formats_all 50 "job1"
                   store_one_page world0
                 = Finished run_full_pages.1 run_full_pages.2)
    by (vm_compute; reflexivity).
  apply (run_respects_page_budget full_pages (latest_is 100) never_stop uuid_of formats_all 50
           "job1" store_one_page world0 job_one_page 1
           run_full_pages.1 run_full_pages.2 Hjob eq_refl Hrun).
Defined.

(** The theorem at work: the requests of the run over blocks 0 to 100
    stay within them. *)
Lemma run_requests_stay_in_range_witness :
  issued (in_window 100 0) world0 run_two_txs.2.
Proof.
  assert (Hjob : JOBS store_one_page !! "job1" = Some job_one_page)
    by (vm_compute; reflexivity).
  assert (Hrun : run_job two_txs (latest_is 100) never_stop uuid_of formats_all 50 "job1"
                   store_one_page world0
                 = Finished run_two_txs.1 run_two_txs.2)
    by (vm_compute; reflexivity).
  assert (Hwb : MIN_WINDOW_BLOCKS <= window_blocks job_one_page <= MAX_WINDOW_BLOCKS)
    by (vm_compute; split; discriminate).
  apply (run_requests_stay_in_range two_txs (latest_is 100) never_stop uuid_of formats_all 50
           "job1" store_one_page world0 job_one_page 100
           run_two_txs.1 run_two_txs.2 Hjob Hwb eq_refl Hrun).
Defined.

End RunProofs.

(** * Proofs: the accumulator and the final sort *)

Module DictProofs.
Import Main MainSpec MoreSpec WindowProofs.

(** ** [dict_set] *)

Lemma dict_set_keys_in {V} (d : dict V) k v :
  In k (dict_keys d) -> dict_keys (dict_set d k v) = dict_keys d.
Proof.
  induction d as [|[k' v'] d IH]; simpl; [contradiction|].
  destruct (String.eqb_spec k' k) as [->|Hne]; [reflexivity|].
  intros [H|H]; [contradiction|]. simpl. f_equal. apply IH, H.
Qed.

Lemma dict_set_keys_new {V} (d : dict V) k v :
  ~ In k (dict_keys d) -> dict_keys (dict_set d k v) = (dict_keys d ++ [k])%list.
Proof.
  induction d as [|[k' v'] d IH]; simpl; [reflexivity|].
  intros Hnot. destruct (String.eqb_spec k' k) as [->|Hne]; [tauto|].
  simpl. f_equal. apply IH. tauto.
Qed.

Lemma dict_set_keys_mem {V} (d : dict V) k v k' :
  In k' (dict_keys (dict_set d k v)) <-> In k' (dict_keys d) \/ k' = k.
Proof.
  destruct (in_dec string_dec k (dict_keys d)) as [Hin|Hnot].
  - rewrite dict_set_keys_in by assumption. split; [tauto|].
    intros [H| ->]; assumption.
  - rewrite dict_set_keys_new by assumption. rewrite in_app_iff. simpl.
    split; intros [H|H]; auto; destruct H as [H|[]]; auto.
Qed.

Lemma dict_get_set_eq {V} (d : dict V) k v : dict_get (dict_set d k v) k = Some v.
Proof.
  induction d as [|[k' v'] d IH]; simpl.
  - rewrite String.eqb_refl. reflexivity.
  - destruct (String.eqb k' k) eqn:E; simpl; rewrite E; [reflexivity|exact IH].
Qed.

Lemma dict_get_set_ne {V} (d : dict V) k v k' :
  k <> k' -> dict_get (dict_set d k v) k' = dict_get d k'.
Proof.
  intros Hne. induction d as [|[k0 v0] d IH]; simpl.
  - destruct (String.eqb_spec k k'); [contradiction|reflexivity].
  - destruct (String.eqb_spec k0 k) as [->|Hk]; simpl.
    + destruct (String.eqb_spec k k'); [contradiction|reflexivity].
    + destruct (String.eqb k0 k'); [reflexivity|exact IH].
Qed.

Lemma dict_set_entries {V} (P : string * V -> Prop) (d : dict V) k v :
  Forall P d -> P (k, v) -> (forall v', P (k, v') -> P (k, v)) ->
  Forall P (dict_set d k v).
Proof.
  intros Hd Hkv _. induction d as [|[k' v'] d IH]; simpl.
  - constructor; [assumption|constructor].
  - apply Forall_cons_iff in Hd as [Hh Ht].
    destruct (String.eqb_spec k' k) as [->|Hne]; constructor; auto.
Qed.

Lemma dict_set_wf d tx :
  dict_wf d -> hash tx <> "" -> dict_wf (dict_set d (hash tx) tx).
Proof.
  intros [Hnd Hall] Hne. split.
  - destruct (in_dec string_dec (hash tx) (dict_keys d)) as [Hin|Hnot].
    + rewrite dict_set_keys_in by assumption. assumption.
    + rewrite dict_set_keys_new by assumption.
      apply NoDup_app. split; [assumption|]. split.
      * intros k Hk Hin. apply list_elem_of_In in Hin. destruct Hin as [<-|[]].
        apply Hnot, list_elem_of_In, Hk.
      * apply NoDup_singleton.
  - apply dict_set_entries; auto.
Qed.

(** ** [merge_txs] *)

Lemma merge_txs_cons d tx txs :
  merge_txs d (tx :: txs)
  = merge_txs (if String.eqb (hash tx) "" then d else dict_set d (hash tx) tx) txs.
Proof. reflexivity. Qed.

Lemma merge_txs_wf d txs : dict_wf d -> dict_wf (merge_txs d txs).
Proof.
  revert d. induction txs as [|tx txs IH]; intros d Hd; [assumption|].
  rewrite merge_txs_cons. apply IH.
  destruct (String.eqb_spec (hash tx) ""); [assumption|].
  apply dict_set_wf; assumption.
Qed.

Lemma merge_txs_keys_mem d txs h :
  In h (dict_keys (merge_txs d txs))
  <-> In h (dict_keys d) \/ (h <> "" /\ In h (map hash txs)).
Proof.
  revert d. induction txs as [|tx txs IH]; intros d.
  - simpl. tauto.
  - rewrite merge_txs_cons, IH. simpl.
    destruct (String.eqb_spec (hash tx) "") as [He|Hne].
    + split; [tauto|]. intros [H|[Hh [H|H]]]; auto. congruence.
    + rewrite dict_set_keys_mem. split.
      * intros [[H| ->]|[Hh H]]; auto.
      * intros [H|[Hh [H|H]]]; auto.
Qed.

(** The keys present keep their place; new ones are added behind. *)
Lemma merge_txs_keys_prefix d txs :
  exists new, dict_keys (merge_txs d txs) = (dict_keys d ++ new)%list.
Proof.
  revert d. induction txs as [|tx txs IH]; intros d.
  - exists []. symmetry. apply app_nil_r.
  - rewrite merge_txs_cons. destruct (String.eqb (hash tx) ""); [apply IH|].
    destruct (IH (dict_set d (hash tx) tx)) as [new Hnew]. rewrite Hnew.
    destruct (in_dec string_dec (hash tx) (dict_keys d)) as [Hin|Hnot].
    + rewrite dict_set_keys_in by assumption. eauto.
    + rewrite dict_set_keys_new, <- app_assoc by assumption. eauto.
Qed.

Lemma find_append {A} (f : A -> bool) (l k : list A) :
  find f (l ++ k)%list = match find f l with Some x => Some x | None => find f k end.
Proof.
  induction l as [|x l IH]; simpl; [reflexivity|]. destruct (f x); [reflexivity|exact IH].
Qed.

Lemma last_with_hash_cons h tx txs :
  last_with_hash h (tx :: txs)
  = match last_with_hash h txs with
    | Some t => Some t
    | None => if String.eqb (hash tx) h then Some tx else None
    end.
Proof.
  unfold last_with_hash. simpl. rewrite find_append. simpl.
  destruct (find _ (rev txs)); reflexivity.
Qed.

Lemma merge_txs_get d txs h :
  h <> "" ->
  dict_get (merge_txs d txs) h
  = match last_with_hash h txs with
    | Some tx => Some tx
    | None => dict_get d h
    end.
Proof.
  intros Hh. revert d. induction txs as [|tx txs IH]; intros d; [reflexivity|].
  rewrite merge_txs_cons, IH, last_with_hash_cons.
  destruct (last_with_hash h txs); [reflexivity|].
  destruct (String.eqb_spec (hash tx) h) as [<-|Hne].
  - destruct (String.eqb_spec (hash tx) ""); [contradiction|].
    apply dict_get_set_eq.
  - destruct (String.eqb (hash tx) ""); [reflexivity|].
    apply dict_get_set_ne. assumption.
Qed.

Lemma merge_txs_get_empty d txs : dict_get (merge_txs d txs) "" = dict_get d "".
Proof.
  revert d. induction txs as [|tx txs IH]; intros d; [reflexivity|].
  rewrite merge_txs_cons, IH.
  destruct (String.eqb_spec (hash tx) "") as [He|Hne]; [reflexivity|].
  apply dict_get_set_ne. assumption.
Qed.

(** X6: merging a window into a well-formed accumulator leaves, for
    every non-empty hash, the last record of the window that carries it,
    or else the record held before (last write wins); records without a
    hash are dropped; the accumulator stays free of duplicate keys with
    every record under its own hash; and the keys it had keep their
    insertion order, new ones following. *)
Theorem merge_last_write_wins (d : dict Tx) (txs : list Tx) :
  dict_wf d ->
  dict_wf (merge_txs d txs) /\
  (forall h, h <> "" ->
     dict_get (merge_txs d txs) h
     = match last_with_hash h txs with
       | Some tx => Some tx
       | None => dict_get d h
       end) /\
  dict_get (merge_txs d txs) "" = None /\
  (forall h, In h (dict_keys (merge_txs d txs))
             <-> In h (dict_keys d) \/ (h <> "" /\ In h (map hash txs))) /\
  exists new, dict_keys (merge_txs d txs) = (dict_keys d ++ new)%list.
Proof.
  intros Hwf. split; [apply merge_txs_wf; assumption|].
  split; [intros h Hh; apply merge_txs_get; assumption|].
  split; [|split; [intros h; apply merge_txs_keys_mem|apply merge_txs_keys_prefix]].
  rewrite merge_txs_get_empty. destruct Hwf as [_ Hall].
  induction d as [|[k v] d IH]; [reflexivity|].
  apply Forall_cons_iff in Hall as [[_ Hk] Ht]. simpl in *.
  destruct (String.eqb_spec k ""); [contradiction|]. apply IH, Ht.
Qed.

(** The theorem at work: the second window overwrites "0xbb". *)
Lemma merge_last_write_wins_witness :
  dict_get (merge_txs (merge_txs [] window_a) window_b) "0xbb"
  = Some (tx_at "0xbb" 7 71) /\
  dict_keys (merge_txs (merge_txs [] window_a) window_b) = ["0xcc"; "0xbb"; "0xaa"].
Proof.
  assert (Hwf : dict_wf (merge_txs [] window_a)).
  { apply merge_txs_wf. split; constructor. }
  destruct (merge_last_write_wins (merge_txs [] window_a) window_b Hwf)
    as (_ & Hget & _).
  split; [|reflexivity].
  rewrite Hget by discriminate. reflexivity.
Defined.

(** ** [sorted] *)

Lemma key_le_spec a b : key_le (sort_key a) (sort_key b) = true <-> block_time_le a b.
Proof.
  unfold key_le, sort_key, block_time_le. simpl.
  rewrite orb_true_iff, andb_true_iff, Z.ltb_lt, Z.eqb_eq, Z.leb_le. reflexivity.
Qed.

Lemma block_time_le_total a b : block_time_le a b \/ block_time_le b a.
Proof. unfold block_time_le. lia. Qed.

Lemma block_time_le_trans a b c :
  block_time_le a b -> block_time_le b c -> block_time_le a c.
Proof. unfold block_time_le. lia. Qed.

Lemma insert_by_key_perm x l : Permutation (insert_by_key x l) (x :: l).
Proof.
  induction l as [|y l IH]; simpl; [reflexivity|].
  destruct (key_le (sort_key x) (sort_key y)); [reflexivity|].
  rewrite IH. apply perm_swap.
Qed.

Lemma sorted_perm l : Permutation (sorted l) l.
Proof.
  induction l as [|x l IH]; simpl; [reflexivity|].
  rewrite insert_by_key_perm, IH. reflexivity.
Qed.

Lemma insert_by_key_sorted x l :
  StronglySorted block_time_le l -> StronglySorted block_time_le (insert_by_key x l).
Proof.
  induction l as [|y l IH]; intros Hs; simpl.
  - constructor; constructor.
  - apply StronglySorted_inv in Hs as [Hs Hy].
    destruct (key_le (sort_key x) (sort_key y)) eqn:Hle.
    + apply key_le_spec in Hle. constructor.
      * constructor; assumption.
      * constructor; [assumption|].
        eapply Forall_impl; [exact Hy|]. intros z. apply block_time_le_trans, Hle.
    + assert (Hyx : block_time_le y x).
      { destruct (block_time_le_total x y) as [H|H]; [|assumption].
        apply key_le_spec in H. congruence. }
      constructor; [apply IH, Hs|].
      eapply Permutation_Forall; [symmetry; apply insert_by_key_perm|].
      constructor; assumption.
Qed.

Lemma sorted_sorted l : StronglySorted block_time_le (sorted l).
Proof.
  induction l as [|x l IH]; simpl; [constructor|]. apply insert_by_key_sorted, IH.
Qed.

(** The hashes of the values of a well-formed accumulator are its keys. *)
Lemma dict_wf_values d : dict_wf d -> map hash (dict_values d) = dict_keys d.
Proof.
  intros [_ Hall]. unfold dict_values, dict_keys. rewrite map_map.
  induction d as [|[k v] d IH]; [reflexivity|].
  apply Forall_cons_iff in Hall as [[Hk _] Ht]. simpl in *. f_equal; auto.
Qed.

Lemma dict_wf_inv k v d :
  dict_wf ((k, v) :: d) ->
  dict_wf d /\ hash v = k /\ k <> "" /\ ~ In k (dict_keys d).
Proof.
  intros [Hnd Hall]. apply Forall_cons_iff in Hall as [[Hk Hne] Ht].
  simpl in *. inversion Hnd as [|? ? Hnot Hnd']; subst.
  repeat split; try assumption. intros Hin. apply Hnot, list_elem_of_In, Hin.
Qed.

(** The values of a well-formed accumulator are the records found
    under their own hash. *)
Lemma dict_values_get d tx :
  dict_wf d -> (In tx (dict_values d) <-> dict_get d (hash tx) = Some tx).
Proof.
  induction d as [|[k v] d IH]; intros Hwf; simpl; [split; [contradiction|discriminate]|].
  pose proof (dict_wf_values _ Hwf) as Hvals.
  apply dict_wf_inv in Hwf as (Hwf & Hk & Hne & Hnot). specialize (IH Hwf).
  destruct (String.eqb_spec k (hash tx)) as [He|He].
  - split; [|intros [= ->]; left; reflexivity].
    intros [->|Hin]; [reflexivity|]. exfalso. apply Hnot. rewrite He.
    rewrite <- (dict_wf_values _ Hwf). apply in_map, Hin.
  - rewrite <- IH. split; [|tauto]. intros [->|Hin]; [congruence|assumption].
Qed.

Lemma fold_merge_wf windows d : dict_wf d -> dict_wf (fold_left merge_txs windows d).
Proof.
  revert d. induction windows as [|win windows IH]; intros d Hd; [assumption|].
  simpl. apply IH, merge_txs_wf, Hd.
Qed.

(** What [result_of] makes of a well-formed accumulator. *)
Lemma result_of_sorted_unique latest job :
  dict_wf (seen_hashes job) ->
  StronglySorted block_time_le (eth_txs (result_of latest job)) /\
  NoDup (map hash (eth_txs (result_of latest job))) /\
  (forall tx, In tx (eth_txs (result_of latest job))
              <-> dict_get (seen_hashes job) (hash tx) = Some tx) /\
  eth_total (result_of latest job) = len (eth_txs (result_of latest job)).
Proof.
  intros Hwf.
  change (eth_txs (result_of latest job)) with (sorted (dict_values (seen_hashes job))).
  split; [apply sorted_sorted|]. split; [|split; [|reflexivity]].
  - assert (Hp : Permutation (map hash (sorted (dict_values (seen_hashes job))))
                   (map hash (dict_values (seen_hashes job))))
      by apply Permutation_map, sorted_perm.
    rewrite Hp, dict_wf_values by assumption. apply Hwf.
  - intros tx. rewrite <- dict_values_get by assumption.
    split; apply Permutation_in; [|symmetry]; apply sorted_perm.
Qed.

End DictProofs.

(** * Proofs: what a run leaves in the registry *)

Module HistoryProofs.
Import Main MainSpec MoreSpec WindowProofs CrawlProofs FrameProofs IterationProofs
       RunProofs DictProofs.

(** ** The fields the steps of a run keep *)

Lemma pause_job_keeps l job :
  segments (pause_job l job) = segments job /\
  seen_hashes (pause_job l job) = seen_hashes job /\
  rid (pause_job l job) = rid job /\
  start_block (pause_job l job) = start_block job /\
  paused (pause_job l job) = true /\ done (pause_job l job) = false /\
  seg_start (pause_job l job) = cur_seg_start l /\
  coverage_end (pause_job l job)
  = match last (segments job) with
    | Some s => Some (s_end s)
    | None => coverage_end job
    end.
Proof.
  unfold pause_job. destruct job. simpl.
  destruct (last _); repeat split; reflexivity.
Qed.

Lemma fail_job_keeps msg job :
  segments (fail_job msg job) = segments job /\
  seen_hashes (fail_job msg job) = seen_hashes job /\
  rid (fail_job msg job) = rid job /\
  start_block (fail_job msg job) = start_block job /\
  paused (fail_job msg job) = paused job /\ done (fail_job msg job) = true /\
  running (fail_job msg job) = false /\ error (fail_job msg job) = Some msg.
Proof. repeat split; reflexivity. Qed.

Lemma started_keeps latest job :
  segments (started latest job) = segments job /\
  seen_hashes (started latest job) = seen_hashes job /\
  rid (started latest job) = rid job /\
  start_block (started latest job) = start_block job /\
  coverage_end (started latest job) = coverage_end job /\
  paused (started latest job) = false /\ done (started latest job) = false /\
  error (started latest job) = None.
Proof. repeat split; reflexivity. Qed.

Lemma chain_snoc a segs b s :
  chain a segs b -> s_start s = b -> s_start s <= s_end s ->
  chain a (segs ++ [s]) (s_end s + 1).
Proof.
  revert a. induction segs as [|s0 segs IH]; intros a; simpl.
  - intros <- Hs Hle. repeat split; congruence.
  - intros (H1 & H2 & H3) Hs Hle. repeat split; try assumption. apply IH; assumption.
Qed.

Lemma chain_last a segs b s :
  chain a segs b -> last segs = Some s -> s_end s + 1 = b.
Proof.
  revert a. induction segs as [|s0 segs IH]; intros a; simpl; [discriminate|].
  intros (_ & _ & H3). destruct segs as [|s1 segs].
  - simpl in *. intros [= <-]. exact H3.
  - intros Hl. eapply IH; [exact H3|exact Hl].
Qed.

Lemma chain_le a segs b : chain a segs b -> a <= b.
Proof.
  revert a. induction segs as [|s0 segs IH]; intros a; simpl; [lia|].
  intros (H1 & H2 & H3). apply IH in H3. lia.
Qed.

Lemma with_segment_keeps latest l r job :
  segments (with_segment latest l r job)
  = (segments job ++
     [mkSegment (cur_seg_start l) (seg_end_of latest l) (pages_used r)
        (len (window_txs r)) false])%list /\
  seen_hashes (with_segment latest l r job)
  = merge_txs (seen_hashes job) (window_txs r) /\
  rid (with_segment latest l r job) = rid job /\
  start_block (with_segment latest l r job) = start_block job /\
  paused (with_segment latest l r job) = paused job /\
  done (with_segment latest l r job) = done job /\
  seg_start (with_segment latest l r job) = seg_start job /\
  coverage_end (with_segment latest l r job) = coverage_end job.
Proof. repeat split; reflexivity. Qed.

(** The segments with the window of the iteration appended. *)
Lemma with_segment_tiled latest sb lo l r job :
  start_block job = sb -> 1 <= cur_window_blocks l ->
  chain sb (segments job) (cur_seg_start l) ->
  lo <= cur_seg_start l <= Z.max lo (latest + 1) ->
  cur_seg_start l <= latest ->
  tiled sb lo latest (with_segment latest l r job) (seg_end_of latest l + 1).
Proof.
  intros Hsb Hwb Hch Hlo Hcond.
  destruct (with_segment_keeps latest l r job) as (Hsg & _ & _ & Hsb' & _).
  split; [congruence|]. split.
  - rewrite Hsg.
    change (seg_end_of latest l + 1)
      with (s_end (mkSegment (cur_seg_start l) (seg_end_of latest l)
                     (pages_used r) (len (window_txs r)) false) + 1).
    apply (chain_snoc _ _ (cur_seg_start l)); [assumption|reflexivity|].
    simpl. unfold seg_end_of. lia.
  - unfold seg_end_of. lia.
Qed.

Section Loop.

Variable client_page : nat -> Query -> Reply (list Tx).
Variable stop_signal : nat -> bool.
Variable format_transaction : Tx -> string -> option string.

Local Abbreviation iteration := (iteration client_page stop_signal format_transaction).
Local Abbreviation crawl_loop := (crawl_loop client_page stop_signal format_transaction).

(** How an iteration that leaves the loop leaves the job. *)
Lemma iteration_ends fuel latest l job w :
  match iteration fuel latest l job w with
  | Again _ _ _ => True
  | Ends (Returned j _) =>
      (exists l0, j = pause_job l0 job /\ cur_seg_start l0 = cur_seg_start l /\
                  cur_window_blocks l0 = cur_window_blocks l) \/
      (exists msg, j = fail_job msg job)
  | Ends (Broke j _) => exists msg, j = fail_job msg job
  | Ends (Raised _ j _) => j = job \/ exists r, j = with_segment latest l r job
  | Ends (Exited _ _) => False
  | Ends LoopOutOfFuel => True
  end.
Proof.
  unfold Main.iteration, should_stop_check.
  destruct (stop_requested job || stop_signal (polls w)).
  { left. exists l. repeat split. }
  destruct (SAFETY_MAX_SEGMENTS <? cur_segment_num l + 1).
  { right. eexists. reflexivity. }
  destruct (fetch_txlist_window _ _ _ _ _ _ _ _ _ _ _) as [r w1|e w1|];
    [| left; reflexivity | exact I].
  destruct (paused_hit r). { left. eexists. repeat split. }
  destruct (window_truncated r). { eexists. reflexivity. }
  destruct (cap_hit r);
    [|destruct (format_preview _ _ _); [right; exists r; reflexivity|exact I]].
  destruct (cap_unresolvable r). { right. eexists. reflexivity. }
  destruct (MIN_WINDOW_BLOCKS <? cur_window_blocks l); [exact I|].
  right. eexists. reflexivity.
Qed.

(** The segments tile the range: each complete drain appends the
    window it drained, which starts at the cursor, and moves the cursor
    behind it. *)
Lemma crawl_loop_tiles latest sb lo fuel l job w :
  start_block job = sb -> paused job = false ->
  1 <= cur_window_blocks l ->
  chain sb (segments job) (cur_seg_start l) ->
  lo <= cur_seg_start l <= Z.max lo (latest + 1) ->
  coverage_end job = Some (cur_seg_start l - 1) ->
  match crawl_loop fuel latest l job w with
  | LoopOutOfFuel => True
  | Returned j _ =>
      exists next, tiled sb lo latest j next /\
        (paused j = true -> seg_start j = next /\ coverage_end j = Some (next - 1))
  | Broke j _ | Raised _ j _ => paused j = false /\ exists next, tiled sb lo latest j next
  | Exited j _ =>
      paused j = false /\ exists next, tiled sb lo latest j next /\ latest < next
  end.
Proof.
  intros Hsb Hpa Hwb Hch Hlo Hcov.
  apply (crawl_loop_invariant client_page stop_signal format_transaction latest
           (fun l job w =>
              start_block job = sb /\ paused job = false /\
              1 <= cur_window_blocks l /\
              chain sb (segments job) (cur_seg_start l) /\
              lo <= cur_seg_start l <= Z.max lo (latest + 1) /\
              coverage_end job = Some (cur_seg_start l - 1))
           (fun e =>
              match e with
              | LoopOutOfFuel => True
              | Returned j _ =>
                  exists next, tiled sb lo latest j next /\
                    (paused j = true ->
                     seg_start j = next /\ coverage_end j = Some (next - 1))
              | Broke j _ | Raised _ j _ =>
                  paused j = false /\ exists next, tiled sb lo latest j next
              | Exited j _ =>
                  paused j = false /\
                  exists next, tiled sb lo latest j next /\ latest < next
              end));
    [| |exact I|repeat split; try assumption; apply Hlo].
  - clear. intros fuel l job w (Hsb & Hpa & Hwb & Hch & Hlo & Hcov) Hcond.
    pose proof (iteration_steps client_page stop_signal format_transaction
                  fuel latest l job w) as Hst.
    pose proof (iteration_ends fuel latest l job w) as Hends.
    pose proof (iteration_frame client_page stop_signal format_transaction
                  fuel latest l job w) as Hfr.
    pose proof (iteration_cases client_page stop_signal format_transaction
                  fuel latest l job w) as Hcs.
    destruct (iteration fuel latest l job w) as [l' job' w'|e].
    + destruct Hfr as [(_ & Hsb' & _) _].
      destruct Hcs as (_ & _ & _ & _ & Hpa' & _).
      destruct Hst as (r & _ & _ & _ & _ & _ & _ & _ & _ & [H|H]).
      * destruct H as (_ & _ & Hs & Hw & _ & _ & Hsegs & _ & Hcov' & _).
        rewrite Hs, Hw, Hsegs, Hcov'. unfold MIN_WINDOW_BLOCKS.
        repeat split; try congruence; try lia.
      * destruct H as (_ & Hs & Hw & _ & _ & Hsegs & _ & Hcov' & _).
        rewrite Hs, Hw, Hsegs, Hcov'. unfold MAX_WINDOW_BLOCKS, seg_end_of.
        repeat split; try congruence; try lia.
        -- destruct (cur_window_blocks l <? 200000); lia.
        -- change (Z.min (cur_seg_start l + cur_window_blocks l - 1) latest + 1)
             with (s_end (mkSegment (cur_seg_start l)
                            (Z.min (cur_seg_start l + cur_window_blocks l - 1) latest)
                            (pages_used r) (len (window_txs r)) false) + 1).
           apply (chain_snoc _ _ (cur_seg_start l)); [assumption|reflexivity|simpl; lia].
        -- f_equal. lia.
    + assert (Hsame : tiled sb lo latest job (cur_seg_start l))
        by (repeat split; try assumption; apply Hlo).
      assert (Hfail : forall msg, tiled sb lo latest (fail_job msg job) (cur_seg_start l))
        by (intros msg; exact Hsame).
      destruct e as [j w'|j w'|j w'|str_e j w'|]; try exact I.
      * destruct Hends as [(l0 & -> & Hl0 & _)|(msg & ->)].
        -- exists (cur_seg_start l).
           destruct (pause_job_keeps l0 job) as (Hsg & _ & _ & Hsb' & _ & _ & Hss & Hce).
           split; [repeat split; try apply Hlo; [congruence|rewrite Hsg; assumption]|].
           intros _. split; [congruence|]. rewrite Hce.
           destruct (last (segments job)) as [s|] eqn:Hlast; [|assumption].
           apply (chain_last _ _ _ _ Hch) in Hlast. f_equal. lia.
        -- exists (cur_seg_start l). split; [apply Hfail|].
           change (paused (fail_job msg job)) with (paused job). congruence.
      * destruct Hends as (msg & ->). split; [exact Hpa|]. eexists. apply Hfail.
      * contradiction.
      * destruct Hends as [->|(r & ->)].
        -- split; [exact Hpa|]. eexists. exact Hsame.
        -- split; [exact Hpa|]. eexists.
           apply with_segment_tiled; assumption.
  - clear. intros l job w (Hsb & Hpa & Hwb & Hch & Hlo & Hcov) Hcond.
    split; [assumption|]. exists (cur_seg_start l).
    repeat split; try assumption; apply Hlo.
Qed.

(** The accumulator is the merge of the complete drains, one for each
    segment appended. *)
Lemma crawl_loop_accumulates latest job0 fuel l job w :
  same_config job0 job ->
  accumulated client_page stop_signal latest job0 job ->
  forall job', end_job (crawl_loop fuel latest l job w) = Some job' ->
               accumulated client_page stop_signal latest job0 job'.
Proof.
  intros Hcfg Hacc.
  apply (crawl_loop_invariant client_page stop_signal format_transaction latest
           (fun l job w =>
              same_config job0 job /\
              accumulated client_page stop_signal latest job0 job)
           (fun e => forall job', end_job e = Some job' ->
                       accumulated client_page stop_signal latest job0 job'));
    [| |intros ? [=]|split; assumption].
  - clear. intros fuel l job w (Hcfg & segs & windows & Hsegs & Hrec & Hseen) _.
    pose proof (iteration_steps client_page stop_signal format_transaction
                  fuel latest l job w) as Hst.
    pose proof (iteration_frame client_page stop_signal format_transaction
                  fuel latest l job w) as Hfr.
    destruct (iteration fuel latest l job w) as [l' job' w'|e].
    + destruct Hfr as [Hcfg' _].
      split; [eapply same_config_trans; eassumption|].
      destruct Hst as (r & Hdrain & _ & _ & _ & _ & _ & _ & _ & [H|H]).
      * destruct H as (_ & _ & _ & _ & _ & Hseen' & Hsegs' & _).
        exists segs, windows. repeat split; congruence.
      * destruct H as (Hcap & _ & _ & _ & Hseen' & Hsegs' & _).
        exists (segs ++ [mkSegment (cur_seg_start l) (seg_end_of latest l)
                           (pages_used r) (len (window_txs r)) false])%list,
               (windows ++ [window_txs r])%list.
        split; [rewrite Hsegs', Hsegs; symmetry; apply app_assoc|].
        split.
        -- apply Forall2_app; [assumption|]. constructor; [|constructor].
           exists fuel, l, job, w, r, w'. repeat split; try assumption; apply Hcfg.
        -- rewrite Hseen', Hseen, fold_left_app. reflexivity.
    + intros job' Hjob'.
      destruct (Hst job' Hjob')
        as [(l0 & -> & _)|[(msg & ->)|[->|(r & w1 & Hdrain & Hcap & ->)]]].
      * destruct (pause_job_keeps l0 job) as (H1 & H2 & _).
        exists segs, windows. repeat split; congruence.
      * exists segs, windows. repeat split; assumption.
      * exists segs, windows. repeat split; assumption.
      * destruct (with_segment_keeps latest l r job) as (Hsegs' & Hseen' & _).
        exists (segs ++ [mkSegment (cur_seg_start l) (seg_end_of latest l)
                           (pages_used r) (len (window_txs r)) false])%list,
               (windows ++ [window_txs r])%list.
        split; [rewrite Hsegs', Hsegs; symmetry; apply app_assoc|].
        split.
        -- apply Forall2_app; [assumption|]. constructor; [|constructor].
           exists fuel, l, job, w, r, w1. repeat split; try assumption; apply Hcfg.
        -- rewrite Hseen', Hseen, fold_left_app. reflexivity.
  - clear. intros l job w (_ & Hacc) _ job' [= <-]. exact Hacc.
Qed.

(** The loop leaves [rid] alone, and only a pause leaves the job paused. *)
Lemma crawl_loop_rid latest fuel l job w :
  paused job = false ->
  match crawl_loop fuel latest l job w with
  | LoopOutOfFuel => True
  | Returned j _ => rid j = rid job /\ (done j = true -> paused j = false)
  | Broke j _ | Exited j _ | Raised _ j _ => rid j = rid job /\ paused j = false
  end.
Proof.
  intros Hpa.
  apply (crawl_loop_invariant client_page stop_signal format_transaction latest
           (fun _ j _ => rid j = rid job /\ paused j = false)
           (fun e =>
              match e with
              | LoopOutOfFuel => True
              | Returned j _ => rid j = rid job /\ (done j = true -> paused j = false)
              | Broke j _ | Exited j _ | Raised _ j _ =>
                  rid j = rid job /\ paused j = false
              end));
    [| |exact I|split; [reflexivity|assumption]].
  - clear. intros fuel l j w (Hrid & Hpa) _.
    pose proof (iteration_steps client_page stop_signal format_transaction
                  fuel latest l j w) as Hst.
    pose proof (iteration_cases client_page stop_signal format_transaction
                  fuel latest l j w) as Hcs.
    pose proof (iteration_ends fuel latest l j w) as Hends.
    destruct (iteration fuel latest l j w) as [l' job' w'|e].
    + destruct Hst as (r & _ & _ & _ & _ & _ & _ & _ & Hrid' & _).
      destruct Hcs as (_ & _ & _ & _ & Hpa' & _). split; congruence.
    + destruct e as [j' w'|j' w'|j' w'|str_e j' w'|]; try exact I.
      * destruct Hends as [(l0 & -> & _)|(msg & ->)];
          [|split; [exact Hrid|intros _; exact Hpa]].
        destruct (pause_job_keeps l0 j) as (_ & _ & H3 & _ & _ & H6 & _).
        split; [congruence|]. rewrite H6. discriminate.
      * destruct Hends as (msg & ->). split; [exact Hrid|exact Hpa].
      * contradiction.
      * destruct Hends as [->|(r & ->)]; split; assumption.
  - clear. intros l j w (Hrid & Hpa) _. split; assumption.
Qed.

End Loop.

Section Run.

Variable client_page : nat -> Query -> Reply (list Tx).
Variable get_latest_block : nat -> Reply Z.
Variable stop_signal : nat -> bool.
Variable uuid4 : nat -> string.
Variable format_transaction : Tx -> string -> option string.

Local Abbreviation crawl_loop := (crawl_loop client_page stop_signal format_transaction).
Local Abbreviation publish := (publish uuid4).
Local Abbreviation finish_run := (finish_run uuid4).
Local Abbreviation run_job :=
  (run_job client_page get_latest_block stop_signal uuid4 format_transaction).

Lemma store_job_lookup job_id job st : JOBS (store_job job_id job st) !! job_id = Some job.
Proof. apply lookup_insert_eq. Qed.

(** What publishing changes of the job, and where the result goes. *)
Lemma publish_keeps latest job st w :
  segments (publish latest job st w).1.1 = segments job /\
  seen_hashes (publish latest job st w).1.1 = seen_hashes job /\
  start_block (publish latest job st w).1.1 = start_block job /\
  paused (publish latest job st w).1.1 = paused job /\
  error (publish latest job st w).1.1 = error job /\
  done (publish latest job st w).1.1 = true /\
  running (publish latest job st w).1.1 = false /\
  result_of latest (publish latest job st w).1.1 = result_of latest job /\
  rid (publish latest job st w).1.1 = Some (uuid_str (uuid4 (uuids w))) /\
  eth_total_unique (publish latest job st w).1.1 = eth_total (result_of latest job) /\
  (~ In (uuid_str (uuid4 (uuids w))) (RESULT_IDS st) ->
   RESULTS_CACHE (publish latest job st w).1.2 !! uuid_str (uuid4 (uuids w))
   = Some (result_of latest job)).
Proof.
  unfold Main.publish.
  destruct (CACHE_SIZE_LIMIT <? len (RESULT_IDS st ++ [uuid_str (uuid4 (uuids w))]))
    eqn:Hlim.
  - destruct (RESULT_IDS st) as [|oldest ids]; simpl.
    + apply Z.ltb_lt in Hlim. unfold CACHE_SIZE_LIMIT, len in Hlim. simpl in Hlim. lia.
    + repeat split; try reflexivity. intros Hnew.
      rewrite lookup_delete_ne by (intros ->; apply Hnew; left; reflexivity).
      apply lookup_insert_eq.
  - simpl. repeat split; try reflexivity. intros _. apply lookup_insert_eq.
Qed.

(** The registry a finished run leaves. *)
Lemma finish_run_job job_id latest st e st' w' :
  finish_run job_id latest st e = Finished st' w' ->
  match e with
  | Returned j _ => st' = store_job job_id j st
  | Raised str_e j _ => st' = store_job job_id (except_Exception str_e j) st
  | Broke j wj | Exited j wj =>
      st' = store_job job_id (publish latest j st wj).1.1 (publish latest j st wj).1.2
  | LoopOutOfFuel => False
  end.
Proof.
  destruct e as [j wj|j wj|j wj|str_e j wj|]; simpl; try discriminate;
    try (intros [= <- _]; reflexivity);
    destruct (Main.publish uuid4 latest j st wj) as [[j' s'] w1];
    intros [= <- _]; reflexivity.
Qed.

(** The loop of a run on a job of the registry, and the job it leaves
    there. *)
Lemma run_job_ends fuel job_id st w job latest st' w' :
  JOBS st !! job_id = Some job ->
  get_latest_block (blocks w) = Answer latest ->
  run_job fuel job_id st w = Finished st' w' ->
  match crawl_loop fuel latest (locals_of (started latest job)) (started latest job)
          (tick_blocks w) with
  | Returned j _ => st' = store_job job_id j st
  | Raised str_e j _ => st' = store_job job_id (except_Exception str_e j) st
  | Broke j wj | Exited j wj =>
      st' = store_job job_id (publish latest j st wj).1.1 (publish latest j st wj).1.2
  | LoopOutOfFuel => False
  end.
Proof.
  intros Hjob Hlatest Hrun.
  rewrite (run_job_unfold _ _ _ _ _ _ _ _ _ _ Hjob), Hlatest in Hrun.
  apply finish_run_job in Hrun. exact Hrun.
Qed.

(** X12: the segments a run records tile the block range: on a job
    whose segments cover [start_block .. seg_start - 1] without gap or
    overlap, a run leaves segments that cover [start_block .. next - 1]
    in the same way, with [next] at most [latest + 1].  A job left
    paused has its cursor and [coverage_end] at that [next], so resuming
    continues where the segments end; a job left done without error is
    covered up to the latest block. *)
Theorem run_segments_tile_the_range
    (fuel : nat) (job_id : string) (st : Store) (w : World) (job : Job)
    (latest : Z) (st' : Store) (w' : World) :
  JOBS st !! job_id = Some job ->
  cursor_follows_segments job ->
  MIN_WINDOW_BLOCKS <= window_blocks job ->
  get_latest_block (blocks w) = Answer latest ->
  run_job fuel job_id st w = Finished st' w' ->
  exists job' next,
    JOBS st' !! job_id = Some job' /\
    tiled (start_block job) (seg_start job) latest job' next /\
    (paused job' = true -> cursor_follows_segments job' /\ seg_start job' = next) /\
    (done job' = true -> error job' = None -> latest < next).
Proof.
  intros Hjob [Hchain Hcov] Hwb Hlatest Hrun.
  pose proof (run_job_ends _ _ _ _ _ _ _ _ Hjob Hlatest Hrun) as Hst.
  pose proof (crawl_loop_tiles client_page stop_signal format_transaction latest (start_block job)
                (seg_start job) fuel (locals_of (started latest job))
                (started latest job) (tick_blocks w)
                eq_refl eq_refl Hwb Hchain ltac:(simpl; lia) Hcov) as Htiles.
  pose proof (crawl_loop_ends client_page stop_signal format_transaction fuel latest
                (locals_of (started latest job)) (started latest job) (tick_blocks w))
    as Hends.
  destruct (crawl_loop fuel latest _ _ _) as [j wj|j wj|j wj|str_e j wj|];
    [| | | |contradiction]; subst st'.
  - destruct Htiles as (next & Ht & Hp). exists j, next.
    split; [apply store_job_lookup|]. split; [exact Ht|]. split.
    + intros Hpaused. destruct (Hp Hpaused) as [Hs Hc].
      destruct Ht as (Hsb & Hch & _). split; [|exact Hs].
      split; [rewrite Hsb, Hs; exact Hch|rewrite Hs; exact Hc].
    + intros Hdone Herr.
      destruct Hends as [(_ & Hd & _)|[(_ & _ & He)|(_ & _ & wb & He)]]; congruence.
  - destruct Htiles as (Hpa & next & Hsb & Hch & Hb).
    destruct (publish_keeps latest j st wj) as (Hsg & _ & Hsb' & Hpa' & Herr & _).
    exists (publish latest j st wj).1.1, next.
    split; [apply store_job_lookup|]. split; [|split].
    + split; [congruence|]. split; [rewrite Hsg; exact Hch|exact Hb].
    + rewrite Hpa', Hpa. discriminate.
    + intros _. rewrite Herr. destruct Hends as (_ & _ & He). congruence.
  - destruct Htiles as (Hpa & next & (Hsb & Hch & Hb) & Hnext).
    destruct (publish_keeps latest j st wj) as (Hsg & _ & Hsb' & Hpa' & _).
    exists (publish latest j st wj).1.1, next.
    split; [apply store_job_lookup|]. split; [|split].
    + split; [congruence|]. split; [rewrite Hsg; exact Hch|exact Hb].
    + rewrite Hpa', Hpa. discriminate.
    + intros _ _. exact Hnext.
  - destruct Htiles as (Hpa & next & Hsb & Hch & Hb).
    exists (except_Exception str_e j), next.
    split; [apply store_job_lookup|]. split; [|split].
    + split; [exact Hsb|]. split; [exact Hch|exact Hb].
    + change (paused (except_Exception str_e j)) with (paused j).
      rewrite Hpa. discriminate.
    + intros _. change (error (except_Exception str_e j))
        with (Some ("Error: " +:+ str_e)). discriminate.
Qed.

Lemma accumulated_keeps latest job0 j j' :
  segments j' = segments j -> seen_hashes j' = seen_hashes j ->
  accumulated client_page stop_signal latest job0 j ->
  accumulated client_page stop_signal latest job0 j'.
Proof.
  intros Hsg Hsn (segs & windows & H1 & H2 & H3).
  exists segs, windows. repeat split; congruence.
Qed.

Lemma accumulated_wf latest job0 j :
  dict_wf (seen_hashes job0) ->
  accumulated client_page stop_signal latest job0 j -> dict_wf (seen_hashes j).
Proof.
  intros Hwf (segs & windows & _ & _ & ->). apply fold_merge_wf, Hwf.
Qed.

(** X5: the record list a run leaves for publication holds one record
    for each hash, in ascending order of block number and time stamp.
    The accumulator behind it is the one the job had, merged in order
    with what each recorded segment's drain collected; it keeps one
    record under each hash, and the list holds exactly those records
    and counts them in [eth_total]. *)
Theorem run_result_sorted_and_unique
    (fuel : nat) (job_id : string) (st : Store) (w : World) (job : Job)
    (latest : Z) (st' : Store) (w' : World) :
  JOBS st !! job_id = Some job ->
  dict_wf (seen_hashes job) ->
  get_latest_block (blocks w) = Answer latest ->
  run_job fuel job_id st w = Finished st' w' ->
  exists job',
    JOBS st' !! job_id = Some job' /\
    accumulated client_page stop_signal latest job job' /\
    dict_wf (seen_hashes job') /\
    StronglySorted block_time_le (eth_txs (result_of latest job')) /\
    NoDup (map hash (eth_txs (result_of latest job'))) /\
    (forall tx, In tx (eth_txs (result_of latest job'))
                <-> dict_get (seen_hashes job') (hash tx) = Some tx) /\
    eth_total (result_of latest job') = len (eth_txs (result_of latest job')).
Proof.
  intros Hjob Hwf Hlatest Hrun.
  pose proof (run_job_ends _ _ _ _ _ _ _ _ Hjob Hlatest Hrun) as Hst.
  assert (Hcfg : same_config job (started latest job)) by (repeat split; reflexivity).
  assert (Hacc0 : accumulated client_page stop_signal latest job (started latest job)).
  { exists [], []. split; [symmetry; apply app_nil_r|]. split; [constructor|reflexivity]. }
  pose proof (crawl_loop_accumulates client_page stop_signal format_transaction latest job fuel
                (locals_of (started latest job)) (started latest job) (tick_blocks w)
                Hcfg Hacc0) as Hacc.
  assert (Hfin : exists job',
             JOBS st' !! job_id = Some job' /\
             accumulated client_page stop_signal latest job job').
  { destruct (crawl_loop fuel latest _ _ _) as [j wj|j wj|j wj|str_e j wj|];
      [| | | |contradiction]; subst st'; specialize (Hacc j eq_refl).
    - exists j. split; [apply store_job_lookup|exact Hacc].
    - destruct (publish_keeps latest j st wj) as (Hsg & Hsn & _).
      eexists. split; [apply store_job_lookup|].
      eapply accumulated_keeps; eassumption.
    - destruct (publish_keeps latest j st wj) as (Hsg & Hsn & _).
      eexists. split; [apply store_job_lookup|].
      eapply accumulated_keeps; eassumption.
    - eexists. split; [apply store_job_lookup|].
      eapply accumulated_keeps; [| |exact Hacc]; reflexivity. }
  destruct Hfin as (job' & Hjob' & Hacc').
  exists job'. split; [exact Hjob'|]. split; [exact Hacc'|].
  pose proof (accumulated_wf _ _ _ Hwf Hacc') as Hwf'.
  split; [exact Hwf'|]. apply result_of_sorted_unique, Hwf'.
Qed.

Lemma crawl_resume_paused job_id st job :
  JOBS st !! job_id = Some job ->
  paused job = true -> running job = false -> done job = false ->
  (crawl_resume job_id st).1 = inr "resumed".
Proof.
  intros Hjob Hp Hr Hd. unfold crawl_resume. rewrite Hjob, Hp, Hr, Hd. reflexivity.
Qed.

Lemma crawl_resume_not_paused job_id st job :
  JOBS st !! job_id = Some job -> paused job = false ->
  crawl_resume job_id st = (inl "Job is not paused", st).
Proof. intros Hjob Hp. unfold crawl_resume. rewrite Hjob, Hp. reflexivity. Qed.

(** X14: a run that finished left its job not running and in one of
    three states.  Paused: not done, without error, [rid] and the result
    cache untouched, and [crawl_resume] accepts it.  Published: done,
    without error or with the page-budget message, the result stored in
    the cache under the job's new [rid] and counted in
    [eth_total_unique].  Failed: done with an error message, [rid] and
    the cache untouched; this is also how a run ends that could not
    fetch the latest block.  [crawl_resume] refuses a job that is done. *)
Theorem run_leaves_paused_published_or_failed
    (fuel : nat) (job_id : string) (st : Store) (w : World) (job : Job)
    (st' : Store) (w' : World) :
  JOBS st !! job_id = Some job ->
  run_job fuel job_id st w = Finished st' w' ->
  exists job',
    JOBS st' !! job_id = Some job' /\ running job' = false /\
    ((paused job' = true /\ done job' = false /\ error job' = None /\
      rid job' = rid job /\ RESULTS_CACHE st' = RESULTS_CACHE st /\
      (crawl_resume job_id st').1 = inr "resumed") \/
     (exists latest,
        get_latest_block (blocks w) = Answer latest /\
        paused job' = false /\ done job' = true /\
        (error job' = None \/ error job' = Some max_pages_msg) /\
        published latest st st' job' /\
        crawl_resume job_id st' = (inl "Job is not paused", st')) \/
     (paused job' = false /\ done job' = true /\
      (exists msg, error job' = Some msg) /\
      rid job' = rid job /\ RESULTS_CACHE st' = RESULTS_CACHE st /\
      crawl_resume job_id st' = (inl "Job is not paused", st'))).
Proof.
  intros Hjob Hrun.
  destruct (get_latest_block (blocks w)) as [latest|str_e] eqn:Hlatest.
  2:{ rewrite (run_job_unfold _ _ _ _ _ _ _ _ _ _ Hjob), Hlatest in Hrun.
      injection Hrun as <- _. eexists. split; [apply store_job_lookup|].
      split; [reflexivity|]. right; right.
      split; [reflexivity|]. split; [reflexivity|]. split; [eexists; reflexivity|].
      split; [reflexivity|]. split; [reflexivity|].
      eapply crawl_resume_not_paused; [apply store_job_lookup|reflexivity]. }
  pose proof (run_job_ends _ _ _ _ _ _ _ _ Hjob Hlatest Hrun) as Hst.
  pose proof (crawl_loop_ends client_page stop_signal format_transaction fuel latest
                (locals_of (started latest job)) (started latest job) (tick_blocks w))
    as Hends.
  pose proof (crawl_loop_rid client_page stop_signal format_transaction latest fuel
                (locals_of (started latest job)) (started latest job) (tick_blocks w)
                eq_refl) as Hrid.
  change (rid (started latest job)) with (rid job) in Hrid.
  assert (Hpub : forall j wj,
             paused j = false ->
             error j = None \/ error j = Some max_pages_msg ->
             st' = store_job job_id (publish latest j st wj).1.1
                     (publish latest j st wj).1.2 ->
             exists job',
               JOBS st' !! job_id = Some job' /\ running job' = false /\
               paused job' = false /\ done job' = true /\
               (error job' = None \/ error job' = Some max_pages_msg) /\
               published latest st st' job').
  { intros j wj Hpa Herr ->.
    destruct (publish_keeps latest j st wj)
      as (_ & _ & _ & Hpa' & Herr' & Hd & Hr & Hres & Hid & Htot & Hcache).
    exists (publish latest j st wj).1.1.
    split; [apply store_job_lookup|]. split; [exact Hr|]. split; [congruence|].
    split; [exact Hd|]. split; [rewrite Herr'; exact Herr|].
    exists (uuid_str (uuid4 (uuids wj))). split; [exact Hid|].
    split; [|congruence]. intros Hnew. rewrite Hres. apply Hcache, Hnew. }
  destruct (crawl_loop fuel latest _ _ _) as [j wj|j wj|j wj|str_e j wj|];
    [| | | |contradiction].
  - subst st'. exists j. split; [apply store_job_lookup|].
    destruct Hrid as [Hrid Hdp].
    destruct Hends as [(Hp & Hd & Hr & He)|[(Hd & Hr & He)|(Hd & Hr & wb & He)]].
    + split; [exact Hr|]. left. repeat split; try assumption.
      eapply crawl_resume_paused; [apply store_job_lookup|assumption..].
    + split; [exact Hr|]. right; right. repeat split; eauto.
      eapply crawl_resume_not_paused; [apply store_job_lookup|auto].
    + split; [exact Hr|]. right; right. repeat split; eauto.
      eapply crawl_resume_not_paused; [apply store_job_lookup|auto].
  - destruct Hrid as [_ Hpa]. destruct Hends as (_ & _ & He).
    destruct (Hpub j wj Hpa (or_intror He) Hst)
      as (job' & Hjob' & Hr & Hp & Hd & Herr & Hp').
    exists job'. split; [exact Hjob'|]. split; [exact Hr|]. right; left.
    exists latest. repeat split; try assumption.
    eapply crawl_resume_not_paused; eassumption.
  - destruct Hrid as [_ Hpa]. destruct Hends as (He & _).
    destruct (Hpub j wj Hpa (or_introl He) Hst)
      as (job' & Hjob' & Hr & Hp & Hd & Herr & Hp').
    exists job'. split; [exact Hjob'|]. split; [exact Hr|]. right; left.
    exists latest. repeat split; try assumption.
    eapply crawl_resume_not_paused; eassumption.
  - subst st'. destruct Hrid as [Hrid Hpa].
    exists (except_Exception str_e j). split; [apply store_job_lookup|].
    split; [reflexivity|]. right; right.
    split; [exact Hpa|]. split; [reflexivity|]. split; [eexists; reflexivity|].
    split; [exact Hrid|]. split; [reflexivity|].
    eapply crawl_resume_not_paused; [apply store_job_lookup|exact Hpa].
Qed.

Lemma pause_job_cursor l job :
  window_blocks (pause_job l job) = cur_window_blocks l /\
  pages_total (pause_job l job) = cur_pages_total l /\
  stop_requested (pause_job l job) = false /\
  running (pause_job l job) = false /\ error (pause_job l job) = None.
Proof.
  unfold pause_job. destruct job. simpl.
  destruct (last _); repeat split; reflexivity.
Qed.

(** A stop request seen at the top of the loop pauses the job there. *)
Lemma crawl_loop_stop fuel latest l job w :
  stop_requested job = true -> cur_seg_start l <= latest ->
  crawl_loop (S fuel) latest l job w = Returned (pause_job l job) (tick_polls w).
Proof.
  intros Hstop Hcond. simpl. apply Z.leb_le in Hcond. rewrite Hcond.
  unfold Main.iteration, should_stop_check. rewrite Hstop. reflexivity.
Qed.

(** X15: stop, pause, resume.  After [crawl_stop] a run of the job that
    still has blocks to crawl pauses at the top of its loop before any
    page request: the job is left paused, not running, not done, without
    error, the stop request cleared, and its cursor, window size, page
    count, segments and accumulator as they were; [crawl_resume] then
    accepts it. *)
Theorem stop_request_pauses_before_any_request
    (fuel : nat) (job_id : string) (st : Store) (w : World) (job : Job) (latest : Z) :
  JOBS st !! job_id = Some job ->
  get_latest_block (blocks w) = Answer latest ->
  seg_start job <= latest ->
  exists job' w',
    run_job (S fuel) job_id (crawl_stop job_id st).2 w
    = Finished (store_job job_id job' (crawl_stop job_id st).2) w' /\
    requests w' = requests w /\
    paused job' = true /\ running job' = false /\ done job' = false /\
    error job' = None /\ stop_requested job' = false /\
    seg_start job' = seg_start job /\ window_blocks job' = window_blocks job /\
    pages_total job' = pages_total job /\
    segments job' = segments job /\ seen_hashes job' = seen_hashes job /\
    (crawl_resume job_id (store_job job_id job' (crawl_stop job_id st).2)).1
    = inr "resumed".
Proof.
  intros Hjob Hlatest Hcond.
  assert (Hstop : (crawl_stop job_id st).2
                  = store_job job_id (set_stop_requested true job) st)
    by (unfold crawl_stop; rewrite Hjob; reflexivity).
  rewrite Hstop.
  set (job1 := set_stop_requested true job).
  set (st1 := store_job job_id job1 st).
  assert (Hjob1 : JOBS st1 !! job_id = Some job1) by apply store_job_lookup.
  rewrite (run_job_unfold _ _ _ _ _ _ _ _ _ _ Hjob1), Hlatest.
  rewrite crawl_loop_stop; [|reflexivity|exact Hcond].
  set (l := locals_of (started latest job1)).
  destruct (pause_job_keeps l (started latest job1))
    as (Hsg & Hsn & _ & _ & Hp & Hd & Hss & _).
  destruct (pause_job_cursor l (started latest job1)) as (Hwb & Hpt & Hsr & Hr & He).
  exists (pause_job l (started latest job1)), (tick_polls (tick_blocks w)).
  split; [reflexivity|]. split; [reflexivity|].
  repeat (split; [assumption|]).
  eapply crawl_resume_paused; [apply store_job_lookup|assumption..].
Qed.

End Run.

(** The theorem at work: one segment [0 .. 100] covers the whole range. *)
Lemma run_segments_tile_the_range_witness :
  exists job' next,
    JOBS run_two_txs.1 !! "job1" = Some job' /\
    chain 0 (segments job') next /\ (done job' = true -> error job' = None -> 100 < next).
Proof.
  assert (Hjob : JOBS store_one_page !! "job1" = Some job_one_page)
    by (vm_compute; reflexivity).
  assert (Hrun : run_job two_txs (latest_is 100) never_stop uuid_of formats_all 50 "job1"
                   store_one_page world0
                 = Finished run_two_txs.1 run_two_txs.2)
    by (vm_compute; reflexivity).
  destruct (run_segments_tile_the_range two_txs (latest_is 100) never_stop uuid_of formats_all
              50 "job1" store_one_page world0 job_one_page 100
              run_two_txs.1 run_two_txs.2 Hjob
              (conj eq_refl eq_refl) ltac:(vm_compute; discriminate) eq_refl Hrun)
    as (job' & next & Hjob' & (_ & Hch & _) & _ & Hdone).
  exists job', next. repeat split; assumption.
Defined.

(** The theorem at work: the two transactions come out in block order. *)
Lemma run_result_sorted_and_unique_witness :
  exists job',
    JOBS run_two_txs.1 !! "job1" = Some job' /\
    StronglySorted block_time_le (eth_txs (result_of 100 job')) /\
    NoDup (map hash (eth_txs (result_of 100 job'))).
Proof.
  assert (Hjob : JOBS store_one_page !! "job1" = Some job_one_page)
    by (vm_compute; reflexivity).
  assert (Hrun : run_job two_txs (latest_is 100) never_stop uuid_of formats_all 50 "job1"
                   store_one_page world0
                 = Finished run_two_txs.1 run_two_txs.2)
    by (vm_compute; reflexivity).
  assert (Hwf : dict_wf (seen_hashes job_one_page)) by (split; constructor).
  destruct (run_result_sorted_and_unique two_txs (latest_is 100) never_stop uuid_of formats_all
              50 "job1" store_one_page world0 job_one_page 100
              run_two_txs.1 run_two_txs.2 Hjob Hwf eq_refl Hrun)
    as (job' & Hjob' & _ & _ & Hsorted & Hnodup & _).
  exists job'. repeat split; assumption.
Defined.

(** The theorem at work: the run of the fresh job ends with its job in
    the registry and not running. *)
Lemma run_leaves_paused_published_or_failed_witness :
  exists job', JOBS run_two_txs.1 !! "job1" = Some job' /\ running job' = false.
Proof.
  assert (Hjob : JOBS store_one_page !! "job1" = Some job_one_page)
    by (vm_compute; reflexivity).
  assert (Hrun : run_job two_txs (latest_is 100) never_stop uuid_of formats_all 50 "job1"
                   store_one_page world0
                 = Finished run_two_txs.1 run_two_txs.2)
    by (vm_compute; reflexivity).
  destruct (run_leaves_paused_published_or_failed two_txs (latest_is 100) never_stop
              uuid_of formats_all 50 "job1" store_one_page world0 job_one_page
              run_two_txs.1 run_two_txs.2 Hjob Hrun)
    as (job' & Hjob' & Hr & _).
  exists job'. split; assumption.
Defined.

(** The theorem at work: the stopped job is left paused at block 0. *)
Lemma stop_request_pauses_before_any_request_witness :
  exists job' w',
    run_stopped = Finished (store_job "job1" job' (crawl_stop "job1" store_one_page).2) w'
    /\ requests w' = [] /\ paused job' = true /\ seg_start job' = 0.
Proof.
  assert (Hjob : JOBS store_one_page !! "job1" = Some job_one_page)
    by (vm_compute; reflexivity).
  destruct (stop_request_pauses_before_any_request two_txs (latest_is 100) never_stop
              uuid_of formats_all 0 "job1" store_one_page world0 job_one_page 100 Hjob eq_refl
              ltac:(simpl; lia))
    as (job' & w' & Hrun & Hreq & Hp & _ & _ & _ & _ & Hs & _).
  exists job', w'. repeat split; assumption.
Defined.

End HistoryProofs.

(** * Proofs: what the endpoints accept *)

Module ValidationProofs.
Import Main MainSpec MoreSpec.

Section Endpoints.

Variable get_latest_block : nat -> Reply Z.
Variable uuid4 : nat -> string.

Local Abbreviation crawl_all_start := (crawl_all_start uuid4).
Local Abbreviation crawl_in_all_mode := (crawl_in_all_mode get_latest_block uuid4).

(** What [crawl_all_start] does with inputs it accepts. *)
Lemma crawl_all_start_accepts address start_block it mp page_size st w :
  String.prefix "0x" address = true -> 0 <= start_block ->
  (forall n, mp = MaxPagesInt n -> 1 <= n) -> mp <> MaxPagesInvalid ->
  exists st1,
    crawl_all_start true address start_block it mp page_size st w
    = (inr (take_str 12 (uuid4 (uuids w))), st1, tick_uuids w) /\
    JOBS st1 !! take_str 12 (uuid4 (uuids w))
    = Some (new_job address start_block it (clamp_page_size page_size) (budget_of mp)) /\
    (forall k job, k <> take_str 12 (uuid4 (uuids w)) ->
                   JOBS st1 !! k = Some job -> JOBS st !! k = Some job) /\
    RESULTS_CACHE st1 = RESULTS_CACHE st /\ RESULT_IDS st1 = RESULT_IDS st.
Proof.
  intros Hpre Hsb Hmp Hinv. unfold Main.crawl_all_start. rewrite Hpre.
  assert (Hlt : (start_block <? 0) = false) by (apply Z.ltb_ge; exact Hsb).
  rewrite Hlt. cbn [negb].
  assert (Hparsed : match mp with
                    | MaxPagesBlank => inr None
                    | MaxPagesInt n =>
                        if n <? 1 then inl "max_pages must be >= 1" else inr (Some n)
                    | MaxPagesInvalid => inl "max_pages must be a valid number"
                    end = (inr (budget_of mp) : string + option Z)).
  { destruct mp as [|n|]; [reflexivity| |congruence].
    specialize (Hmp n eq_refl).
    assert (Hn : (n <? 1) = false) by (apply Z.ltb_ge; lia).
    rewrite Hn. reflexivity. }
  rewrite Hparsed.
  destruct (JOBS_SIZE_LIMIT <? len (JOB_IDS st ++ [take_str 12 (uuid4 (uuids w))])).
  - destruct (pop0 (JOB_IDS st ++ [take_str 12 (uuid4 (uuids w))]))
      as [[oldest ids]|].
    + eexists. split; [reflexivity|]. cbn [JOBS RESULTS_CACHE RESULT_IDS].
      split; [apply lookup_insert_eq|]. split; [|split; reflexivity].
      intros k job Hk. rewrite lookup_insert_ne by congruence.
      intros Hdel. apply lookup_delete_Some in Hdel. apply Hdel.
    + eexists. split; [reflexivity|]. cbn [JOBS RESULTS_CACHE RESULT_IDS].
      split; [apply lookup_insert_eq|]. split; [|split; reflexivity].
      intros k job Hk. rewrite lookup_insert_ne by congruence. tauto.
  - eexists. split; [reflexivity|]. cbn [JOBS RESULTS_CACHE RESULT_IDS].
    split; [apply lookup_insert_eq|]. split; [|split; reflexivity].
    intros k job Hk. rewrite lookup_insert_ne by congruence. tauto.
Qed.

(** X16: [crawl_all_start] turns down exactly the requests whose
    address does not start with 0x, whose start block is negative, that
    come when no client is configured, or whose [max_pages] is not a
    number or is below 1; it then answers an error and leaves the
    registries and the world as they are.  Every other request creates
    one job, under the first 12 characters of a fresh uuid, with the
    cursor at [start_block], the clamped page size and the budget asked
    for, and modifies no other job, though it may evict one, and no
    result. *)
Theorem crawl_all_start_rejects_exactly_bad_input
    (cc : bool) (address : string) (start_block : Z) (it : bool) (mp : MaxPages)
    (requested : Z) (st : Store) (w : World) :
  (rejected cc address start_block mp ->
   exists msg,
     crawl_all_start cc address start_block it mp requested st w = (inl msg, st, w)) /\
  (~ rejected cc address start_block mp ->
   exists st1,
     crawl_all_start cc address start_block it mp requested st w
     = (inr (take_str 12 (uuid4 (uuids w))), st1, tick_uuids w) /\
     JOBS st1 !! take_str 12 (uuid4 (uuids w))
     = Some (new_job address start_block it (clamp_page_size requested) (budget_of mp)) /\
     (forall k job, k <> take_str 12 (uuid4 (uuids w)) ->
                    JOBS st1 !! k = Some job -> JOBS st !! k = Some job) /\
     RESULTS_CACHE st1 = RESULTS_CACHE st /\ RESULT_IDS st1 = RESULT_IDS st).
Proof.
  split.
  - intros Hbad. unfold Main.crawl_all_start.
    destruct (String.prefix "0x" address) eqn:Hpre; cbn [negb]; [|eauto].
    destruct (start_block <? 0) eqn:Hsb; [eauto|]. apply Z.ltb_ge in Hsb.
    destruct cc; cbn [negb]; [|eauto].
    destruct Hbad as [H|[H|[H|[H|(n & H & Hn)]]]]; try congruence; try lia; subst mp.
    + eauto.
    + assert (Hlt : (n <? 1) = true) by (apply Z.ltb_lt; exact Hn).
      rewrite Hlt. eauto.
  - intros Hok.
    assert (Hcc : cc = true).
    { destruct cc; [reflexivity|]. exfalso. apply Hok. right; right; left. reflexivity. }
    subst cc. apply crawl_all_start_accepts.
    + destruct (String.prefix "0x" address) eqn:Hpre; [reflexivity|].
      exfalso. apply Hok. left. exact Hpre.
    + destruct (Z.lt_ge_cases start_block 0) as [H|H]; [|exact H].
      exfalso. apply Hok. right; left. exact H.
    + intros n ->. destruct (Z.lt_ge_cases n 1) as [H|H]; [|exact H].
      exfalso. apply Hok. do 4 right. exists n. split; [reflexivity|exact H].
    + intros ->. apply Hok. do 3 right. left. reflexivity.
Qed.

(** X17: the same [max_pages], two answers.  For a request that is
    otherwise valid, a [max_pages] that is not a number or is 0 makes
    [crawl_all_start] answer an error; sent to [crawl] in crawl-all
    mode it is dropped from the redirect, and the job is created
    without a page budget. *)
Theorem crawl_redirect_drops_unusable_max_pages
    (address : string) (start_block : Z) (it : bool) (mp : MaxPages)
    (requested : Z) (st : Store) (w : World) (latest : Z) :
  String.prefix "0x" address = true -> 0 <= start_block ->
  get_latest_block (blocks w) = Answer latest ->
  mp = MaxPagesInvalid \/ mp = MaxPagesInt 0 ->
  (exists msg,
     crawl_all_start true address start_block it mp requested st w = (inl msg, st, w)) /\
  exists job_id st1 w1 job,
    crawl_in_all_mode true address start_block it mp requested st w
    = (inr job_id, st1, w1) /\
    JOBS st1 !! job_id = Some job /\
    max_pages_int job = None /\ page_size job = clamp_page_size requested.
Proof.
  intros Hpre Hsb Hlatest Hmp. split.
  - unfold Main.crawl_all_start. rewrite Hpre.
    assert (Hlt : (start_block <? 0) = false) by (apply Z.ltb_ge; exact Hsb).
    rewrite Hlt. cbn [negb]. destruct Hmp as [-> | ->]; eauto.
  - assert (Hredirect :
              crawl_in_all_mode true address start_block it mp requested st w
              = crawl_all_start true address start_block it MaxPagesBlank
                  (clamp_page_size requested) st (tick_blocks w)).
    { unfold Main.crawl_in_all_mode. rewrite Hpre.
      assert (Hlt : (start_block <? 0) = false) by (apply Z.ltb_ge; exact Hsb).
      rewrite Hlt, Hlatest. cbn [negb]. destruct Hmp as [-> | ->]; reflexivity. }
    destruct (crawl_all_start_accepts address start_block it MaxPagesBlank
                (clamp_page_size requested) st (tick_blocks w) Hpre Hsb
                ltac:(discriminate) ltac:(discriminate))
      as (st1 & Hcreate & Hjob & _).
    rewrite Hredirect, Hcreate. do 4 eexists. split; [reflexivity|].
    split; [exact Hjob|]. split; [reflexivity|].
    apply EndpointProofs.clamp_page_size_idem.
Qed.

End Endpoints.

(** The theorem at work: an address without 0x is turned down. *)
Lemma crawl_all_start_rejects_exactly_bad_input_witness :
  exists msg,
    crawl_all_start uuid_of true "abc" 0 false MaxPagesBlank 200 empty_store world0
    = (inl msg, empty_store, world0).
Proof.
  apply (proj1 (crawl_all_start_rejects_exactly_bad_input uuid_of true "abc" 0 false
                  MaxPagesBlank 200 empty_store world0)).
  left. reflexivity.
Defined.

(** The theorem at work: "0" for [max_pages]. *)
Lemma crawl_redirect_drops_unusable_max_pages_witness :
  (exists msg,
     crawl_all_start uuid_of true "0xabc" 0 false (MaxPagesInt 0) 200 empty_store world0
     = (inl msg, empty_store, world0)) /\
  exists job_id st1 w1 job,
    crawl_in_all_mode (latest_is 100) uuid_of true "0xabc" 0 false (MaxPagesInt 0) 200
      empty_store world0
    = (inr job_id, st1, w1) /\
    JOBS st1 !! job_id = Some job /\ max_pages_int job = None.
Proof.
  destruct (crawl_redirect_drops_unusable_max_pages (latest_is 100) uuid_of
              "0xabc" 0 false (MaxPagesInt 0) 200 empty_store world0 100
              eq_refl ltac:(lia) eq_refl (or_intror eq_refl))
    as (Hstart & job_id & st1 & w1 & job & Hcrawl & Hjob & Hmax & _).
  split; [exact Hstart|]. exists job_id, st1, w1, job. repeat split; assumption.
Defined.

End ValidationProofs.

(** * Proofs: crawl_all_by_block_splitting *)

Module SplittingProofs.
Import Etherscan Main Splitting MainSpec MoreSpec SplittingSpec WindowProofs DictProofs.

(** ** The sort by block number *)

Lemma insert_by_block_perm x l : Permutation (insert_by_block x l) (x :: l).
Proof.
  induction l as [|y l IH]; simpl; [reflexivity|].
  destruct (blockNumber x <=? blockNumber y); [reflexivity|].
  rewrite IH. apply perm_swap.
Qed.

Lemma sorted_by_block_perm l : Permutation (sorted_by_block l) l.
Proof.
  induction l as [|x l IH]; simpl; [reflexivity|].
  rewrite insert_by_block_perm, IH. reflexivity.
Qed.

Lemma insert_by_block_sorted x l :
  StronglySorted block_le l -> StronglySorted block_le (insert_by_block x l).
Proof.
  induction l as [|y l IH]; intros Hs; simpl.
  - constructor; constructor.
  - apply StronglySorted_inv in Hs as [Hs Hy].
    destruct (blockNumber x <=? blockNumber y) eqn:Hle.
    + apply Z.leb_le in Hle. constructor.
      * constructor; assumption.
      * constructor; [assumption|].
        eapply Forall_impl; [exact Hy|]. intros z Hz. unfold block_le in *. lia.
    + apply Z.leb_gt in Hle. constructor; [apply IH, Hs|].
      eapply Permutation_Forall; [symmetry; apply insert_by_block_perm|].
      constructor; [unfold block_le; lia|assumption].
Qed.

Lemma sorted_by_block_sorted l : StronglySorted block_le (sorted_by_block l).
Proof.
  induction l as [|x l IH]; simpl; [constructor|]. apply insert_by_block_sorted, IH.
Qed.

(** ** Where the records of the accumulator come from *)

Lemma dict_set_values_in {V} (d : dict V) k v v' :
  In v' (dict_values (dict_set d k v)) -> In v' (dict_values d) \/ v' = v.
Proof.
  induction d as [|[k0 v0] d IH]; simpl.
  - intros [<-|[]]. right. reflexivity.
  - destruct (String.eqb k0 k); simpl.
    + intros [<-|H]; [right; reflexivity|left; right; exact H].
    + intros [<-|H]; [left; left; reflexivity|].
      destruct (IH H) as [H'|H']; [left; right; exact H'|right; exact H'].
Qed.

Lemma merge_txs_values_in d txs tx :
  In tx (dict_values (merge_txs d txs)) -> In tx (dict_values d) \/ In tx txs.
Proof.
  revert d. induction txs as [|t txs IH]; intros d; [left; assumption|].
  rewrite merge_txs_cons. intros H. apply IH in H as [H|H]; [|right; right; exact H].
  destruct (String.eqb (hash t) ""); [left; exact H|].
  apply dict_set_values_in in H as [H| ->]; [left; exact H|right; left; reflexivity].
Qed.

Section Splitting.

Variable fetch_fn : nat -> Z -> Z -> Z -> Result.
Variable offset : Z.

Local Abbreviation fetch_range := (fetch_range fetch_fn offset).
Local Abbreviation crawl_all_by_block_splitting :=
  (crawl_all_by_block_splitting fetch_fn offset).
Local Abbreviation came_from := (came_from fetch_fn).

Lemma came_from_app log new tx : came_from log tx -> came_from (log ++ new) tx.
Proof.
  intros (n & a & data & items & Hn & H). exists n, a, data, items.
  split; [|exact H]. rewrite nth_error_app1; [exact Hn|].
  apply nth_error_Some. congruence.
Qed.

(** What every call of [fetch_range] keeps: the log only grows, by
    calls within the range; the accumulator stays well formed and holds
    only records that an answer carried. *)
Lemma fetch_range_keeps lo hi frames sb eb page acc :
  lo <= sb -> eb <= hi -> 1 <= page ->
  dict_wf (all_txs acc) ->
  (forall tx, In tx (dict_values (all_txs acc)) -> came_from (asked acc) tx) ->
  exists new,
    asked (end_acc (fetch_range frames sb eb page acc)) = (asked acc ++ new)%list /\
    Forall (within lo hi) new /\
    dict_wf (all_txs (end_acc (fetch_range frames sb eb page acc))) /\
    (forall tx,
       In tx (dict_values (all_txs (end_acc (fetch_range frames sb eb page acc)))) ->
       came_from (asked (end_acc (fetch_range frames sb eb page acc))) tx).
Proof.
  revert sb eb page acc.
  induction frames as [|frames IH]; intros sb eb page acc Hlo Hhi Hpage Hwf Hfrom.
  { exists []. simpl. rewrite app_nil_r.
    split; [reflexivity|]. split; [constructor|]. split; assumption. }
  assert (Hone : Forall (within lo hi) [mkAsked sb eb page])
    by (constructor; [repeat split; assumption|constructor]).
  assert (Hfrom1 : forall tx, In tx (dict_values (all_txs acc)) ->
                              came_from (asked acc ++ [mkAsked sb eb page]) tx)
    by (intros tx Htx; apply came_from_app, Hfrom, Htx).
  assert (Hstop : exists new,
             (asked acc ++ [mkAsked sb eb page])%list = (asked acc ++ new)%list /\
             Forall (within lo hi) new /\ dict_wf (all_txs acc) /\
             (forall tx, In tx (dict_values (all_txs acc)) ->
                         came_from (asked acc ++ [mkAsked sb eb page]) tx))
    by (exists [mkAsked sb eb page]; split; [reflexivity|];
        split; [assumption|]; split; assumption).
  simpl.
  destruct (fetch_fn (List.length (asked acc)) sb eb page) as [data|e] eqn:Hfetch;
    [|exact Hstop].
  destruct (status_not_1 data) eqn:Hstatus; [exact Hstop|].
  destruct (result data) as [[s|results|]|] eqn:Hresult; try exact Hstop.
  { destruct s; exact Hstop. }
  destruct results as [|tx0 results]; [exact Hstop|].
  set (items := tx0 :: results) in *.
  set (acc1 := mkAcc (merge_txs (all_txs acc) items)
                 (asked acc ++ [mkAsked sb eb page])).
  assert (Hwf1 : dict_wf (all_txs acc1)) by (apply merge_txs_wf, Hwf).
  assert (Hfrom2 : forall tx, In tx (dict_values (all_txs acc1)) ->
                              came_from (asked acc1) tx).
  { intros tx Htx. apply merge_txs_values_in in Htx as [Htx|Htx]; [apply Hfrom1, Htx|].
    exists (List.length (asked acc)), (mkAsked sb eb page), data, items.
    split; [|repeat split; assumption].
    simpl. rewrite nth_error_app2 by lia. rewrite Nat.sub_diag. reflexivity. }
  assert (Hshort : exists new,
             asked acc1 = (asked acc ++ new)%list /\
             Forall (within lo hi) new /\ dict_wf (all_txs acc1) /\
             (forall tx, In tx (dict_values (all_txs acc1)) -> came_from (asked acc1) tx))
    by (exists [mkAsked sb eb page]; split; [reflexivity|];
        split; [assumption|]; split; assumption).
  assert (Hnext : forall sb' eb' page',
             lo <= sb' -> eb' <= hi -> 1 <= page' ->
             forall acc2 new2,
               asked acc2 = (asked acc ++ new2)%list -> Forall (within lo hi) new2 ->
               dict_wf (all_txs acc2) ->
               (forall tx, In tx (dict_values (all_txs acc2)) ->
                           came_from (asked acc2) tx) ->
               exists new,
                 asked (end_acc (fetch_range frames sb' eb' page' acc2))
                 = (asked acc ++ new)%list /\
                 Forall (within lo hi) new /\
                 dict_wf (all_txs (end_acc (fetch_range frames sb' eb' page' acc2))) /\
                 (forall tx,
                    In tx (dict_values
                             (all_txs (end_acc (fetch_range frames sb' eb' page' acc2)))) ->
                    came_from (asked (end_acc (fetch_range frames sb' eb' page' acc2))) tx)).
  { intros sb' eb' page' H1 H2 H3 acc2 new2 Hlog Hin Hwf2 Hfr2.
    destruct (IH sb' eb' page' acc2 H1 H2 H3 Hwf2 Hfr2) as (new & Hl & Hw & Hd & Hf).
    exists (new2 ++ new)%list.
    split; [rewrite Hl, Hlog; symmetry; apply app_assoc|].
    split; [apply Forall_app; split; assumption|].
    split; assumption. }
  destruct (len items =? offset); [|exact Hshort].
  destruct (1 <? eb - sb) eqn:Hsplit.
  - apply Z.ltb_lt in Hsplit.
    assert (Hmid : sb <= (sb + eb) / 2 < eb).
    { split; [apply Z.div_le_lower_bound; lia|apply Z.div_lt_upper_bound; lia]. }
    destruct (Hnext sb ((sb + eb) / 2) 1 ltac:(lia) ltac:(lia) ltac:(lia)
                acc1 [mkAsked sb eb page] eq_refl Hone Hwf1 Hfrom2)
      as (new1 & Hl1 & Hw1 & Hd1 & Hf1).
    destruct (fetch_range frames sb ((sb + eb) / 2) 1 acc1) as [acc2|e acc2];
      simpl in Hl1, Hd1, Hf1.
    + apply (Hnext ((sb + eb) / 2 + 1) eb 1 ltac:(lia) ltac:(lia) ltac:(lia)
               acc2 new1 Hl1 Hw1 Hd1 Hf1).
    + exists new1. split; [assumption|]. split; [assumption|]. split; assumption.
  - apply (Hnext sb eb (page + 1) Hlo Hhi ltac:(lia) acc1 [mkAsked sb eb page]
             eq_refl Hone Hwf1 Hfrom2).
Qed.

Lemma fetch_range_log frames sb eb page acc :
  exists new,
    asked (end_acc (fetch_range frames sb eb page acc)) = (asked acc ++ new)%list.
Proof.
  revert sb eb page acc.
  induction frames as [|frames IH]; intros sb eb page acc.
  { exists []. simpl. symmetry. apply app_nil_r. }
  simpl.
  destruct (fetch_fn (List.length (asked acc)) sb eb page) as [data|e]; [|eauto].
  destruct (status_not_1 data); [eauto|].
  destruct (result data) as [[s|results|]|]; eauto.
  { destruct s; eauto. }
  destruct results as [|tx0 results]; [eauto|].
  assert (Hthen : forall sb' eb' page' acc2 new2,
             asked acc2 = (asked acc ++ mkAsked sb eb page :: new2)%list ->
             exists new,
               asked (end_acc (fetch_range frames sb' eb' page' acc2))
               = (asked acc ++ new)%list).
  { intros sb' eb' page' acc2 new2 Hlog.
    destruct (IH sb' eb' page' acc2) as [new Hnew]. rewrite Hnew, Hlog.
    rewrite <- app_assoc. eauto. }
  destruct (len (tx0 :: results) =? offset); [|eauto].
  destruct (1 <? eb - sb).
  - destruct (IH sb ((sb + eb) / 2) 1
                (mkAcc (merge_txs (all_txs acc) (tx0 :: results))
                   (asked acc ++ [mkAsked sb eb page]))) as [new1 Hnew1].
    destruct (fetch_range frames sb ((sb + eb) / 2) 1 _) as [acc2|e acc2];
      simpl in Hnew1.
    + apply (Hthen _ _ _ _ new1). rewrite Hnew1, <- app_assoc. reflexivity.
    + simpl. rewrite Hnew1, <- app_assoc. eauto.
  - apply (Hthen _ _ _ _ []). reflexivity.
Qed.

(** A call of [fetch_range] that the recursion limit allows asks for
    its own range and page first. *)
Lemma fetch_range_first frames sb eb page acc :
  exists rest,
    asked (end_acc (fetch_range (S frames) sb eb page acc))
    = (asked acc ++ mkAsked sb eb page :: rest)%list.
Proof.
  simpl.
  destruct (fetch_fn (List.length (asked acc)) sb eb page) as [data|e]; [|eauto].
  destruct (status_not_1 data); [eauto|].
  destruct (result data) as [[s|results|]|]; eauto.
  { destruct s; eauto. }
  destruct results as [|tx0 results]; [eauto|].
  assert (Hthen : forall sb' eb' page' acc2 new2,
             asked acc2 = (asked acc ++ mkAsked sb eb page :: new2)%list ->
             exists rest,
               asked (end_acc (fetch_range frames sb' eb' page' acc2))
               = (asked acc ++ mkAsked sb eb page :: rest)%list).
  { intros sb' eb' page' acc2 new2 Hlog.
    destruct (fetch_range_log frames sb' eb' page' acc2) as [new Hnew].
    rewrite Hnew, Hlog, <- app_assoc. simpl. eauto. }
  destruct (len (tx0 :: results) =? offset); [|eauto].
  destruct (1 <? eb - sb).
  - destruct (fetch_range_log frames sb ((sb + eb) / 2) 1
                (mkAcc (merge_txs (all_txs acc) (tx0 :: results))
                   (asked acc ++ [mkAsked sb eb page]))) as [new1 Hnew1].
    destruct (fetch_range frames sb ((sb + eb) / 2) 1 _) as [acc2|e acc2];
      simpl in Hnew1.
    + apply (Hthen _ _ _ _ new1). rewrite Hnew1, <- app_assoc. reflexivity.
    + simpl. rewrite Hnew1, <- app_assoc. eauto.
  - apply (Hthen _ _ _ _ []). reflexivity.
Qed.

(** The outcome of the whole call, read off the outcome of [fetch_range]. *)
Lemma crawl_all_unfold frames start_block end_block :
  crawl_all_by_block_splitting frames start_block end_block
  = match fetch_range frames start_block end_block 1 (mkAcc [] []) with
    | Done acc => (inl (sorted_by_block (dict_values (all_txs acc))), asked acc)
    | Fault e acc => (inr e, asked acc)
    end.
Proof. reflexivity. Qed.

(** X18: the list [crawl_all_by_block_splitting] returns is in
    ascending order of block number, holds no two records with the same
    hash and none without a hash, and every record in it was in the
    answer to one of the calls of [fetch_fn] it made. *)
Theorem splitting_result_sorted_and_unique
    (frames : nat) (start_block end_block : Z) (txs : list Tx) (log : list Asked) :
  crawl_all_by_block_splitting frames start_block end_block = (inl txs, log) ->
  StronglySorted block_le txs /\
  NoDup (map hash txs) /\
  Forall (fun tx => hash tx <> "") txs /\
  forall tx, In tx txs -> came_from log tx.
Proof.
  rewrite crawl_all_unfold. intros Hcall.
  destruct (fetch_range_keeps start_block end_block frames start_block end_block 1
              (mkAcc [] []) ltac:(lia) ltac:(lia) ltac:(lia)
              ltac:(split; constructor) ltac:(intros tx []))
    as (new & _ & _ & Hwf & Hfrom).
  destruct (fetch_range frames start_block end_block 1 (mkAcc [] [])) as [acc|e acc];
    [|discriminate].
  simpl in Hwf, Hfrom. injection Hcall as <- <-.
  pose proof (sorted_by_block_perm (dict_values (all_txs acc))) as Hperm.
  split; [apply sorted_by_block_sorted|]. split; [|split].
  - assert (Hp : Permutation (map hash (sorted_by_block (dict_values (all_txs acc))))
                   (map hash (dict_values (all_txs acc))))
      by apply Permutation_map, Hperm.
    rewrite Hp, dict_wf_values by assumption. apply Hwf.
  - eapply Permutation_Forall; [symmetry; exact Hperm|].
    destruct Hwf as [_ Hall]. unfold dict_values. apply Forall_map.
    eapply Forall_impl; [exact Hall|]. intros [k v] [Hk Hne]. simpl in *. congruence.
  - intros tx Htx. apply Hfrom. eapply Permutation_in; [exact Hperm|exact Htx].
Qed.

(** X19: every call of [fetch_fn] that [crawl_all_by_block_splitting]
    makes asks for blocks within [start_block .. end_block] and for a
    page numbered from 1; the first call, when the recursion limit
    allows one, asks for the whole range and page 1. *)
Theorem splitting_requests_within_range (frames : nat) (start_block end_block : Z) :
  Forall (within start_block end_block)
    (crawl_all_by_block_splitting frames start_block end_block).2 /\
  (frames <> O ->
   exists rest,
     (crawl_all_by_block_splitting frames start_block end_block).2
     = mkAsked start_block end_block 1 :: rest).
Proof.
  rewrite crawl_all_unfold. split.
  - destruct (fetch_range_keeps start_block end_block frames start_block end_block 1
                (mkAcc [] []) ltac:(lia) ltac:(lia) ltac:(lia)
                ltac:(split; constructor) ltac:(intros tx []))
      as (new & Hlog & Hin & _).
    destruct (fetch_range frames start_block end_block 1 (mkAcc [] [])) as [acc|e acc];
      simpl in *; rewrite Hlog; exact Hin.
  - intros Hframes. destruct frames as [|frames]; [contradiction|].
    destruct (fetch_range_first frames start_block end_block 1 (mkAcc [] []))
      as [rest Hrest].
    destruct (fetch_range (S frames) start_block end_block 1 (mkAcc [] []))
      as [acc|e acc]; simpl in *; eauto.
Qed.

(** An answer that is full has records when [offset] is not 0. *)
Lemma fetch_range_full frames sb eb page acc data items :
  fetch_fn (List.length (asked acc)) sb eb page = Returns data ->
  status_not_1 data = false -> result data = Some (JArr items) ->
  len items = offset -> offset <> 0 ->
  fetch_range (S frames) sb eb page acc
  = let acc1 := mkAcc (merge_txs (all_txs acc) items)
                  (asked acc ++ [mkAsked sb eb page]) in
    if 1 <? eb - sb then
      match fetch_range frames sb ((sb + eb) / 2) 1 acc1 with
      | Done acc2 => fetch_range frames ((sb + eb) / 2 + 1) eb 1 acc2
      | Fault e acc2 => Fault e acc2
      end
    else fetch_range frames sb eb (page + 1) acc1.
Proof.
  intros Hfetch Hstatus Hresult Hlen Hoff. simpl.
  rewrite Hfetch, Hstatus, Hresult.
  destruct items as [|tx0 items]; [unfold len in Hlen; simpl in Hlen; lia|].
  apply Z.eqb_eq in Hlen. rewrite Hlen. reflexivity.
Qed.

(** X20: against an upstream whose every answer is full,
    [crawl_all_by_block_splitting] never returns: whatever the recursion
    limit, it ends in [RecursionError]. *)
Theorem splitting_full_answers_exhaust_recursion
    (frames : nat) (start_block end_block : Z) :
  offset <> 0 ->
  (forall n sb eb page, is_full offset (fetch_fn n sb eb page)) ->
  (crawl_all_by_block_splitting frames start_block end_block).1 = inr RecursionError.
Proof.
  intros Hoff Hfull. rewrite crawl_all_unfold.
  assert (Hall : forall frames sb eb page acc,
             exists acc', fetch_range frames sb eb page acc = Fault RecursionError acc').
  { clear frames. induction frames as [|frames IH]; intros sb eb page acc; [eauto|].
    destruct (Hfull (List.length (asked acc)) sb eb page)
      as (data & items & Hfetch & Hstatus & Hresult & Hlen).
    rewrite (fetch_range_full _ _ _ _ _ _ _ Hfetch Hstatus Hresult Hlen Hoff).
    cbv zeta. destruct (1 <? eb - sb); [|apply IH].
    destruct (IH sb ((sb + eb) / 2) 1
                (mkAcc (merge_txs (all_txs acc) items)
                   (asked acc ++ [mkAsked sb eb page]))) as [acc' ->].
    eauto. }
  destruct (Hall frames start_block end_block 1 (mkAcc [] [])) as [acc' ->].
  reflexivity.
Qed.

(** More nested calls change nothing once the recursion limit was not
    hit. *)
Lemma fetch_range_mono frames frames' sb eb page acc :
  (frames <= frames')%nat ->
  (forall acc', fetch_range frames sb eb page acc <> Fault RecursionError acc') ->
  fetch_range frames' sb eb page acc = fetch_range frames sb eb page acc.
Proof.
  revert frames' sb eb page acc.
  induction frames as [|frames IH]; intros frames' sb eb page acc Hle Hok.
  { exfalso. apply (Hok acc). reflexivity. }
  destruct frames' as [|frames']; [lia|]. simpl in *.
  destruct (fetch_fn (List.length (asked acc)) sb eb page) as [data|e]; [|reflexivity].
  destruct (status_not_1 data); [reflexivity|].
  destruct (result data) as [[s|results|]|]; try reflexivity.
  destruct results as [|tx0 results]; [reflexivity|].
  destruct (len (tx0 :: results) =? offset); [|reflexivity].
  destruct (1 <? eb - sb); [|apply IH; [lia|exact Hok]].
  rewrite (IH frames' sb ((sb + eb) / 2) 1) by
    (try lia; intros acc' E; rewrite E in Hok; apply (Hok acc'); reflexivity).
  destruct (fetch_range frames sb ((sb + eb) / 2) 1 _) as [acc2|e acc2];
    [|reflexivity].
  apply IH; [lia|exact Hok].
Qed.

Lemma log2_half w x :
  1 < w -> x <= w / 2 -> Z.log2 (Z.max 1 x) + 1 <= Z.log2 (Z.max 1 w).
Proof.
  intros Hw Hx.
  assert (Hhalf : 1 <= w / 2) by (apply Z.div_le_lower_bound; lia).
  assert (Hlog : Z.log2 (w / 2) = Z.log2 w - 1).
  { change (w / 2) with (w / 2 ^ 1). rewrite <- Z.shiftr_div_pow2 by lia.
    rewrite Z.log2_shiftr by lia.
    assert (1 <= Z.log2 w) by (change 1 with (Z.log2 2); apply Z.log2_le_mono; lia).
    lia. }
  rewrite (Z.max_r 1 w) by lia.
  assert (Z.log2 (Z.max 1 x) <= Z.log2 (w / 2)) by (apply Z.log2_le_mono; lia).
  lia.
Qed.

(** With enough nested calls the recursion limit is not hit. *)
Lemma fetch_range_enough last_page :
  (forall n sb eb page,
     eb - sb <= 1 -> last_page <= page -> ~ is_full offset (fetch_fn n sb eb page)) ->
  forall frames sb eb page acc,
    1 <= page -> (1 < eb - sb -> page = 1) ->
    (Z.log2 (Z.max 1 (eb - sb)) + Z.max 1 (last_page - page + 1) <= Z.of_nat frames) ->
    forall acc', fetch_range frames sb eb page acc <> Fault RecursionError acc'.
Proof.
  intros Hleaf.
  induction frames as [|frames IH]; intros sb eb page acc Hpage Hone Hframes acc'.
  { pose proof (Z.log2_nonneg (Z.max 1 (eb - sb))). lia. }
  simpl.
  destruct (fetch_fn (List.length (asked acc)) sb eb page) as [data|e] eqn:Hfetch;
    [|discriminate].
  destruct (status_not_1 data) eqn:Hstatus; [discriminate|].
  destruct (result data) as [[s|results|]|] eqn:Hresult; try discriminate.
  { destruct s; discriminate. }
  destruct results as [|tx0 results]; [discriminate|].
  destruct (len (tx0 :: results) =? offset) eqn:Hlen; [|discriminate].
  apply Z.eqb_eq in Hlen.
  destruct (1 <? eb - sb) eqn:Hsplit.
  - apply Z.ltb_lt in Hsplit. specialize (Hone Hsplit). subst page.
    assert (Hmid : (sb + eb) / 2 = sb + (eb - sb) / 2).
    { replace (sb + eb) with (sb * 2 + (eb - sb)) by lia.
      rewrite Z.div_add_l by lia. reflexivity. }
    assert (Hdm : (eb - sb) = 2 * ((eb - sb) / 2) + (eb - sb) mod 2)
      by (apply Z.div_mod; lia).
    pose proof (Z.mod_pos_bound (eb - sb) 2 ltac:(lia)) as Hmod.
    pose proof (log2_half (eb - sb) ((sb + eb) / 2 - sb) Hsplit ltac:(lia)) as H1.
    pose proof (log2_half (eb - sb) (eb - ((sb + eb) / 2 + 1)) Hsplit ltac:(lia)) as H2.
    pose proof (IH sb ((sb + eb) / 2) 1
                  (mkAcc (merge_txs (all_txs acc) (tx0 :: results))
                     (asked acc ++ [mkAsked sb eb 1]))
                  ltac:(lia) ltac:(reflexivity) ltac:(lia)) as Hfirst.
    destruct (fetch_range frames sb ((sb + eb) / 2) 1 _) as [acc2|e acc2].
    + apply IH; [lia|reflexivity|lia].
    + intros E. apply (Hfirst acc2). congruence.
  - apply Z.ltb_ge in Hsplit.
    destruct (Z.le_gt_cases last_page page) as [Hlast|Hlast].
    + exfalso. apply (Hleaf (List.length (asked acc)) sb eb page Hsplit Hlast).
      exists data, (tx0 :: results). repeat split; assumption.
    + apply IH; [lia|lia|].
      rewrite (Z.max_l 1 (eb - sb)) in * by lia. lia.
Qed.

(** X21: when no range of one or two blocks has a full page numbered
    [last_page] or more, [crawl_all_by_block_splitting] does not hit
    the recursion limit once that allows [log2(end_block - start_block)
    + last_page] nested calls, and allowing more changes neither the
    result nor the calls made. *)
Theorem splitting_ends_within_log_depth
    (last_page start_block end_block : Z) (frames : nat) :
  (forall n sb eb page,
     eb - sb <= 1 -> last_page <= page -> ~ is_full offset (fetch_fn n sb eb page)) ->
  (frames_for start_block end_block last_page <= frames)%nat ->
  (crawl_all_by_block_splitting frames start_block end_block).1 <> inr RecursionError /\
  crawl_all_by_block_splitting frames start_block end_block
  = crawl_all_by_block_splitting (frames_for start_block end_block last_page)
      start_block end_block.
Proof.
  intros Hleaf Hframes.
  assert (Hok : forall acc',
             fetch_range (frames_for start_block end_block last_page)
               start_block end_block 1 (mkAcc [] [])
             <> Fault RecursionError acc').
  { apply (fetch_range_enough last_page Hleaf); [lia|reflexivity|].
    unfold frames_for. pose proof (Z.log2_nonneg (Z.max 1 (end_block - start_block))).
    rewrite Z2Nat.id by lia. lia. }
  rewrite !crawl_all_unfold.
  rewrite (fetch_range_mono _ frames _ _ _ _ Hframes Hok).
  split; [|reflexivity].
  destruct (fetch_range (frames_for start_block end_block last_page)
              start_block end_block 1 (mkAcc [] [])) as [acc|e acc];
    [discriminate|].
  simpl. intros [= ->]. apply (Hok acc). reflexivity.
Qed.

End Splitting.

(** The theorem at work: three records in three blocks, two at a time. *)
Lemma splitting_result_sorted_and_unique_witness :
  exists txs,
    (crawl_all_by_block_splitting three_blocks 2 4 0 10).1 = inl txs /\
    len txs = 3 /\ StronglySorted block_le txs /\ NoDup (map hash txs).
Proof.
  assert (Hcall : crawl_all_by_block_splitting three_blocks 2 4 0 10
                  = (inl [tx_at "0xa1" 1 10; tx_at "0xa2" 2 20; tx_at "0xa3" 3 30],
                     (crawl_all_by_block_splitting three_blocks 2 4 0 10).2))
    by (vm_compute; reflexivity).
  destruct (splitting_result_sorted_and_unique three_blocks 2 4 0 10 _ _ Hcall)
    as (Hsorted & Hnodup & _).
  eexists. split; [rewrite Hcall; reflexivity|]. split; [reflexivity|].
  split; assumption.
Defined.

(** The theorem at work: one full page for each range, four nested
    calls for the blocks 0 to 4. *)
Lemma splitting_ends_within_log_depth_witness :
  (crawl_all_by_block_splitting one_full_page 2 4 0 4).1 <> inr RecursionError /\
  crawl_all_by_block_splitting one_full_page 2 9 0 4
  = crawl_all_by_block_splitting one_full_page 2 4 0 4.
Proof.
  assert (Hleaf : forall n sb eb page,
             eb - sb <= 1 -> 2 <= page -> ~ is_full 2 (one_full_page n sb eb page)).
  { intros n sb eb page _ Hpage (data & items & Hfetch & _ & Hresult & Hlen).
    unfold one_full_page in Hfetch.
    assert (Hp : (page =? 1) = false) by (apply Z.eqb_neq; lia).
    rewrite Hp in Hfetch. injection Hfetch as <-. simpl in Hresult.
    injection Hresult as <-. discriminate. }
  destruct (splitting_ends_within_log_depth one_full_page 2 2 0 4 9 Hleaf
              ltac:(vm_compute; lia)) as [Hok Hsame].
  split; [|exact Hsame].
  destruct (splitting_ends_within_log_depth one_full_page 2 2 0 4 4 Hleaf
              ltac:(vm_compute; lia)) as [Hok4 _].
  exact Hok4.
Defined.

(** The theorem at work: the same full page for ever. *)
Lemma splitting_full_answers_exhaust_recursion_witness :
  (crawl_all_by_block_splitting same_full_page 2 1000 0 10).1 = inr RecursionError.
Proof.
  apply (splitting_full_answers_exhaust_recursion same_full_page 2 1000 0 10).
  - discriminate.
  - intros n sb eb page. eexists _, _. repeat split; reflexivity.
Defined.

End SplittingProofs.

(** * Proofs: what a drain collects *)

Module PagesProofs.
Import Main MainSpec MoreSpec WindowProofs TraceProofs.

Section Drain.

Variable client_page : nat -> Query -> Reply (list Tx).
Variables (act : Action) (address : string) (start_blk end_blk page_size : Z)
          (pages_total : Z) (max_pages_int : option Z)
          (should_stop : option (World -> bool * World)) (min_window_blocks : Z).

(** The stop callback only reads and counts. *)
Hypothesis should_stop_reads :
  forall w, requests (call_should_stop should_stop w).2 = requests w.

Local Abbreviation fetch_page :=
  (fetch_page client_page act address start_blk end_blk page_size pages_total
     max_pages_int should_stop min_window_blocks).
Local Abbreviation fetch_loop :=
  (fetch_loop client_page act address start_blk end_blk page_size pages_total
     max_pages_int should_stop min_window_blocks).
Local Abbreviation fetch_window :=
  (fetch_window client_page act address start_blk end_blk page_size pages_total
     max_pages_int should_stop min_window_blocks).
Local Abbreviation query p := (mkQuery act address start_blk end_blk p page_size).
Local Abbreviation queries := (page_queries act address start_blk end_blk page_size).

(** The page the [i]-th request after [w] was answered with. *)
Local Abbreviation answered w p0 chunks :=
  (forall i chunk,
     nth_error chunks i = Some chunk ->
     client_page (List.length (requests w) + i) (query (p0 + Z.of_nat i))
     = Answer chunk).

(** What one turn of the drain adds to the records collected. *)
Lemma fetch_page_collects mp collected p0 w :
  match fetch_page mp collected p0 w with
  | NextPage c' p' w' =>
      exists chunk,
        client_page (List.length (requests w)) (query p0) = Answer chunk /\
        c' = (collected ++ chunk)%list /\ page_size <= len chunk /\
        p' = p0 + 1 /\ requests w' = (requests w ++ [query p0])%list
  | FetchEnd (Fetched r w') =>
      (window_txs r = collected /\ requests w' = requests w /\
       (paused_hit r = true \/ window_truncated r = true)) \/
      (exists chunk,
         client_page (List.length (requests w)) (query p0) = Answer chunk /\
         window_txs r = (collected ++ chunk)%list /\
         requests w' = (requests w ++ [query p0])%list /\
         (paused_hit r = true \/ cap_hit r = true \/ len chunk < page_size))
  | FetchEnd _ => True
  end.
Proof.
  unfold Main.fetch_page.
  pose proof (should_stop_reads w) as H1.
  destruct (call_should_stop should_stop w) as [s1 w1]. simpl in H1.
  destruct s1; [left; repeat split; auto|].
  destruct (match max_pages_int with Some m => m <? pages_total + p0 | None => false end);
    [left; repeat split; auto|].
  rewrite H1.
  destruct (client_page (List.length (requests w)) (query p0)) as [chunk|e] eqn:Hpage;
    [|exact I].
  pose proof (should_stop_reads (log_request (query p0) w1)) as H2.
  destruct (call_should_stop should_stop (log_request (query p0) w1)) as [s2 w2].
  simpl in H2. rewrite H1 in H2.
  destruct s2; [right; exists chunk; repeat split; auto|].
  destruct (len chunk <? page_size) eqn:Hshort.
  { apply Z.ltb_lt in Hshort. right. exists chunk. repeat split; auto. }
  apply Z.ltb_ge in Hshort.
  destruct (_ || _); [right; exists chunk; repeat split; auto|].
  exists chunk. repeat split; auto.
Qed.

(** The records a drain returns are the pages it was answered with, one
    after the other. *)
Lemma fetch_loop_collects fuel mp collected p0 w r w' :
  fetch_loop fuel mp collected p0 w = Fetched r w' ->
  exists chunks,
    window_txs r = (collected ++ concat chunks)%list /\
    requests w' = (requests w ++ queries p0 (List.length chunks))%list /\
    answered w p0 chunks /\
    (paused_hit r = false -> window_truncated r = false -> cap_hit r = false ->
     read_to_the_end page_size chunks).
Proof.
  revert collected p0 w.
  induction fuel as [|fuel IH]; intros collected p0 w; simpl; [discriminate|].
  pose proof (fetch_page_collects mp collected p0 w) as Hstep.
  destruct (fetch_page mp collected p0 w) as [c' p' w1|[r1 w1|e w1|]];
    [| |discriminate|discriminate].
  - destruct Hstep as (chunk & Hpage & -> & Hfull & -> & Hreq). intros Hend.
    destruct (IH _ _ _ Hend) as (chunks & Htxs & Hlog & Hans & Hshape).
    exists (chunk :: chunks). split; [|split; [|split]].
    + rewrite Htxs, <- app_assoc. reflexivity.
    + simpl. rewrite page_queries_S, Hlog, Hreq, <- app_assoc. reflexivity.
    + intros [|i] c Hc; simpl in Hc.
      * injection Hc as <-. rewrite Nat.add_0_r, Z.add_0_r. exact Hpage.
      * specialize (Hans i c Hc). rewrite Hreq, length_app in Hans. simpl in Hans.
        replace (List.length (requests w) + S i)%nat
          with (List.length (requests w) + 1 + i)%nat by lia.
        replace (p0 + Z.of_nat (S i)) with (p0 + 1 + Z.of_nat i) by lia.
        exact Hans.
    + intros Hp Ht Hc. destruct (Hshape Hp Ht Hc) as (front & short & -> & Hs & Hf).
      exists (chunk :: front), short. split; [reflexivity|]. split; [exact Hs|].
      constructor; assumption.
  - intros [= <- <-]. destruct Hstep as [(Htxs & Hreq & Hflag)|Hstep].
    + exists []. split; [rewrite Htxs; symmetry; apply app_nil_r|].
      split; [rewrite Hreq; symmetry; apply app_nil_r|].
      split; [intros [|i] c Hc; discriminate|].
      intros Hp Ht _. destruct Hflag; congruence.
    + destruct Hstep as (chunk & Hpage & Htxs & Hreq & Hflag).
      exists [chunk]. split; [simpl; rewrite app_nil_r; exact Htxs|].
      split; [simpl; rewrite page_queries_S; exact Hreq|]. split.
      * intros [|[|i]] c Hc; simpl in Hc; try discriminate.
        injection Hc as <-. rewrite Nat.add_0_r, Z.add_0_r. exact Hpage.
      * intros Hp _ Hc. exists [], chunk. split; [reflexivity|].
        split; [|constructor]. destruct Hflag as [H|[H|H]]; congruence.
Qed.

(** X22: the records a drain returns are the concatenation, in page
    order, of the answers to the page requests it made, each read from
    the upstream once.  A drain that ends with no flag raised has read
    on until a page shorter than [page_size], all pages before being
    full. *)
Theorem drain_collects_answered_pages (fuel : nat) (w : World) (r : WindowResult)
    (w' : World) :
  fetch_window fuel w = Fetched r w' ->
  exists chunks,
    window_txs r = concat chunks /\
    requests w' = (requests w ++ queries 1 (List.length chunks))%list /\
    answered w 1 chunks /\
    (paused_hit r = false -> window_truncated r = false -> cap_hit r = false ->
     read_to_the_end page_size chunks).
Proof.
  unfold Main.fetch_window. destruct (page_size =? 0); [discriminate|].
  intros Hloop. apply fetch_loop_collects in Hloop. exact Hloop.
Qed.

End Drain.

(** The theorem at work: with a budget of one page the drain of full
    pages returns the one page it read, of 50 records. *)
Lemma drain_collects_answered_pages_witness :
  exists chunks,
    window_txs drain_one_page.1 = concat chunks /\ List.length chunks = 1%nat.
Proof.
  assert (Hdrain : fetch_window full_pages txlist "0xabc" 0 100 50 0 (Some 1)
                     (Some (should_stop_check never_stop job_one_page))
                     MIN_WINDOW_BLOCKS 2 (tick_polls world0)
                   = Fetched drain_one_page.1 drain_one_page.2)
    by (vm_compute; reflexivity).
  destruct (drain_collects_answered_pages full_pages txlist "0xabc" 0 100 50 0
              (Some 1) (Some (should_stop_check never_stop job_one_page))
              MIN_WINDOW_BLOCKS (fun w => eq_refl) 2 (tick_polls world0)
              drain_one_page.1 drain_one_page.2 Hdrain)
    as (chunks & Htxs & Hreq & _).
  exists chunks. split; [exact Htxs|].
  destruct chunks as [|c1 [|c2 chunks]]; [vm_compute in Hreq; discriminate|reflexivity|].
  vm_compute in Hreq. discriminate.
Defined.

End PagesProofs.

(** * Proofs: the high-activity warning *)

Module WarningProofs.
Import Main MainSpec MoreSpec WindowProofs CrawlProofs FrameProofs IterationProofs
       RunProofs HistoryProofs.

Lemma flag_high_activity_kept cond reason job :
  high_activity job = true -> flag_high_activity cond reason job = job.
Proof. intros H. unfold flag_high_activity. rewrite H, andb_false_r. reflexivity. Qed.

Lemma warning_kept_refl job : warning_kept job job.
Proof. intros H. split; [exact H|reflexivity]. Qed.

Lemma warning_kept_trans job1 job2 job3 :
  warning_kept job1 job2 -> warning_kept job2 job3 -> warning_kept job1 job3.
Proof.
  intros H12 H23 H. destruct (H12 H) as [H2 R2]. destruct (H23 H2) as [H3 R3].
  split; congruence.
Qed.

Lemma fail_job_warning msg job : warning_kept job (fail_job msg job).
Proof. intros H. split; [exact H|reflexivity]. Qed.

Lemma pause_job_warning l job : warning_kept job (pause_job l job).
Proof.
  unfold warning_kept, pause_job. destruct job. simpl.
  destruct (last _); intros H; split; assumption || reflexivity.
Qed.

Section Loop.

Variable client_page : nat -> Query -> Reply (list Tx).
Variable stop_signal : nat -> bool.
Variable format_transaction : Tx -> string -> option string.

Local Abbreviation iteration := (iteration client_page stop_signal format_transaction).
Local Abbreviation crawl_loop := (crawl_loop client_page stop_signal format_transaction).

(** An iteration leaves a warning that is on as it is. *)
Lemma iteration_warning fuel latest l job w :
  match iteration fuel latest l job w with
  | Again _ job' _ => warning_kept job job'
  | Ends e => forall job', end_job e = Some job' -> warning_kept job job'
  end.
Proof.
  unfold Main.iteration, should_stop_check.
  destruct (stop_requested job || stop_signal (polls w)).
  { apply ends_job. apply pause_job_warning. }
  destruct (SAFETY_MAX_SEGMENTS <? cur_segment_num l + 1).
  { apply ends_job. apply fail_job_warning. }
  destruct (fetch_txlist_window _ _ _ _ _ _ _ _ _ _ _) as [r w1|e w1|];
    [| apply ends_job; apply warning_kept_refl | apply ends_job; exact I].
  destruct (paused_hit r). { apply ends_job. apply pause_job_warning. }
  destruct (window_truncated r). { apply ends_job. apply fail_job_warning. }
  destruct (cap_hit r).
  - destruct (cap_unresolvable r). { apply ends_job. apply fail_job_warning. }
    destruct (MIN_WINDOW_BLOCKS <? cur_window_blocks l);
      [|apply ends_job; apply fail_job_warning].
    intros H. rewrite flag_high_activity_kept by exact H.
    split; [exact H|reflexivity].
  - destruct (format_preview _ _ _).
    { apply ends_job. intros H. split; [exact H|reflexivity]. }
    intros H.
    match goal with
    | |- context [flag_high_activity ?c ?m (flag_high_activity ?c1 ?m1 ?j)] =>
        rewrite (flag_high_activity_kept c1 m1 j) by exact H;
        rewrite (flag_high_activity_kept c m j) by exact H
    end.
    split; [exact H|reflexivity].
Qed.

(** The loop keeps the warning, and turns it on for a narrow window. *)
Lemma crawl_loop_warning latest job0 fuel l job w :
  warning_kept job0 job ->
  (cur_window_blocks l <= 1000 -> high_activity job = true) ->
  narrow_window_flagged job ->
  forall job', end_job (crawl_loop fuel latest l job w) = Some job' ->
               warning_kept job0 job' /\ narrow_window_flagged job'.
Proof.
  intros Hkept Hcur Hjob.
  apply (crawl_loop_invariant client_page stop_signal format_transaction latest
           (fun l job w =>
              warning_kept job0 job /\
              (cur_window_blocks l <= 1000 -> high_activity job = true) /\
              narrow_window_flagged job)
           (fun e => forall job', end_job e = Some job' ->
                       warning_kept job0 job' /\ narrow_window_flagged job'));
    [| |intros ? [=]|split; [assumption|split; assumption]].
  - clear. intros fuel l job w (Hkept & Hcur & Hjob) _.
    pose proof (iteration_steps client_page stop_signal format_transaction
                  fuel latest l job w) as Hst.
    pose proof (iteration_warning fuel latest l job w) as Hw.
    destruct (iteration fuel latest l job w) as [l' job' w'|e].
    + split; [eapply warning_kept_trans; eassumption|].
      destruct Hst as (r & _ & _ & _ & _ & _ & _ & _ & _ & [H|H]).
      * destruct H as (_ & _ & _ & _ & _ & _ & _ & _ & _ & Hwb & Hflag).
        split; [exact Hflag|].
        unfold narrow_window_flagged. rewrite Hwb. intros Hn. apply Hw, Hjob, Hn.
      * destruct H as (_ & _ & Hl' & _ & _ & _ & _ & _ & Hwb & _ & _ & _ & Hflag).
        split.
        -- rewrite Hl'. intros Hn. apply Hflag. right.
           unfold MAX_WINDOW_BLOCKS in Hn.
           destruct (cur_window_blocks l <? 200000); lia.
        -- unfold narrow_window_flagged. rewrite Hwb. intros Hn. apply Hflag.
           right. exact Hn.
    + intros job' Hjob'. specialize (Hw job' Hjob').
      split; [eapply warning_kept_trans; eassumption|].
      destruct (Hst job' Hjob')
        as [(l0 & -> & _ & Hl0)|[(msg & ->)|[->|(r & w1 & _ & _ & ->)]]].
      * unfold narrow_window_flagged.
        destruct (pause_job_cursor l0 job) as (Hwb & _). rewrite Hwb, Hl0.
        intros Hn. apply Hw, Hcur, Hn.
      * exact Hjob.
      * exact Hjob.
      * exact Hjob.
  - clear. intros l job w (Hkept & _ & Hjob) _ job' [= <-]. split; assumption.
Qed.

End Loop.

Section Run.

Variable client_page : nat -> Query -> Reply (list Tx).
Variable get_latest_block : nat -> Reply Z.
Variable stop_signal : nat -> bool.
Variable uuid4 : nat -> string.
Variable format_transaction : Tx -> string -> option string.

Local Abbreviation crawl_loop := (crawl_loop client_page stop_signal format_transaction).
Local Abbreviation publish := (publish uuid4).
Local Abbreviation run_job :=
  (run_job client_page get_latest_block stop_signal uuid4 format_transaction).

Lemma publish_warning latest job st w :
  high_activity (publish latest job st w).1.1 = high_activity job /\
  high_activity_reason (publish latest job st w).1.1 = high_activity_reason job /\
  window_blocks (publish latest job st w).1.1 = window_blocks job.
Proof.
  unfold Main.publish.
  destruct (if CACHE_SIZE_LIMIT <? len _ then _ else _) as [cache ids].
  repeat split; reflexivity.
Qed.

(** X23: the high-activity warning is kept by a run: if it is on when
    the run starts, it is on afterwards, with the reason it had.  And a
    job whose window is at most 1000 blocks wide has the warning on:
    what holds of the job before a run holds after it. *)
Theorem run_keeps_high_activity_warning
    (fuel : nat) (job_id : string) (st : Store) (w : World) (job : Job)
    (latest : Z) (st' : Store) (w' : World) :
  JOBS st !! job_id = Some job ->
  narrow_window_flagged job ->
  get_latest_block (blocks w) = Answer latest ->
  run_job fuel job_id st w = Finished st' w' ->
  exists job',
    JOBS st' !! job_id = Some job' /\
    warning_kept job job' /\ narrow_window_flagged job'.
Proof.
  intros Hjob Hflag Hlatest Hrun.
  pose proof (run_job_ends _ _ _ _ _ _ _ _ _ _ _ _ _ Hjob Hlatest Hrun) as Hst.
  pose proof (crawl_loop_warning client_page stop_signal format_transaction latest job fuel
                (locals_of (started latest job)) (started latest job) (tick_blocks w)
                (warning_kept_refl job) Hflag Hflag) as Hloop.
  destruct (crawl_loop fuel latest _ _ _) as [j wj|j wj|j wj|str_e j wj|];
    [| | | |contradiction]; subst st'; destruct (Hloop j eq_refl) as [Hk Hn].
  - exists j. split; [apply store_job_lookup|]. split; assumption.
  - destruct (publish_warning latest j st wj) as (Hh & Hr & Hwb).
    eexists. split; [apply store_job_lookup|]. split.
    + intros H. destruct (Hk H). split; congruence.
    + unfold narrow_window_flagged. rewrite Hh, Hwb. exact Hn.
  - destruct (publish_warning latest j st wj) as (Hh & Hr & Hwb).
    eexists. split; [apply store_job_lookup|]. split.
    + intros H. destruct (Hk H). split; congruence.
    + unfold narrow_window_flagged. rewrite Hh, Hwb. exact Hn.
  - exists (except_Exception str_e j). split; [apply store_job_lookup|].
    split; [exact Hk|exact Hn].
Qed.

End Run.

(** The theorem at work: a job paused with its window reduced to 500
    blocks and the warning on keeps the warning, with its reason,
    through the run that completes it. *)
Lemma run_keeps_high_activity_warning_witness :
  exists job',
    JOBS run_flagged.1 !! "job1" = Some job' /\
    window_blocks job' <= 1000 /\ high_activity job' = true /\
    high_activity_reason job' = "Window reduced to 500 blocks due to Etherscan cap".
Proof.
  assert (Hjob : JOBS store_flagged !! "job1" = Some job_flagged)
    by (vm_compute; reflexivity).
  assert (Hrun : run_job two_txs (latest_is 100) never_stop uuid_of formats_all 50 "job1"
                   store_flagged world0
                 = Finished run_flagged.1 run_flagged.2)
    by (vm_compute; reflexivity).
  assert (Hflag : narrow_window_flagged job_flagged) by (intros _; reflexivity).
  destruct (run_keeps_high_activity_warning two_txs (latest_is 100) never_stop uuid_of
              formats_all 50 "job1" store_flagged world0 job_flagged 100
              run_flagged.1 run_flagged.2 Hjob Hflag eq_refl Hrun)
    as (job' & Hjob' & Hkept & Hn).
  destruct (Hkept eq_refl) as [Hon Hreason].
  exists job'. split; [exact Hjob'|]. split; [|split; [exact Hon|exact Hreason]].
  vm_compute in Hjob'. injection Hjob' as <-. vm_compute. discriminate.
Defined.

End WarningProofs.

(** * Proofs: the page count across a pause *)

Module PageCountProofs.
Import Main MainSpec MoreSpec WindowProofs CrawlProofs FrameProofs TraceProofs
       IterationProofs RunProofs HistoryProofs.

Section Loop.

Variable client_page : nat -> Query -> Reply (list Tx).
Variable stop_signal : nat -> bool.
Variable format_transaction : Tx -> string -> option string.

Local Abbreviation iteration := (iteration client_page stop_signal format_transaction).
Local Abbreviation crawl_loop := (crawl_loop client_page stop_signal format_transaction).

(** The page count an iteration hands on, or saves in a pause, covers
    the requests it made. *)
Lemma iteration_counts_pages fuel latest l job w :
  paused job = false ->
  match iteration fuel latest l job w with
  | Again l' job' w' =>
      paused job' = false /\
      requested w' - requested w <= cur_pages_total l' - cur_pages_total l
  | Ends (Returned j w') =>
      paused j = true ->
      requested w' - requested w <= pages_total j - cur_pages_total l
  | Ends _ => True
  end.
Proof.
  intros Hpa.
  pose proof (iteration_requests client_page stop_signal format_transaction
                fuel latest l job w) as Hreq.
  pose proof (iteration_cases client_page stop_signal format_transaction
                fuel latest l job w) as Hcs.
  revert Hreq Hcs.
  unfold Main.iteration, should_stop_check, seg_end_of.
  destruct (stop_requested job || stop_signal (polls w)).
  { intros _ _ _. destruct (pause_job_cursor l job) as (_ & -> & _).
    unfold requested. simpl. lia. }
  destruct (SAFETY_MAX_SEGMENTS <? cur_segment_num l + 1).
  { intros _ _. change (paused (fail_job safety_msg job)) with (paused job). congruence. }
  match goal with
  | |- context [fetch_txlist_window ?c ?ad ?s ?e ?p ?pt ?m ?ss ?mw fuel ?w0] =>
      pose proof (fetch_window_trace c txlist ad s e p pt m ss mw
                    (fun w => eq_refl) fuel w0) as Htrace;
      destruct (fetch_txlist_window c ad s e p pt m ss mw fuel w0)
        as [r w1|e1 w1|] eqn:Hfetch
  end; unfold fetch_txlist_window in Hfetch; rewrite Hfetch in Htrace;
    unfold fetch_world in Htrace; [| intros; exact I | intros; exact I].
  destruct (Htrace w1 eq_refl) as (n & Hn & _ & _ & Hused).
  specialize (Hused r eq_refl).
  assert (Hcount : requested w1 - requested w <= pages_used r).
  { apply requested_app in Hn. unfold len in Hn. rewrite page_queries_length in Hn.
    change (requested (tick_polls w)) with (requested w) in Hn. lia. }
  destruct (paused_hit r).
  { intros _ _ _.
    match goal with
    | |- context [pause_job ?l0 job] => destruct (pause_job_cursor l0 job) as (_ & -> & _)
    end.
    simpl. lia. }
  destruct (window_truncated r); [intros; exact I|].
  destruct (cap_hit r).
  - destruct (cap_unresolvable r).
    { intros _ _. match goal with
                  | |- paused (fail_job ?m job) = true -> _ =>
                      change (paused (fail_job m job)) with (paused job)
                  end. congruence. }
    destruct (MIN_WINDOW_BLOCKS <? cur_window_blocks l).
    + intros _ (_ & _ & _ & _ & Hpa' & _). split; [congruence|]. simpl. lia.
    + intros _ _. match goal with
                  | |- paused (fail_job ?m job) = true -> _ =>
                      change (paused (fail_job m job)) with (paused job)
                  end. congruence.
  - destruct (format_preview _ _ _); [intros; exact I|].
    intros _ (_ & _ & _ & _ & Hpa' & _). split; [congruence|]. simpl. lia.
Qed.

(** The page count a pause saves covers the requests of the run. *)
Lemma crawl_loop_counts_pages latest w0 p0 fuel l job w :
  paused job = false ->
  requested w - requested w0 <= cur_pages_total l - p0 ->
  match crawl_loop fuel latest l job w with
  | Returned j w' => paused j = true -> requested w' - requested w0 <= pages_total j - p0
  | _ => True
  end.
Proof.
  intros Hpa Hcount.
  apply (crawl_loop_invariant client_page stop_signal format_transaction latest
           (fun l job w =>
              paused job = false /\
              requested w - requested w0 <= cur_pages_total l - p0)
           (fun e =>
              match e with
              | Returned j w' =>
                  paused j = true -> requested w' - requested w0 <= pages_total j - p0
              | _ => True
              end));
    [| |exact I|split; assumption].
  - clear. intros fuel l job w (Hpa & Hcount) _.
    pose proof (iteration_counts_pages fuel latest l job w Hpa) as Hit.
    destruct (iteration fuel latest l job w) as [l' job' w'|e].
    + destruct Hit as [Hpa' Hit]. split; [exact Hpa'|lia].
    + destruct e as [j w'|j w'|j w'|str_e j w'|]; try exact I.
      intros Hp. specialize (Hit Hp). lia.
  - clear. intros. exact I.
Qed.

End Loop.

Section Run.

Variable client_page : nat -> Query -> Reply (list Tx).
Variable get_latest_block : nat -> Reply Z.
Variable stop_signal : nat -> bool.
Variable uuid4 : nat -> string.
Variable format_transaction : Tx -> string -> option string.

Local Abbreviation crawl_loop := (crawl_loop client_page stop_signal format_transaction).
Local Abbreviation publish := (publish uuid4).
Local Abbreviation run_job :=
  (run_job client_page get_latest_block stop_signal uuid4 format_transaction).

(** X24: the page count survives a pause: a run that leaves its job
    paused has raised [pages_total] by at least the number of page
    requests it made, so the page budget the job was created with
    bounds the requests of all its runs together, not of each. *)
Theorem paused_run_counts_its_pages
    (fuel : nat) (job_id : string) (st : Store) (w : World) (job : Job)
    (latest : Z) (st' : Store) (w' : World) :
  JOBS st !! job_id = Some job ->
  get_latest_block (blocks w) = Answer latest ->
  run_job fuel job_id st w = Finished st' w' ->
  exists job',
    JOBS st' !! job_id = Some job' /\
    max_pages_int job' = max_pages_int job /\
    (paused job' = true ->
     requested w' - requested w <= pages_total job' - pages_total job).
Proof.
  intros Hjob Hlatest Hrun.
  pose proof (run_job_ends _ _ _ _ _ _ _ _ _ _ _ _ _ Hjob Hlatest Hrun) as Hst.
  pose proof Hrun as Hworld.
  rewrite (run_job_unfold _ _ _ _ _ _ _ _ _ _ Hjob), Hlatest in Hworld.
  apply (EndpointProofs.finish_run_world uuid4) in Hworld as (w1 & Hw1 & Hreq).
  pose proof (crawl_loop_counts_pages client_page stop_signal format_transaction
                latest (tick_blocks w)
                (pages_total job) fuel (locals_of (started latest job))
                (started latest job) (tick_blocks w) eq_refl ltac:(simpl; lia)) as Hloop.
  pose proof (crawl_loop_rid client_page stop_signal format_transaction latest fuel
                (locals_of (started latest job)) (started latest job) (tick_blocks w)
                eq_refl) as Hrid.
  pose proof (crawl_loop_frame client_page stop_signal format_transaction fuel latest
                (locals_of (started latest job)) (started latest job) (tick_blocks w))
    as [Hcfg _].
  destruct (crawl_loop fuel latest _ _ _) as [j wj|j wj|j wj|str_e j wj|];
    [| | | |contradiction]; subst st';
    destruct (Hcfg j eq_refl) as (_ & _ & _ & _ & Hmax & _);
    change (max_pages_int (started latest job)) with (max_pages_int job) in Hmax.
  - exists j. split; [apply store_job_lookup|]. split; [exact Hmax|].
    intros Hp. specialize (Hloop Hp). injection Hw1 as <-.
    unfold requested in *. rewrite Hreq.
    change (requests (tick_blocks w)) with (requests w) in Hloop. exact Hloop.
  - destruct Hrid as [_ Hpa].
    destruct (publish_keeps uuid4 latest j st wj)
      as (_ & _ & _ & Hpa' & _).
    eexists. split; [apply store_job_lookup|]. split.
    + unfold Main.publish.
      destruct (if CACHE_SIZE_LIMIT <? len _ then _ else _) as [cache ids]. exact Hmax.
    + rewrite Hpa', Hpa. discriminate.
  - destruct Hrid as [_ Hpa].
    destruct (publish_keeps uuid4 latest j st wj)
      as (_ & _ & _ & Hpa' & _).
    eexists. split; [apply store_job_lookup|]. split.
    + unfold Main.publish.
      destruct (if CACHE_SIZE_LIMIT <? len _ then _ else _) as [cache ids]. exact Hmax.
    + rewrite Hpa', Hpa. discriminate.
  - destruct Hrid as [_ Hpa].
    exists (except_Exception str_e j). split; [apply store_job_lookup|].
    split; [exact Hmax|].
    change (paused (except_Exception str_e j)) with (paused j). rewrite Hpa. discriminate.
Qed.

End Run.

(** The theorem at work: a run interrupted during its first drain. *)
Lemma paused_run_counts_its_pages_witness :
  exists job',
    JOBS run_interrupted.1 !! "job1" = Some job' /\ paused job' = true /\
    requested run_interrupted.2 - requested world0 <= pages_total job' - 0.
Proof.
  assert (Hjob : JOBS store_one_page !! "job1" = Some job_one_page)
    by (vm_compute; reflexivity).
  assert (Hrun : run_job two_txs (latest_is 100) stop_after_first_check uuid_of formats_all 50
                   "job1" store_one_page world0
                 = Finished run_interrupted.1 run_interrupted.2)
    by (vm_compute; reflexivity).
  assert (Hpaused : paused <$> JOBS run_interrupted.1 !! "job1" = Some true)
    by (vm_compute; reflexivity).
  destruct (paused_run_counts_its_pages two_txs (latest_is 100) stop_after_first_check
              uuid_of formats_all 50 "job1" store_one_page world0 job_one_page 100
              run_interrupted.1 run_interrupted.2 Hjob eq_refl Hrun)
    as (job' & Hjob' & _ & Hcount).
  rewrite Hjob' in Hpaused. injection Hpaused as Hp.
  exists job'. split; [exact Hjob'|]. split; [exact Hp|]. apply Hcount, Hp.
Defined.

End PageCountProofs.

(** * Proofs: the jobs the server holds *)

Module SystemProofs.
Import Main MainSpec MoreSpec WindowProofs CrawlProofs FrameProofs IterationProofs
       RunProofs DictProofs HistoryProofs WarningProofs.

Section Loop.

Variable client_page : nat -> Query -> Reply (list Tx).
Variable stop_signal : nat -> bool.
Variable format_transaction : Tx -> string -> option string.

Local Abbreviation iteration := (iteration client_page stop_signal format_transaction).
Local Abbreviation crawl_loop := (crawl_loop client_page stop_signal format_transaction).

(** The job's cursor is the loop's, its window one the loop used.  When
    [format_transaction] ended the loop, the last segment starts at the
    cursor instead. *)
Lemma crawl_loop_cursor latest sb fuel l job w :
  start_block job = sb ->
  MIN_WINDOW_BLOCKS <= cur_window_blocks l <= MAX_WINDOW_BLOCKS ->
  MIN_WINDOW_BLOCKS <= window_blocks job <= MAX_WINDOW_BLOCKS ->
  chain sb (segments job) (cur_seg_start l) ->
  seg_start job = cur_seg_start l ->
  match crawl_loop fuel latest l job w with
  | LoopOutOfFuel => True
  | Raised _ j _ =>
      segments_to_cursor j /\
      MIN_WINDOW_BLOCKS <= window_blocks j <= MAX_WINDOW_BLOCKS
  | Returned j _ | Broke j _ | Exited j _ =>
      chain (start_block j) (segments j) (seg_start j) /\
      MIN_WINDOW_BLOCKS <= window_blocks j <= MAX_WINDOW_BLOCKS
  end.
Proof.
  intros Hsb Hcur Hwin Hch Hss.
  apply (crawl_loop_invariant client_page stop_signal format_transaction latest
           (fun l job w =>
              start_block job = sb /\
              (MIN_WINDOW_BLOCKS <= cur_window_blocks l <= MAX_WINDOW_BLOCKS) /\
              (MIN_WINDOW_BLOCKS <= window_blocks job <= MAX_WINDOW_BLOCKS) /\
              chain sb (segments job) (cur_seg_start l) /\
              seg_start job = cur_seg_start l)
           (fun e =>
              match e with
              | LoopOutOfFuel => True
              | Raised _ j _ =>
                  segments_to_cursor j /\
                  MIN_WINDOW_BLOCKS <= window_blocks j <= MAX_WINDOW_BLOCKS
              | Returned j _ | Broke j _ | Exited j _ =>
                  chain (start_block j) (segments j) (seg_start j) /\
                  MIN_WINDOW_BLOCKS <= window_blocks j <= MAX_WINDOW_BLOCKS
              end));
    [| |exact I|split; [assumption|split; [assumption|split; [assumption|
                       split; assumption]]]].
  - clear. intros fuel l job w (Hsb & Hcur & Hwin & Hch & Hss) Hcond.
    pose proof (iteration_steps client_page stop_signal format_transaction fuel latest
                  l job w) as Hst.
    pose proof (iteration_frame client_page stop_signal format_transaction fuel latest
                  l job w) as Hfr.
    pose proof (iteration_ends client_page stop_signal format_transaction fuel latest
                  l job w) as Hends.
    unfold MIN_WINDOW_BLOCKS, MAX_WINDOW_BLOCKS in *.
    destruct (iteration fuel latest l job w) as [l' job' w'|e].
    + destruct Hfr as [(_ & Hsb' & _) _].
      destruct Hst as (r & _ & _ & _ & _ & _ & _ & _ & _ & [H|H]).
      * destruct H as (_ & Hw1 & Hs & Hw & _ & _ & Hsegs & Hss' & _ & Hwb & _).
        rewrite Hs, Hw, Hsegs, Hss', Hwb. unfold MIN_WINDOW_BLOCKS.
        assert (cur_window_blocks l / 2 <= 200000)
          by (apply Z.div_le_upper_bound; lia).
        split; [congruence|]. split; [lia|]. split; [lia|]. split; assumption.
      * destruct H as (_ & Hs & Hw & _ & _ & Hsegs & Hss' & _ & Hwb & _).
        rewrite Hs, Hw, Hsegs, Hss', Hwb. unfold MAX_WINDOW_BLOCKS, seg_end_of.
        split; [congruence|].
        split; [destruct (cur_window_blocks l <? 200000); lia|].
        split; [lia|]. split; [|reflexivity].
        change (Z.min (cur_seg_start l + cur_window_blocks l - 1) latest + 1)
          with (s_end (mkSegment (cur_seg_start l)
                         (Z.min (cur_seg_start l + cur_window_blocks l - 1) latest)
                         (pages_used r) (len (window_txs r)) false) + 1).
        apply (chain_snoc _ _ (cur_seg_start l)); [assumption|reflexivity|simpl; lia].
    + assert (Hsame : chain (start_block job) (segments job) (seg_start job) /\
                      1 <= window_blocks job <= 200000)
        by (rewrite Hsb, Hss; split; assumption).
      destruct e as [j w'|j w'|j w'|str_e j w'|]; try exact I.
      * destruct Hends as [(l0 & -> & Hl0 & Hw0)|(msg & ->)]; [|exact Hsame].
        destruct (pause_job_keeps l0 job) as (Hsg & _ & _ & Hsb' & _ & _ & Hs0 & _).
        destruct (pause_job_cursor l0 job) as (Hwb & _).
        rewrite Hsg, Hsb', Hs0, Hwb, Hl0, Hw0, Hsb. split; assumption.
      * destruct Hends as (msg & ->). exact Hsame.
      * contradiction.
      * destruct Hends as [->|(r & ->)].
        -- split; [left; apply Hsame|apply Hsame].
        -- split; [|apply Hsame]. right.
           destruct (with_segment_keeps latest l r job)
             as (Hsg & _ & _ & Hsb' & _ & _ & Hs0 & _).
           eexists. split; [rewrite Hsg; apply last_snoc|].
           split; [simpl; congruence|].
           rewrite Hsg, Hsb', Hsb.
           apply (chain_snoc _ _ (cur_seg_start l)); [assumption|reflexivity|].
           simpl. unfold seg_end_of. lia.
  - clear. intros l job w (Hsb & _ & Hwin & Hch & Hss) _.
    rewrite Hsb, Hss. split; assumption.
Qed.

End Loop.

Section Run.

Variable client_page : nat -> Query -> Reply (list Tx).
Variable get_latest_block : nat -> Reply Z.
Variable stop_signal : nat -> bool.
Variable uuid4 : nat -> string.
Variable format_transaction : Tx -> string -> option string.

Local Abbreviation crawl_loop := (crawl_loop client_page stop_signal format_transaction).
Local Abbreviation publish := (publish uuid4).
Local Abbreviation finish_run := (finish_run uuid4).
Local Abbreviation run_job :=
  (run_job client_page get_latest_block stop_signal uuid4 format_transaction).

(** The keys of the job that publishing leaves alone. *)
Lemma publish_fields latest job st w :
  start_block (publish latest job st w).1.1 = start_block job /\
  segments (publish latest job st w).1.1 = segments job /\
  seg_start (publish latest job st w).1.1 = seg_start job /\
  seen_hashes (publish latest job st w).1.1 = seen_hashes job /\
  window_blocks (publish latest job st w).1.1 = window_blocks job /\
  page_size (publish latest job st w).1.1 = page_size job /\
  token_seen_hashes (publish latest job st w).1.1 = token_seen_hashes job /\
  high_activity (publish latest job st w).1.1 = high_activity job /\
  paused (publish latest job st w).1.1 = paused job /\
  done (publish latest job st w).1.1 = true /\
  running (publish latest job st w).1.1 = false /\
  JOBS (publish latest job st w).1.2 = JOBS st.
Proof.
  unfold Main.publish.
  destruct (if CACHE_SIZE_LIMIT <? len _ then _ else _) as [cache ids].
  repeat split; reflexivity.
Qed.

Lemma store_job_others job_id job st k :
  k <> job_id -> JOBS (store_job job_id job st) !! k = JOBS st !! k.
Proof. intros Hk. apply lookup_insert_ne. congruence. Qed.

(** A run of a job that is ready leaves it well formed, and every other
    job as it was. *)
Lemma run_job_well_formed fuel job_id st w job st' w' :
  JOBS st !! job_id = Some job -> ready job ->
  run_job fuel job_id st w = Finished st' w' ->
  (exists job', JOBS st' !! job_id = Some job' /\ well_formed job') /\
  (forall k, k <> job_id -> JOBS st' !! k = JOBS st !! k).
Proof.
  intros Hjob [Hch Hcov Hseen Hwin Hps Htok Hwarn] Hrun.
  destruct (get_latest_block (blocks w)) as [latest|str_e] eqn:Hlatest.
  2:{ rewrite (run_job_unfold _ _ _ _ _ _ _ _ _ _ Hjob), Hlatest in Hrun.
      injection Hrun as <- _. split; [|intros k Hk; apply store_job_others, Hk].
      eexists. split; [apply store_job_lookup|].
      constructor; try assumption; try reflexivity; try discriminate.
      - left. exact Hch.
      - intros _. exact Hch. }
  pose proof (run_job_ends _ _ _ _ _ _ _ _ _ _ _ _ _ Hjob Hlatest Hrun) as Hst.
  set (job0 := started latest job) in *.
  set (l0 := locals_of job0) in *.
  pose proof (crawl_loop_cursor client_page stop_signal format_transaction latest
                (start_block job) fuel l0 job0 (tick_blocks w) eq_refl Hwin Hwin Hch
                eq_refl) as Hcursor.
  pose proof (crawl_loop_tiles client_page stop_signal format_transaction latest
                (start_block job) (seg_start job) fuel l0 job0 (tick_blocks w)
                eq_refl eq_refl (proj1 Hwin) Hch ltac:(simpl; lia) Hcov) as Htiles.
  pose proof (crawl_loop_ends client_page stop_signal format_transaction fuel latest
                l0 job0 (tick_blocks w)) as Hends.
  pose proof (crawl_loop_rid client_page stop_signal format_transaction latest fuel
                l0 job0 (tick_blocks w) eq_refl) as Hrid.
  destruct (crawl_loop_frame client_page stop_signal format_transaction fuel latest
              l0 job0 (tick_blocks w)) as [Hcfg _].
  assert (Hacc0 : accumulated client_page stop_signal latest job job0).
  { exists [], []. split; [symmetry; apply app_nil_r|]. split; [constructor|reflexivity]. }
  pose proof (crawl_loop_accumulates client_page stop_signal format_transaction latest
                job fuel l0 job0 (tick_blocks w) ltac:(repeat split; reflexivity) Hacc0)
    as Hacc.
  pose proof (crawl_loop_warning client_page stop_signal format_transaction latest job
                fuel l0 job0 (tick_blocks w) (warning_kept_refl job) Hwarn Hwarn) as Hwn.
  assert (Hloop : forall j,
             end_job (crawl_loop fuel latest l0 job0 (tick_blocks w)) = Some j ->
             dict_wf (seen_hashes j) /\
             50 <= page_size j <= 500 /\ token_seen_hashes j = [] /\
             narrow_window_flagged j).
  { intros j Hj.
    destruct (Hcfg j Hj) as (_ & _ & _ & Hp & _ & _ & Ht).
    split; [eapply accumulated_wf; [exact Hseen|apply Hacc, Hj]|].
    split; [rewrite Hp; exact Hps|].
    split; [rewrite Ht; exact Htok|]. apply (Hwn j Hj). }
  clear Hcfg Hacc Hwn.
  destruct (crawl_loop fuel latest l0 job0 (tick_blocks w))
    as [j wj|j wj|j wj|str_e j wj|]; [| | | |contradiction]; subst st';
    destruct (Hloop j eq_refl) as (H2 & H4 & H5 & H6);
    destruct Hcursor as [H1 H3].
  - split; [|intros k Hk; apply store_job_others, Hk].
    exists j. split; [apply store_job_lookup|].
    destruct Hrid as [_ Hdp]. destruct Htiles as (next & _ & Hpaused).
    destruct Hends as [(Hp & Hd & Hr & _)|[(Hd & Hr & _)|(Hd & Hr & _)]].
    + constructor; try assumption; try (left; assumption);
        try (intros _; assumption).
      intros _. destruct (Hpaused Hp) as [-> Hc]. exact Hc.
    + constructor; try assumption; try congruence; try (left; assumption);
        try (intros _; assumption).
      intros Hp. rewrite (Hdp Hd) in Hp. discriminate.
    + constructor; try assumption; try congruence; try (left; assumption);
        try (intros _; assumption).
      intros Hp. rewrite (Hdp Hd) in Hp. discriminate.
  - destruct (publish_fields latest j st wj)
      as (P1 & P2 & P3 & P4 & P5 & P6 & P7 & P8 & P9 & P10 & P11 & P12).
    destruct Hrid as [_ Hpa].
    split; [|intros k Hk; rewrite store_job_others, P12 by exact Hk; reflexivity].
    eexists. split; [apply store_job_lookup|].
    constructor; try congruence;
      try (left; rewrite P1, P2, P3; exact H1);
      try (intros _; rewrite P1, P2, P3; exact H1).
    unfold narrow_window_flagged. rewrite P5, P8. exact H6.
  - destruct (publish_fields latest j st wj)
      as (P1 & P2 & P3 & P4 & P5 & P6 & P7 & P8 & P9 & P10 & P11 & P12).
    destruct Hrid as [_ Hpa].
    split; [|intros k Hk; rewrite store_job_others, P12 by exact Hk; reflexivity].
    eexists. split; [apply store_job_lookup|].
    constructor; try congruence;
      try (left; rewrite P1, P2, P3; exact H1);
      try (intros _; rewrite P1, P2, P3; exact H1).
    unfold narrow_window_flagged. rewrite P5, P8. exact H6.
  - destruct Hrid as [_ Hpa].
    split; [|intros k Hk; apply store_job_others, Hk].
    exists (except_Exception str_e j). split; [apply store_job_lookup|].
    constructor; try assumption; try reflexivity; try discriminate.
    + intros [Hd|He]; [discriminate Hd|].
      exfalso. apply (He str_e). reflexivity.
    + change (paused (except_Exception str_e j)) with (paused j). congruence.
Qed.

End Run.

(** ** Runs finish *)

Lemma crawl_fuel_created l :
  0 <= cur_segment_num l -> cur_window_blocks l <= MAX_WINDOW_BLOCKS ->
  (crawl_fuel l <= created_fuel)%nat.
Proof.
  intros Hsd Hwb. unfold crawl_fuel, created_fuel, SAFETY_MAX_SEGMENTS.
  assert (Hlog : Z.log2 (cur_window_blocks l) <= 17).
  { change 17 with (Z.log2 MAX_WINDOW_BLOCKS). apply Z.log2_le_mono. exact Hwb. }
  apply Z2Nat.inj_le; lia.
Qed.

Section Finish.

Variable client_page : nat -> Query -> Reply (list Tx).
Variable get_latest_block : nat -> Reply Z.
Variable stop_signal : nat -> bool.
Variable uuid4 : nat -> string.
Variable format_transaction : Tx -> string -> option string.

Local Abbreviation crawl_loop := (crawl_loop client_page stop_signal format_transaction).
Local Abbreviation finish_run := (finish_run uuid4).
Local Abbreviation run_job :=
  (run_job client_page get_latest_block stop_signal uuid4 format_transaction).
Local Abbreviation crawl_all_start_and_run :=
  (crawl_all_start_and_run client_page get_latest_block stop_signal uuid4 format_transaction).

Lemma finish_run_finishes job_id latest st e :
  e <> LoopOutOfFuel -> exists st' w', finish_run job_id latest st e = Finished st' w'.
Proof.
  destruct e as [j wj|j wj|j wj|str_e j wj|]; simpl; intros He; try congruence; eauto;
    destruct (Main.publish uuid4 latest j st wj) as [[j' s'] w1]; eauto.
Qed.

Lemma run_job_finishes fuel job_id st w job :
  JOBS st !! job_id = Some job ->
  0 < page_size job -> 0 <= segments_done job ->
  window_blocks job <= MAX_WINDOW_BLOCKS ->
  (created_fuel <= fuel)%nat ->
  exists st' w', run_job fuel job_id st w = Finished st' w'.
Proof.
  intros Hjob Hps Hsd Hwb Hfuel. rewrite (run_job_unfold _ _ _ _ _ _ _ _ _ _ Hjob).
  destruct (get_latest_block (blocks w)) as [latest|str_e]; [|eauto].
  apply finish_run_finishes.
  apply (crawl_loop_enough client_page stop_signal format_transaction); [exact Hps|].
  etransitivity; [|exact Hfuel]. apply crawl_fuel_created; assumption.
Qed.

(** X25: runs finish.  The thread of [run_job] started on a job with a
    positive page size, a window of at most 200000 blocks and a segment
    count that is not negative comes to its end within [created_fuel] =
    20019 turns of the crawl loop and page reads of a drain, for every
    upstream and every sequence of stop requests; so does every request
    to [crawl_all_start] together with the thread it starts. *)
Theorem runs_finish (fuel : nat) :
  (created_fuel <= fuel)%nat ->
  (forall job_id st w job,
     JOBS st !! job_id = Some job ->
     0 < page_size job -> 0 <= segments_done job ->
     window_blocks job <= MAX_WINDOW_BLOCKS ->
     exists st' w', run_job fuel job_id st w = Finished st' w') /\
  (forall cc address start_block it mp requested st w,
     exists st' w',
       crawl_all_start_and_run fuel cc address start_block it mp requested st w
       = Finished st' w').
Proof.
  intros Hfuel. split.
  - intros job_id st w job Hjob Hps Hsd Hwb. eapply run_job_finishes; eassumption.
  - intros cc address start_block it mp requested st w.
    unfold Main.crawl_all_start_and_run.
    destruct (crawl_all_start uuid4 cc address start_block it mp requested st w)
      as [[[msg|job_id] st1] w1] eqn:Hstart; [eauto|].
    apply EndpointProofs.crawl_all_start_creates in Hstart as [mpi Hjob].
    eapply run_job_finishes; [exact Hjob| | | |exact Hfuel].
    + pose proof (EndpointProofs.clamp_page_size_range requested) as [Hr _].
      simpl. lia.
    + simpl. lia.
    + simpl. lia.
Qed.

End Finish.

(** The theorem at work: the first request to the empty server. *)
Lemma runs_finish_witness :
  exists st' w',
    crawl_all_start_and_run two_txs (latest_is 100) never_stop uuid_of formats_all created_fuel
      true "0xabc" 0 false MaxPagesBlank 200 empty_store world0
    = Finished st' w'.
Proof.
  apply (proj2 (runs_finish two_txs (latest_is 100) never_stop uuid_of formats_all created_fuel
                  (le_n _))).
Defined.

(** ** The requests *)

Lemma new_job_ready address start_block it requested mpi :
  ready (new_job address start_block it (clamp_page_size requested) mpi).
Proof.
  constructor; simpl.
  - reflexivity.
  - reflexivity.
  - split; constructor.
  - unfold MIN_WINDOW_BLOCKS, MAX_WINDOW_BLOCKS. lia.
  - apply EndpointProofs.clamp_page_size_range.
  - reflexivity.
  - unfold narrow_window_flagged. simpl. unfold MAX_WINDOW_BLOCKS. lia.
Qed.

(** The jobs after [crawl_all_start]: the new one, and jobs that were
    there before. *)
Lemma crawl_all_start_jobs uuid4 cc address start_block it mp page_size st w res st1 w1 :
  crawl_all_start uuid4 cc address start_block it mp page_size st w = (res, st1, w1) ->
  match res with
  | inl _ => st1 = st
  | inr job_id =>
      exists mpi,
        JOBS st1 !! job_id
        = Some (new_job address start_block it (clamp_page_size page_size) mpi) /\
        forall k job, k <> job_id -> JOBS st1 !! k = Some job -> JOBS st !! k = Some job
  end.
Proof.
  unfold Main.crawl_all_start.
  destruct (negb (String.prefix "0x" address)); [intros [= <- <- _]; reflexivity|].
  destruct (start_block <? 0); [intros [= <- <- _]; reflexivity|].
  destruct (negb cc); [intros [= <- <- _]; reflexivity|].
  destruct (match mp with
            | MaxPagesBlank => inr None
            | MaxPagesInt n => if n <? 1 then inl "max_pages must be >= 1" else inr (Some n)
            | MaxPagesInvalid => inl "max_pages must be a valid number"
            end) as [e|mpi]; [intros [= <- <- _]; reflexivity|].
  destruct (JOBS_SIZE_LIMIT <? len (JOB_IDS st ++ [take_str 12 (uuid4 (uuids w))])).
  - destruct (pop0 (JOB_IDS st ++ [take_str 12 (uuid4 (uuids w))]))
      as [[oldest ids]|]; intros [= <- <- _]; exists mpi; cbn [JOBS];
      (split; [apply lookup_insert_eq|]); intros k job Hk;
      rewrite lookup_insert_ne by congruence; [|tauto].
    intros Hdel. apply lookup_delete_Some in Hdel. apply Hdel.
  - intros [= <- <- _]. exists mpi. cbn [JOBS].
    split; [apply lookup_insert_eq|]. intros k job Hk.
    rewrite lookup_insert_ne by congruence. tauto.
Qed.

(** [crawl_resume] turns a request down, or makes a paused job ready. *)
Lemma crawl_resume_ready job_id st res st1 :
  crawl_resume job_id st = (res, st1) ->
  match res with
  | inl _ => st1 = st
  | inr _ =>
      exists job job1,
        JOBS st !! job_id = Some job /\ st1 = store_job job_id job1 st /\
        (well_formed job -> ready job1)
  end.
Proof.
  unfold crawl_resume. destruct (JOBS st !! job_id) as [job|]; [|intros [= <- <-]; reflexivity].
  destruct (paused job) eqn:Hp; cbn [negb]; [|intros [= <- <-]; reflexivity].
  destruct (running job); [intros [= <- <-]; reflexivity|].
  destruct (done job) eqn:Hd; [intros [= <- <-]; reflexivity|].
  intros [= <- <-]. eexists _, _. split; [reflexivity|]. split; [reflexivity|].
  intros [_ Hch Hcov Hseen Hwin Hps Htok Hwarn _ _]. specialize (Hcov Hd).
  specialize (Hch (or_introl Hd)).
  destruct job. simpl in *. subst coverage_end0.
  replace (seg_start0 - 1 + 1) with seg_start0 by lia.
  constructor; simpl; try assumption. reflexivity.
Qed.

Lemma crawl_stop_well_formed job_id st res st1 :
  crawl_stop job_id st = (res, st1) ->
  forall k job, JOBS st1 !! k = Some job ->
    exists job0, JOBS st !! k = Some job0 /\ (well_formed job0 -> well_formed job).
Proof.
  unfold crawl_stop. destruct (JOBS st !! job_id) as [job0|] eqn:Hjob.
  - intros [= _ <-] k job. destruct (decide (k = job_id)) as [->|Hk].
    + rewrite store_job_lookup. intros [= <-]. exists job0. split; [exact Hjob|].
      intros [H0 H1 H2 H3 H4 H5 H6 H7 H8 H9]. constructor; assumption.
    + rewrite store_job_others by exact Hk. intros H. exists job. split; [exact H|tauto].
  - intros [= _ <-] k job H. exists job. split; [exact H|tauto].
Qed.

(** X26: between requests every job in the registry is well formed,
    whatever the upstream answers, whatever [format_transaction] raises
    and whenever stop requests arrive: its segments tile the blocks from
    [start_block] to the cursor [seg_start], or, in a job whose run an
    exception ended, to the end of a last segment that starts at the
    cursor; unless it is done, [coverage_end] is the block before the
    cursor; its accumulator holds no hash twice and each record
    under its own hash; its window is between 1 and 200000 blocks and
    its page size between 50 and 500; its token accumulator is empty;
    a window of at most 1000 blocks is flagged as high activity; and it
    is not running, nor paused and done at once. *)
Theorem served_jobs_well_formed (st : Store) :
  served st ->
  forall job_id job, JOBS st !! job_id = Some job -> well_formed job.
Proof.
  induction 1 as [|cp glb ss uuid4 fmt fuel cc address sb it mp ps st w st' w' Hserved
                   IH Hrun
                  |cp glb ss uuid4 fmt fuel job_id st w st' w' Hserved IH Hrun
                  |job_id st res st' Hserved IH Hstop];
    intros k job Hk.
  - change (JOBS empty_store) with (∅ : gmap string Job) in Hk.
    rewrite lookup_empty in Hk. discriminate.
  - unfold crawl_all_start_and_run in Hrun.
    destruct (crawl_all_start uuid4 cc address sb it mp ps st w)
      as [[[msg|new_id] st1] w1] eqn:Hstart;
      apply crawl_all_start_jobs in Hstart.
    + injection Hrun as <- _. subst st1. eapply IH, Hk.
    + destruct Hstart as (mpi & Hnew & Hold).
      destruct (run_job_well_formed cp glb ss uuid4 fmt fuel new_id st1 w1 _ st' w'
                  Hnew (new_job_ready _ _ _ _ _) Hrun) as [(job' & Hjob' & Hwf) Hothers].
      destruct (decide (k = new_id)) as [->|Hne].
      * rewrite Hjob' in Hk. injection Hk as <-. exact Hwf.
      * rewrite Hothers in Hk by exact Hne. eapply IH, Hold; eassumption.
  - unfold crawl_resume_and_run in Hrun.
    destruct (crawl_resume job_id st) as [[msg|ok] st1] eqn:Hresume;
      apply crawl_resume_ready in Hresume.
    + injection Hrun as <- _. subst st1. eapply IH, Hk.
    + destruct Hresume as (job0 & job1 & Hjob0 & -> & Hready).
      destruct (run_job_well_formed cp glb ss uuid4 fmt fuel job_id _ w job1 st' w'
                  (store_job_lookup _ _ _) (Hready (IH _ _ Hjob0)) Hrun)
        as [(job' & Hjob' & Hwf) Hothers].
      destruct (decide (k = job_id)) as [->|Hne].
      * rewrite Hjob' in Hk. injection Hk as <-. exact Hwf.
      * rewrite Hothers, store_job_others in Hk by exact Hne. eapply IH, Hk.
  - destruct (crawl_stop_well_formed _ _ _ _ Hstop k job Hk) as (job0 & Hjob0 & Hwf).
    apply Hwf. eapply IH, Hjob0.
Qed.

(** The theorem at work: the job of the first request served, when its
    run completes and when [format_transaction] ends it, the one
    segment recorded and the cursor still at block 0. *)
Lemma served_jobs_well_formed_witness :
  (exists job,
     JOBS served_once.1 !! "000000000000" = Some job /\ well_formed job) /\
  (exists job,
     JOBS served_late_record.1 !! "000000000000" = Some job /\
     well_formed job /\ seg_start job = 0 /\ segments job = [mkSegment 0 100 1 1 false]).
Proof.
  split.
  - assert (Hlook : exists job, JOBS served_once.1 !! "000000000000" = Some job)
      by (vm_compute; eexists; reflexivity).
    destruct Hlook as [job Hjob]. exists job. split; [exact Hjob|].
    assert (Hserved : served served_once.1).
    { apply (served_start two_txs (latest_is 100) never_stop uuid_of formats_all
               created_fuel true "0xabc" 0 false MaxPagesBlank 200 empty_store world0
               served_once.1 served_once.2 served_empty).
      vm_compute. reflexivity. }
    apply (served_jobs_well_formed _ Hserved "000000000000" job Hjob).
  - assert (Hlook : exists job,
               JOBS served_late_record.1 !! "000000000000" = Some job /\
               seg_start job = 0 /\ segments job = [mkSegment 0 100 1 1 false])
      by (vm_compute; eexists; repeat split).
    destruct Hlook as (job & Hjob & Hcursor & Hsegs). exists job.
    split; [exact Hjob|]. split; [|split; assumption].
    assert (Hserved : served served_late_record.1).
    { apply (served_start late_record (latest_is 100) never_stop uuid_of time_t_64
               created_fuel true "0xabc" 0 false MaxPagesBlank 200 empty_store world0
               served_late_record.1 served_late_record.2 served_empty).
      vm_compute. reflexivity. }
    apply (served_jobs_well_formed _ Hserved "000000000000" job Hjob).
Defined.

End SystemProofs.

(** * Proofs: how a run ends *)

Module OutcomeProofs.
Import Main MainSpec MoreSpec WindowProofs CrawlProofs FrameProofs IterationProofs
       RunProofs HistoryProofs.

(** ** A drain stopped by the page budget *)

Lemma fetch_page_truncated client_page act address start_blk end_blk page_size
    pages_total max_pages_int should_stop min_window_blocks mp collected current_page
    w r w' :
  fetch_page client_page act address start_blk end_blk page_size pages_total
    max_pages_int should_stop min_window_blocks mp collected current_page w
  = FetchEnd (Fetched r w') ->
  window_truncated r = true ->
  paused_hit r = false /\ cap_hit r = false /\ exists m, max_pages_int = Some m.
Proof.
  unfold Main.fetch_page.
  destruct (call_should_stop should_stop w) as [stop1 w1].
  destruct stop1; [intros [= <- <-]; discriminate|].
  destruct max_pages_int as [m|].
  - destruct (m <? pages_total + current_page).
    + intros [= <- <-] _. repeat split. exists m. reflexivity.
    + destruct (client_page _ _) as [chunk|e]; [|discriminate].
      destruct (call_should_stop should_stop _) as [stop2 w2].
      destruct stop2; [intros [= <- <-]; discriminate|].
      destruct (len chunk <? page_size); [intros [= <- <-]; discriminate|].
      destruct (_ || _); [intros [= <- <-]; discriminate|discriminate].
  - destruct (client_page _ _) as [chunk|e]; [|discriminate].
    destruct (call_should_stop should_stop _) as [stop2 w2].
    destruct stop2; [intros [= <- <-]; discriminate|].
    destruct (len chunk <? page_size); [intros [= <- <-]; discriminate|].
    destruct (_ || _); [intros [= <- <-]; discriminate|discriminate].
Qed.

Lemma fetch_loop_truncated client_page act address start_blk end_blk page_size
    pages_total max_pages_int should_stop min_window_blocks fuel mp collected
    current_page w r w' :
  fetch_loop client_page act address start_blk end_blk page_size pages_total
    max_pages_int should_stop min_window_blocks fuel mp collected current_page w
  = Fetched r w' ->
  window_truncated r = true ->
  paused_hit r = false /\ cap_hit r = false /\ exists m, max_pages_int = Some m.
Proof.
  revert collected current_page w.
  induction fuel as [|fuel IH]; intros collected current_page w; simpl; [discriminate|].
  destruct (fetch_page _ _ _ _ _ _ _ _ _ _ _ _ _ _) as [c p w1|f] eqn:Hstep.
  - apply IH.
  - intros ->. eapply fetch_page_truncated, Hstep.
Qed.

Lemma fetch_window_truncated client_page act address start_blk end_blk page_size
    pages_total max_pages_int should_stop min_window_blocks fuel w r w' :
  fetch_window client_page act address start_blk end_blk page_size pages_total
    max_pages_int should_stop min_window_blocks fuel w
  = Fetched r w' ->
  window_truncated r = true ->
  paused_hit r = false /\ cap_hit r = false /\ exists m, max_pages_int = Some m.
Proof.
  unfold Main.fetch_window. destruct (page_size =? 0); [discriminate|].
  apply fetch_loop_truncated.
Qed.

Section Loop.

Variable client_page : nat -> Query -> Reply (list Tx).
Variable stop_signal : nat -> bool.
Variable format_transaction : Tx -> string -> option string.

Local Abbreviation iteration := (iteration client_page stop_signal format_transaction).
Local Abbreviation crawl_loop := (crawl_loop client_page stop_signal format_transaction).
Local Abbreviation reaches_drain := (reaches_drain client_page stop_signal).
Local Abbreviation turns_to := (turns_to client_page stop_signal format_transaction).
Local Abbreviation cap_at_minimum := (cap_at_minimum client_page stop_signal).
Local Abbreviation drain fuel latest l job w :=
  (fetch_txlist_window client_page (address job) (cur_seg_start l)
     (seg_end_of latest l) (page_size job) (cur_pages_total l) (max_pages_int job)
     (Some (should_stop_check stop_signal job)) MIN_WINDOW_BLOCKS fuel (tick_polls w)).

(** The turns of the loop are turns of [crawl_loop]. *)
Lemma crawl_loop_turns latest fuel l job w fuel' l' job' w' :
  turns_to latest fuel l job w fuel' l' job' w' ->
  crawl_loop fuel latest l job w = crawl_loop fuel' latest l' job' w'.
Proof.
  induction 1 as [|fuel l job w l1 job1 w1 fuel' l' job' w' Hcond Hstep _ IH];
    [reflexivity|].
  simpl. apply Z.leb_le in Hcond. rewrite Hcond, Hstep. exact IH.
Qed.

(** A drain that reports [truncated] makes the loop [break]. *)
Lemma crawl_loop_truncated fuel latest l job w r w' :
  reaches_drain fuel latest l job w r w' ->
  window_truncated r = true ->
  crawl_loop (S fuel) latest l job w = Broke (fail_job max_pages_msg job) w'.
Proof.
  intros Hreach Htrunc.
  destruct (crawl_loop_drained client_page stop_signal format_transaction
              _ _ _ _ _ _ _ Hreach) as [Hloop _].
  destruct Hreach as (Hcond & Hstop & Hsafe & Hfetch).
  destruct (fetch_window_truncated _ _ _ _ _ _ _ _ _ _ _ _ _ _ Hfetch Htrunc)
    as (Hpause & _).
  rewrite Hloop. unfold Main.iteration, should_stop_check in *. rewrite Hstop.
  apply Z.ltb_ge in Hsafe. rewrite Hsafe.
  unfold seg_end_of in *. rewrite Hfetch, Hpause, Htrunc. reflexivity.
Qed.

(** Why an iteration leaves the loop by [return] or [break], and what an
    iteration that goes round again does to the cursor and the count. *)
Lemma iteration_endings fuel latest l job w :
  match iteration fuel latest l job w with
  | Again l' job' _ =>
      (seg_start job = cur_seg_start l -> seg_start job' = cur_seg_start l') /\
      (segments_done job = cur_segment_num l ->
       segments_done job' = cur_segment_num l') /\
      cur_segment_num l' <= SAFETY_MAX_SEGMENTS
  | Ends (Returned j _) =>
      (exists l0, j = pause_job l0 job) \/
      (j = fail_job safety_msg job /\ SAFETY_MAX_SEGMENTS < cur_segment_num l + 1) \/
      (j = fail_job (cap_unresolvable_msg (cur_window_blocks l)) job /\
       exists r w',
         drain fuel latest l job w = Fetched r w' /\ cap_hit r = true /\
         seg_end_of latest l - cur_seg_start l + 1 <= MIN_WINDOW_BLOCKS)
  | Ends (Broke j _) =>
      j = fail_job max_pages_msg job /\ exists m, max_pages_int job = Some m
  | Ends _ => True
  end.
Proof.
  unfold Main.iteration, should_stop_check, seg_end_of.
  destruct (stop_requested job || stop_signal (polls w)).
  { left. exists l. reflexivity. }
  destruct (SAFETY_MAX_SEGMENTS <? cur_segment_num l + 1) eqn:Hsafe.
  { right; left. apply Z.ltb_lt in Hsafe. split; [reflexivity|exact Hsafe]. }
  apply Z.ltb_ge in Hsafe.
  destruct (fetch_txlist_window _ _ _ _ _ _ _ _ _ _ _) as [r w1|e w1|] eqn:Hfetch;
    [| exact I | exact I].
  destruct (paused_hit r). { left. eexists. reflexivity. }
  destruct (window_truncated r) eqn:Htrunc.
  { split; [reflexivity|].
    eapply fetch_window_truncated; [exact Hfetch|exact Htrunc]. }
  pose proof Hfetch as Hflags. apply fetch_window_flags in Hflags as [Hun _].
  destruct (cap_hit r) eqn:Hcap.
  - simpl in Hun. rewrite Hun.
    destruct (_ <=? MIN_WINDOW_BLOCKS) eqn:Hwin.
    { right; right. apply Z.leb_le in Hwin. split; [reflexivity|].
      exists r, w1. split; [reflexivity|]. split; [exact Hcap|exact Hwin]. }
    apply Z.leb_gt in Hwin. unfold MIN_WINDOW_BLOCKS in *.
    assert (Hwb : 1 < cur_window_blocks l) by lia.
    apply Z.ltb_lt in Hwb as Hwb'. rewrite Hwb'.
    split; [|split].
    + intros Hs. job_fields.
    + intros Hn. cbn [cur_segment_num]. rewrite <- Hn.
      replace (segments_done job + 1 - 1) with (segments_done job) by lia.
      job_fields.
    + cbn [cur_segment_num]. lia.
  - destruct (format_preview _ _ _); [exact I|].
    split; [|split].
    + intros _. job_fields.
    + intros _. job_fields.
    + cbn [cur_segment_num]. lia.
Qed.

(** Why the loop is left by [return] or [break], and where the cursor
    is when its condition turns false. *)
Lemma crawl_loop_endings latest job0 fuel l job w :
  same_config job0 job ->
  seg_start job = cur_seg_start l ->
  segments_done job = cur_segment_num l ->
  match crawl_loop fuel latest l job w with
  | Returned j _ =>
      (paused j = true /\ done j = false /\ running j = false /\ error j = None) \/
      (done j = true /\ running j = false /\ error j = Some safety_msg /\
       SAFETY_MAX_SEGMENTS <= segments_done j /\
       (cur_segment_num l <= SAFETY_MAX_SEGMENTS ->
        segments_done j = SAFETY_MAX_SEGMENTS)) \/
      (done j = true /\ running j = false /\
       exists window_blocks,
         error j = Some (cap_unresolvable_msg window_blocks) /\
         cap_at_minimum latest job0 window_blocks)
  | Broke j _ => exists m, max_pages_int j = Some m
  | Exited j _ => latest < seg_start j
  | Raised _ _ _ | LoopOutOfFuel => True
  end.
Proof.
  intros Hcfg Hss Hsd.
  apply (crawl_loop_invariant client_page stop_signal format_transaction latest
           (fun l1 job1 w1 =>
              same_config job0 job1 /\ seg_start job1 = cur_seg_start l1 /\
              segments_done job1 = cur_segment_num l1 /\
              (cur_segment_num l <= SAFETY_MAX_SEGMENTS ->
               cur_segment_num l1 <= SAFETY_MAX_SEGMENTS))
           (fun e =>
              match e with
              | Returned j _ =>
                  (paused j = true /\ done j = false /\ running j = false
                   /\ error j = None) \/
                  (done j = true /\ running j = false /\ error j = Some safety_msg /\
                   SAFETY_MAX_SEGMENTS <= segments_done j /\
                   (cur_segment_num l <= SAFETY_MAX_SEGMENTS ->
                    segments_done j = SAFETY_MAX_SEGMENTS)) \/
                  (done j = true /\ running j = false /\
                   exists window_blocks,
                     error j = Some (cap_unresolvable_msg window_blocks) /\
                     cap_at_minimum latest job0 window_blocks)
              | Broke j _ => exists m, max_pages_int j = Some m
              | Exited j _ => latest < seg_start j
              | Raised _ _ _ | LoopOutOfFuel => True
              end));
    [| |exact I|split; [assumption|split; [assumption|split; [assumption|tauto]]]].
  - clear Hcfg Hss Hsd. intros fuel1 l1 job1 w1 (Hcfg & Hss & Hsd & Hbound) _.
    pose proof (iteration_endings fuel1 latest l1 job1 w1) as Hend.
    pose proof (iteration_frame client_page stop_signal format_transaction fuel1 latest
                  l1 job1 w1) as Hfr.
    pose proof (iteration_cases client_page stop_signal format_transaction fuel1 latest
                  l1 job1 w1) as Hcs.
    destruct (iteration fuel1 latest l1 job1 w1) as [l' job' w'|e].
    + destruct Hfr as [Hcfg' _]. destruct Hend as (Hs' & Hn' & Hb').
      split; [eapply same_config_trans; eassumption|].
      split; [apply Hs', Hss|]. split; [apply Hn', Hsd|]. intros _. exact Hb'.
    + destruct e as [j w'|j w'|j w'|str_e j w'|]; try exact I.
      * destruct Hend as [(l0 & ->)|[(-> & Hsafe)|(-> & r & w2 & Hfetch & Hcap & Hwin)]].
        -- left. destruct (pause_job_keeps l0 job1) as (_ & _ & _ & _ & Hp & Hd & _).
           destruct (pause_job_cursor l0 job1) as (_ & _ & _ & Hr & He).
           repeat split; assumption.
        -- right; left.
           change (segments_done (fail_job safety_msg job1)) with (segments_done job1).
           split; [reflexivity|]. split; [reflexivity|]. split; [reflexivity|].
           split; [lia|]. intros Hle. specialize (Hbound Hle). lia.
        -- right; right. split; [reflexivity|]. split; [reflexivity|].
           exists (cur_window_blocks l1). split; [reflexivity|].
           exists fuel1, l1, job1, w1, r, w2. repeat split; try assumption; apply Hcfg.
      * destruct Hend as (-> & m & Hm). exists m. exact Hm.
      * contradiction.
  - clear Hcfg Hss Hsd. intros l1 job1 w1 (_ & Hss & _) Hcond. lia.
Qed.

End Loop.

Section Run.

Variable client_page : nat -> Query -> Reply (list Tx).
Variable get_latest_block : nat -> Reply Z.
Variable stop_signal : nat -> bool.
Variable uuid4 : nat -> string.
Variable format_transaction : Tx -> string -> option string.

Local Abbreviation crawl_loop := (crawl_loop client_page stop_signal format_transaction).
Local Abbreviation reaches_drain := (reaches_drain client_page stop_signal).
Local Abbreviation turns_to := (turns_to client_page stop_signal format_transaction).
Local Abbreviation cap_at_minimum := (cap_at_minimum client_page stop_signal).
Local Abbreviation publish := (publish uuid4).
Local Abbreviation finish_run := (finish_run uuid4).
Local Abbreviation run_job :=
  (run_job client_page get_latest_block stop_signal uuid4 format_transaction).

(** What [finish_run] makes of a loop left by [break] or by its
    condition: the published job in the published registry. *)
Lemma finish_run_publishes job_id latest st j wj :
  finish_run job_id latest st (Broke j wj)
  = Finished (store_job job_id (publish latest j st wj).1.1 (publish latest j st wj).1.2)
      (publish latest j st wj).2 /\
  finish_run job_id latest st (Exited j wj)
  = Finished (store_job job_id (publish latest j st wj).1.1 (publish latest j st wj).1.2)
      (publish latest j st wj).2.
Proof.
  unfold Main.finish_run.
  destruct (Main.publish uuid4 latest j st wj) as [[j' s'] w1]. split; reflexivity.
Qed.

Lemma published_job latest j st wj :
  published latest st
    (store_job "" (publish latest j st wj).1.1 (publish latest j st wj).1.2)
    (publish latest j st wj).1.1.
Proof.
  destruct (publish_keeps uuid4 latest j st wj)
    as (_ & _ & _ & _ & _ & _ & _ & Hres & Hid & Htot & Hcache).
  exists (uuid_str (uuid4 (uuids wj))). split; [exact Hid|].
  split; [|congruence]. intros Hnew. rewrite Hres. apply Hcache, Hnew.
Qed.

(** C5 (amended): whenever a drain of a run reports [truncated], the
    loop is left by [break] and the run ends with the job in the
    registry marked done and not running, the status "Stopped due to
    max_pages limit" recorded in its [error] field; nothing of the
    truncated window is merged or recorded as a segment.  The run then
    publishes what the completed segments collected: the records,
    sorted, and the segments are stored in the result cache under a new
    result id, which the job names in [rid]; here the id is one the
    cache does not list yet. *)
Theorem budget_stop_breaks_and_publishes
    (fuel fuel' : nat) (job_id : string) (st : Store) (w : World) (job : Job)
    (latest : Z) (l' : Locals) (job' : Job) (w1 : World) (r : WindowResult)
    (w2 : World) :
  JOBS st !! job_id = Some job ->
  get_latest_block (blocks w) = Answer latest ->
  turns_to latest fuel (locals_of (started latest job)) (started latest job)
    (tick_blocks w) (S fuel') l' job' w1 ->
  reaches_drain fuel' latest l' job' w1 r w2 ->
  window_truncated r = true ->
  ~ In (uuid_str (uuid4 (uuids w2))) (RESULT_IDS st) ->
  exists st' w' job_end entry,
    run_job fuel job_id st w = Finished st' w' /\
    JOBS st' !! job_id = Some job_end /\
    running job_end = false /\ done job_end = true /\
    error job_end = Some "Stopped due to max_pages limit" /\
    rid job_end = Some (uuid_str (uuid4 (uuids w2))) /\
    seen_hashes job_end = seen_hashes job' /\
    segments job_end = segments job' /\
    RESULTS_CACHE st' !! uuid_str (uuid4 (uuids w2)) = Some entry /\
    eth_txs entry = sorted (dict_values (seen_hashes job')) /\
    r_segments entry = segments job'.
Proof.
  intros Hjob Hlatest Hturns Hreach Htrunc Hfresh.
  rewrite (run_job_unfold _ _ _ _ _ _ _ _ _ _ Hjob), Hlatest.
  rewrite (crawl_loop_turns _ _ _ _ _ _ _ _ _ _ _ _ Hturns).
  rewrite (crawl_loop_truncated _ _ _ _ _ _ _ _ _ _ Hreach Htrunc).
  rewrite (proj1 (finish_run_publishes job_id latest st
                    (fail_job max_pages_msg job') w2)).
  destruct (publish_keeps uuid4 latest (fail_job max_pages_msg job') st w2)
    as (Hsg & Hsn & _ & _ & Herr & Hd & Hr & Hres & Hid & _ & Hcache).
  eexists _, _, _, (result_of latest (fail_job max_pages_msg job')).
  split; [reflexivity|]. split; [apply store_job_lookup|].
  split; [exact Hr|]. split; [exact Hd|]. split; [exact Herr|].
  split; [exact Hid|]. split; [exact Hsn|]. split; [exact Hsg|].
  split; [apply Hcache, Hfresh|]. split; reflexivity.
Qed.


End Run.

(** ** The theorems at work *)

Lemma reaches_drain_two_txs :
  reaches_drain two_txs never_stop 1 100 (locals_of job_500) job_500 world0
    drain_two_txs.1 drain_two_txs.2.
Proof. repeat split; vm_compute; congruence. Defined.

(** X27 at work: two transactions upstream, so the first window
    [0 .. 100] is complete; its segment is recorded with its two
    records, and the loop goes on from block 101. *)
Lemma crawl_iteration_adapts_window_witness :
  exists job',
    crawl_loop two_txs never_stop formats_all 2 100 (locals_of job_500) job_500 world0
    = crawl_loop two_txs never_stop formats_all 1 100
        (mkLocals (seg_end_of 100 (locals_of job_500) + 1)
           (Z.min (200000 * 2) MAX_WINDOW_BLOCKS) (0 + pages_used drain_two_txs.1)
           (0 + 1)) job' drain_two_txs.2 /\
    segments job' = [mkSegment 0 100 1 2 false] /\ seg_start job' = 101.
Proof.
  destruct (proj1 (proj2 (crawl_iteration_adapts_window two_txs never_stop formats_all
                            1 100 (locals_of job_500) job_500 world0 drain_two_txs.1
                            drain_two_txs.2 reaches_drain_two_txs eq_refl eq_refl
                            ltac:(vm_compute; congruence))) eq_refl eq_refl)
    as (job' & Hloop & _ & Hsegs & _ & Hstart & _).
  exists job'. split; [exact Hloop|]. split; [exact Hsegs|exact Hstart].
Defined.

(** C2 fails on a record that [format_transaction] cannot format.  The
    first request to the empty server, for the blocks 0 to 100, drains
    the window completely; its one record is stamped with the second
    2^63, on which [datetime.utcfromtimestamp] raises [OverflowError].
    The run ends failed with the segment appended and the record
    merged, but the cursor still at block 0, no segment counted, no
    coverage and no result. *)
Theorem unformattable_record_fails_run :
  match JOBS served_late_record.1 !! "000000000000" with
  | Some job =>
      segments job = [mkSegment 0 100 1 1 false] /\
      dict_keys (seen_hashes job) = ["0xdd"] /\
      seg_start job = 0 /\ segments_done job = 0 /\
      coverage_end job = Some (-1) /\
      running job = false /\ done job = true /\
      error job = Some "Error: timestamp out of range for platform time_t" /\
      rid job = None
  | None => False
  end /\
  RESULT_IDS served_late_record.1 = [].
Proof. vm_compute. repeat split. Qed.

Lemma reaches_drain_budget :
  reaches_drain full_pages never_stop 2 100 (locals_of (started 100 job_one_page))
    (started 100 job_one_page) (tick_blocks world0) drain_budget.1 drain_budget.2.
Proof. repeat split; vm_compute; congruence. Defined.

(** The theorem at work: the second page would exceed the budget of one,
    so the run of the fresh job ends done, with the budget message as
    its error and its result, empty, under a new id. *)
Lemma budget_stop_breaks_and_publishes_witness :
  exists st' w' job_end entry,
    run_job full_pages (latest_is 100) never_stop uuid_of formats_all 3 "job1"
      store_one_page world0
    = Finished st' w' /\
    JOBS st' !! "job1" = Some job_end /\
    done job_end = true /\ error job_end = Some "Stopped due to max_pages limit" /\
    rid job_end = Some (uuid_str (uuid_of 0)) /\
    RESULTS_CACHE st' !! uuid_str (uuid_of 0) = Some entry /\
    eth_txs entry = [].
Proof.
  assert (Hjob : JOBS store_one_page !! "job1" = Some job_one_page)
    by (vm_compute; reflexivity).
  destruct (budget_stop_breaks_and_publishes full_pages (latest_is 100) never_stop
              uuid_of formats_all 3 2 "job1" store_one_page world0 job_one_page 100
              (locals_of (started 100 job_one_page)) (started 100 job_one_page)
              (tick_blocks world0) drain_budget.1 drain_budget.2
              Hjob eq_refl (turns_here _ _ _ _ _ _ _ _) reaches_drain_budget eq_refl
              ltac:(simpl; tauto))
    as (st' & w' & job_end & entry & Hrun & Hend & _ & Hd & He & Hrid & _ & _
        & Hentry & Htxs & _).
  exists st', w', job_end, entry. repeat split; assumption.
Defined.

(** C5, as the specification states it, fails: a job whose budget of one
    page runs out ends with the budget message in its [error] field. *)
Lemma budget_stop_records_error :
  match run_job full_pages (latest_is 100) never_stop uuid_of formats_all 100 "job1"
          store_one_page world0 with
  | Finished st _ =>
      match JOBS st !! "job1" with
      | Some job =>
          done job = true /\ error job = Some "Stopped due to max_pages limit"
          /\ error job <> None
      | None => False
      end
  | _ => False
  end.
Proof. vm_compute. repeat split. discriminate. Qed.


(** With every page full even on the single block 0, that run ends with
    the cap declared unresolvable. *)
Example always_full_is_unresolvable :
  match crawl_loop full_pages never_stop formats_all (crawl_fuel (locals_of job_500)) 0
          (locals_of job_500) job_500 world0 with
  | Returned job _ =>
      done job = true /\ error job = Some (cap_unresolvable_msg 200000)
      /\ segments job = []
  | _ => False
  end.
Proof. vm_compute. repeat split. Qed.


End OutcomeProofs.
